(* ===== verification/_CoqProject ===== *)
-Q . S2P
Prelude.v
StdSet.v
SwimCommon.v
UtilsHost.v
SwimClient.v
SwimServer.v
Membership.v
Refinement.v
Fixtures.v
Report.v
Codec.v
ServerTypes.v
ServerProps.v
ServerClock.v
ServerLoop.v
Neighbors.v
Detector.v
DetectorProps.v
Detection.v
Dissemination.v
Recovery.v
Lifecycle.v
Interleaving.v
Handlers.v
Threads.v
ThreadLogic.v
Cluster.v
Connect.v
UtilsParse.v
UtilsRegex.v
Printing.v
ApiServer.v
GossipExample.v
ServerDemo.v
HttpRequest.v
HttpFixtures.v
HttpText.v
HttpResponse.v
HttpLoop.v
HttpSsl.v
HttpLog.v
Integration.v
