(* ===== verification/Prelude.v ===== *)
(** * Verification of the SWIM gossip failure detector

    The program is a C++ implementation of the SWIM protocol.  A [SwimServer] keeps two
    sets of records of other servers, [alive_] and [suspected_], and a Lamport clock; it
    listens for protocol-buffer envelopes over ZeroMQ and updates the sets from pings,
    reports and forward requests.  A [SwimClient] sends one envelope and waits for the
    answer.  A [GossipFailureDetector] owns a server and four background threads, which
    report to neighbors, escalate unanswered reports, ping suspects and evict expired
    ones.  [utils] holds host, time and string helpers, and [api::rest::ApiServer] routes
    HTTP requests to registered functions.  The program [gossip_example] puts a detector
    and a REST server together, [server_demo] is a bare client or server, and
    [SimpleHttpRequest] is the HTTP client with which the REST server is tested.

    ** Files

    - [Prelude]: the scope, hint databases and tactics of the development, machine
      integers ([u64], [s64]: wrap-around written out), the order of [std::string],
      list lemmas.
    - [StdSet]: [std::set] with a comparator as a strictly increasing list, with the
      class of comparators ([StrictWeakOrder]) and the laws of insert, find, erase,
      extract and in-place modification.
    - [SwimCommon]: [swim.proto]'s messages as records, [SwimCommon.hpp]'s helpers, the
      comparison operators of [GossipFailureDetector.cpp].  Servers compare by
      [hostname:port] ([key]).
    - [UtilsHost]: [CurrentTime], [Hostname], [InetAddress], [SocketAddress] over the
      answers of the operating system (class [OS]), among them the addresses that
      ZeroMQ's [connect] accepts ([zmq_connect]).  A point in time is a number of
      nanoseconds.
    - [SwimClient]: [SwimClient.hpp]/[.cpp].  The generated protocol-buffer code is the
      class [Protobuf], with the round-trip law [ProtobufLaws] where it is needed, for
      messages whose fields hold values of their types ([encodable]: UTF-8 text, integers
      in range); an [Exchange] says what ZeroMQ answers.  A request to an address that
      [connect] refuses has no result: the exception is thrown in a detached thread and
      ends the process.  [Codec] shows that the law can be met.
    - [SwimServer]: [SwimServer.hpp]/[.cpp], one definition per method, with the state
      [SwimServer] passed explicitly.  Callbacks, messages posted by a handler and the
      thread started by a forward request are recorded as effects; an [outcome] may be the
      dereference of a null pointer or the end of the process.
    - [Membership]: the invariant [server_inv] (ordered sets, no server alive and
      suspected, no port 0, no self-suspicion), lookups after each operation, and its
      preservation by each of them.
    - [ServerTypes]: the ranges of the machine types, kept by every event (a check of the
      model: in C++ they hold by construction).
    - [Refinement]: the abstract protocol, a finite map from [hostname:port] to status
      and record together with the clock, and the simulation of every event; the step of a
      forwarding thread depends on the answer to its report.
    - [Report]: [PrepareReport], [AddRecordsToBudget] and [cost] in IEEE 754 double
      arithmetic ([SpecFloat]); [std::sort] is a class with its specification.
    - [ServerProps], [ServerClock]: theorems about the server and its clock.
    - [ServerLoop]: [SwimServer::start], parsing, dispatch, null submessages, the pings of
      a handler that are refused, and replies; a client and a server put together.
    - [Neighbors]: [GetUniqueNeighbors], both branches.
    - [Detector], [DetectorProps]: the detector's methods in a state monad over an
      [Environment] that answers the clock, the network and the random draws, and what
      they guarantee; a method gives a value, fails (with [empty_set], with the exception of
      [connect] on an address, ...) or does not finish, and the three are told apart
      ([completion]); [Detection]: how many rounds it takes to report to everybody and to
      suspect a server that does not answer, with other activity between the rounds
      ([rounds], [quiet]); [Dissemination]: what a server knows after
      another one's report; [Recovery]: how a false suspicion is taken back, over three
      servers.
    - [Lifecycle]: the destructors, starting and stopping the background threads.
    - [Interleaving]: [AddAlive] and [ReportSuspected] as sequences of critical sections,
      and pools of threads that interleave them; [Handlers]: the message handlers and
      evictions as sequences of those and of their own critical sections; [Threads]: the
      detector's methods and the forwarding threads as programs whose steps are calls of
      handlers, reads of a set under its lock, requests and accesses of the round-robin
      index, and the interleaving of all threads of a detector; [ThreadLogic]: a weakest
      precondition for these programs, over a record of conditions on what a thread may
      assume and do, with the class of laws ([Lawful]) under which the methods meet them.
    - [Cluster]: many detectors with their threads and the messages in flight between
      them, and the invariants of every state they can reach; [Connect]: how addresses that
      ZeroMQ refuses enter the sets and end the process, and that a server without them
      keeps running.
    - [UtilsParse], [UtilsRegex]: [trim], [split], [Vec2Str], [validate]; the address
      patterns, a regular-expression matcher proved exact, and the parsers.
    - [Printing]: the stream operators of [SwimCommon.hpp].
    - [ApiServer]: registration, routing and the connections of the REST server, with
      the errors of their socket operations; the registered functions act on a state of
      the program's choice.
    - [GossipExample], [ServerDemo]: the two programs of [src/examples], with the parsed
      command line (or the failure to parse it) as a value and JSON as a class ([Json]).
    - [HttpRequest]: [SimpleHttpRequest.hpp], one definition per method and callback, in
      a state monad whose outcomes include an escaping exception and undefined
      behaviour; the buffers of the reads are a heap, so that the pointer to the last
      header name can dangle.  libuv is the class [UV] with its laws [UVLaws], the HTTP
      parser the class [HttpParser], whose run is a tree of calls.  [HttpFixtures] has a
      loop and a parser that meet them; [HttpText], [HttpResponse] and [HttpLoop] the
      theorems; [HttpSsl] the branch for TLS connections, over a class of BIO answers, and
      [HttpLog] the log macro.
    - [Integration]: the HTTP client, the REST server and the detector put together; what
      boost.beast is assumed to read ([BeastLaws]) are requests of the grammar of RFC 7230,
      with a plain framing of the body and within its documented limits.
    - [Fixtures]: the small cluster on which theorems are evaluated.

    ** What is shown

    - Membership: every reachable server is well formed; every operation implements its
      abstract counterpart; what [AddAlive] and [ReportSuspected] do to every server;
      members are only forgotten by eviction; stale news is ignored and current news is
      accepted; record times stay within the clock.
    - Dissemination: after a report of one server has been handled by another, what the
      receiver knows about every server.
    - Cluster: however the threads interleave and whatever the network does, the sets of
      every server stay ordered, messages in flight are answered, and a thread is only ended
      by an address that [connect] refuses or, a full report, by finding no neighbor;
      servers that answer their requests are never suspected by anyone.
    - Messages: which messages are answered, which dereference a null pointer (in the loop,
      or in the thread they start) and which end the process by a refused address; the
      loop is total on the others and stops; a ping works from end to end; a
      server that is told it is suspected answers.
    - Reports: only members, latest first by Lamport time, as many as the budget allows.
    - Detector: no exception escapes but that of [connect] for a refused address; neighbor selection terminates with the right
      number of distinct neighbors; classification, escalation, recovery, eviction;
      starting and stopping; every alive server is reported to, and a server that answers
      nobody is suspected, within a bounded number of rounds, as long as nobody new becomes
      alive between them (new neighbors can push a server back in the round robin); a server that was suspected
      wrongly is asked through others, answers, and is alive again; a detector keeps running
      as long as the addresses of its members can be connected to.
    - Concurrency: a thread that is not interrupted does what the sequential model of its
      method does; under every interleaving the sets stay ordered; calls about different
      servers keep the whole invariant, and calls about the same server may not.
    - Utilities and REST: exact specifications and round trips of the string and
      address functions; routing, and the requests that stop the server.
    - Programs: what the REST functions answer and do to the detector, which seeds are
      pinged, when the background threads run, when the process dies of a refused address
      or of a port that cannot be bound; the demo client terminates.
    - HTTP client: a response that arrives in pieces is delivered exactly; a response and
      a timeout exclude each other; the text of a request reads back; URLs; every failure
      to start is reported; over TLS, too, the response is delivered and the connection
      freed; a server posted through the client to the REST server is pinged and known.

    Some theorems state defects of the code as they are: a null pointer handed to the
    suspicion callback, messages that crash the server, a clock that wraps, suspects that
    are never evicted, a server that does not recognise its own name, a race that leaves
    a server in both sets, another that ends the process in the middle of a full report, a
    report with a bad address that ends the process of its receiver, a time-out that is not
    reported, REST requests that end the process, an HTTP header read from freed memory or
    stored under another name, a timer left running by the error paths of the HTTP client,
    which over TLS then touches a handle that was never initialised.

    ** Bounds

    The round-robin loop is given [2 * n + 1] turns for [n] wanted neighbors, and
    [round_robin_enough] proves that they suffice; [N * N + N] rounds of full reports, for
    [N] alive servers, are enough to reach each of them ([rounds_reach_within]), because each
    round that misses a server either brings the round-robin index closer to it or removes
    another one; in [Threads], where other threads may
    change the set meanwhile, any number [extra] of turns is added, and the theorems hold
    for each of them; [split] is given two turns more than the string has characters,
    proved enough in [split_loop_total] and [split_loop_empty_sep]; an operation of [Interleaving] has at most five actions; the
    demo client is given one turn more than the turn at which its timer strikes
    ([demo_client]); the reference reader of requests has the length of the text as the
    bound on the number of headers.
    The loops over the network (the listening loop, the background threads) run over a
    list of turns or rounds of any length.

    ** Not modelled

    ZeroMQ, protocol buffers, boost, libuv, the HTTP parser and the operating system are
    parameters.  Logging, sleeping, memory ownership (but for the buffers of the HTTP
    client), the syntax of the command line (it is handed to boost) and signal delivery are
    left out; the log lines of the programs are not recorded.  Sets above [2^31] elements,
    where [int] counters would overflow, are not considered.  In [Cluster] the contents of
    a message are those its sender stamped: the network may lose, repeat and reorder
    messages but does not forge them; a message whose fields do not hold values of their
    types arrives nowhere.  In [Threads] and [Cluster] the ping that a handler of a message
    sends to refute a suspicion is recorded and taken to be accepted; [ServerLoop] and
    [Connect] have the case in which it is not.  A failure of one thread there ends that
    thread, and the others may still take steps, although the process is about to end:
    the theorems hold in more states than the program has.  The distribution of the random draws is not modelled: the
    theorems hold for every draw.  Getters are the fields of the records; the unit tests and
    the build files are left out. *)

From Stdlib Require Import ZArith Lia Ascii String.
From stdpp Require Import base list strings sorting.

Declare Scope gossip_scope.
Delimit Scope gossip_scope with gossip.
Create HintDb gossip.
Create Rewrite HintDb gossip.

(** ** Machine integers

    [uint64_t] and [long] values are integers; every arithmetic result of the
    source that can leave the 64-bit range is wrapped explicitly. *)

Definition two64 : Z := 18446744073709551616.
Definition two63 : Z := 9223372036854775808.

(** Conversion to [uint64_t]. *)
Definition u64 (z : Z) : Z := (z mod two64)%Z.

(** Conversion of a [uint64_t] value to [int64_t] ([long]). *)
Definition s64 (z : Z) : Z :=
  (if Z.ltb (z mod two64) two63 then z mod two64 else z mod two64 - two64)%Z.

(** Conversion to [int32_t] ([int]). *)
Definition s32 (z : Z) : Z :=
  (if Z.ltb (z mod 4294967296) 2147483648
   then z mod 4294967296 else z mod 4294967296 - 4294967296)%Z.

Definition is_u64 (z : Z) : Prop := (0 <= z < two64)%Z.

Lemma u64_range z : is_u64 (u64 z).
Proof. unfold is_u64, u64, two64. apply Z.mod_pos_bound. lia. Qed.

Lemma u64_small z : is_u64 z → u64 z = z.
Proof. intros H. apply Z.mod_small, H. Qed.

Lemma u64_u64 z : u64 (u64 z) = u64 z.
Proof. apply u64_small, u64_range. Qed.

Lemma s64_small z : (0 <= z < two63)%Z → s64 z = z.
Proof.
  intros H. unfold s64, two63, two64 in *.
  rewrite Z.mod_small by lia. destruct (Z.ltb_spec z 9223372036854775808); lia.
Qed.

Lemma s64_neg z : (- two63 <= z < 0)%Z → s64 (u64 z) = z.
Proof.
  intros H. unfold s64, u64, two63, two64 in *.
  rewrite Z.mod_mod by lia.
  replace (z mod 18446744073709551616)%Z with (z + 18446744073709551616)%Z.
  - destruct (Z.ltb_spec (z + 18446744073709551616) 9223372036854775808); lia.
  - apply (Z.mod_unique_pos _ _ (-1)); lia.
Qed.

Lemma s64_u64 z : (- two63 <= z < two63)%Z → s64 (u64 z) = z.
Proof.
  intros H. destruct (Z.lt_ge_cases z 0); [apply s64_neg; lia|].
  rewrite u64_small by (unfold is_u64, two63, two64 in *; lia). apply s64_small. lia.
Qed.

Lemma u64_s64 z : u64 (s64 z) = u64 z.
Proof.
  unfold s64, u64, two64, two63.
  destruct (Z.ltb_spec (z mod 18446744073709551616) 9223372036854775808).
  - by rewrite Z.mod_mod.
  - rewrite Zminus_mod, Z_mod_same_full, Z.sub_0_r. by rewrite !Z.mod_mod.
Qed.

#[export] Hint Resolve u64_range : gossip.

(** ** Order of [std::string]

    [operator<] on [std::string] compares the characters as unsigned bytes,
    lexicographically: this is [String.compare] of the Standard Library. *)

Definition string_less (s t : string) : bool := String.ltb s t.

Lemma ascii_compare_trans a b c :
  Ascii.compare a b = Lt → Ascii.compare b c = Lt → Ascii.compare a c = Lt.
Proof. unfold Ascii.compare. rewrite !N.compare_lt_iff. lia. Qed.

Lemma ascii_compare_refl a : Ascii.compare a a = Eq.
Proof. unfold Ascii.compare. apply N.compare_refl. Qed.

Lemma string_compare_trans s t u :
  String.compare s t = Lt → String.compare t u = Lt → String.compare s u = Lt.
Proof.
  revert t u. induction s as [|a s IH]; intros [|b t] [|c u]; simpl; try done.
  destruct (Ascii.compare a b) eqn:Hab, (Ascii.compare b c) eqn:Hbc; try done.
  - apply Ascii.compare_eq_iff in Hab, Hbc. subst. rewrite ascii_compare_refl. eauto.
  - apply Ascii.compare_eq_iff in Hab. subst. by rewrite Hbc.
  - apply Ascii.compare_eq_iff in Hbc. subst. by rewrite Hab.
  - by rewrite (ascii_compare_trans _ _ _ Hab Hbc).
Qed.

Lemma string_compare_refl s : String.compare s s = Eq.
Proof. induction s as [|a s IH]; simpl; [done|]. by rewrite ascii_compare_refl. Qed.

Lemma string_less_lt s t : string_less s t = true ↔ String.compare s t = Lt.
Proof. unfold string_less, String.ltb. by destruct (String.compare s t). Qed.

Lemma string_less_irrefl s : string_less s s = false.
Proof. unfold string_less, String.ltb. by rewrite string_compare_refl. Qed.

Lemma string_less_trans s t u :
  string_less s t = true → string_less t u = true → string_less s u = true.
Proof. rewrite !string_less_lt. apply string_compare_trans. Qed.

Lemma string_less_total s t :
  string_less s t = false → string_less t s = false → s = t.
Proof.
  unfold string_less, String.ltb. rewrite (String.compare_antisym s t).
  destruct (String.compare t s) eqn:E; simpl; try done.
  intros _ _. symmetry. by apply String.compare_eq_iff.
Qed.

Lemma string_less_cotrans s t u :
  string_less s t = true → string_less s u = true ∨ string_less u t = true.
Proof.
  intros Hst. destruct (string_less s u) eqn:Hsu; [by left|right].
  destruct (string_less u s) eqn:Hus; [by eapply string_less_trans|].
  by rewrite <- (string_less_total _ _ Hsu Hus).
Qed.

#[export] Hint Resolve string_less_irrefl string_less_trans : gossip.
#[export] Hint Rewrite string_less_irrefl : gossip.

(** ** Lists *)

Lemma prefix_submseteq {A} (l k : list A) : l `prefix_of` k → l ⊆+ k.
Proof. intros [m ->]. apply submseteq_inserts_r. done. Qed.

Lemma submseteq_fmap_NoDup {A B} (f : A → B) (l k : list A) :
  l ⊆+ k → NoDup (f <$> k) → NoDup (f <$> l).
Proof.
  intros [m ->]%submseteq_Permutation. rewrite fmap_app. apply NoDup_app.
Qed.

(** ** Tactics *)

(** Case analysis on every boolean test of an [if] in the goal or context. *)
Ltac case_if :=
  match goal with
  | |- context [if ?b then _ else _] =>
      let E := fresh "E" in destruct b eqn:E
  | H : context [if ?b then _ else _] |- _ =>
      let E := fresh "E" in destruct b eqn:E
  end.

(** Turns boolean comparisons into arithmetic facts and calls [lia]. *)
Ltac zbool :=
  repeat match goal with
  | H : Z.ltb _ _ = true |- _ => apply Z.ltb_lt in H
  | H : Z.ltb _ _ = false |- _ => apply Z.ltb_ge in H
  | H : Z.eqb _ _ = true |- _ => apply Z.eqb_eq in H
  | H : Z.eqb _ _ = false |- _ => apply Z.eqb_neq in H
  | H : Z.leb _ _ = true |- _ => apply Z.leb_le in H
  | H : Z.leb _ _ = false |- _ => apply Z.leb_gt in H
  | H : negb _ = true |- _ => apply negb_true_iff in H
  | H : negb _ = false |- _ => apply negb_false_iff in H
  | H : (_ && _)%bool = true |- _ => apply andb_true_iff in H as [? ?]
  | H : (_ || _)%bool = false |- _ => apply orb_false_iff in H as [? ?]
  end.
