(* ===== verification/StdSet.v ===== *)
(** * [std::set] as the source uses it

    [std::set<T, Less>] is an ordered associative container: its elements,
    visited from [begin()], are strictly increasing for the comparator, and two
    elements are the same key when neither is less than the other.  The source
    keeps two such sets of [std::shared_ptr<ServerRecord>] ([ServerRecordsSet]),
    builds a [std::set<Server>] and routes HTTP requests through a
    [std::map<std::string, ...>].

    The container is the list of its elements in iteration order.  [Less] is the
    comparator and [StrictWeakOrder] the requirement the Standard puts on it
    ([Compare], [alg.sorting]); everything below is proved from that interface. *)

From Stdlib Require Import Lia.
From stdpp Require Import base list sorting.
From S2P Require Import Prelude.

Class Less (A : Type) := less : A → A → bool.

Class StrictWeakOrder (A : Type) `{Less A} := {
  less_irrefl (x : A) : less x x = false;
  less_trans (x y z : A) : less x y = true → less y z = true → less x z = true;
  less_cotrans (x y z : A) : less x y = true → less x z = true ∨ less z y = true
}.

(** Two elements the container cannot tell apart. *)
Definition equivb {A} `{Less A} (x y : A) : bool :=
  negb (less x y) && negb (less y x).

(** ** Operations *)

Section Operations.
Context {A : Type} `{Less A}.

(** [s.insert(x)]: the set and whether the insertion took place. *)
Fixpoint insert (x : A) (s : list A) : list A * bool :=
  match s with
  | [] => ([x], true)
  | y :: s' =>
      if less x y then (x :: y :: s', true)
      else if less y x then let r := insert x s' in (y :: r.1, r.2)
      else (y :: s', false)
  end.

(** [s.find(x)]: [None] is [s.end()]. *)
Fixpoint find (x : A) (s : list A) : option A :=
  match s with
  | [] => None
  | y :: s' => if equivb x y then Some y else find x s'
  end.

(** [s.erase(x)]: the set and the number of elements erased. *)
Fixpoint erase (x : A) (s : list A) : list A * nat :=
  match s with
  | [] => ([], 0)
  | y :: s' =>
      if equivb x y then (s', 1)
      else let r := erase x s' in (y :: r.1, r.2)
  end.

(** [s.extract(x)]: the node handle (empty when there is no such element) and
    the set without it. *)
Definition extract (x : A) (s : list A) : option A * list A :=
  (find x s, (erase x s).1).

(** Writing through the shared pointer that [s.find(x)] yields: the element is
    changed where it is. *)
Fixpoint modify (f : A → A) (x : A) (s : list A) : list A :=
  match s with
  | [] => []
  | y :: s' => if equivb x y then f y :: s' else y :: modify f x s'
  end.

(** [s.size()] and [*std::next(s.begin(), n)]. *)
Definition size (s : list A) : nat := length s.
Definition at_index (n : nat) (s : list A) : option A := s !! n.

(** The representation invariant: iteration order is strictly increasing. *)
Definition ordered (s : list A) : Prop :=
  StronglySorted (λ x y, less x y = true) s.
End Operations.

(** ** The order *)

Section Order.
Context {A : Type} `{StrictWeakOrder A}.
Implicit Types x y z : A.

Lemma less_asym x y : less x y = true → less y x = false.
Proof.
  intros Hxy. destruct (less y x) eqn:Hyx; [|done].
  rewrite <- (less_irrefl x). symmetry. by eapply less_trans.
Qed.

Lemma equivb_true x y : equivb x y = true ↔ less x y = false ∧ less y x = false.
Proof. unfold equivb. by rewrite andb_true_iff, !negb_true_iff. Qed.

Lemma equivb_refl x : equivb x x = true.
Proof. apply equivb_true. by rewrite less_irrefl. Qed.

Lemma equivb_sym x y : equivb x y = equivb y x.
Proof. unfold equivb. apply andb_comm. Qed.

Lemma less_equiv_l x y z : equivb x y = true → less x z = less y z.
Proof.
  intros [Hxy Hyx]%equivb_true.
  destruct (less x z) eqn:Hxz.
  - destruct (less_cotrans _ _ y Hxz); congruence.
  - destruct (less y z) eqn:Hyz; [|done].
    destruct (less_cotrans _ _ x Hyz); congruence.
Qed.

Lemma less_equiv_r x y z : equivb x y = true → less z x = less z y.
Proof.
  intros [Hxy Hyx]%equivb_true.
  destruct (less z x) eqn:Hzx.
  - destruct (less_cotrans _ _ y Hzx); congruence.
  - destruct (less z y) eqn:Hzy; [|done].
    destruct (less_cotrans _ _ x Hzy); congruence.
Qed.

Lemma equivb_equiv_l x y z : equivb x y = true → equivb x z = equivb y z.
Proof. intros E. unfold equivb. by rewrite (less_equiv_l _ _ _ E), (less_equiv_r _ _ _ E). Qed.

Lemma equivb_trans x y z : equivb x y = true → equivb y z = true → equivb x z = true.
Proof. intros E ?. by rewrite (equivb_equiv_l _ _ _ E). Qed.

#[global] Instance equivb_equivalence : Equivalence (λ x y, equivb x y = true).
Proof.
  split.
  - intros x. apply equivb_refl.
  - intros x y. by rewrite equivb_sym.
  - intros x y z. apply equivb_trans.
Qed.

Lemma less_not_equiv x y : less x y = true → equivb x y = false.
Proof. intros Hl. unfold equivb. by rewrite Hl. Qed.
End Order.


(** ** Lookup *)

Section Lookup.
Context {A : Type} `{StrictWeakOrder A}.
Implicit Types (x y z : A) (s : list A).

Lemma ordered_cons y s :
  ordered (y :: s) ↔ (∀ z, z ∈ s → less y z = true) ∧ ordered s.
Proof.
  unfold ordered. rewrite StronglySorted_cons, list.Forall_forall. naive_solver.
Qed.

Lemma find_Some x y s : find x s = Some y → y ∈ s ∧ equivb x y = true.
Proof.
  induction s as [|z s IH]; simpl; [done|].
  destruct (equivb x z) eqn:E; intros Hf; simplify_eq.
  - split; [left | done].
  - destruct (IH Hf). split; [by right | done].
Qed.

Lemma find_None x s : find x s = None ↔ ∀ y, y ∈ s → equivb x y = false.
Proof.
  induction s as [|z s IH]; simpl.
  - split; [intros _ y Hy; inversion Hy | done].
  - setoid_rewrite elem_of_cons. destruct (equivb x z) eqn:E.
    + split; [done|]. intros Hn. specialize (Hn z (or_introl eq_refl)). congruence.
    + rewrite IH. naive_solver.
Qed.

Lemma find_equiv x y s : equivb x y = true → find x s = find y s.
Proof.
  intros E. induction s as [|z s IH]; simpl; [done|].
  by rewrite (equivb_equiv_l _ _ _ E), IH.
Qed.

#[global] Instance find_proper s :
  Proper ((λ x y, equivb x y = true) ==> (=)) (λ x, find x s).
Proof. intros x y E. by apply find_equiv. Qed.

Lemma find_elem x y s :
  ordered s → y ∈ s → equivb x y = true → find x s = Some y.
Proof.
  induction s as [|z s IH]; simpl; [intros _ Hy; inversion Hy|].
  rewrite ordered_cons, elem_of_cons. intros [Hlt Ho] [->|Hy] E.
  - by rewrite E.
  - destruct (equivb x z) eqn:Exz; [|by apply IH].
    apply Hlt, less_not_equiv in Hy.
    rewrite <- (equivb_equiv_l _ _ _ Exz), E in Hy. done.
Qed.

Lemma find_self x s : ordered s → x ∈ s → find x s = Some x.
Proof. intros Ho Hx. apply find_elem; auto using equivb_refl. Qed.

(** Elements below the head are not in the set. *)
Lemma find_lt_head x y s : ordered (y :: s) → less x y = true → find x (y :: s) = None.
Proof.
  rewrite ordered_cons. intros [Hlt _] Hxy. apply find_None. intros z.
  rewrite elem_of_cons. intros [->|Hz]; apply less_not_equiv; [done|].
  eapply less_trans; eauto.
Qed.

Lemma ordered_NoDup s : ordered s → NoDup s.
Proof.
  induction s as [|x s IH]; [constructor|]. intros [Hlt Ho]%ordered_cons.
  constructor; [|auto]. intros Hx. specialize (Hlt x Hx). by rewrite less_irrefl in Hlt.
Qed.

(** A set is determined by its lookups. *)
Lemma ordered_ext s1 s2 :
  ordered s1 → ordered s2 → (∀ x, find x s1 = find x s2) → s1 = s2.
Proof.
  revert s2. induction s1 as [|x s1 IH]; intros [|y s2] Ho1 Ho2 Hf; [done|..].
  - specialize (Hf y). simpl in Hf. by rewrite equivb_refl in Hf.
  - specialize (Hf x). simpl in Hf. by rewrite equivb_refl in Hf.
  - destruct (less x y) eqn:Lxy.
    { specialize (Hf x). rewrite (find_lt_head x y s2 Ho2 Lxy) in Hf.
      simpl in Hf. by rewrite equivb_refl in Hf. }
    destruct (less y x) eqn:Lyx.
    { specialize (Hf y). rewrite (find_lt_head y x s1 Ho1 Lyx) in Hf.
      simpl in Hf. by rewrite equivb_refl in Hf. }
    assert (equivb x y = true) as Exy by (by apply equivb_true).
    assert (x = y) as <-.
    { pose proof (Hf x) as Hx. simpl in Hx. rewrite equivb_refl, Exy in Hx. congruence. }
    apply ordered_cons in Ho1 as [Hlt1 Ho1'], Ho2 as [Hlt2 Ho2'].
    f_equal. apply IH; [done..|]. intros z. specialize (Hf z). simpl in Hf.
    destruct (equivb z x) eqn:Ezx; [|done]. clear Hf.
    trans (@None A); [|symmetry]; apply find_None; intros w Hw;
      rewrite (equivb_equiv_l _ _ _ Ezx); apply less_not_equiv; auto.
Qed.
End Lookup.

(** ** Insertion, erasure, modification *)

Section Updates.
Context {A : Type} `{StrictWeakOrder A}.
Implicit Types (x y z : A) (s : list A).

Lemma elem_of_insert x y s : y ∈ (insert x s).1 → y = x ∨ y ∈ s.
Proof.
  induction s as [|z s IH]; simpl; [by rewrite list_elem_of_singleton; left|].
  destruct (less x z); simpl; [by rewrite !elem_of_cons; naive_solver|].
  destruct (less z x); simpl; [|by right].
  rewrite !elem_of_cons. naive_solver.
Qed.

Lemma ordered_insert x s : ordered s → ordered (insert x s).1.
Proof.
  induction s as [|y s IH]; simpl; [repeat constructor|].
  intros Ho. destruct (less x y) eqn:Lxy; simpl.
  - apply ordered_cons. split; [|done]. intros z Hz.
    apply ordered_cons in Ho as [Hlt _]. apply elem_of_cons in Hz as [->|Hz]; [done|].
    eapply less_trans; eauto.
  - destruct (less y x) eqn:Lyx; simpl; [|done].
    apply ordered_cons in Ho as [Hlt Ho]. apply ordered_cons. split; [|by apply IH].
    intros z [->|Hz]%elem_of_insert; auto.
Qed.

Lemma insert_result x s :
  ordered s → (insert x s).2 = match find x s with None => true | Some _ => false end.
Proof.
  induction s as [|y s IH]; simpl; [done|]. intros Ho.
  destruct (less x y) eqn:Lxy.
  - change (if equivb x y then Some y else find x s) with (find x (y :: s)).
    by rewrite find_lt_head.
  - unfold equivb. rewrite Lxy. apply ordered_cons in Ho as [_ Ho].
    destruct (less y x); simpl; auto.
Qed.

Lemma insert_present x y s : ordered s → find x s = Some y → (insert x s).1 = s.
Proof.
  induction s as [|z s IH]; simpl; [done|]. intros Ho.
  destruct (less x z) eqn:Lxz.
  - change (if equivb x z then Some z else find x s) with (find x (z :: s)).
    by rewrite find_lt_head.
  - unfold equivb. rewrite Lxz. apply ordered_cons in Ho as [_ Ho].
    destruct (less z x); simpl; [|done]. intros Hf. by rewrite IH.
Qed.

Lemma find_insert_raw x y s :
  ordered s → find y s = None →
  find x (insert y s).1 = if equivb x y then Some y else find x s.
Proof.
  induction s as [|z s IH]; simpl; [done|]. intros Ho.
  destruct (equivb y z) eqn:Eyz; [done|]. intros Hn.
  apply ordered_cons in Ho as [_ Ho].
  destruct (less y z) eqn:Lyz; simpl; [done|].
  destruct (less z y) eqn:Lzy; simpl.
  - destruct (equivb x z) eqn:Exz, (equivb x y) eqn:Exy;
      rewrite ?IH by done; rewrite ?Exy; try done.
    rewrite equivb_sym in Exy.
    by rewrite (equivb_trans _ _ _ Exy Exz) in Eyz.
  - unfold equivb in Eyz. by rewrite Lyz, Lzy in Eyz.
Qed.

(** [insert] never replaces an equivalent element. *)
Lemma find_insert x y s :
  ordered s →
  find x (insert y s).1 =
    if equivb x y then Some (default y (find y s)) else find x s.
Proof.
  intros Ho. destruct (find y s) as [z|] eqn:Hf; simpl.
  - rewrite (insert_present _ _ _ Ho Hf).
    destruct (equivb x y) eqn:E; [|done]. by rewrite (find_equiv _ _ _ E).
  - by apply find_insert_raw.
Qed.

Lemma elem_of_insert_old x y s : ordered s → y ∈ s → y ∈ (insert x s).1.
Proof.
  intros Ho Hy. assert (find y (insert x s).1 = Some y) as Hf; [|by apply find_Some in Hf as [? _]].
  rewrite find_insert by done. destruct (equivb y x) eqn:E; [|by apply find_self].
  rewrite <- (find_equiv _ _ _ E), find_self by done. done.
Qed.

Lemma elem_of_insert_new x s : ordered s → find x s = None → x ∈ (insert x s).1.
Proof.
  intros Ho Hn. assert (find x (insert x s).1 = Some x) as Hf; [|by apply find_Some in Hf as [? _]].
  by rewrite find_insert, equivb_refl, Hn.
Qed.

Lemma elem_of_erase x y s : y ∈ (erase x s).1 → y ∈ s.
Proof.
  induction s as [|z s IH]; simpl; [done|].
  destruct (equivb x z); simpl; rewrite !elem_of_cons; naive_solver.
Qed.

Lemma ordered_erase x s : ordered s → ordered (erase x s).1.
Proof.
  induction s as [|y s IH]; simpl; [done|]. rewrite ordered_cons. intros [Hlt Ho].
  destruct (equivb x y); simpl; [done|]. apply ordered_cons.
  split; [|by apply IH]. intros z Hz%elem_of_erase. auto.
Qed.

Lemma find_erase x y s :
  ordered s → find x (erase y s).1 = if equivb x y then None else find x s.
Proof.
  induction s as [|z s IH]; simpl; [by case_if|].
  rewrite ordered_cons. intros [Hlt Ho].
  destruct (equivb y z) eqn:Eyz; simpl.
  - destruct (equivb x y) eqn:Exy.
    + apply find_None. intros w Hw.
      rewrite (equivb_equiv_l _ _ _ (equivb_trans _ _ _ Exy Eyz)).
      apply less_not_equiv; auto.
    + destruct (equivb x z) eqn:Exz; [|done].
      rewrite equivb_sym in Eyz. by rewrite (equivb_trans _ _ _ Exz Eyz) in Exy.
  - rewrite IH by done. destruct (equivb x z) eqn:Exz, (equivb x y) eqn:Exy; try done.
    rewrite equivb_sym in Exy. by rewrite (equivb_trans _ _ _ Exy Exz) in Eyz.
Qed.

Lemma erase_equiv x y s : equivb x y = true → erase x s = erase y s.
Proof.
  intros E. induction s as [|z s IH]; simpl; [done|].
  by rewrite (equivb_equiv_l x y), IH.
Qed.

Lemma erase_count x s : (erase x s).2 = match find x s with Some _ => 1 | None => 0 end.
Proof. induction s as [|y s IH]; simpl; [done|]. by destruct (equivb x y). Qed.

Lemma erase_absent x s : find x s = None → (erase x s).1 = s.
Proof.
  induction s as [|y s IH]; simpl; [done|].
  destruct (equivb x y); simpl; [done|]. intros Hf. by rewrite IH.
Qed.

Lemma size_insert x s :
  ordered s →
  size (insert x s).1 = match find x s with None => S (size s) | Some _ => size s end.
Proof.
  intros Ho. destruct (find x s) eqn:Hf; [by erewrite insert_present|].
  revert Ho Hf. unfold size. induction s as [|y s IH]; simpl; [done|].
  destruct (equivb x y) eqn:E; [done|]. intros [_ Ho]%ordered_cons Hf.
  destruct (less x y) eqn:Lxy; simpl; [done|].
  destruct (less y x) eqn:Lyx; simpl; [by rewrite IH|].
  unfold equivb in E. by rewrite Lxy, Lyx in E.
Qed.

Lemma size_erase x s :
  size (erase x s).1 = match find x s with Some _ => pred (size s) | None => size s end.
Proof.
  unfold size. induction s as [|y s IH]; simpl; [done|].
  destruct (equivb x y); simpl; [done|]. rewrite IH.
  destruct (find x s) eqn:Hf; [|done]. apply find_Some in Hf as [Hin _].
  destruct s; [inversion Hin | done].
Qed.

(** A write through the pointer keeps the key. *)
Section Modify.
Context (f : A → A) (Hf : ∀ y, equivb (f y) y = true).

Lemma elem_of_modify x y s : y ∈ modify f x s → ∃ z, z ∈ s ∧ equivb y z = true.
Proof.
  induction s as [|z s IH]; simpl; [intros Hn; inversion Hn|].
  destruct (equivb x z); rewrite elem_of_cons; intros [->|Hy].
  - exists z. split; [left | done].
  - exists y. split; [by right | apply equivb_refl].
  - exists z. split; [left | apply equivb_refl].
  - destruct (IH Hy) as (w & ? & ?). exists w. split; [by right | done].
Qed.

Lemma ordered_modify x s : ordered s → ordered (modify f x s).
Proof.
  induction s as [|y s IH]; simpl; [done|]. rewrite ordered_cons. intros [Hlt Ho].
  destruct (equivb x y); apply ordered_cons; split; auto.
  - intros z Hz. rewrite (less_equiv_l _ _ _ (Hf y)). auto.
  - intros z (w & Hw & E)%elem_of_modify. rewrite (less_equiv_r _ _ _ E). auto.
Qed.

Lemma find_modify x y s :
  find x (modify f y s) = if equivb x y then f <$> find y s else find x s.
Proof.
  induction s as [|z s IH]; simpl; [by case_if|].
  destruct (equivb y z) eqn:Eyz; simpl.
  - rewrite (equivb_sym x (f z)), (equivb_equiv_l _ _ _ (Hf z)), equivb_sym.
    rewrite (equivb_sym x z), <- (equivb_equiv_l _ _ _ Eyz), (equivb_sym y x).
    by destruct (equivb x y).
  - destruct (equivb x z) eqn:Exz; [|by rewrite IH].
    destruct (equivb x y) eqn:Exy; [|done].
    rewrite equivb_sym in Exy. by rewrite (equivb_trans _ _ _ Exy Exz) in Eyz.
Qed.

Lemma size_modify x s : size (modify f x s) = size s.
Proof. unfold size. induction s as [|y s IH]; simpl; [done|]. case_if; simpl; auto. Qed.

(** Taking the node out, changing it and putting it back is the same as
    changing it in place. *)
Lemma extract_insert x y s :
  ordered s → find x s = Some y →
  (insert (f y) (extract x s).2).1 = modify f x s.
Proof.
  intros Ho Hx. apply ordered_ext;
    [apply ordered_insert, ordered_erase, Ho | by apply ordered_modify |].
  assert (equivb (f y) x = true) as Ey.
  { destruct (find_Some _ _ _ Hx) as [_ Exy]. rewrite equivb_sym in Exy.
    apply (equivb_trans _ _ _ (Hf y) Exy). }
  intros z. simpl. rewrite find_insert, find_modify by by apply ordered_erase.
  rewrite !find_erase by done. rewrite Ey, Hx. simpl.
  rewrite (equivb_sym z (f y)), (equivb_equiv_l _ _ _ Ey), (equivb_sym x z).
  by destruct (equivb z x).
Qed.
End Modify.
End Updates.

(** Discharges representation invariants and key-preservation side conditions. *)
Ltac solve_ordered :=
  repeat first
    [ assumption
    | apply ordered_insert
    | apply ordered_erase
    | apply ordered_modify
    | apply equivb_refl
    | progress intros
    | solve [auto with gossip] ].
