(* ===== verification/SwimCommon.v ===== *)
(** * Messages, records and their order ([swim.proto], [SwimCommon.hpp])

    The protocol-buffer messages are records with the fields of
    [proto/swim.proto].  An [optional] scalar is an [option]; a singular message
    field that the code only reads through its getter (which yields the default
    instance when the field is absent) is a plain field; the message fields of
    [SwimEnvelope], which the server takes with [release_...()] and which are
    null pointers when absent, are [option]s. *)

From Stdlib Require Import ZArith Lia String.
From stdpp Require Import base list strings pretty sorting gmap.
From S2P Require Import Prelude StdSet.

(** ** Data *)

Record Server := mkServer {
  hostname : string;
  port : Z;
  ip_addr_ : option string;
  incarnation : Z
}.

(** Getters of an [optional string]: the value or the empty string, and presence. *)
Definition ip_addr (s : Server) : string := default "" (ip_addr_ s).
Definition has_ip_addr (s : Server) : bool :=
  match ip_addr_ s with Some _ => true | None => false end.

Record ServerRecord := mkServerRecord {
  server : Server;
  timestamp : Z;
  lamport_time : Z;
  forwarder : option Server
}.

Record SwimReport := mkSwimReport {
  report_sender : Server;
  alive : list ServerRecord;
  suspected : list ServerRecord
}.

Inductive SwimEnvelope_Type :=
  | STATUS_UNKNOWN
  | STATUS_UPDATE
  | STATUS_REPORT
  | STATUS_REQUEST
  | STATUS_BROADCAST
  | STATUS_unrecognized (n : Z).

Record SwimEnvelope := mkSwimEnvelope {
  type : SwimEnvelope_Type;
  sender : option Server;
  env_lamport_time : Z;
  report : option SwimReport;
  destination_server : option Server
}.

#[export] Instance Server_eq_dec : EqDecision Server.
Proof. solve_decision. Defined.
#[export] Instance ServerRecord_eq_dec : EqDecision ServerRecord.
Proof. solve_decision. Defined.
#[export] Instance SwimReport_eq_dec : EqDecision SwimReport.
Proof. solve_decision. Defined.

(** Default instances. *)
Definition Server_default : Server := mkServer "" 0 None 0.
Definition ServerRecord_default : ServerRecord := mkServerRecord Server_default 0 0 None.
Definition SwimReport_default : SwimReport := mkSwimReport Server_default [] [].
Definition SwimEnvelope_default : SwimEnvelope :=
  mkSwimEnvelope STATUS_UNKNOWN None 0 None None.

(** Setters; a caller that passes a value of another integer type converts it. *)
Definition set_hostname (h : string) (s : Server) : Server :=
  mkServer h (port s) (ip_addr_ s) (incarnation s).
Definition set_port (p : Z) (s : Server) : Server :=
  mkServer (hostname s) p (ip_addr_ s) (incarnation s).
Definition set_ip_addr (ip : string) (s : Server) : Server :=
  mkServer (hostname s) (port s) (Some ip) (incarnation s).
Definition set_incarnation (i : Z) (s : Server) : Server :=
  mkServer (hostname s) (port s) (ip_addr_ s) i.

Definition set_timestamp (t : Z) (r : ServerRecord) : ServerRecord :=
  mkServerRecord (server r) t (lamport_time r) (forwarder r).
Definition set_lamport_time (t : Z) (r : ServerRecord) : ServerRecord :=
  mkServerRecord (server r) (timestamp r) t (forwarder r).
Definition mutable_server (f : Server → Server) (r : ServerRecord) : ServerRecord :=
  mkServerRecord (f (server r)) (timestamp r) (lamport_time r) (forwarder r).

Inductive ServerStatus := uknouwn | status_alive | status_suspect | status_removed.

(** ** Constants *)

Definition kDefaultPort : Z := 30395.
Definition kDefaultGracePeriodMsec : Z := 35000.
Definition kDefaultPingIntervalMsec : Z := 5000.
Definition kDefaultTimeoutMsec : Z := 25.
Definition kDefaultPollingIntervalMsec : Z := 50.
Definition kDefaultSocketLingerMsec : Z := 0.

(** ** Time

    [system_clock::time_point] counts nanoseconds since the epoch. *)

Abbreviation Timestamp := Z (only parsing).

(** [system_clock::to_time_t]: whole seconds, as the unsigned protobuf type. *)
Definition TimestampToFixed64 (timestamp : Timestamp) : Z :=
  u64 (Z.quot timestamp 1000000000).

(** ** Constructors *)

Definition MakeServer (hostname : string) (port : Z) (ip : string) : Server :=
  let server := set_port port (set_hostname hostname Server_default) in
  if (0 <? String.length ip)%nat then set_ip_addr ip server else server.

Definition MakeRecord (s : Server) (timestamp : Timestamp) : ServerRecord :=
  let psvr := set_hostname (hostname s) Server_default in
  let psvr := set_port (port s) psvr in
  let psvr := set_ip_addr (ip_addr s) psvr in
  let record := mutable_server (λ _, psvr) ServerRecord_default in
  set_timestamp (TimestampToFixed64 timestamp) record.

(** ** Order and equality *)

(** [operator<(const Server &, const Server &)] *)
Definition Server_less (lhs rhs : Server) : bool :=
  if String.eqb (hostname lhs) (hostname rhs)
  then Z.ltb (port lhs) (port rhs)
  else string_less (hostname lhs) (hostname rhs).

(** [operator==(const Server &, const Server &)] *)
Definition Server_eqb (lhs rhs : Server) : bool :=
  negb (Server_less lhs rhs) && negb (Server_less rhs lhs).

(** [operator<(const ServerRecord &, const ServerRecord &)] and
    [ServerRecordPtrLess::operator()] *)
Definition ServerRecord_less (lhs rhs : ServerRecord) : bool :=
  Server_less (server lhs) (server rhs).

#[export] Instance Server_Less : Less Server := Server_less.
#[export] Instance ServerRecord_Less : Less ServerRecord := ServerRecord_less.

(** ** Printing *)

Definition show_Server (s : Server) : string :=
  "'" +:+ hostname s +:+ ":" +:+ pretty (port s) +:+ "'" +:+
  (if has_ip_addr s && (0 <? String.length (ip_addr s))%nat
   then " [" +:+ ip_addr s +:+ "]" else "").

(** ** The order is a strict weak order with classes [hostname:port] *)

Definition key (s : Server) : string * Z := (hostname s, port s).

Lemma Server_less_spec s t :
  Server_less s t = true ↔
    string_less (hostname s) (hostname t) = true ∨
    hostname s = hostname t ∧ (port s < port t)%Z.
Proof.
  unfold Server_less. destruct (String.eqb_spec (hostname s) (hostname t)) as [E|E].
  - rewrite E, string_less_irrefl, Z.ltb_lt. naive_solver.
  - naive_solver.
Qed.

#[export] Instance Server_StrictWeakOrder : StrictWeakOrder Server.
Proof.
  split; unfold less, Server_Less.
  - intros x. apply not_true_is_false. rewrite Server_less_spec, string_less_irrefl.
    intros [?|[_ ?]]; [done | lia].
  - intros x y z. rewrite !Server_less_spec.
    intros [L1|[E1 L1]] [L2|[E2 L2]]; rewrite ?E1, <- ?E2; eauto using string_less_trans.
    right. split; [done | lia].
  - intros x y z. rewrite !Server_less_spec. intros [L|[E L]].
    + destruct (string_less_cotrans _ _ (hostname z) L); auto.
    + destruct (string_less (hostname x) (hostname z)) eqn:L1; [by auto|].
      destruct (string_less (hostname z) (hostname x)) eqn:L2; [rewrite <- E; auto|].
      pose proof (string_less_total _ _ L1 L2). rewrite <- E.
      destruct (Z.lt_ge_cases (port x) (port z)); [auto|].
      right. right. split; [done | lia].
Qed.

#[export] Instance ServerRecord_StrictWeakOrder : StrictWeakOrder ServerRecord.
Proof.
  split; unfold less, ServerRecord_Less, ServerRecord_less; intros.
  - apply less_irrefl.
  - by eapply (less_trans (A:=Server)).
  - by apply (less_cotrans (A:=Server)).
Qed.

Lemma Server_eqb_equivb s t : Server_eqb s t = equivb s t.
Proof. done. Qed.

(** Equality of servers is equality of host name and port. *)
Lemma Server_eqb_key s t : Server_eqb s t = true ↔ key s = key t.
Proof.
  unfold Server_eqb, key. rewrite andb_true_iff, !negb_true_iff, <- !not_true_iff_false.
  rewrite !Server_less_spec. split.
  - intros [H1 H2].
    assert (hostname s = hostname t) as E.
    { apply string_less_total; apply not_true_is_false; tauto. }
    rewrite E. f_equal. rewrite E in *.
    destruct (Z.lt_trichotomy (port s) (port t)) as [?|[?|?]]; tauto.
  - intros [= -> ->]. rewrite string_less_irrefl. intuition (done || lia).
Qed.

Lemma record_equivb r q : equivb r q = Server_eqb (server r) (server q).
Proof. done. Qed.

Lemma record_equiv_key r q : equivb r q = true ↔ key (server r) = key (server q).
Proof. rewrite record_equivb. apply Server_eqb_key. Qed.

Lemma ordered_keys_NoDup (l : list Server) : ordered l → NoDup (key <$> l).
Proof.
  induction l as [|x l IH]; [constructor|]. intros [Hlt Ho]%ordered_cons. simpl.
  constructor; [|by apply IH]. intros (y & E & Hy)%list_elem_of_fmap.
  specialize (Hlt y Hy). apply less_not_equiv in Hlt.
  rewrite <- Server_eqb_equivb, (proj2 (Server_eqb_key x y)) in Hlt; done.
Qed.

Lemma ordered_NoDup_keys set : ordered set → NoDup ((λ r, key (server r)) <$> set).
Proof.
  induction set as [|r set IH]; [constructor|]. intros [Hlt Ho]%ordered_cons. simpl.
  constructor; [|by apply IH]. intros (q & E & Hq)%list_elem_of_fmap.
  specialize (Hlt q Hq). apply less_not_equiv in Hlt.
  rewrite (proj2 (record_equiv_key r q)) in Hlt; done.
Qed.

(** A record built from a server has that server's key. *)
Lemma key_MakeRecord s t : key (server (MakeRecord s t)) = key s.
Proof. done. Qed.

(** The values a well-typed C++ object can hold. *)
Record Server_typed (s : Server) : Prop := {
  port_typed : (-2147483648 <= port s < 2147483648)%Z;
  incarnation_typed : is_u64 (incarnation s)
}.

Record ServerRecord_typed (r : ServerRecord) : Prop := {
  server_typed : Server_typed (server r);
  timestamp_typed : is_u64 (timestamp r);
  lamport_time_typed : is_u64 (lamport_time r)
}.

#[export] Hint Resolve server_typed timestamp_typed lamport_time_typed
  port_typed incarnation_typed : gossip.

Lemma MakeRecord_typed s t : Server_typed s → ServerRecord_typed (MakeRecord s t).
Proof.
  intros [Hp _]. split; [split; simpl; [done | unfold is_u64, two64; lia] | |]; simpl.
  - apply u64_range.
  - unfold is_u64, two64. lia.
Qed.
#[export] Hint Resolve MakeRecord_typed : gossip.
