(* ===== verification/UtilsHost.v ===== *)
(** * Host utilities ([utils.cpp]: [CurrentTime], [Hostname], [InetAddress],
      [SocketAddress])

    The operating-system calls are parameters: the class [OS] holds what
    [gethostname], [getaddrinfo], [inet_ntop] and [getnameinfo] answer, and with them
    whether ZeroMQ's [connect] accepts an endpoint on this machine. *)

From Stdlib Require Import ZArith Lia String.
From stdpp Require Import base list strings pretty.
From S2P Require Import Prelude SwimCommon.

Inductive address_family := AF_INET | AF_INET6 | AF_other.

(** One [struct addrinfo] of the list: its family and what [inet_ntop] and
    [getnameinfo] make of its address ([None]: the call fails). *)
Record addrinfo := mkAddrinfo {
  ai_family : address_family;
  inet_ntop : option string;
  getnameinfo : option string
}.

Class OS := {
  (** [gethostname]; [None] is a non-zero return value. *)
  gethostname : option string;
  (** [getaddrinfo(host, nullptr, hints, &result)] for [InetAddress]. *)
  getaddrinfo : string → option (list addrinfo);
  (** [getaddrinfo(nullptr, port, hints, &result)] for [SocketAddress]. *)
  getaddrinfo_passive : string → option (list addrinfo);
  (** [zmq_connect] on a fresh request socket accepts the endpoint. *)
  zmq_connect : string → bool
}.

(** [utils::CurrentTime]: milliseconds since the epoch, rounded down. *)
Definition CurrentTime (now : Timestamp) : Z := u64 (Z.div now 1000000).

Section WithOS.
Context {os : OS}.

Definition Hostname : string :=
  match gethostname with
  | None => ""
  | Some name => name
  end.

(** The loop over the [addrinfo] list: the first IPv4 address that can be
    printed. *)
Fixpoint first_inet (result : list addrinfo) : string :=
  match result with
  | [] => ""
  | rp :: rest =>
      match ai_family rp with
      | AF_INET =>
          match inet_ntop rp with
          | Some ip => ip
          | None => first_inet rest
          end
      | _ => first_inet rest
      end
  end.

Definition InetAddress (host : string) : string :=
  match getaddrinfo (if String.eqb host "" then Hostname else host) with
  | None => ""
  | Some result => first_inet result
  end.

Definition SocketAddress (port : Z) : string :=
  let port_str := pretty port in
  match getaddrinfo_passive port_str with
  | Some (result :: _) =>
      match getnameinfo result with
      | Some host => "tcp://" +:+ host +:+ ":" +:+ pretty port
      | None => ""
      end
  | _ => ""
  end.
End WithOS.

Lemma CurrentTime_typed now : is_u64 (CurrentTime now).
Proof. apply u64_range. Qed.
#[export] Hint Resolve CurrentTime_typed : gossip.
