(* ===== verification/SwimClient.v ===== *)
(** * The client ([SwimClient.hpp], [SwimClient.cpp])

    A client sends one envelope over a ZeroMQ request socket and waits for the
    reply.  The generated protocol-buffer code and the ZeroMQ exchange are
    parameters: [Protobuf] holds the two conversions, and an exchange maps the
    destination URI, the payload and the timeout to what the socket calls
    answered.  Before them [connect] may refuse the address: it then throws in the detached
    thread that [postMessage] started, where nothing catches the exception, and the process
    ends ([Connect] says what follows from that). *)

From Stdlib Require Import ZArith Lia Ascii String.
From stdpp Require Import base list strings pretty.
From S2P Require Import Prelude SwimCommon UtilsHost.

(** [SerializeAsString] and [ParseFromArray] of [SwimEnvelope]. *)
Class Protobuf := {
  SerializeAsString : SwimEnvelope → string;
  ParseFromArray : string → option SwimEnvelope
}.

(** *** Messages that can be encoded

    A [string] field holds UTF-8, an integer field a value of its type. *)

Definition byte_in (lo hi : nat) (a : ascii) : bool :=
  (lo <=? nat_of_ascii a)%nat && (nat_of_ascii a <=? hi)%nat.
Definition continuation : ascii → bool := byte_in 128 191.

(** Well-formed UTF-8 (table 3-7 of the Unicode Standard). *)
Fixpoint valid_utf8 (s : string) : bool :=
  match s with
  | EmptyString => true
  | String a s =>
      if byte_in 0 127 a then valid_utf8 s
      else match s with
      | EmptyString => false
      | String b s =>
          if byte_in 194 223 a then continuation b && valid_utf8 s
          else match s with
          | EmptyString => false
          | String c s =>
              if byte_in 224 239 a then
                (if byte_in 224 224 a then byte_in 160 191 b
                 else if byte_in 237 237 a then byte_in 128 159 b else continuation b) &&
                continuation c && valid_utf8 s
              else match s with
              | EmptyString => false
              | String d s =>
                  byte_in 240 244 a &&
                  (if byte_in 240 240 a then byte_in 144 191 b
                   else if byte_in 244 244 a then byte_in 128 143 b else continuation b) &&
                  continuation c && continuation d && valid_utf8 s
              end
          end
      end
  end.

Definition fits_u64 (n : Z) : bool := (0 <=? n)%Z && (n <? two64)%Z.
Definition fits_i32 (n : Z) : bool := (-2147483648 <=? n)%Z && (n <? 2147483648)%Z.

Definition encodable_server (x : Server) : bool :=
  valid_utf8 (hostname x) && fits_i32 (port x) &&
  match ip_addr_ x with Some ip => valid_utf8 ip | None => true end && fits_u64 (incarnation x).

Definition encodable_record (r : ServerRecord) : bool :=
  encodable_server (server r) && fits_u64 (timestamp r) && fits_u64 (lamport_time r) &&
  match forwarder r with Some x => encodable_server x | None => true end.

Definition encodable_report (r : SwimReport) : bool :=
  encodable_server (report_sender r) && forallb encodable_record (alive r) &&
  forallb encodable_record (suspected r).

Definition encodable_type (t : SwimEnvelope_Type) : bool :=
  match t with
  | STATUS_unrecognized n => fits_i32 n && ((n <? 0)%Z || (4 <? n)%Z)
  | _ => true
  end.

Definition encodable (e : SwimEnvelope) : bool :=
  encodable_type (type e) &&
  match sender e with Some x => encodable_server x | None => true end &&
  fits_u64 (env_lamport_time e) &&
  match report e with Some r => encodable_report r | None => true end &&
  match destination_server e with Some x => encodable_server x | None => true end.

(** What the documentation of protocol buffers promises: a message whose fields hold
    values of their types parses back to itself. *)
Class ProtobufLaws (pb : Protobuf) :=
  parse_serialize e :
    encodable e = true → ParseFromArray (SerializeAsString e) = Some e.

(** The answers of [send], [poll] and [recv] on the connected request socket. *)
Inductive ZmqReply :=
  | SendFailed
  | PollTimedOut
  | RecvFailed
  | Received (reply : string).

Definition Exchange := string → string → Z → ZmqReply.

Definition MAX_ALLOWED_DEFAULT : Z := 256.

Record SwimClient := mkSwimClient {
  client_lamport_time_ : Z;
  dest_ : Server;
  self_ : Server;
  timeout_ : Z;
  max_allowed_reports_ : Z
}.

(** The constructor. *)
Definition newSwimClient {os : OS} (hostname : string) (time : Z) (dest : Server)
    (self_port : Z) (timeout : Z) : SwimClient :=
  let hname := if (String.length hostname =? 0)%nat then Hostname else hostname in
  let self := set_hostname hname Server_default in
  let self := set_port self_port self in
  let self := set_ip_addr (InetAddress hname) self in
  mkSwimClient time dest self timeout MAX_ALLOWED_DEFAULT.

Definition set_client_lamport_time (t : Z) (c : SwimClient) : SwimClient :=
  mkSwimClient t (dest_ c) (self_ c) (timeout_ c) (max_allowed_reports_ c).

Definition set_timeout (t : Z) (c : SwimClient) : SwimClient :=
  mkSwimClient (client_lamport_time_ c) (dest_ c) (self_ c) t (max_allowed_reports_ c).

Definition set_max_allowed_reports (n : Z) (c : SwimClient) : SwimClient :=
  mkSwimClient (client_lamport_time_ c) (dest_ c) (self_ c) (timeout_ c) n.

(** Copies the three coordinates only: the incarnation of [self_] stays. *)
Definition setSelf (other : Server) (c : SwimClient) : SwimClient :=
  mkSwimClient (client_lamport_time_ c) (dest_ c)
    (set_port (port other) (set_ip_addr (ip_addr other)
      (set_hostname (hostname other) (self_ c))))
    (timeout_ c) (max_allowed_reports_ c).

Definition setLamportTime := set_client_lamport_time.

Definition UpdateClientLamportTime (time : Z) (c : SwimClient) : SwimClient :=
  set_client_lamport_time (u64 (Z.max (client_lamport_time_ c) time + 1)) c.

(** The address of a server. *)
Definition uri_of (x : Server) : string :=
  "tcp://" +:+ hostname x +:+ ":" +:+ pretty (port x).

Lemma uri_of_key x y : key x = key y → uri_of x = uri_of y.
Proof. unfold key, uri_of. by intros [= -> ->]. Qed.

Definition destinationUri (c : SwimClient) : string := uri_of (dest_ c).

(** The bytes of a buffer up to the first NUL: what [strcmp] sees. *)
Fixpoint c_str (s : string) : string :=
  match s with
  | EmptyString => EmptyString
  | String a s' => if Ascii.eqb a zero then EmptyString else String a (c_str s')
  end.

(** The stamping at the start of [postMessage]: the clock is incremented, then the
    sender and the time are written into the envelope. *)
Definition stamp (c : SwimClient) (envelope : SwimEnvelope) : SwimClient * SwimEnvelope :=
  let c := set_client_lamport_time (u64 (client_lamport_time_ c + 1)) c in
  (c, mkSwimEnvelope (type envelope) (Some (self_ c)) (client_lamport_time_ c)
        (report envelope) (destination_server envelope)).

Definition Ping_envelope : SwimEnvelope :=
  mkSwimEnvelope STATUS_UPDATE None 0 None None.

Definition Send_envelope (r : SwimReport) : SwimEnvelope :=
  mkSwimEnvelope STATUS_REPORT None 0 (Some r) None.

Definition RequestPing_envelope (other : Server) : SwimEnvelope :=
  mkSwimEnvelope STATUS_REQUEST None 0 None (Some other).

(** What a client sends can be encoded if its own name and the data it is given can. *)
Lemma fits_u64_u64 n : fits_u64 (u64 n) = true.
Proof.
  unfold fits_u64. destruct (u64_range n) as [? ?].
  apply andb_true_iff. split; [by apply Z.leb_le | by apply Z.ltb_lt].
Qed.

Lemma encodable_stamp c e :
  encodable (stamp c e).2 =
    encodable_type (type e) && encodable_server (self_ c) &&
    match report e with Some r => encodable_report r | None => true end &&
    match destination_server e with Some x => encodable_server x | None => true end.
Proof.
  unfold encodable, stamp. cbn -[encodable_type encodable_server fits_u64 u64 encodable_report].
  by rewrite fits_u64_u64, andb_true_r.
Qed.

Lemma encodable_MakeRecord x now :
  encodable_server x = true → encodable_record (MakeRecord x now) = true.
Proof.
  unfold encodable_record, encodable_server, MakeRecord, ip_addr.
  cbn -[fits_u64 fits_i32 valid_utf8 TimestampToFixed64]. unfold TimestampToFixed64.
  rewrite fits_u64_u64, !andb_true_iff. intros [[[-> ->] Hip] _].
  by destruct (ip_addr_ x) as [ip|]; cbn [default]; rewrite ?Hip.
Qed.

Section Posting.
Context {os : OS} {pb : Protobuf} (exchange : Exchange).

(** [None]: [connect] has thrown in the detached thread, and the process ends. *)
Definition postMessage (envelope : SwimEnvelope) (c : SwimClient) : option bool * SwimClient :=
  let '(c, envelope) := stamp c envelope in
  let msgAsStr := SerializeAsString envelope in
  if negb (zmq_connect (destinationUri c)) then (None, c)
  else match exchange (destinationUri c) msgAsStr (timeout_ c) with
       | SendFailed => (Some false, c)
       | PollTimedOut => (Some false, c)
       | RecvFailed => (Some false, c)
       | Received reply => (Some (String.eqb (c_str reply) "OK"), c)
       end.

Definition Ping (c : SwimClient) : option bool * SwimClient :=
  let '(sent, c) := postMessage Ping_envelope c in
  match sent with
  | None => (None, c)
  | Some ok => if negb ok then (Some false, c) else (Some true, c)
  end.

Definition Send (r : SwimReport) (c : SwimClient) : option bool * SwimClient :=
  postMessage (Send_envelope r) c.

Definition RequestPing (other : Server) (c : SwimClient) : option bool * SwimClient :=
  postMessage (RequestPing_envelope other) c.
End Posting.
