(* ===== verification/SwimServer.v ===== *)
(** * The membership server ([SwimServer.hpp], [SwimServer.cpp])

    The state of a [SwimServer] is a record with the fields of the class, plus the
    log of what the server did to the outside: the calls to the status callback,
    the messages it posted and the forwarding threads it started.  Every method is
    a function on that record.  The guards [mutex_guard lock(...)] delimit the
    critical sections; here each method runs alone ([Interleaving.v] takes the
    critical sections apart). *)

From Stdlib Require Import ZArith Lia String.
From stdpp Require Import base list strings pretty sorting.
From S2P Require Import Prelude StdSet SwimCommon UtilsHost SwimClient.

(** Dereferencing a null pointer is undefined behaviour; [LOG(FATAL)] and an exception
    that leaves a thread abort the process. *)
Inductive outcome (A : Type) :=
  | Done (a : A)
  | NullDereference
  | Aborted.
Arguments Done {A}.
Arguments NullDereference {A}.
Arguments Aborted {A}.

#[export] Instance outcome_ret : MRet outcome := λ A a, Done a.
#[export] Instance outcome_bind : MBind outcome := λ A B f o,
  match o with
  | Done a => f a
  | NullDereference => NullDereference
  | Aborted => Aborted
  end.

(** Dereferencing the pointer a [release_...()] call returned. *)
Definition deref {A} (p : option A) : outcome A :=
  match p with Some a => Done a | None => NullDereference end.

Inductive RemoveType := remove_alive | remove_evicted.

(** What a server does to its environment.  The callback takes a
    [std::shared_ptr<ServerRecord>] and the forwarding thread a [Server *]: [None] is the
    null pointer. *)
Inductive Effect :=
  | StatusCallback (record : option ServerRecord) (status : ServerStatus)
  | Posted (uri : string) (envelope : SwimEnvelope)
  | ForwardThread (sender : Server) (destination : option Server).

Record SwimServer := mkSwimServer {
  incarnation_ : Z;
  lamport_time_ : Z;
  port_ : Z;
  num_threads_ : Z;
  stopped_ : bool;
  polling_interval_ : Z;
  statusCb : bool;             (** [statusCb.has_value()] *)
  host_name_ : string;
  alive_ : list ServerRecord;
  suspected_ : list ServerRecord;
  effects_ : list Effect       (** oldest first *)
}.

Definition set_alive (a : list ServerRecord) (s : SwimServer) : SwimServer :=
  mkSwimServer (incarnation_ s) (lamport_time_ s) (port_ s) (num_threads_ s) (stopped_ s)
    (polling_interval_ s) (statusCb s) (host_name_ s) a (suspected_ s) (effects_ s).
Definition set_suspected (a : list ServerRecord) (s : SwimServer) : SwimServer :=
  mkSwimServer (incarnation_ s) (lamport_time_ s) (port_ s) (num_threads_ s) (stopped_ s)
    (polling_interval_ s) (statusCb s) (host_name_ s) (alive_ s) a (effects_ s).
Definition set_clock (t : Z) (s : SwimServer) : SwimServer :=
  mkSwimServer (incarnation_ s) t (port_ s) (num_threads_ s) (stopped_ s)
    (polling_interval_ s) (statusCb s) (host_name_ s) (alive_ s) (suspected_ s) (effects_ s).
Definition set_stopped (b : bool) (s : SwimServer) : SwimServer :=
  mkSwimServer (incarnation_ s) (lamport_time_ s) (port_ s) (num_threads_ s) b
    (polling_interval_ s) (statusCb s) (host_name_ s) (alive_ s) (suspected_ s) (effects_ s).
Definition emit (e : Effect) (s : SwimServer) : SwimServer :=
  mkSwimServer (incarnation_ s) (lamport_time_ s) (port_ s) (num_threads_ s) (stopped_ s)
    (polling_interval_ s) (statusCb s) (host_name_ s) (alive_ s) (suspected_ s)
    (effects_ s ++ [e]).

(** [if (statusCb.has_value()) statusCb.value()(record, status)] *)
Definition callback (record : option ServerRecord) (status : ServerStatus)
    (s : SwimServer) : SwimServer :=
  if statusCb s then emit (StatusCallback record status) s else s.

Definition kNumThreads : Z := 5.

Definition stop (s : SwimServer) : SwimServer := set_stopped true s.
Definition isRunning (s : SwimServer) : bool := negb (stopped_ s).
Definition alive_size (s : SwimServer) : nat := size (alive_ s).
Definition suspected_size (s : SwimServer) : nat := size (suspected_ s).
Definition alive_empty (s : SwimServer) : bool := (alive_size s =? 0)%nat.
Definition suspected_empty (s : SwimServer) : bool := (suspected_size s =? 0)%nat.
Definition GetLamportTime (s : SwimServer) : Z := lamport_time_ s.

Definition UpdateLamportTime (time : Z) (s : SwimServer) : SwimServer :=
  set_clock (u64 (Z.max (lamport_time_ s) time + 1)) s.

(** [throw empty_set()] is [None]. *)
Definition GetNeighborByIndex (index : nat) (s : SwimServer) : option Server :=
  let size := size (alive_ s) in
  if (size =? 0)%nat then None
  else
    let index := if (size <=? index)%nat then 0%nat else index in
    server <$> at_index index (alive_ s).

(** The draw of [uniform_int_distribution(0, size - 1)] is an argument. *)
Definition GetRandomNeighbor (num : nat) (s : SwimServer) : option Server :=
  let size := size (alive_ s) in
  if (size =? 0)%nat then None else server <$> at_index num (alive_ s).

Definition GetRandomSuspect (num : nat) (s : SwimServer) : option Server :=
  let size := size (suspected_ s) in
  if (size =? 0)%nat then None else server <$> at_index num (suspected_ s).

Section Operations.
Context {os : OS} (now : Timestamp).

(** The constructor. *)
Definition newSwimServer (host_name : string) (port : Z) (statusCb : bool)
    (threads : Z) (polling_interval : Z) : SwimServer :=
  mkSwimServer 0 0 port threads true polling_interval statusCb
    (if (String.length host_name =? 0)%nat then Hostname else host_name) [] [] [].

Definition self (s : SwimServer) : Server :=
  let server := Server_default in
  let server := set_port (port_ s) server in
  let server := set_hostname Hostname server in
  set_ip_addr (InetAddress "") server.

Definition RemoveSuspected (server : Server) (removeType : RemoveType)
    (s : SwimServer) : SwimServer :=
  let aliveRecord := MakeRecord server now in
  let '(set, num) := erase aliveRecord (suspected_ s) in
  let s := set_suspected set s in
  match removeType with
  | remove_evicted =>
      if (0 <? num)%nat then callback (Some aliveRecord) status_removed s else s
  | remove_alive => s
  end.

Definition AddAlive (server : Server) (timestamp : Z) (s : SwimServer)
    : SwimServer * bool :=
  if (port server =? 0)%Z then (s, false)
  else
    let s := RemoveSuspected server remove_alive s in
    let aliveRecord :=
      set_lamport_time (lamport_time_ s)
        (set_timestamp timestamp (MakeRecord server now)) in
    let '(set, inserted) := insert aliveRecord (alive_ s) in
    let s := set_alive set s in
    let s :=
      if negb inserted then
        match find aliveRecord (alive_ s) with
        | Some _ =>
            set_alive
              (modify (λ pr, set_lamport_time (lamport_time_ s)
                               (set_timestamp timestamp pr))
                 aliveRecord (alive_ s)) s
        | None => s
        end
      else s in
    let s := if inserted then callback (Some aliveRecord) status_alive s else s in
    (s, inserted).

(** The record is moved into the set, so the callback gets a null pointer. *)
Definition ReportSuspected (server : Server) (timestamp : Z) (s : SwimServer)
    : SwimServer * bool :=
  if (port server =? 0)%Z then (s, false)
  else if Server_eqb server (self s) then ((AddAlive server timestamp s).1, false)
  else
    let suspectRecord :=
      set_lamport_time (lamport_time_ s)
        (set_timestamp timestamp (MakeRecord server now)) in
    let s := set_alive (erase suspectRecord (alive_ s)).1 s in
    let '(set, inserted) := insert suspectRecord (suspected_ s) in
    let s := set_suspected set s in
    let s := if inserted then callback None status_suspect s else s in
    (s, inserted).

Definition OnUpdate (client : Server) (s : SwimServer) : SwimServer :=
  let s := (AddAlive client (CurrentTime now) s).1 in
  let record := MakeRecord client now in
  set_suspected (erase record (suspected_ s)).1 s.

(** Whether [set] holds a record of the same server with a later time. *)
Definition known_later (record : ServerRecord) (set : list ServerRecord) : bool :=
  match find (MakeRecord (server record) now) set with
  | Some found => (lamport_time record <? lamport_time found)%Z
  | None => false
  end.

(** Takes the node out, raises its incarnation to the record's, puts it back. *)
Definition raise_incarnation (record : ServerRecord) (set : list ServerRecord)
    : list ServerRecord :=
  match find (MakeRecord (server record) now) set with
  | Some found =>
      if (incarnation (SwimCommon.server found) <? incarnation (server record))%Z then
        match extract found set with
        | (Some update, set) =>
            (insert (mutable_server
                       (set_incarnation (incarnation (server record))) update) set).1
        | (None, set) => set
        end
      else set
  | None => set
  end.

(** The body of the first loop of [OnReport]. *)
Definition OnReport_alive (record : ServerRecord) (s : SwimServer) : SwimServer :=
  if Server_eqb (server record) (self s) then s
  else if known_later record (suspected_ s) then s
  else
    let s := (AddAlive (server record) (timestamp record) s).1 in
    set_alive (raise_incarnation record (alive_ s)) s.

(** The body of the second loop of [OnReport]; [from] is [report->sender()]. *)
Definition OnReport_suspected (from : Server) (record : ServerRecord) (s : SwimServer)
    : SwimServer :=
  if Server_eqb (server record) (self s) then
    let client := newSwimClient (host_name_ s) (lamport_time_ s) from (port_ s)
                    kDefaultTimeoutMsec in
    emit (Posted (destinationUri client) (stamp client Ping_envelope).2) s
  else if known_later record (alive_ s) then s
  else
    let s := (ReportSuspected (server record) (timestamp record) s).1 in
    set_suspected (raise_incarnation record (suspected_ s)) s.

Definition OnReport (sender : Server) (report : SwimReport) (s : SwimServer)
    : SwimServer :=
  let s := (AddAlive sender (CurrentTime now) s).1 in
  let s := fold_left (λ s record, OnReport_alive record s) (alive report) s in
  fold_left (λ s record, OnReport_suspected (report_sender report) record s)
    (suspected report) s.

(** [destination] is a pointer, which only the thread that is started dereferences. *)
Definition OnForwardRequest (sender : Server) (destination : option Server) (s : SwimServer)
    : SwimServer :=
  let s := (AddAlive sender (CurrentTime now) s).1 in
  emit (ForwardThread sender destination) s.

(** The body of the thread that [OnForwardRequest] starts. *)
Definition ForwardThread_body {pb : Protobuf} (exchange : Exchange) (sender : Server)
    (destination : option Server) (s : SwimServer) : outcome SwimServer :=
  destination ← deref destination;
  let report := mkSwimReport sender [] [MakeRecord destination now] in
  let client := newSwimClient (host_name_ s) (lamport_time_ s) destination (port_ s)
                  kDefaultTimeoutMsec in
  let s := emit (Posted (destinationUri client)
                   (stamp client (Send_envelope report)).2) s in
  match (Send exchange report client).1 with
  | None => Aborted
  | Some ok =>
      Done (if negb ok then (ReportSuspected destination (CurrentTime now) s).1 else s)
  end.
End Operations.

(** ** Lookups by server *)

(** The record of server [x] in a record set; only its key matters. *)
Definition seek (x : Server) (set : list ServerRecord) : option ServerRecord :=
  find (MakeRecord x 0%Z) set.

Lemma find_seek r set : find r set = seek (server r) set.
Proof. apply find_equiv. by apply record_equiv_key. Qed.

Lemma seek_key x y set : key x = key y → seek x set = seek y set.
Proof. intros E. apply find_equiv. by apply record_equiv_key. Qed.

Lemma seek_Some x r set : seek x set = Some r → r ∈ set ∧ key (server r) = key x.
Proof. intros [? E%record_equiv_key]%find_Some. done. Qed.

Lemma seek_None x set : seek x set = None ↔ ∀ r, r ∈ set → key (server r) ≠ key x.
Proof.
  unfold seek. rewrite find_None. split; intros Hn r Hr.
  - intros E. specialize (Hn r Hr). rewrite <- not_true_iff_false in Hn.
    apply Hn, record_equiv_key. done.
  - apply not_true_is_false. intros E%record_equiv_key. by apply (Hn r Hr).
Qed.

Lemma seek_elem r set : ordered set → r ∈ set → seek (server r) set = Some r.
Proof. intros Ho Hr. rewrite <- find_seek. by apply find_self. Qed.

Lemma seek_insert x r set :
  ordered set →
  seek x (insert r set).1 =
    if Server_eqb x (server r) then Some (default r (seek (server r) set))
    else seek x set.
Proof. intros Ho. unfold seek at 1. rewrite find_insert by done. by rewrite <- (find_seek r). Qed.

Lemma seek_erase x r set :
  ordered set →
  seek x (erase r set).1 = if Server_eqb x (server r) then None else seek x set.
Proof. intros Ho. unfold seek at 1. by rewrite find_erase. Qed.

Lemma seek_modify f x r set :
  (∀ q, equivb (f q) q = true) →
  seek x (modify f r set) =
    if Server_eqb x (server r) then f <$> seek (server r) set else seek x set.
Proof. intros Hf. unfold seek at 1. rewrite find_modify by done. by rewrite <- (find_seek r). Qed.

Lemma Server_eqb_refl x : Server_eqb x x = true.
Proof. by apply Server_eqb_key. Qed.

Lemma Server_eqb_neq x y : Server_eqb x y = false ↔ key x ≠ key y.
Proof. rewrite <- not_true_iff_false. by rewrite Server_eqb_key. Qed.

(** The writes of the source keep the key. *)
Lemma touch_equiv t l r : equivb (set_lamport_time l (set_timestamp t r)) r = true.
Proof. by apply record_equiv_key. Qed.
Lemma incarnate_equiv i r : equivb (mutable_server (set_incarnation i) r) r = true.
Proof. by apply record_equiv_key. Qed.
#[export] Hint Resolve touch_equiv incarnate_equiv : gossip.

(** The record that [AddAlive] and [ReportSuspected] make of a server. *)
Definition fresh_record (now : Timestamp) (x : Server) (t l : Z) : ServerRecord :=
  set_lamport_time l (set_timestamp t (MakeRecord x now)).

(** What [raise_incarnation] does to the record it finds. *)
Definition raise (i : Z) (q : ServerRecord) : ServerRecord :=
  if (incarnation (server q) <? i)%Z then mutable_server (set_incarnation i) q else q.

Lemma raise_equiv i q : equivb (raise i q) q = true.
Proof. unfold raise. case_if; [apply incarnate_equiv | apply equivb_refl]. Qed.
#[export] Hint Resolve raise_equiv : gossip.

(** Extracting, changing and re-inserting the node is a change in place. *)
Lemma raise_incarnation_modify now record set :
  ordered set →
  raise_incarnation now record set = modify (raise (incarnation (server record))) record set.
Proof.
  intros Ho. unfold raise_incarnation.
  rewrite (find_equiv _ record) by by apply record_equiv_key.
  destruct (find record set) as [found|] eqn:Hf.
  - destruct (find_Some _ _ _ Hf) as [Hin E].
    destruct (incarnation (server found) <? incarnation (server record))%Z eqn:Hlt.
    + pose proof (extract_insert _ (incarnate_equiv (incarnation (server record)))
        found found set Ho (find_self _ _ Ho Hin)) as Hx.
      unfold extract in *. rewrite (find_self found) by done. simpl in Hx. rewrite Hx.
      apply ordered_ext; [solve_ordered..|].
      intros z. rewrite !find_modify by solve_ordered.
      rewrite find_self, Hf by done. simpl. unfold raise. rewrite Hlt.
      by rewrite (equivb_sym z found), <- (equivb_equiv_l _ _ _ E), (equivb_sym z).
    + apply ordered_ext; [solve_ordered..|].
      intros z. rewrite find_modify by solve_ordered.
      destruct (equivb z record) eqn:Ez; [|done].
      rewrite (find_equiv _ _ _ Ez), Hf. simpl. unfold raise. by rewrite Hlt.
  - apply ordered_ext; [solve_ordered..|].
    intros z. rewrite find_modify by solve_ordered.
    destruct (equivb z record) eqn:Ez; [|done]. by rewrite (find_equiv _ _ _ Ez), Hf.
Qed.

(** ** What each operation does, branch by branch *)

(** The fields no membership operation changes. *)
Definition config (s : SwimServer) :=
  (incarnation_ s, lamport_time_ s, port_ s, num_threads_ s, stopped_ s,
   polling_interval_ s, statusCb s, host_name_ s).

Lemma config_callback r st s : config (callback r st s) = config s.
Proof. unfold callback. by case_if. Qed.
Lemma alive_callback r st s : alive_ (callback r st s) = alive_ s.
Proof. unfold callback. by case_if. Qed.
Lemma suspected_callback r st s : suspected_ (callback r st s) = suspected_ s.
Proof. unfold callback. by case_if. Qed.
Lemma effects_callback r st s :
  effects_ (callback r st s) =
    effects_ s ++ (if statusCb s then [StatusCallback r st] else []).
Proof. unfold callback. case_if; simpl; by rewrite ?app_nil_r. Qed.

#[export] Hint Rewrite config_callback alive_callback suspected_callback
  effects_callback : gossip.

(** The write of [AddAlive] to a record it already holds. *)
Definition touch (t l : Z) (r : ServerRecord) : ServerRecord :=
  set_lamport_time l (set_timestamp t r).

Lemma touch_equivb t l r : equivb (touch t l r) r = true.
Proof. apply touch_equiv. Qed.
#[export] Hint Resolve touch_equivb : gossip.

Lemma config_clock s s' : config s = config s' → lamport_time_ s = lamport_time_ s'.
Proof. unfold config. congruence. Qed.

Section Specs.
Context {os : OS} (now : Timestamp).
Implicit Types (x y : Server) (s : SwimServer).

Lemma config_self s s' : config s = config s' → self s = self s'.
Proof. unfold config, self. congruence. Qed.

(** *** [RemoveSuspected] *)

Lemma config_RemoveSuspected x rt s : config (RemoveSuspected now x rt s) = config s.
Proof.
  unfold RemoveSuspected. destruct (erase _ _) as [set num].
  destruct rt; [done|]. case_if; by autorewrite with gossip.
Qed.

Lemma alive_RemoveSuspected x rt s : alive_ (RemoveSuspected now x rt s) = alive_ s.
Proof.
  unfold RemoveSuspected. destruct (erase _ _) as [set num].
  destruct rt; [done|]. case_if; by autorewrite with gossip.
Qed.

Lemma suspected_RemoveSuspected x rt s :
  suspected_ (RemoveSuspected now x rt s) = (erase (MakeRecord x now) (suspected_ s)).1.
Proof.
  unfold RemoveSuspected. destruct (erase _ _) as [set num].
  destruct rt; [done|]. case_if; by autorewrite with gossip.
Qed.

(** *** [AddAlive] *)

Lemma AddAlive_port0 x t s : port x = 0%Z → AddAlive now x t s = (s, false).
Proof. intros E. unfold AddAlive. by rewrite E. Qed.

Lemma config_AddAlive x t s : config (AddAlive now x t s).1 = config s.
Proof.
  unfold AddAlive. case_if; [done|]. destruct (insert _ _) as [set ins].
  destruct ins; simpl; autorewrite with gossip; [|destruct (find _ _); simpl];
    apply (config_RemoveSuspected x remove_alive).
Qed.

Lemma suspected_AddAlive x t s :
  port x ≠ 0%Z →
  suspected_ (AddAlive now x t s).1 = (erase (MakeRecord x now) (suspected_ s)).1.
Proof.
  intros Hp%Z.eqb_neq. unfold AddAlive. rewrite Hp. destruct (insert _ _) as [set ins].
  destruct ins; simpl; autorewrite with gossip; [|destruct (find _ _); simpl];
    apply (suspected_RemoveSuspected x remove_alive).
Qed.

Lemma alive_AddAlive x t s :
  port x ≠ 0%Z → ordered (alive_ s) →
  let r := fresh_record now x t (lamport_time_ s) in
  alive_ (AddAlive now x t s).1 =
    match seek x (alive_ s) with
    | None => (insert r (alive_ s)).1
    | Some _ => modify (touch t (lamport_time_ s)) r (alive_ s)
    end.
Proof.
  intros Hp%Z.eqb_neq Ho r. unfold AddAlive. rewrite Hp.
  rewrite alive_RemoveSuspected.
  rewrite (config_clock _ _ (config_RemoveSuspected x remove_alive s)).
  fold (fresh_record now x t (lamport_time_ s)). fold r.
  pose proof (insert_result r (alive_ s) Ho) as Hi.
  rewrite find_seek in Hi. change (seek (server r) (alive_ s)) with (seek x (alive_ s)) in Hi.
  destruct (seek x (alive_ s)) as [q|] eqn:Hq.
  - pose proof (insert_present r q (alive_ s) Ho) as Hs.
    rewrite find_seek in Hs. specialize (Hs Hq).
    destruct (insert r (alive_ s)) as [set ins]. simpl in Hi, Hs. subst. simpl.
    rewrite find_seek. change (seek (server r) (alive_ s)) with (seek x (alive_ s)).
    rewrite Hq. simpl. unfold RemoveSuspected. by destruct (erase _ _).
  - destruct (insert r (alive_ s)) as [set ins]. simpl in Hi. subst. simpl.
    by autorewrite with gossip.
Qed.

Lemma AddAlive_result x t s :
  port x ≠ 0%Z → ordered (alive_ s) →
  (AddAlive now x t s).2 = match seek x (alive_ s) with None => true | Some _ => false end.
Proof.
  intros Hp%Z.eqb_neq Ho. unfold AddAlive. rewrite Hp. rewrite alive_RemoveSuspected.
  rewrite (config_clock _ _ (config_RemoveSuspected x remove_alive s)).
  pose proof (insert_result (fresh_record now x t (lamport_time_ s)) (alive_ s) Ho) as Hi.
  rewrite find_seek in Hi.
  destruct (insert _ _) as [set ins]. exact Hi.
Qed.

(** *** [ReportSuspected] *)

Lemma ReportSuspected_port0 x t s : port x = 0%Z → ReportSuspected now x t s = (s, false).
Proof. intros E. unfold ReportSuspected. by rewrite E. Qed.

Lemma ReportSuspected_self x t s :
  port x ≠ 0%Z → key x = key (self s) →
  ReportSuspected now x t s = ((AddAlive now x t s).1, false).
Proof.
  intros Hp%Z.eqb_neq Hs%Server_eqb_key. unfold ReportSuspected. by rewrite Hp, Hs.
Qed.

Lemma config_ReportSuspected x t s : config (ReportSuspected now x t s).1 = config s.
Proof.
  unfold ReportSuspected. case_if; [done|]. case_if; [apply config_AddAlive|].
  destruct (insert _ _) as [set ins]. destruct ins; simpl; by autorewrite with gossip.
Qed.

Lemma alive_ReportSuspected x t s :
  port x ≠ 0%Z → key x ≠ key (self s) →
  alive_ (ReportSuspected now x t s).1 =
    (erase (fresh_record now x t (lamport_time_ s)) (alive_ s)).1.
Proof.
  intros Hp%Z.eqb_neq Hs%Server_eqb_neq. unfold ReportSuspected. rewrite Hp, Hs.
  destruct (insert _ _) as [set ins]. destruct ins; simpl; by autorewrite with gossip.
Qed.

Lemma suspected_ReportSuspected x t s :
  port x ≠ 0%Z → key x ≠ key (self s) →
  suspected_ (ReportSuspected now x t s).1 =
    (insert (fresh_record now x t (lamport_time_ s)) (suspected_ s)).1.
Proof.
  intros Hp%Z.eqb_neq Hs%Server_eqb_neq. unfold ReportSuspected. rewrite Hp, Hs.
  unfold fresh_record. simpl.
  destruct (insert _ _) as [set ins]. destruct ins; simpl; by autorewrite with gossip.
Qed.

Lemma ReportSuspected_result x t s :
  port x ≠ 0%Z → key x ≠ key (self s) → ordered (suspected_ s) →
  (ReportSuspected now x t s).2 =
    match seek x (suspected_ s) with None => true | Some _ => false end.
Proof.
  intros Hp%Z.eqb_neq Hs%Server_eqb_neq Ho. unfold ReportSuspected. rewrite Hp, Hs.
  pose proof (insert_result (fresh_record now x t (lamport_time_ s)) (suspected_ s) Ho) as Hi.
  rewrite find_seek in Hi. simpl.
  unfold fresh_record in Hi. destruct (insert _ _) as [set ins]. exact Hi.
Qed.
End Specs.
