(* ===== verification/Membership.v ===== *)
(** * The invariant of the membership server

    The well-formedness invariant of a server, what each operation does to a lookup in
    its two sets, and the preservation of the invariant by every operation and message
    handler. *)

From Stdlib Require Import ZArith Lia String.
From stdpp Require Import base list strings gmap.
From S2P Require Import Prelude StdSet SwimCommon UtilsHost SwimClient SwimServer.

(** ** The invariant *)

Section Invariant.
Context {os : OS}.

Record server_inv (s : SwimServer) : Prop := {
  inv_alive : ordered (alive_ s);
  inv_suspected : ordered (suspected_ s);
  inv_disjoint x : is_Some (seek x (alive_ s)) → seek x (suspected_ s) = None;
  inv_port x : port x = 0%Z → seek x (alive_ s) = None ∧ seek x (suspected_ s) = None;
  inv_self x : key x = key (self s) → seek x (suspected_ s) = None
}.
End Invariant.

#[export] Hint Resolve inv_alive inv_suspected : gossip.

(** Reduces a [Server_eqb] test to a statement about keys. *)
Ltac case_key :=
  match goal with
  | |- context [if Server_eqb ?x ?y then _ else _] =>
      let E := fresh "K" in
      destruct (Server_eqb x y) eqn:E;
      [apply Server_eqb_key in E | apply Server_eqb_neq in E]
  | H : context [if Server_eqb ?x ?y then _ else _] |- _ =>
      let E := fresh "K" in
      destruct (Server_eqb x y) eqn:E;
      [apply Server_eqb_key in E | apply Server_eqb_neq in E]
  end.

Lemma key_port x y : key x = key y → port x = port y.
Proof. unfold key. congruence. Qed.

(** ** Lookups after an operation *)

Section Lookups.
Context {os : OS} (now : Timestamp).
Implicit Types (x y : Server) (s : SwimServer).

Lemma seek_alive_AddAlive y x t s :
  port x ≠ 0%Z → ordered (alive_ s) →
  seek y (alive_ (AddAlive now x t s).1) =
    if Server_eqb y x
    then Some (match seek x (alive_ s) with
               | None => fresh_record now x t (lamport_time_ s)
               | Some r => touch t (lamport_time_ s) r
               end)
    else seek y (alive_ s).
Proof.
  intros Hp Ho. rewrite alive_AddAlive by done.
  destruct (seek x (alive_ s)) as [q|] eqn:Hq.
  - rewrite seek_modify by solve_ordered.
    change (seek (server (fresh_record now x t (lamport_time_ s))) (alive_ s))
      with (seek x (alive_ s)). by rewrite Hq.
  - rewrite seek_insert by done.
    change (seek (server (fresh_record now x t (lamport_time_ s))) (alive_ s))
      with (seek x (alive_ s)). by rewrite Hq.
Qed.

Lemma seek_suspected_AddAlive y x t s :
  port x ≠ 0%Z → ordered (suspected_ s) →
  seek y (suspected_ (AddAlive now x t s).1) =
    if Server_eqb y x then None else seek y (suspected_ s).
Proof. intros Hp Ho. by rewrite suspected_AddAlive, seek_erase by done. Qed.

Lemma seek_alive_ReportSuspected y x t s :
  port x ≠ 0%Z → key x ≠ key (self s) → ordered (alive_ s) →
  seek y (alive_ (ReportSuspected now x t s).1) =
    if Server_eqb y x then None else seek y (alive_ s).
Proof. intros Hp Hs Ho. by rewrite alive_ReportSuspected, seek_erase by done. Qed.

Lemma seek_suspected_ReportSuspected y x t s :
  port x ≠ 0%Z → key x ≠ key (self s) → ordered (suspected_ s) →
  seek y (suspected_ (ReportSuspected now x t s).1) =
    if Server_eqb y x
    then Some (default (fresh_record now x t (lamport_time_ s)) (seek x (suspected_ s)))
    else seek y (suspected_ s).
Proof. intros Hp Hs Ho. by rewrite suspected_ReportSuspected, seek_insert by done. Qed.

Lemma seek_raise y r set :
  ordered set →
  seek y (raise_incarnation now r set) =
    if Server_eqb y (server r) then raise (incarnation (server r)) <$> seek (server r) set
    else seek y set.
Proof. intros Ho. by rewrite raise_incarnation_modify, seek_modify by solve_ordered. Qed.

Lemma ordered_raise r set : ordered set → ordered (raise_incarnation now r set).
Proof. intros Ho. rewrite raise_incarnation_modify by done. solve_ordered. Qed.

(** ** Preservation *)

Lemma inv_callback r st s : server_inv s → server_inv (callback r st s).
Proof. intros []. unfold callback. case_if; by constructor. Qed.

Lemma inv_AddAlive x t s : server_inv s → server_inv (AddAlive now x t s).1.
Proof.
  intros [Ha Hsu Hd Hp0 Hse]. destruct (Z.eq_dec (port x) 0%Z) as [E|Hp].
  { rewrite AddAlive_port0 by done. by constructor. }
  pose proof (config_self _ _ (config_AddAlive now x t s)) as Hc.
  constructor; intros.
  - rewrite alive_AddAlive by done. case_match; solve_ordered.
  - rewrite suspected_AddAlive by done. solve_ordered.
  - revert H. rewrite seek_alive_AddAlive, seek_suspected_AddAlive by done.
    case_key; auto.
  - rewrite seek_alive_AddAlive, seek_suspected_AddAlive by done.
    case_key; [apply key_port in K; congruence | auto].
  - rewrite seek_suspected_AddAlive by done. case_key; [done|].
    apply Hse. congruence.
Qed.

Lemma inv_ReportSuspected x t s : server_inv s → server_inv (ReportSuspected now x t s).1.
Proof.
  intros Hi. destruct (Z.eq_dec (port x) 0%Z) as [E|Hp].
  { by rewrite ReportSuspected_port0. }
  destruct (decide (key x = key (self s))) as [Hs|Hs].
  { rewrite ReportSuspected_self by done. by apply inv_AddAlive. }
  destruct Hi as [Ha Hsu Hd Hp0 Hse].
  pose proof (config_self _ _ (config_ReportSuspected now x t s)) as Hc.
  constructor; intros.
  - rewrite alive_ReportSuspected by done. solve_ordered.
  - rewrite suspected_ReportSuspected by done. solve_ordered.
  - revert H. rewrite seek_alive_ReportSuspected, seek_suspected_ReportSuspected by done.
    case_key; [by intros [? ?] | auto].
  - rewrite seek_alive_ReportSuspected, seek_suspected_ReportSuspected by done.
    case_key; [apply key_port in K; congruence | auto].
  - rewrite seek_suspected_ReportSuspected by done.
    case_key; [congruence | apply Hse; congruence].
Qed.

Lemma inv_erase_suspected r s :
  server_inv s → server_inv (set_suspected (erase r (suspected_ s)).1 s).
Proof.
  intros [Ha Hsu Hd Hp0 Hse]. constructor; simpl; [done | solve_ordered | ..]; intros x.
  - intros Hx. rewrite seek_erase by done. case_key; auto.
  - intros Hx. destruct (Hp0 x Hx). rewrite seek_erase by done. by case_key.
  - intros Hx. rewrite seek_erase by done. case_key; [done|]. by apply Hse.
Qed.

Lemma inv_RemoveSuspected x rt s : server_inv s → server_inv (RemoveSuspected now x rt s).
Proof.
  intros Hi%(inv_erase_suspected (MakeRecord x now)). unfold RemoveSuspected.
  destruct (erase _ _) as [set num]. destruct rt; [done|].
  case_if; [by apply inv_callback | done].
Qed.

Lemma inv_raise_alive r s :
  server_inv s → server_inv (set_alive (raise_incarnation now r (alive_ s)) s).
Proof.
  intros [Ha Hsu Hd Hp0 Hse]. constructor; simpl; [by apply ordered_raise | done | ..];
    intros x; [intros Hx; apply Hd; revert Hx| |exact (Hse x)]; rewrite seek_raise by done.
  - case_key; [|done]. rewrite fmap_is_Some, (seek_key _ _ (alive_ s) K). done.
  - intros Hx. destruct (Hp0 x Hx) as [Hx1 Hx2]. split; [|done].
    case_key; [|done]. by rewrite <- (seek_key _ _ (alive_ s) K), Hx1.
Qed.

Lemma inv_raise_suspected r s :
  server_inv s → server_inv (set_suspected (raise_incarnation now r (suspected_ s)) s).
Proof.
  intros [Ha Hsu Hd Hp0 Hse]. constructor; simpl; [done | by apply ordered_raise | ..];
    intros x Hx; rewrite seek_raise by done.
  - case_key; [|by apply Hd]. rewrite <- (seek_key _ _ (suspected_ s) K), Hd; done.
  - destruct (Hp0 x Hx) as [Hx1 Hx2]. split; [done|].
    case_key; [|done]. by rewrite <- (seek_key _ _ (suspected_ s) K), Hx2.
  - case_key; [|by apply Hse]. rewrite <- (seek_key _ _ (suspected_ s) K), Hse; done.
Qed.

Lemma inv_emit e s : server_inv s → server_inv (emit e s).
Proof. intros []. by constructor. Qed.

Lemma inv_OnUpdate x s : server_inv s → server_inv (OnUpdate now x s).
Proof. intros Hi. by apply inv_erase_suspected, inv_AddAlive. Qed.

Lemma inv_OnReport_alive r s : server_inv s → server_inv (OnReport_alive now r s).
Proof.
  intros Hi. unfold OnReport_alive. case_if; [done|]. case_if; [done|].
  by apply inv_raise_alive, inv_AddAlive.
Qed.

Lemma inv_OnReport_suspected from r s :
  server_inv s → server_inv (OnReport_suspected now from r s).
Proof.
  intros Hi. unfold OnReport_suspected. case_if; [by apply inv_emit|]. case_if; [done|].
  by apply inv_raise_suspected, inv_ReportSuspected.
Qed.

Lemma fold_left_inv {A} (P : SwimServer → Prop) (f : SwimServer → A → SwimServer) l s :
  (∀ s a, P s → P (f s a)) → P s → P (fold_left f l s).
Proof. intros Hf. revert s. induction l as [|a l IH]; simpl; auto. Qed.

Lemma inv_OnReport x rep s : server_inv s → server_inv (OnReport now x rep s).
Proof.
  intros Hi. unfold OnReport.
  do 2 (apply fold_left_inv; [auto using inv_OnReport_alive, inv_OnReport_suspected|]).
  by apply inv_AddAlive.
Qed.

Lemma inv_OnForwardRequest x d s : server_inv s → server_inv (OnForwardRequest now x d s).
Proof. intros Hi. by apply inv_emit, inv_AddAlive. Qed.

Lemma inv_ForwardThread {pb : Protobuf} ex x d s s' :
  server_inv s → ForwardThread_body now ex x d s = Done s' → server_inv s'.
Proof.
  intros Hi. unfold ForwardThread_body. destruct d as [d|]; [|done]. cbn -[Send ReportSuspected].
  destruct (Send _ _ _).1 as [ok|]; [|done]. intros [= <-].
  destruct ok; cbn [negb]; [|apply inv_ReportSuspected]; by apply inv_emit.
Qed.

Lemma inv_UpdateLamportTime t s : server_inv s → server_inv (UpdateLamportTime t s).
Proof. intros []. by constructor. Qed.

Lemma inv_stopped b s : server_inv s → server_inv (set_stopped b s).
Proof. intros []. by constructor. Qed.

Lemma inv_new host_name p cb threads poll :
  server_inv (newSwimServer host_name p cb threads poll).
Proof. constructor; simpl; try done; constructor. Qed.
End Lookups.

#[export] Hint Resolve inv_AddAlive inv_ReportSuspected inv_RemoveSuspected inv_OnUpdate
  inv_OnReport_alive inv_OnReport_suspected inv_OnReport inv_OnForwardRequest
  inv_UpdateLamportTime inv_stopped inv_emit inv_new : gossip.
