(* ===== verification/Refinement.v ===== *)
(** * The abstract membership protocol and its implementation

    Abstractly a server knows a finite map from [hostname:port] to a status
    (alive or suspect) and the record it keeps, its Lamport clock and its own
    identity.  Every event changes that map in a way stated here without sets,
    iterators or callbacks; [exec_refines] is the simulation: what [SwimServer.v]
    does to its two ordered sets is, seen through [view_of], exactly the abstract
    change. *)

From Stdlib Require Import ZArith Lia String.
From stdpp Require Import base list strings gmap.
From S2P Require Import Prelude StdSet SwimCommon UtilsHost SwimClient SwimServer Membership.

(** ** Events of a server *)

(** Each event carries the instant at which it happens. *)
Inductive event :=
  | ev_AddAlive (now : Timestamp) (x : Server) (t : Z)
  | ev_ReportSuspected (now : Timestamp) (x : Server) (t : Z)
  | ev_RemoveSuspected (now : Timestamp) (x : Server) (rt : RemoveType)
  | ev_OnUpdate (now : Timestamp) (x : Server)
  | ev_OnReport (now : Timestamp) (x : Server) (rep : SwimReport)
  | ev_OnForwardRequest (now : Timestamp) (x : Server) (d : option Server)
  | ev_ForwardThread (now : Timestamp) (ex : Exchange) (x : Server) (d : option Server)
  | ev_UpdateLamportTime (t : Z)
  | ev_stop.

Section Exec.
Context {os : OS} {pb : Protobuf}.

(** When a forwarding thread ends the process, the state is the last one. *)
Definition exec (e : event) (s : SwimServer) : SwimServer :=
  match e with
  | ev_AddAlive now x t => (AddAlive now x t s).1
  | ev_ReportSuspected now x t => (ReportSuspected now x t s).1
  | ev_RemoveSuspected now x rt => RemoveSuspected now x rt s
  | ev_OnUpdate now x => OnUpdate now x s
  | ev_OnReport now x rep => OnReport now x rep s
  | ev_OnForwardRequest now x d => OnForwardRequest now x d s
  | ev_ForwardThread now ex x d =>
      match ForwardThread_body now ex x d s with Done s' => s' | _ => s end
  | ev_UpdateLamportTime t => UpdateLamportTime t s
  | ev_stop => stop s
  end.

(** The states a server goes through from its construction. *)
Inductive reachable : SwimServer → Prop :=
  | reach_new host_name p cb threads poll :
      reachable (newSwimServer host_name p cb threads poll)
  | reach_step e s : reachable s → reachable (exec e s).

Lemma inv_exec e s : server_inv s → server_inv (exec e s).
Proof.
  destruct e as [| | | | | |now ex x d| |]; cbn [exec]; intros Hi; unfold stop; auto with gossip.
  destruct (ForwardThread_body now ex x d s) eqn:E; [|done..]. by eapply inv_ForwardThread.
Qed.

Lemma reachable_inv s : reachable s → server_inv s.
Proof. induction 1; auto using inv_exec with gossip. Qed.
End Exec.

(** ** The abstract state *)

Inductive Status := Alive | Suspect.

#[export] Instance Status_eq_dec : EqDecision Status.
Proof. solve_decision. Defined.

Abbreviation view := (gmap (string * Z) (Status * ServerRecord)).

Definition tag (st : Status) (r : ServerRecord) : (string * Z) * (Status * ServerRecord) :=
  (key (server r), (st, r)).

Definition view_of (s : SwimServer) : view :=
  list_to_map (tag Alive <$> alive_ s) ∪ list_to_map (tag Suspect <$> suspected_ s).

Section Abstract.
Context (now : Timestamp) (me : Server) (clock : Z).

Definition spec_AddAlive (x : Server) (t : Z) (m : view) : view :=
  if (port x =? 0)%Z then m
  else <[key x := (Alive, match m !! key x with
                          | Some (Alive, r) => touch t clock r
                          | _ => fresh_record now x t clock
                          end)]> m.

Definition spec_ReportSuspected (x : Server) (t : Z) (m : view) : view :=
  if (port x =? 0)%Z then m
  else if decide (key x = key me) then spec_AddAlive x t m
  else match m !! key x with
       | Some (Suspect, _) => m
       | _ => <[key x := (Suspect, fresh_record now x t clock)]> m
       end.

Definition spec_RemoveSuspected (x : Server) (m : view) : view :=
  match m !! key x with
  | Some (Suspect, _) => delete (key x) m
  | _ => m
  end.

(** The server holds the opposite status with a later time. *)
Definition overruled (st : Status) (r : ServerRecord) (m : view) : bool :=
  match m !! key (server r) with
  | Some (st', q) => bool_decide (st' ≠ st) && (lamport_time r <? lamport_time q)%Z
  | None => false
  end.

Definition spec_raise (r : ServerRecord) (m : view) : view :=
  alter (prod_map id (raise (incarnation (server r)))) (key (server r)) m.

Definition spec_report_alive (r : ServerRecord) (m : view) : view :=
  if decide (key (server r) = key me) then m
  else if overruled Alive r m then m
  else if (port (server r) =? 0)%Z then m
  else spec_raise r (spec_AddAlive (server r) (timestamp r) m).

Definition spec_report_suspected (r : ServerRecord) (m : view) : view :=
  if decide (key (server r) = key me) then m
  else if overruled Suspect r m then m
  else if (port (server r) =? 0)%Z then m
  else spec_raise r (spec_ReportSuspected (server r) (timestamp r) m).

Definition spec_OnReport (x : Server) (rep : SwimReport) (m : view) : view :=
  let m := spec_AddAlive x (CurrentTime now) m in
  let m := fold_left (λ m r, spec_report_alive r m) (alive rep) m in
  fold_left (λ m r, spec_report_suspected r m) (suspected rep) m.
End Abstract.

(** ** The view of a server *)

Lemma lookup_tag st x set : (list_to_map (tag st <$> set) : view) !! key x = pair st <$> seek x set.
Proof.
  unfold seek. induction set as [|r set IH]; [done|]. simpl.
  change (equivb (MakeRecord x 0%Z) r) with (Server_eqb x (server r)).
  rewrite lookup_insert. case_key.
  - by rewrite decide_True.
  - by rewrite decide_False.
Qed.

Lemma lookup_view x s :
  view_of s !! key x =
    match seek x (alive_ s) with
    | Some r => Some (Alive, r)
    | None => pair Suspect <$> seek x (suspected_ s)
    end.
Proof.
  unfold view_of. rewrite lookup_union, !lookup_tag.
  destruct (seek x (alive_ s)), (seek x (suspected_ s)); done.
Qed.

Lemma view_ext (m1 m2 : view) : (∀ x, m1 !! key x = m2 !! key x) → m1 = m2.
Proof.
  intros Hm. apply map_eq. intros [h p]. exact (Hm (mkServer h p None 0)).
Qed.

(** ** Each operation implements its abstract counterpart *)

Section Refinement.
Context {os : OS} (now : Timestamp).
Implicit Types (x y : Server) (s : SwimServer).

(** Splits on whether two keys agree and rewrites with the outcome. *)
Ltac by_key x y s :=
  destruct (decide (key y = key x)) as [Hk|Hk];
  [ rewrite (proj2 (Server_eqb_key y x) Hk), ?(seek_key y x _ Hk), ?Hk
  | rewrite (proj2 (Server_eqb_neq y x) Hk) ].

Lemma refine_AddAlive x t s :
  server_inv s →
  view_of (AddAlive now x t s).1 = spec_AddAlive now (lamport_time_ s) x t (view_of s).
Proof.
  intros Hi. unfold spec_AddAlive. destruct (Z.eqb_spec (port x) 0) as [E|Hp].
  { by rewrite AddAlive_port0. }
  apply view_ext. intros y. rewrite lookup_insert, !lookup_view.
  rewrite seek_alive_AddAlive, seek_suspected_AddAlive by eauto with gossip.
  by_key x y s.
  - rewrite decide_True by done.
    destruct (seek x (alive_ s)); [done|]. by destruct (seek x (suspected_ s)).
  - by rewrite decide_False.
Qed.

Lemma refine_ReportSuspected x t s :
  server_inv s →
  view_of (ReportSuspected now x t s).1 =
    spec_ReportSuspected now (self s) (lamport_time_ s) x t (view_of s).
Proof.
  intros Hi. unfold spec_ReportSuspected. destruct (Z.eqb_spec (port x) 0) as [E|Hp].
  { by rewrite ReportSuspected_port0. }
  case_decide as Hs.
  { rewrite ReportSuspected_self by done. by apply refine_AddAlive. }
  apply view_ext. intros y. rewrite (lookup_view y).
  rewrite seek_alive_ReportSuspected, seek_suspected_ReportSuspected by eauto with gossip.
  pose proof (lookup_view x s) as Hx.
  pose proof (inv_disjoint _ Hi x) as Hd.
  destruct (seek x (alive_ s)) as [r|] eqn:Ha.
  - rewrite Hx, Hd, lookup_insert by done. by_key x y s.
    + by rewrite decide_True.
    + by rewrite decide_False, lookup_view.
  - destruct (seek x (suspected_ s)) as [q|] eqn:Hq; rewrite Hx; simpl.
    + by_key x y s; [by rewrite Hx | by rewrite lookup_view].
    + rewrite lookup_insert. by_key x y s.
      * by rewrite decide_True.
      * by rewrite decide_False, lookup_view.
Qed.

Lemma refine_RemoveSuspected x rt s :
  server_inv s →
  view_of (RemoveSuspected now x rt s) = spec_RemoveSuspected x (view_of s).
Proof.
  intros Hi. unfold spec_RemoveSuspected.
  apply view_ext. intros y. rewrite (lookup_view y).
  rewrite alive_RemoveSuspected, suspected_RemoveSuspected.
  rewrite seek_erase by eauto with gossip.
  change (Server_eqb y (server (MakeRecord x now))) with (Server_eqb y x).
  pose proof (lookup_view x s) as Hx. pose proof (inv_disjoint _ Hi x) as Hd.
  destruct (seek x (alive_ s)) as [r|] eqn:Ha.
  - rewrite Hx. by_key x y s; [by rewrite Ha, Hx | by rewrite lookup_view].
  - destruct (seek x (suspected_ s)) as [q|] eqn:Hq; rewrite Hx; simpl.
    + rewrite lookup_delete. by_key x y s.
      * by rewrite decide_True, Ha.
      * by rewrite decide_False, lookup_view.
    + by_key x y s; [by rewrite Ha, Hx | by rewrite lookup_view].
Qed.

Lemma refine_OnUpdate x s :
  server_inv s →
  view_of (OnUpdate now x s) =
    spec_AddAlive now (lamport_time_ s) x (CurrentTime now) (view_of s).
Proof.
  intros Hi. rewrite <- refine_AddAlive by done.
  pose proof (inv_AddAlive now x (CurrentTime now) s Hi) as Hi'.
  unfold OnUpdate. destruct (AddAlive now x (CurrentTime now) s) as [s' b] eqn:Hs'. simpl in *.
  unfold view_of. simpl. rewrite erase_absent; [done|].
  rewrite find_seek.
  destruct (Z.eq_dec (port x) 0%Z) as [E|Hp]; [by apply (inv_port _ Hi')|].
  pose proof (seek_suspected_AddAlive now x x (CurrentTime now) s Hp (inv_suspected _ Hi)) as He.
  by rewrite Hs', Server_eqb_refl in He.
Qed.

(** Raising an incarnation in one of the two sets. *)
Lemma refine_raise_alive r s :
  server_inv s → is_Some (seek (server r) (alive_ s)) →
  view_of (set_alive (raise_incarnation now r (alive_ s)) s) = spec_raise r (view_of s).
Proof.
  intros Hi [q Hq]. apply view_ext. intros y. unfold spec_raise.
  rewrite lookup_alter, !lookup_view. simpl. rewrite seek_raise by eauto with gossip.
  by_key (server r) y s; rewrite ?Hq.
  - by rewrite decide_True.
  - by rewrite decide_False.
Qed.

Lemma refine_raise_suspected r s :
  server_inv s → seek (server r) (alive_ s) = None →
  view_of (set_suspected (raise_incarnation now r (suspected_ s)) s) = spec_raise r (view_of s).
Proof.
  intros Hi Ha. apply view_ext. intros y. unfold spec_raise.
  rewrite lookup_alter, !lookup_view. simpl. rewrite seek_raise by eauto with gossip.
  by_key (server r) y s; rewrite ?Ha.
  - rewrite decide_True by done. by destruct (seek (server r) (suspected_ s)).
  - by rewrite decide_False.
Qed.

Lemma raise_absent r set : seek (server r) set = None → raise_incarnation now r set = set.
Proof.
  intros Hn. unfold raise_incarnation. rewrite find_seek.
  change (seek (server (MakeRecord (server r) now)) set) with (seek (server r) set).
  by rewrite Hn.
Qed.

Lemma set_alive_id s : set_alive (alive_ s) s = s.
Proof. by destruct s. Qed.
Lemma set_suspected_id s : set_suspected (suspected_ s) s = s.
Proof. by destruct s. Qed.

Lemma known_later_suspected r s :
  server_inv s → known_later now r (suspected_ s) = overruled Alive r (view_of s).
Proof.
  intros Hi. unfold known_later, overruled. rewrite find_seek, lookup_view.
  change (seek (server (MakeRecord (server r) now)) (suspected_ s))
    with (seek (server r) (suspected_ s)).
  pose proof (inv_disjoint _ Hi (server r)) as Hd.
  destruct (seek (server r) (alive_ s)); [by rewrite Hd|].
  by destruct (seek (server r) (suspected_ s)).
Qed.

Lemma known_later_alive r s :
  server_inv s → known_later now r (alive_ s) = overruled Suspect r (view_of s).
Proof.
  intros Hi. unfold known_later, overruled. rewrite find_seek, lookup_view.
  change (seek (server (MakeRecord (server r) now)) (alive_ s))
    with (seek (server r) (alive_ s)).
  destruct (seek (server r) (alive_ s)); [done|].
  by destruct (seek (server r) (suspected_ s)).
Qed.

Lemma refine_OnReport_alive r s :
  server_inv s →
  view_of (OnReport_alive now r s) =
    spec_report_alive now (self s) (lamport_time_ s) r (view_of s).
Proof.
  intros Hi. unfold OnReport_alive, spec_report_alive.
  rewrite known_later_suspected by done. case_key.
  { by rewrite decide_True. }
  rewrite decide_False by done. case_if; [done|].
  destruct (Z.eqb_spec (port (server r)) 0) as [E0|Hp].
  - rewrite AddAlive_port0 by done. simpl.
    rewrite raise_absent by (by apply (inv_port _ Hi)). by rewrite set_alive_id.
  - rewrite <- refine_AddAlive by done. apply refine_raise_alive; [auto with gossip|].
    rewrite seek_alive_AddAlive, Server_eqb_refl by eauto with gossip. by eexists.
Qed.

Lemma refine_OnReport_suspected from r s :
  server_inv s →
  view_of (OnReport_suspected now from r s) =
    spec_report_suspected now (self s) (lamport_time_ s) r (view_of s).
Proof.
  intros Hi. unfold OnReport_suspected, spec_report_suspected.
  rewrite known_later_alive by done. case_key.
  { by rewrite decide_True. }
  rewrite decide_False by done. case_if; [done|].
  destruct (Z.eqb_spec (port (server r)) 0) as [E0|Hp].
  - rewrite ReportSuspected_port0 by done. simpl.
    rewrite raise_absent by (by apply (inv_port _ Hi)). by rewrite set_suspected_id.
  - rewrite <- refine_ReportSuspected by done.
    apply refine_raise_suspected; [auto with gossip|].
    by rewrite seek_alive_ReportSuspected, Server_eqb_refl by eauto with gossip.
Qed.

Lemma config_OnReport_alive r s : config (OnReport_alive now r s) = config s.
Proof.
  unfold OnReport_alive. do 2 (case_if; [done|]).
  apply (config_AddAlive now (server r) (timestamp r) s).
Qed.

Lemma config_OnReport_suspected from r s : config (OnReport_suspected now from r s) = config s.
Proof.
  unfold OnReport_suspected. do 2 (case_if; [done|]).
  apply (config_ReportSuspected now (server r) (timestamp r) s).
Qed.

(** A loop over records simulates the abstract loop when its body does. *)
Lemma refine_fold (f : ServerRecord → SwimServer → SwimServer)
    (g : Server → Z → ServerRecord → view → view) l s :
  (∀ r s, server_inv s → server_inv (f r s)) →
  (∀ r s, config (f r s) = config s) →
  (∀ r s, server_inv s → view_of (f r s) = g (self s) (lamport_time_ s) r (view_of s)) →
  server_inv s →
  view_of (fold_left (λ s r, f r s) l s) =
    fold_left (λ m r, g (self s) (lamport_time_ s) r m) l (view_of s).
Proof.
  intros Hinv Hcfg Hf. revert s. induction l as [|r l IH]; intros s Hi; simpl; [done|].
  rewrite IH, Hf by auto.
  by rewrite (config_self _ _ (Hcfg r s)), (config_clock _ _ (Hcfg r s)).
Qed.

Lemma config_fold {A} (f : A → SwimServer → SwimServer) l s :
  (∀ a s, config (f a s) = config s) → config (fold_left (λ s a, f a s) l s) = config s.
Proof.
  intros Hf. revert s. induction l as [|a l IH]; intros s; simpl; [done|]. by rewrite IH.
Qed.

Lemma refine_OnReport x rep s :
  server_inv s →
  view_of (OnReport now x rep s) =
    spec_OnReport now (self s) (lamport_time_ s) x rep (view_of s).
Proof.
  intros Hi. unfold OnReport, spec_OnReport.
  set (s1 := (AddAlive now x (CurrentTime now) s).1).
  set (s2 := fold_left (λ s r, OnReport_alive now r s) (alive rep) s1).
  assert (server_inv s1) as Hi1 by (subst s1; auto with gossip).
  assert (server_inv s2) as Hi2 by (apply fold_left_inv; auto with gossip).
  assert (config s1 = config s) as Hc1 by apply config_AddAlive.
  assert (config s2 = config s) as Hc2.
  { rewrite <- Hc1. apply config_fold, config_OnReport_alive. }
  rewrite (refine_fold _ (spec_report_suspected now));
    auto using config_OnReport_suspected, refine_OnReport_suspected with gossip.
  rewrite (config_self _ _ Hc2), (config_clock _ _ Hc2). f_equal.
  unfold s2. rewrite (refine_fold _ (spec_report_alive now));
    auto using config_OnReport_alive, refine_OnReport_alive with gossip.
  rewrite (config_self _ _ Hc1), (config_clock _ _ Hc1).
  unfold s1. by rewrite refine_AddAlive.
Qed.

Lemma config_OnReport x rep s : config (OnReport now x rep s) = config s.
Proof.
  unfold OnReport.
  rewrite (config_fold _ _ _ (config_OnReport_suspected _)).
  rewrite (config_fold _ _ _ config_OnReport_alive). apply config_AddAlive.
Qed.
End Refinement.

(** ** The simulation *)

(** The answer to the report that a forwarding thread sends to [d] on behalf of [x]. *)
Definition forward_answer {os : OS} {pb : Protobuf} (now : Timestamp) (ex : Exchange)
    (host : string) (p clock : Z) (x d : Server) : option bool :=
  (Send ex (mkSwimReport x [] [MakeRecord d now])
     (newSwimClient host clock d p kDefaultTimeoutMsec)).1.

(** The abstract transitions of a server whose identity is [me] and whose clients go by the
    name [host], on its clock and its view.  A forwarding thread changes nothing when its
    report is answered OK, suspects the destination when it is not, and ends the process
    without a change when there is no destination or its address is refused. *)
Inductive spec_step {os : OS} {pb : Protobuf} (host : string) (me : Server)
    : event → Z * view → Z * view → Prop :=
  | step_AddAlive now x t c m :
      spec_step host me (ev_AddAlive now x t) (c, m) (c, spec_AddAlive now c x t m)
  | step_ReportSuspected now x t c m :
      spec_step host me (ev_ReportSuspected now x t) (c, m)
        (c, spec_ReportSuspected now me c x t m)
  | step_RemoveSuspected now x rt c m :
      spec_step host me (ev_RemoveSuspected now x rt) (c, m) (c, spec_RemoveSuspected x m)
  | step_OnUpdate now x c m :
      spec_step host me (ev_OnUpdate now x) (c, m) (c, spec_AddAlive now c x (CurrentTime now) m)
  | step_OnReport now x rep c m :
      spec_step host me (ev_OnReport now x rep) (c, m) (c, spec_OnReport now me c x rep m)
  | step_OnForwardRequest now x d c m :
      spec_step host me (ev_OnForwardRequest now x d) (c, m)
        (c, spec_AddAlive now c x (CurrentTime now) m)
  | step_ForwardThread_answered now ex x d c m :
      forward_answer now ex host (port me) c x d = Some true →
      spec_step host me (ev_ForwardThread now ex x (Some d)) (c, m) (c, m)
  | step_ForwardThread_failed now ex x d c m :
      forward_answer now ex host (port me) c x d = Some false →
      spec_step host me (ev_ForwardThread now ex x (Some d)) (c, m)
        (c, spec_ReportSuspected now me c d (CurrentTime now) m)
  | step_ForwardThread_refused now ex x d c m :
      forward_answer now ex host (port me) c x d = None →
      spec_step host me (ev_ForwardThread now ex x (Some d)) (c, m) (c, m)
  | step_ForwardThread_null now ex x c m :
      spec_step host me (ev_ForwardThread now ex x None) (c, m) (c, m)
  | step_UpdateLamportTime t c m :
      spec_step host me (ev_UpdateLamportTime t) (c, m) (u64 (Z.max c t + 1), m)
  | step_stop c m : spec_step host me ev_stop (c, m) (c, m).

Definition abs (s : SwimServer) : Z * view := (lamport_time_ s, view_of s).

Section Simulation.
Context {os : OS} {pb : Protobuf}.

Lemma abs_config s s' m :
  config s' = config s → view_of s' = m → abs s' = (lamport_time_ s, m).
Proof. intros Hc <-. unfold abs. by rewrite (config_clock _ _ Hc). Qed.

Lemma exec_refines e s :
  server_inv s → spec_step (host_name_ s) (self s) e (abs s) (abs (exec e s)).
Proof.
  intros Hi. destruct e; cbn [exec].
  - rewrite (abs_config s _ _ (config_AddAlive _ _ _ _) (refine_AddAlive _ _ _ _ Hi)).
    constructor.
  - rewrite (abs_config s _ _ (config_ReportSuspected _ _ _ _)
      (refine_ReportSuspected _ _ _ _ Hi)). constructor.
  - rewrite (abs_config s _ _ (config_RemoveSuspected _ _ _ _)
      (refine_RemoveSuspected _ _ _ _ Hi)). constructor.
  - rewrite (abs_config s (OnUpdate now x s) _ (config_AddAlive now x (CurrentTime now) s)
      (refine_OnUpdate _ _ _ Hi)). constructor.
  - rewrite (abs_config s _ _ (config_OnReport _ _ _ _) (refine_OnReport _ _ _ _ Hi)).
    constructor.
  - rewrite (abs_config s (OnForwardRequest now x d s) _
      (config_AddAlive now x (CurrentTime now) s)
      (refine_AddAlive now x (CurrentTime now) s Hi)). constructor.
  - destruct d as [d|]; [|apply step_ForwardThread_null].
    unfold ForwardThread_body. cbn -[Send ReportSuspected].
    destruct (Send _ _ _).1 as [[]|] eqn:E; cbn [negb].
    + by apply step_ForwardThread_answered.
    + match goal with |- context [emit ?e s] => set (s' := emit e s) end.
      assert (server_inv s') as Hi' by (apply inv_emit, Hi).
      rewrite (abs_config s _ _ (config_ReportSuspected now d (CurrentTime now) s')
        (refine_ReportSuspected now d (CurrentTime now) s' Hi')).
      by apply (step_ForwardThread_failed _ _ now ex).
    + by apply step_ForwardThread_refused.
  - constructor.
  - constructor.
Qed.
End Simulation.
