(* ===== verification/Fixtures.v ===== *)
(** * Concrete servers for the examples

    A host, a few servers and the states of a small cluster node, used to evaluate
    the model on concrete inputs (the hosts and ports are those of the repository's
    own tests). *)

From Stdlib Require Import ZArith Lia Ascii String.
From stdpp Require Import base list strings gmap.
From S2P Require Import Prelude StdSet SwimCommon UtilsHost SwimClient SwimServer Membership.

(** An endpoint without a blank. *)
Fixpoint no_blank (uri : string) : bool :=
  match uri with
  | EmptyString => true
  | String a uri => negb (Ascii.eqb a " ") && no_blank uri
  end.

(** A host named [node0] with one IPv4 address. *)
#[export] Instance os0 : OS := {|
  gethostname := Some "node0";
  getaddrinfo := λ _, Some [mkAddrinfo AF_INET6 (Some "fe80::1") None;
                            mkAddrinfo AF_INET (Some "192.168.1.10") (Some "0.0.0.0")];
  getaddrinfo_passive := λ _, Some [mkAddrinfo AF_INET (Some "0.0.0.0") (Some "0.0.0.0")];
  zmq_connect := no_blank
|}.

(** Other hosts, by name, that resolve no address. *)
Definition os_named (name : string) : OS := {|
  gethostname := Some name;
  getaddrinfo := λ _, None;
  getaddrinfo_passive := λ _, None;
  zmq_connect := no_blank
|}.
Definition os1 : OS := os_named "host1".
Definition os3 : OS := os_named "host3".

(** 2020-05-16 00:00:00 UTC, in nanoseconds. *)
Definition t0 : Timestamp := 1589587200000000000.
Definition ms0 : Z := 1589587200000.

Definition host1 : Server := mkServer "host1" 1234 (Some "192.168.1.1") 0.
Definition host2 : Server := mkServer "host2" 9876 None 0.
Definition host3 : Server := mkServer "host3" 5500 None 7.

(** A node with a status callback, listening on port 9200. *)
Definition node : SwimServer := newSwimServer "node0" 9200 true kNumThreads 50.

(** The node after it saw [host1], then suspected [host2]. *)
Definition node_a : SwimServer := (AddAlive t0 host1 ms0 (UpdateLamportTime 4 node)).1.
Definition node_as : SwimServer := (ReportSuspected t0 host2 ms0 (UpdateLamportTime 9 node_a)).1.

Lemma node_as_inv : server_inv node_as.
Proof.
  unfold node_as, node_a, node. auto with gossip.
Qed.

Lemma node_a_inv : server_inv node_a.
Proof. unfold node_a, node. auto with gossip. Qed.
#[export] Hint Resolve node_as_inv node_a_inv : gossip.

Example node_as_members :
  (seek host1 (alive_ node_as), seek host2 (suspected_ node_as)) =
  (Some (fresh_record t0 host1 ms0 5), Some (fresh_record t0 host2 ms0 10)).
Proof. reflexivity. Qed.
