(* ===== verification/Report.v ===== *)
(** * Reports and their time budget ([SwimServer::PrepareReport],
      [AddRecordsToBudget], [cost])

    A report lists the records a server gossips about, most recent Lamport time
    first, until the accumulated cost of their age exceeds a budget.  The cost is
    computed in [double]: the model uses the IEEE 754 binary64 operations of the
    Standard Library's [SpecFloat], which compute.

    [std::sort] with the descending comparator leaves records with equal times in
    an unspecified order; the class [StdSort] states what it guarantees and the
    theorems hold for every sort that meets it. *)

From Stdlib Require Import ZArith Lia String SpecFloat.
From stdpp Require Import base list strings sorting gmap.
From S2P Require Import Prelude StdSet SwimCommon UtilsHost SwimClient SwimServer Membership Fixtures.

(** ** [double] *)

Abbreviation double := spec_float.
Definition double_add : double → double → double := SFadd 53 1024.
Definition double_mul : double → double → double := SFmul 53 1024.
(** [x > y] *)
Definition double_gt (x y : double) : bool := SFltb y x.
(** Conversion from [long], rounding to nearest even. *)
Definition double_of_long (z : Z) : double := binary_normalize 53 1024 z 0 false.

(** The double nearest to [0.01] and [300.0]. *)
Definition kTimeDecayConstant : double := S754_finite false 5764607523034235 (-59).
Definition kTimeDecayBudget : double := double_of_long 300.

Definition cost (t : Z) : double :=
  double_mul (double_mul kTimeDecayConstant (double_of_long t)) (double_of_long t).

Inductive ReportSelector := kAlive | kSuspected.

(** ** [std::sort] *)

(** The comparator of [AddRecordsToBudget]. *)
Definition later (r1 r2 : ServerRecord) : bool := (lamport_time r2 <? lamport_time r1)%Z.

(** Result: a permutation in which no element is ordered before an earlier one. *)
Class StdSort := {
  sort : list ServerRecord → list ServerRecord;
  sort_perm l : sort l ≡ₚ l;
  sort_sorted l : StronglySorted (λ r1 r2, later r2 r1 = false) (sort l)
}.

(** ** The report *)

Section Report.
Context {os : OS} {ss : StdSort}.

(** The age of a record in whole seconds: an unsigned difference read as signed
    milliseconds, truncated. *)
Definition age (now : Z) (item : ServerRecord) : Z :=
  let dt := u64 (now - timestamp item) in
  Z.quot (s64 dt) 1000.

(** The loop of [AddRecordsToBudget]. *)
Fixpoint within_budget (now : Z) (running_cost : double) (records : list ServerRecord)
    : list ServerRecord :=
  match records with
  | [] => []
  | item :: rest =>
      let running_cost := double_add running_cost (cost (age now item)) in
      if double_gt running_cost kTimeDecayBudget then []
      else item :: within_budget now running_cost rest
  end.

Definition AddRecordsToBudget (clock : Timestamp) (report : SwimReport)
    (records : list ServerRecord) (which : ReportSelector) : SwimReport :=
  let now := CurrentTime clock in
  let records := sort records in
  let added := within_budget now (S754_zero false) records in
  match which with
  | kAlive => mkSwimReport (report_sender report) (alive report ++ added) (suspected report)
  | kSuspected => mkSwimReport (report_sender report) (alive report) (suspected report ++ added)
  end.

(** The clock is read once per list. *)
Definition PrepareReport (clock1 clock2 : Timestamp) (s : SwimServer) : SwimReport :=
  let report := mkSwimReport (set_incarnation (incarnation_ s) (self s)) [] [] in
  let report := AddRecordsToBudget clock1 report (alive_ s) kAlive in
  AddRecordsToBudget clock2 report (suspected_ s) kSuspected.
End Report.

(** ** [std::sort] can be implemented *)

Definition later_eq (r1 r2 : ServerRecord) : Prop := (lamport_time r2 <= lamport_time r1)%Z.
#[export] Instance later_eq_dec : RelDecision later_eq.
Proof. intros r1 r2. unfold later_eq. apply _. Defined.
#[export] Instance later_eq_total : Total later_eq.
Proof. intros r1 r2. unfold later_eq. lia. Qed.
#[export] Instance later_eq_trans : Transitive later_eq.
Proof. intros r1 r2 r3. unfold later_eq. lia. Qed.

Program Definition merge_StdSort : StdSort := {| sort := merge_sort later_eq |}.
Next Obligation. intros l. apply merge_sort_Permutation. Qed.
Next Obligation.
  intros l. pose proof (StronglySorted_merge_sort later_eq l) as Hs.
  induction Hs as [|r l' Hs IH Hf]; constructor; [done|].
  eapply Forall_impl; [exact Hf|]. intros q. unfold later_eq, later. simpl.
  intros Hq. by apply Z.ltb_ge.
Qed.

(** ** What the loop keeps *)

Section WithinBudget.
Context (now : Z).
Implicit Types (l : list ServerRecord) (c : double).

(** The cost after adding every record of [l] to [c]. *)
Definition total_cost c l : double :=
  fold_left (λ c r, double_add c (cost (age now r))) l c.

Lemma within_budget_prefix c l : within_budget now c l `prefix_of` l.
Proof.
  revert c. induction l as [|r l IH]; intros c; simpl; [done|].
  case_if; [apply prefix_nil | apply prefix_cons, IH].
Qed.

(** Every partial sum of what is kept is within the budget. *)
Lemma within_budget_sound c l k :
  k `prefix_of` within_budget now c l → k ≠ [] →
  double_gt (total_cost c k) kTimeDecayBudget = false.
Proof.
  revert c k. induction l as [|r l IH]; intros c k; simpl.
  { intros ?%prefix_nil_inv. done. }
  case_if; [by intros ?%prefix_nil_inv|].
  destruct k as [|q k]; [done|]. intros Hp _.
  pose proof (prefix_cons_inv_1 _ _ _ _ Hp) as ->.
  apply prefix_cons_inv_2 in Hp. simpl. destruct k as [|q' k]; [done|].
  by apply IH.
Qed.

(** The record after the last one kept would exceed it. *)
Lemma within_budget_maximal c l r rest :
  l = within_budget now c l ++ r :: rest →
  double_gt (total_cost c (within_budget now c l ++ [r])) kTimeDecayBudget = true.
Proof.
  revert c. induction l as [|q l IH]; intros c; simpl; [done|].
  case_if; simpl; [by intros [= -> _]|]. intros [= Hl]. by apply IH.
Qed.
End WithinBudget.

Section Prepared.
Context {os : OS} {ss : StdSort}.
Implicit Types (s : SwimServer) (r q : ServerRecord).

Lemma PrepareReport_alive c1 c2 s :
  alive (PrepareReport c1 c2 s) =
    within_budget (CurrentTime c1) (S754_zero false) (sort (alive_ s)).
Proof. done. Qed.

Lemma PrepareReport_suspected c1 c2 s :
  suspected (PrepareReport c1 c2 s) =
    within_budget (CurrentTime c2) (S754_zero false) (sort (suspected_ s)).
Proof. done. Qed.

(** What is kept of a set is a sub-multiset of it. *)
Lemma kept_submseteq now set :
  within_budget now (S754_zero false) (sort set) ⊆+ set.
Proof.
  trans (sort set); [|apply Permutation_submseteq, sort_perm].
  apply prefix_submseteq, within_budget_prefix.
Qed.

Lemma kept_elem now set r :
  r ∈ within_budget now (S754_zero false) (sort set) → r ∈ set.
Proof. intros Hr. eapply elem_of_submseteq; [done | apply kept_submseteq]. Qed.

Lemma kept_latest now set r q :
  r ∈ within_budget now (S754_zero false) (sort set) → q ∈ set →
  (lamport_time r < lamport_time q)%Z →
  q ∈ within_budget now (S754_zero false) (sort set).
Proof.
  intros Hr Hq Hlt. destruct (within_budget_prefix now (S754_zero false) (sort set)) as [k Hk].
  pose proof (sort_sorted set) as Hs. rewrite <- (sort_perm set), Hk in Hq.
  apply elem_of_app in Hq as [?|Hq]; [done|].
  rewrite Hk in Hs. apply StronglySorted_app in Hs as (Hs & _ & _).
  specialize (Hs r q Hr Hq). unfold later in Hs. zbool. lia.
Qed.

(** The unsigned subtraction is the signed difference, for clocks less than
    2^63 milliseconds apart. *)
Lemma age_signed now r :
  (- two63 <= now - timestamp r < two63)%Z →
  age now r = Z.quot (now - timestamp r) 1000.
Proof. intros Hd. unfold age. by rewrite s64_u64. Qed.

Lemma age_recent now r :
  (-1000 < now - timestamp r < 1000)%Z → age now r = 0%Z.
Proof.
  intros Hd. rewrite age_signed by (unfold two63; lia). apply Z.quot_small_iff; lia.
Qed.

Lemma within_budget_recent now l :
  Forall (λ r, (-1000 < now - timestamp r < 1000)%Z) l →
  within_budget now (S754_zero false) l = l.
Proof.
  induction 1 as [|r l Hr _ IH]; simpl; [done|]. rewrite (age_recent _ _ Hr).
  change (double_add (S754_zero false) (cost 0)) with (S754_zero false). simpl.
  by rewrite IH.
Qed.

(** A report only lists records the server holds, each server at
    most once over the two lists, and never lists the server itself as suspected. *)
Theorem report_lists_members c1 c2 s :
  server_inv s →
  let rep := PrepareReport c1 c2 s in
  alive rep ⊆+ alive_ s ∧ suspected rep ⊆+ suspected_ s ∧
  NoDup ((λ r, key (server r)) <$> alive rep ++ suspected rep) ∧
  Forall (λ r, key (server r) ≠ key (self s)) (suspected rep).
Proof.
  intros Hi rep. unfold rep. rewrite PrepareReport_alive, PrepareReport_suspected.
  pose proof (kept_submseteq (CurrentTime c1) (alive_ s)) as Ha.
  pose proof (kept_submseteq (CurrentTime c2) (suspected_ s)) as Hs.
  split; [done|]. split; [done|]. split.
  - rewrite fmap_app. apply NoDup_app. split_and!.
    + eapply submseteq_fmap_NoDup; [done|]. apply ordered_NoDup_keys, Hi.
    + intros k (r & -> & Hr)%list_elem_of_fmap (q & E & Hq)%list_elem_of_fmap.
      apply kept_elem in Hr, Hq.
      pose proof (seek_elem _ _ (inv_alive _ Hi) Hr) as Hsr.
      pose proof (seek_elem _ _ (inv_suspected _ Hi) Hq) as Hsq.
      rewrite <- (seek_key _ _ (suspected_ s) E) in Hsq.
      rewrite (inv_disjoint _ Hi) in Hsq; [done | by eexists].
    + eapply submseteq_fmap_NoDup; [done|]. apply ordered_NoDup_keys, Hi.
  - apply list.Forall_forall. intros q Hq%kept_elem E.
    pose proof (seek_elem _ _ (inv_suspected _ Hi) Hq) as Hsq.
    by rewrite (inv_self _ Hi _ E) in Hsq.
Qed.

(** Reports favour recent news: a record of the server with a later
    Lamport time than a reported one is reported too. *)
Theorem report_latest_first c1 c2 s r q :
  let rep := PrepareReport c1 c2 s in
  (lamport_time r < lamport_time q)%Z →
  (r ∈ alive rep → q ∈ alive_ s → q ∈ alive rep) ∧
  (r ∈ suspected rep → q ∈ suspected_ s → q ∈ suspected rep).
Proof.
  intros rep Hlt. unfold rep. rewrite PrepareReport_alive, PrepareReport_suspected.
  split; intros Hr Hq; by eapply kept_latest.
Qed.

(** C35 The alive list of a report is the longest prefix of the
    records, sorted by descending Lamport time, whose accumulated cost stays within
    the budget: no non-empty prefix of it exceeds the budget and the next record
    would.  ([SwimServer.hpp] documents an order by time stamp instead.) *)
Theorem report_fills_budget c1 c2 s :
  let now := CurrentTime c1 in
  let listed := alive (PrepareReport c1 c2 s) in
  ∃ rest, sort (alive_ s) = listed ++ rest ∧
    (∀ k, k `prefix_of` listed → k ≠ [] →
       double_gt (total_cost now (S754_zero false) k) kTimeDecayBudget = false) ∧
    (∀ r, head rest = Some r →
       double_gt (total_cost now (S754_zero false) (listed ++ [r])) kTimeDecayBudget = true).
Proof.
  intros now listed. unfold listed. rewrite PrepareReport_alive.
  destruct (within_budget_prefix now (S754_zero false) (sort (alive_ s))) as [rest Hrest].
  exists rest. split; [done|]. split.
  - intros k. apply within_budget_sound.
  - intros r Hr. destruct rest as [|q rest]; simplify_eq/=.
    eapply within_budget_maximal; exact Hrest.
Qed.

(** Recent members are never left out: when every alive record
    was stamped less than a second before or after the report, all are listed. *)
Theorem report_complete_when_recent c1 c2 s :
  Forall (λ r, (-1000 < CurrentTime c1 - timestamp r < 1000)%Z) (alive_ s) →
  alive (PrepareReport c1 c2 s) ≡ₚ alive_ s.
Proof.
  intros Hf. rewrite PrepareReport_alive, within_budget_recent; [apply sort_perm|].
  by rewrite sort_perm.
Qed.
End Prepared.

(** ** Evaluated on a small node *)

Example cost_of_age : cost 100 = double_of_long 100 ∧ cost 173 ≠ cost 174.
Proof. split; vm_compute; [reflexivity | discriminate]. Qed.

Lemma report_lists_members_witness :
  let rep := PrepareReport (ss := merge_StdSort) t0 t0 node_as in
  suspected rep ⊆+ suspected_ node_as ∧ suspected rep ≠ [].
Proof.
  destruct (report_lists_members (ss := merge_StdSort) t0 t0 node_as node_as_inv)
    as (_ & H & _ & _).
  split; [exact H | vm_compute; discriminate].
Defined.

(** The report of a node with two alive servers, a minute after the first was seen. *)
Definition node_two : SwimServer :=
  (AddAlive t0 host2 (ms0 + 60000) (UpdateLamportTime 9 node_a)).1.

Lemma report_latest_first_witness :
  fresh_record t0 host2 (ms0 + 60000) 10 ∈
    alive (PrepareReport (ss := merge_StdSort) (t0 + 60000000000) (t0 + 60000000000) node_two).
Proof.
  destruct (report_latest_first (ss := merge_StdSort) (t0 + 60000000000) (t0 + 60000000000)
    node_two (fresh_record t0 host1 ms0 5) (fresh_record t0 host2 (ms0 + 60000) 10)
    ltac:(reflexivity)) as [H _].
  apply H; vm_compute; right; left.
Defined.

Lemma report_complete_when_recent_witness :
  alive (PrepareReport (ss := merge_StdSort) (t0 + 500000000) (t0 + 500000000) node_a) ≡ₚ
    alive_ node_a.
Proof.
  apply report_complete_when_recent. repeat constructor; vm_compute; reflexivity.
Defined.
