(* ===== verification/Codec.v ===== *)
(** * A codec that meets the protocol-buffer interface

    [ProtobufLaws] is what the development assumes of the generated code.  This file
    shows that the assumption can hold: an executable encoding of envelopes as
    strings of bits, through stdpp's [Countable] encodings, with its decoder. *)

From Stdlib Require Import ZArith Ascii String.
From stdpp Require Import base list strings countable.
From S2P Require Import Prelude SwimCommon SwimClient.

#[export] Instance Server_countable : Countable Server.
Proof.
  apply (inj_countable' (λ s, (hostname s, port s, ip_addr_ s, incarnation s))
    (λ '(h, p, i, n), mkServer h p i n)). by intros [].
Defined.

#[export] Instance ServerRecord_countable : Countable ServerRecord.
Proof.
  apply (inj_countable' (λ r, (server r, timestamp r, lamport_time r, forwarder r))
    (λ '(s, t, l, f), mkServerRecord s t l f)). by intros [].
Defined.

#[export] Instance SwimReport_countable : Countable SwimReport.
Proof.
  apply (inj_countable' (λ r, (report_sender r, alive r, suspected r))
    (λ '(s, a, u), mkSwimReport s a u)). by intros [].
Defined.

#[export] Instance Type_eq_dec : EqDecision SwimEnvelope_Type.
Proof. solve_decision. Defined.

#[export] Instance Type_countable : Countable SwimEnvelope_Type.
Proof.
  apply (inj_countable'
    (λ t, match t with
          | STATUS_UNKNOWN => inl 0 | STATUS_UPDATE => inl 1 | STATUS_REPORT => inl 2
          | STATUS_REQUEST => inl 3 | STATUS_BROADCAST => inl 4
          | STATUS_unrecognized n => inr n end)
    (λ t, match t with
          | inl 0 => STATUS_UNKNOWN | inl 1 => STATUS_UPDATE | inl 2 => STATUS_REPORT
          | inl 3 => STATUS_REQUEST | inl _ => STATUS_BROADCAST
          | inr n => STATUS_unrecognized n end)). by intros [].
Defined.

#[export] Instance SwimEnvelope_eq_dec : EqDecision SwimEnvelope.
Proof. solve_decision. Defined.

#[export] Instance SwimEnvelope_countable : Countable SwimEnvelope.
Proof.
  apply (inj_countable'
    (λ e, (type e, sender e, env_lamport_time e, report e, destination_server e))
    (λ '(t, s, l, r, d), mkSwimEnvelope t s l r d)). by intros [].
Defined.

Fixpoint to_bits (p : positive) : string :=
  match p with
  | xH => EmptyString
  | xO p => String "0" (to_bits p)
  | xI p => String "1" (to_bits p)
  end.

Fixpoint of_bits (s : string) : option positive :=
  match s with
  | EmptyString => Some xH
  | String a s =>
      if Ascii.eqb a "0" then xO <$> of_bits s
      else if Ascii.eqb a "1" then xI <$> of_bits s
      else None
  end.

Lemma of_to_bits p : of_bits (to_bits p) = Some p.
Proof. induction p as [p IH|p IH|]; simpl; by rewrite ?IH. Qed.

Definition bit_codec : Protobuf := {|
  SerializeAsString := λ e, to_bits (encode e);
  ParseFromArray := λ s, of_bits s ≫= decode
|}.

#[export] Instance bit_codec_laws : ProtobufLaws bit_codec.
Proof. intros e _. simpl. rewrite of_to_bits. simpl. apply decode_encode. Qed.
