(* ===== verification/ServerTypes.v ===== *)
(** * Machine types of the server's state

    The model keeps [uint64_t], [fixed64] and [int32] fields as integers.  Whatever
    well-typed events a server processes, every integer in its state and in the
    messages it posts stays in the range of its C++ type, so no conversion of the
    source is silently exceeded by the model. *)

From Stdlib Require Import ZArith Lia String.
From stdpp Require Import base list strings gmap.
From S2P Require Import Prelude StdSet SwimCommon UtilsHost SwimClient SwimServer Membership Refinement Fixtures Codec.

(** ** Typed data *)

Record SwimReport_typed (rep : SwimReport) : Prop := {
  report_sender_typed : Server_typed (report_sender rep);
  report_alive_typed : Forall ServerRecord_typed (alive rep);
  report_suspected_typed : Forall ServerRecord_typed (suspected rep)
}.

Record SwimEnvelope_typed (e : SwimEnvelope) : Prop := {
  env_time_typed : is_u64 (env_lamport_time e);
  env_sender_typed : ∀ x, sender e = Some x → Server_typed x;
  env_report_typed : ∀ rep, report e = Some rep → SwimReport_typed rep
}.

Definition Effect_typed (e : Effect) : Prop :=
  match e with
  | StatusCallback (Some r) _ => ServerRecord_typed r
  | StatusCallback None _ => True
  | Posted _ envelope => SwimEnvelope_typed envelope
  | ForwardThread x d => Server_typed x ∧ ∀ y, d = Some y → Server_typed y
  end.

(** [port_] is an [unsigned short]. *)
Record SwimServer_typed (s : SwimServer) : Prop := {
  clock_typed : is_u64 (lamport_time_ s);
  own_incarnation_typed : is_u64 (incarnation_ s);
  own_port_typed : (0 <= port_ s < 65536)%Z;
  alive_typed : Forall ServerRecord_typed (alive_ s);
  suspected_typed : Forall ServerRecord_typed (suspected_ s);
  effects_typed : Forall Effect_typed (effects_ s)
}.

Definition event_typed (e : event) : Prop :=
  match e with
  | ev_AddAlive _ x t | ev_ReportSuspected _ x t => Server_typed x ∧ is_u64 t
  | ev_RemoveSuspected _ x _ | ev_OnUpdate _ x => Server_typed x
  | ev_OnReport _ x rep => Server_typed x ∧ SwimReport_typed rep
  | ev_OnForwardRequest _ x d | ev_ForwardThread _ _ x d =>
      Server_typed x ∧ ∀ y, d = Some y → Server_typed y
  | ev_UpdateLamportTime t => is_u64 t
  | ev_stop => True
  end.

#[export] Hint Resolve clock_typed own_incarnation_typed own_port_typed alive_typed suspected_typed
  effects_typed report_sender_typed report_alive_typed report_suspected_typed : gossip.

(** ** Sets of typed records *)

Section Sets.
Context {A : Type} `{StrictWeakOrder A} (P : A → Prop).

Lemma Forall_insert_set x s : P x → Forall P s → Forall P (insert x s).1.
Proof.
  rewrite !list.Forall_forall. intros Hx Hs y [->|Hy]%elem_of_insert; auto.
Qed.

Lemma Forall_erase_set x s : Forall P s → Forall P (erase x s).1.
Proof. rewrite !list.Forall_forall. intros Hs y Hy%elem_of_erase. auto. Qed.

Lemma Forall_modify_set f x s : (∀ y, P y → P (f y)) → Forall P s → Forall P (modify f x s).
Proof.
  intros Hf. induction 1 as [|y s Hy Hs IH]; cbn [modify]; [constructor|].
  case_if; constructor; auto.
Qed.
End Sets.

(** Raising an incarnation keeps what depends on the names of the servers only. *)
Lemma Forall_raise (P : Server → Prop) now r set :
  (∀ x y, key x = key y → P x → P y) → ordered set →
  Forall (λ q, P (server q)) set → Forall (λ q, P (server q)) (raise_incarnation now r set).
Proof.
  intros HP Ho Hf. rewrite raise_incarnation_modify by done. apply Forall_modify_set; [|done].
  intros q. apply HP. symmetry.
  apply (proj1 (record_equiv_key _ _) (raise_equiv (incarnation (server r)) q)).
Qed.

Lemma CurrentTime_u64 now : is_u64 (CurrentTime now).
Proof. apply u64_range. Qed.
#[export] Hint Resolve CurrentTime_u64 : gossip.

Lemma touch_typed t l r :
  is_u64 t → is_u64 l → ServerRecord_typed r →
  ServerRecord_typed (set_lamport_time l (set_timestamp t r)).
Proof. intros Ht Hl [Hs _ _]. by split. Qed.
#[export] Hint Resolve touch_typed : gossip.

Lemma raise_typed i r : is_u64 i → ServerRecord_typed r → ServerRecord_typed (raise i r).
Proof.
  intros Hi Hr. unfold raise. case_if; [|done]. destruct Hr as [[Hp _] Ht Hl].
  split; [split; [exact Hp | exact Hi] | done | done].
Qed.

(** ** Operations *)

Section Typed.
Context {os : OS}.
Implicit Types (s : SwimServer) (x : Server) (r : ServerRecord).

Lemma typed_emit e s : SwimServer_typed s → Effect_typed e → SwimServer_typed (emit e s).
Proof.
  intros [] He. constructor; try done. simpl. apply Forall_app. split; [done|].
  by constructor.
Qed.

Lemma typed_callback (r : option ServerRecord) st s :
  SwimServer_typed s → (∀ q, r = Some q → ServerRecord_typed q) →
  SwimServer_typed (callback r st s).
Proof.
  intros Hs Hr. unfold callback. case_if; [|done]. apply typed_emit; [done|].
  destruct r as [q|]; [by apply Hr | done].
Qed.

Lemma typed_set_alive l s :
  SwimServer_typed s → Forall ServerRecord_typed l → SwimServer_typed (set_alive l s).
Proof. intros [] Hl. by constructor. Qed.

Lemma typed_set_suspected l s :
  SwimServer_typed s → Forall ServerRecord_typed l → SwimServer_typed (set_suspected l s).
Proof. intros [] Hl. by constructor. Qed.

Lemma typed_RemoveSuspected now x rt s :
  SwimServer_typed s → Server_typed x → SwimServer_typed (RemoveSuspected now x rt s).
Proof.
  intros Hs Hx. unfold RemoveSuspected.
  pose proof (Forall_erase_set ServerRecord_typed (MakeRecord x now) _ (suspected_typed _ Hs)) as He.
  destruct (erase _ _) as [set num]. simpl in He.
  assert (SwimServer_typed (set_suspected set s)) by (by apply typed_set_suspected).
  destruct rt; [done|]. case_if; [|done]. apply typed_callback; [done|].
  intros q [= <-]. auto with gossip.
Qed.

Lemma typed_AddAlive now x t s :
  SwimServer_typed s → Server_typed x → is_u64 t → SwimServer_typed (AddAlive now x t s).1.
Proof.
  intros Hs0 Hx Ht. unfold AddAlive. case_if; [done|].
  pose proof (typed_RemoveSuspected now x remove_alive s Hs0 Hx) as Hs.
  set (s1 := RemoveSuspected now x remove_alive s) in *. clearbody s1.
  set (r := set_lamport_time (lamport_time_ s1) (set_timestamp t (MakeRecord x now))).
  assert (ServerRecord_typed r) as Hr by (apply touch_typed; auto with gossip).
  pose proof (Forall_insert_set ServerRecord_typed r _ Hr (alive_typed _ Hs)) as Hi.
  destruct (insert r (alive_ s1)) as [set ins]. simpl in Hi.
  assert (SwimServer_typed (set_alive set s1)) as Hset by (by apply typed_set_alive).
  destruct ins; simpl.
  - apply typed_callback; [done|]. by intros q [= <-].
  - destruct (find r set); [|done]. apply typed_set_alive; [done|].
    apply Forall_modify_set; [|done]. intros q Hq. apply touch_typed; auto with gossip.
Qed.

Lemma typed_ReportSuspected now x t s :
  SwimServer_typed s → Server_typed x → is_u64 t →
  SwimServer_typed (ReportSuspected now x t s).1.
Proof.
  intros Hs Hx Ht. unfold ReportSuspected. case_if; [done|].
  case_if; [by apply typed_AddAlive|].
  set (r := set_lamport_time (lamport_time_ s) (set_timestamp t (MakeRecord x now))).
  assert (ServerRecord_typed r) as Hr by (apply touch_typed; auto with gossip).
  assert (SwimServer_typed (set_alive (erase r (alive_ s)).1 s)) as Hs1.
  { apply typed_set_alive; [done|]. apply Forall_erase_set. auto with gossip. }
  set (s1 := set_alive _ s) in *. clearbody s1.
  pose proof (Forall_insert_set ServerRecord_typed r _ Hr (suspected_typed _ Hs1)) as Hi.
  destruct (insert r (suspected_ s1)) as [set ins]. simpl in Hi.
  assert (SwimServer_typed (set_suspected set s1)) as Hset by (by apply typed_set_suspected).
  destruct ins; [|done]. by apply typed_callback.
Qed.

Lemma typed_raised now r l :
  ordered l → ServerRecord_typed r → Forall ServerRecord_typed l →
  Forall ServerRecord_typed (raise_incarnation now r l).
Proof.
  intros Ho [[_ Hi] _ _] Hl. rewrite raise_incarnation_modify by done.
  apply Forall_modify_set; [|done]. intros q. by apply raise_typed.
Qed.

(** What a client made by the server posts. *)
Lemma typed_posted uri host c dest p e :
  is_u64 c → (0 <= p < 65536)%Z → (∀ rep, report e = Some rep → SwimReport_typed rep) →
  Effect_typed (Posted uri (stamp (newSwimClient host c dest p kDefaultTimeoutMsec) e).2).
Proof.
  intros Hc Hp He. constructor; simpl; [apply u64_range | | done].
  intros x [= <-]. split; simpl; [lia | unfold is_u64, two64; lia].
Qed.

Lemma typed_OnReport_alive now r s :
  server_inv s → SwimServer_typed s → ServerRecord_typed r →
  SwimServer_typed (OnReport_alive now r s).
Proof.
  intros Hi Hs Hr. unfold OnReport_alive. do 2 (case_if; [done|]).
  assert (SwimServer_typed (AddAlive now (server r) (timestamp r) s).1)
    by (apply typed_AddAlive; auto with gossip).
  apply typed_set_alive; [done|]. apply typed_raised; [|done | auto with gossip].
  apply inv_alive. auto with gossip.
Qed.

Lemma typed_OnReport_suspected now from r s :
  server_inv s → SwimServer_typed s → ServerRecord_typed r →
  SwimServer_typed (OnReport_suspected now from r s).
Proof.
  intros Hi Hs Hr. unfold OnReport_suspected. case_if.
  { apply typed_emit; [done|]. apply typed_posted; auto with gossip. by intros rep [=]. }
  case_if; [done|].
  assert (SwimServer_typed (ReportSuspected now (server r) (timestamp r) s).1)
    by (apply typed_ReportSuspected; auto with gossip).
  apply typed_set_suspected; [done|]. apply typed_raised; [|done | auto with gossip].
  apply inv_suspected. auto with gossip.
Qed.

(** A loop over typed records whose body keeps the invariant and the types. *)
Lemma typed_loop (f : SwimServer → ServerRecord → SwimServer) l s :
  (∀ s r, server_inv s → server_inv (f s r)) →
  (∀ s r, server_inv s → SwimServer_typed s → ServerRecord_typed r → SwimServer_typed (f s r)) →
  Forall ServerRecord_typed l → server_inv s → SwimServer_typed s →
  server_inv (fold_left f l s) ∧ SwimServer_typed (fold_left f l s).
Proof.
  intros Hinv Htyped Hl. revert s. induction Hl as [|r l Hr _ IH]; intros s Hi Hs; simpl; [done|].
  apply IH; auto.
Qed.

Lemma typed_OnReport now x rep s :
  server_inv s → SwimServer_typed s → Server_typed x → SwimReport_typed rep →
  SwimServer_typed (OnReport now x rep s).
Proof.
  intros Hi Hs Hx Hrep. unfold OnReport.
  destruct (typed_loop (λ s r, OnReport_alive now r s) (alive rep)
    (AddAlive now x (CurrentTime now) s).1) as [Hi1 Hs1]; auto with gossip.
  { auto using typed_OnReport_alive. }
  { apply typed_AddAlive; auto with gossip. }
  apply typed_loop; auto with gossip. auto using typed_OnReport_suspected.
Qed.

Lemma typed_ForwardThread {pb : Protobuf} now ex x d s s' :
  SwimServer_typed s → Server_typed x → Server_typed d →
  ForwardThread_body now ex x (Some d) s = Done s' → SwimServer_typed s'.
Proof.
  intros Hs Hx Hd. unfold ForwardThread_body. cbn -[Send ReportSuspected emit].
  assert (∀ uri, SwimServer_typed (emit (Posted uri
    (stamp (newSwimClient (host_name_ s) (lamport_time_ s) d (port_ s) kDefaultTimeoutMsec)
      (Send_envelope (mkSwimReport x [] [MakeRecord d now]))).2) s)) as He.
  { intros uri. apply typed_emit; [done|]. apply typed_posted; auto with gossip.
    intros rep [= <-]. split; simpl; auto with gossip. }
  destruct (Send _ _ _).1 as [ok|]; [|done]. intros [= <-].
  destruct ok; cbn [negb]; [apply He | apply typed_ReportSuspected; auto with gossip].
Qed.

(** Every integer of the server's state stays in the range of its C++ type
    (clock, time stamps and incarnations in 64 bits, ports in their types), and so do
    those of the messages it posts and of the records it hands to the callback, for
    every event whose data are in range. *)
Theorem exec_well_typed {pb : Protobuf} e s :
  server_inv s → SwimServer_typed s → event_typed e → SwimServer_typed (exec e s).
Proof.
  intros Hi Hs He. destruct e; cbn [exec event_typed] in *.
  - destruct He. by apply typed_AddAlive.
  - destruct He. by apply typed_ReportSuspected.
  - by apply typed_RemoveSuspected.
  - unfold OnUpdate. assert (SwimServer_typed (AddAlive now x (CurrentTime now) s).1)
      by (apply typed_AddAlive; auto with gossip).
    apply typed_set_suspected; [done|]. apply Forall_erase_set. auto with gossip.
  - destruct He. by apply typed_OnReport.
  - destruct He. apply typed_emit; [apply typed_AddAlive; auto with gossip | done].
  - destruct He as [Hx Hd]. destruct d as [d|]; [|done].
    destruct (ForwardThread_body now ex x (Some d) s) eqn:E; [|done..].
    eapply typed_ForwardThread; [exact Hs | exact Hx | by apply Hd | exact E].
  - destruct Hs. constructor; try done. apply u64_range.
  - by destruct Hs.
Qed.
End Typed.

Lemma node_as_typed : SwimServer_typed node_as.
Proof.
  constructor; try (vm_compute; done).
  - repeat constructor; vm_compute; done.
  - repeat constructor; vm_compute; done.
  - repeat constructor; vm_compute; done.
Qed.

Lemma exec_well_typed_witness :
  SwimServer_typed (exec (pb := bit_codec) (ev_ReportSuspected t0 host3 (two64 - 1)) node_as).
Proof.
  apply (exec_well_typed (pb := bit_codec)).
  - apply node_as_inv.
  - apply node_as_typed.
  - split; [split|]; vm_compute; split; discriminate || reflexivity.
Defined.
