(* ===== verification/ServerProps.v ===== *)
(** * Properties of the membership server

    Theorems about [SwimServer.v], most of them obtained from the abstract view of
    [Refinement.v]. *)

From Stdlib Require Import ZArith Lia String.
From stdpp Require Import base list strings gmap.
From S2P Require Import Prelude StdSet SwimCommon UtilsHost SwimClient SwimServer Membership Refinement Fixtures.

(** ** Effects of the two updates *)

Section Effects.
Context {os : OS} (now : Timestamp).

Lemma effects_RemoveSuspected_alive x s :
  effects_ (RemoveSuspected now x remove_alive s) = effects_ s.
Proof. unfold RemoveSuspected. by destruct (erase _ _). Qed.

Lemma effects_AddAlive x t s :
  effects_ (AddAlive now x t s).1 =
    effects_ s ++
    (if (AddAlive now x t s).2 && statusCb s
     then [StatusCallback (Some (fresh_record now x t (lamport_time_ s))) status_alive]
     else []).
Proof.
  unfold AddAlive. case_if; [by rewrite app_nil_r|].
  rewrite (config_clock _ _ (config_RemoveSuspected now x remove_alive s)).
  destruct (insert _ _) as [set ins]. destruct ins; simpl.
  - rewrite effects_callback. simpl. rewrite effects_RemoveSuspected_alive.
    assert (statusCb (RemoveSuspected now x remove_alive s) = statusCb s) as ->.
    { pose proof (config_RemoveSuspected now x remove_alive s). unfold config in *. congruence. }
    done.
  - rewrite app_nil_r. destruct (find _ _); simpl; apply effects_RemoveSuspected_alive.
Qed.

Lemma effects_ReportSuspected x t s :
  port x ≠ 0%Z → key x ≠ key (self s) →
  effects_ (ReportSuspected now x t s).1 =
    effects_ s ++
    (if (ReportSuspected now x t s).2 && statusCb s
     then [StatusCallback None status_suspect] else []).
Proof.
  intros Hp%Z.eqb_neq Hs%Server_eqb_neq. unfold ReportSuspected. rewrite Hp, Hs.
  destruct (insert _ _) as [set ins]. destruct ins; simpl.
  - by rewrite effects_callback.
  - by rewrite app_nil_r.
Qed.
End Effects.

(** ** Functional behaviour *)

(** C1 Whatever sequence of events a server has gone through since its construction,
    its two sets are strictly ordered (so no server appears twice in one of them), no
    server is both alive and suspected, no server on port 0 is known, and the server
    does not suspect itself. *)
Theorem reachable_well_formed {os : OS} {pb : Protobuf} (s : SwimServer) :
  reachable s → server_inv s.
Proof. apply reachable_inv. Qed.

Lemma reachable_well_formed_witness : ∃ pb : Protobuf, reachable node_as ∧ server_inv node_as.
Proof.
  exists {| SerializeAsString := λ _, ""; ParseFromArray := λ _, None |}.
  assert (reachable (pb:={| SerializeAsString := λ _, ""; ParseFromArray := λ _, None |})
    node_as) as Hr.
  { apply (reach_step (ev_ReportSuspected t0 host2 ms0)),
      (reach_step (ev_UpdateLamportTime 9)), (reach_step (ev_AddAlive t0 host1 ms0)),
      (reach_step (ev_UpdateLamportTime 4)), reach_new. }
  split; [exact Hr | exact (reachable_well_formed node_as Hr)].
Defined.

(** C2 The implementation simulates the abstract protocol: on a well-formed server,
    every event changes the clock and the membership view as the abstract transition
    of that event does; the step of a forwarding thread is the one for the answer its report
    got. *)
Theorem exec_simulates {os : OS} {pb : Protobuf} (e : event) (s : SwimServer) :
  server_inv s → spec_step (host_name_ s) (self s) e (abs s) (abs (exec e s)).
Proof. apply exec_refines. Qed.

Lemma exec_simulates_witness :
  spec_step (pb:={| SerializeAsString := λ _, ""; ParseFromArray := λ _, None |})
    (host_name_ node_as) (self node_as) (ev_OnUpdate t0 host2) (abs node_as)
    (abs (OnUpdate t0 host2 node_as)).
Proof.
  exact (exec_simulates
    (pb:={| SerializeAsString := λ _, ""; ParseFromArray := λ _, None |})
    (ev_OnUpdate t0 host2) node_as node_as_inv).
Defined.

Section Functional.
Context {os : OS} (now : Timestamp).
Implicit Types (x y : Server) (s : SwimServer).

(** C3 [AddAlive] on a server with a port: the server is no longer suspected, it is
    alive with the given timestamp and the current clock, an already known record
    keeps its incarnation and a new one starts at 0; nothing changes for any other
    server; the result and the callback (which gets the new record) tell exactly
    when the server was not alive before. *)
Theorem AddAlive_marks_alive x t s :
  server_inv s → port x ≠ 0%Z →
  let s' := (AddAlive now x t s).1 in
  let inserted := (AddAlive now x t s).2 in
  seek x (suspected_ s') = None ∧
  (∃ r, seek x (alive_ s') = Some r ∧ timestamp r = t ∧
     lamport_time r = lamport_time_ s ∧
     incarnation (server r) =
       match seek x (alive_ s) with Some q => incarnation (server q) | None => 0%Z end) ∧
  (∀ y, key y ≠ key x →
     seek y (alive_ s') = seek y (alive_ s) ∧
     seek y (suspected_ s') = seek y (suspected_ s)) ∧
  inserted = bool_decide (seek x (alive_ s) = None) ∧
  effects_ s' = effects_ s ++
    (if inserted && statusCb s
     then [StatusCallback (Some (fresh_record now x t (lamport_time_ s))) status_alive]
     else []).
Proof.
  intros Hi Hp s' inserted. unfold s', inserted.
  pose proof (inv_alive _ Hi) as Ha. pose proof (inv_suspected _ Hi) as Hs.
  rewrite !seek_suspected_AddAlive, !seek_alive_AddAlive, !Server_eqb_refl by done.
  split_and!; [done | | | | apply effects_AddAlive].
  - eexists. split; [done|]. by destruct (seek x (alive_ s)).
  - intros y Hy. rewrite seek_suspected_AddAlive, seek_alive_AddAlive by done.
    by rewrite (proj2 (Server_eqb_neq y x) Hy).
  - rewrite AddAlive_result by done. by destruct (seek x (alive_ s)).
Qed.

(** C4 [ReportSuspected] on another server with a port: the server is no longer
    alive; a first suspicion stores the given timestamp and the current clock, and a
    repeated one changes nothing, so it cannot postpone the eviction; nothing changes
    for any other server; the callback runs exactly on a first suspicion, and is
    handed a null pointer, because the record was moved into the set. *)
Theorem ReportSuspected_suspects x t s :
  server_inv s → port x ≠ 0%Z → key x ≠ key (self s) →
  let s' := (ReportSuspected now x t s).1 in
  let inserted := (ReportSuspected now x t s).2 in
  seek x (alive_ s') = None ∧
  seek x (suspected_ s') =
    Some (default (fresh_record now x t (lamport_time_ s)) (seek x (suspected_ s))) ∧
  (∀ y, key y ≠ key x →
     seek y (alive_ s') = seek y (alive_ s) ∧
     seek y (suspected_ s') = seek y (suspected_ s)) ∧
  inserted = bool_decide (seek x (suspected_ s) = None) ∧
  effects_ s' = effects_ s ++
    (if inserted && statusCb s then [StatusCallback None status_suspect] else []).
Proof.
  intros Hi Hp Hse s' inserted. unfold s', inserted.
  pose proof (inv_alive _ Hi) as Ha. pose proof (inv_suspected _ Hi) as Hs.
  rewrite !seek_suspected_ReportSuspected, !seek_alive_ReportSuspected, !Server_eqb_refl by done.
  split_and!; [done | done | | | by apply effects_ReportSuspected].
  - intros y Hy. rewrite seek_suspected_ReportSuspected, seek_alive_ReportSuspected by done.
    by rewrite (proj2 (Server_eqb_neq y x) Hy).
  - rewrite ReportSuspected_result by done. by destruct (seek x (suspected_ s)).
Qed.
End Functional.

Lemma AddAlive_marks_alive_witness :
  seek host2 (suspected_ (AddAlive t0 host2 ms0 node_as).1) = None.
Proof. apply (AddAlive_marks_alive t0 host2 ms0 node_as node_as_inv). done. Defined.

Lemma ReportSuspected_suspects_witness :
  seek host1 (alive_ (ReportSuspected t0 host1 ms0 node_as).1) = None.
Proof.
  apply (ReportSuspected_suspects t0 host1 ms0 node_as node_as_inv); done.
Defined.

(** ** Knowledge is kept *)

Section Views.
Context (now : Timestamp) (me : Server) (clock : Z).
Implicit Types (m : view) (r : ServerRecord).

(** A property of view entries that every abstract operation of a report keeps. *)
Lemma fold_view {A : Type} (P : view → Prop) (f : A → view → view) l m :
  (∀ a m, a ∈ l → P m → P (f a m)) → P m → P (fold_left (λ m a, f a m) l m).
Proof.
  revert m. induction l as [|a l IH]; intros m Hf Hm; simpl; [done|].
  apply IH; [|apply Hf; [left | done]]. intros b m' Hb. apply Hf. by right.
Qed.

Lemma known_AddAlive k x t m :
  is_Some (m !! k) → is_Some (spec_AddAlive now clock x t m !! k).
Proof.
  intros Hk. unfold spec_AddAlive. case_if; [done|].
  rewrite lookup_insert. case_decide; eauto.
Qed.

Lemma known_ReportSuspected k x t m :
  is_Some (m !! k) → is_Some (spec_ReportSuspected now me clock x t m !! k).
Proof.
  intros Hk. unfold spec_ReportSuspected. case_if; [done|].
  case_decide; [by apply known_AddAlive|].
  repeat case_match; try done; rewrite lookup_insert; case_decide; eauto.
Qed.

Lemma known_raise k r m : is_Some (m !! k) → is_Some (spec_raise r m !! k).
Proof.
  intros [v Hk]. unfold spec_raise. rewrite lookup_alter.
  case_decide; subst; rewrite Hk; simpl; eauto.
Qed.

Lemma known_OnReport k x rep m :
  is_Some (m !! k) → is_Some (spec_OnReport now me clock x rep m !! k).
Proof.
  intros Hk. unfold spec_OnReport.
  apply (fold_view (λ m, is_Some (m !! k))).
  - intros r m' _ Hm. unfold spec_report_suspected. repeat (case_decide || case_if); auto.
    by apply known_raise, known_ReportSuspected.
  - apply (fold_view (λ m, is_Some (m !! k))).
    + intros r m' _ Hm. unfold spec_report_alive. repeat (case_decide || case_if); auto.
      by apply known_raise, known_AddAlive.
    + by apply known_AddAlive.
Qed.
End Views.

Lemma spec_step_keeps {os : OS} {pb : Protobuf} host me e a b k :
  spec_step host me e a b → is_Some (a.2 !! k) →
  is_Some (b.2 !! k) ∨
  ∃ now y rt q, e = ev_RemoveSuspected now y rt ∧ key y = k ∧ a.2 !! k = Some (Suspect, q).
Proof.
  destruct 1; simpl; intros Hk;
    try (left; eauto using known_AddAlive, known_ReportSuspected, known_OnReport; fail).
  unfold spec_RemoveSuspected.
  destruct (m !! key x) as [[[] q]|] eqn:Hq; [by left| |by left].
  rewrite lookup_delete. case_decide; [right; subst; eauto 10 | by left].
Qed.

Section Kept.
Context {os : OS} {pb : Protobuf}.

Lemma view_suspect_seek x q s :
  view_of s !! key x = Some (Suspect, q) → seek x (suspected_ s) = Some q.
Proof.
  rewrite lookup_view. destruct (seek x (alive_ s)); [done|].
  by destruct (seek x (suspected_ s)); intros [= ->].
Qed.

(** C22 A server forgets a member only by an explicit removal of that member, and
    only if it was suspected: every other event keeps every known server known. *)
Theorem members_are_kept e s x :
  server_inv s → is_Some (view_of s !! key x) →
  is_Some (view_of (exec e s) !! key x) ∨
  ∃ now y rt, e = ev_RemoveSuspected now y rt ∧ key y = key x ∧
    is_Some (seek x (suspected_ s)).
Proof.
  intros Hi Hx.
  destruct (spec_step_keeps _ _ _ _ _ (key x) (exec_refines e s Hi) Hx)
    as [?|(now & y & rt & q & -> & Hk & Hq)]; [by left | right].
  apply view_suspect_seek in Hq. eauto 10.
Qed.
End Kept.

Lemma members_are_kept_witness :
  is_Some (view_of (OnUpdate t0 host3 node_as) !! key host2).
Proof.
  destruct (members_are_kept
    (pb:={| SerializeAsString := λ _, ""; ParseFromArray := λ _, None |})
    (ev_OnUpdate t0 host3) node_as host2 node_as_inv) as [H|(now & y & rt & H & _)].
  - eexists. reflexivity.
  - exact H.
  - discriminate H.
Defined.

(** ** Reports *)

(** Reads the outcome of an abstract operation at a key. *)
Ltac spec_cases :=
  repeat (case_decide || case_if || case_match); simplify_eq; try done.

Section ReportNews.
Context (now : Timestamp) (me : Server) (clock : Z).
Implicit Types (m : view) (r q : ServerRecord) (x : Server).

(** Entry [k] is suspected since the instant and time of [q]. *)
Definition suspected_since (k : string * Z) (q : ServerRecord) (m : view) : Prop :=
  ∃ q', m !! k = Some (Suspect, q') ∧ timestamp q' = timestamp q ∧
    lamport_time q' = lamport_time q.

(** Entry [k] is alive with a time of at least [l]. *)
Definition alive_since (k : string * Z) (l : Z) (m : view) : Prop :=
  ∃ q, m !! k = Some (Alive, q) ∧ (l <= lamport_time q)%Z.

Lemma timestamp_raise i q : timestamp (raise i q) = timestamp q.
Proof. unfold raise. by case_if. Qed.
Lemma lamport_time_raise i q : lamport_time (raise i q) = lamport_time q.
Proof. unfold raise. by case_if. Qed.

Lemma suspected_since_raise k q r m :
  suspected_since k q m → suspected_since k q (spec_raise r m).
Proof.
  intros (q' & Hm & Ht & Hl). unfold suspected_since, spec_raise. rewrite lookup_alter.
  case_decide; subst; rewrite Hm; [|eauto].
  eexists. split; [done|]. by rewrite timestamp_raise, lamport_time_raise.
Qed.

Lemma alive_since_raise k l r m : alive_since k l m → alive_since k l (spec_raise r m).
Proof.
  intros (q & Hm & Hl). unfold alive_since, spec_raise. rewrite lookup_alter.
  case_decide; subst; rewrite Hm; [|eauto].
  eexists. split; [done|]. by rewrite lamport_time_raise.
Qed.

Lemma suspected_since_AddAlive k q x t m :
  key x ≠ k → suspected_since k q m → suspected_since k q (spec_AddAlive now clock x t m).
Proof.
  intros Hk (q' & Hm & Hq). unfold spec_AddAlive. case_if; [by exists q'|].
  exists q'. by rewrite lookup_insert_ne.
Qed.

Lemma alive_since_AddAlive k l x t m :
  (l <= clock)%Z → alive_since k l m → alive_since k l (spec_AddAlive now clock x t m).
Proof.
  intros Hl (q & Hm & Hq). unfold spec_AddAlive. case_if; [by exists q|].
  unfold alive_since. rewrite lookup_insert. case_decide as Hk; [|by exists q].
  subst. rewrite Hm. by eexists.
Qed.

Lemma AddAlive_alive_since x t m :
  port x ≠ 0%Z → alive_since (key x) clock (spec_AddAlive now clock x t m).
Proof.
  intros Hp%Z.eqb_neq. unfold spec_AddAlive, alive_since. rewrite Hp, lookup_insert_eq.
  eexists. split; [done|]. repeat case_match; simpl; lia.
Qed.

Lemma suspected_since_ReportSuspected k q x t m :
  k ≠ key me → suspected_since k q m →
  suspected_since k q (spec_ReportSuspected now me clock x t m).
Proof.
  intros Hme Hs. unfold spec_ReportSuspected. case_if; [done|].
  destruct Hs as (q' & Hm & Hq). case_decide as Hd.
  { apply suspected_since_AddAlive; [congruence | by exists q']. }
  destruct (decide (key x = k)) as [<-|Hk]; [rewrite Hm; by exists q'|].
  repeat case_match; try by exists q'.
  all: exists q'; by rewrite lookup_insert_ne.
Qed.

Lemma alive_since_ReportSuspected k l x t m :
  (l <= clock)%Z → key x ≠ k → alive_since k l m →
  alive_since k l (spec_ReportSuspected now me clock x t m).
Proof.
  intros Hl Hk Hs. unfold spec_ReportSuspected. case_if; [done|].
  case_decide; [by apply alive_since_AddAlive|].
  destruct Hs as (q & Hm & Hq).
  repeat case_match; try by exists q.
  all: exists q; by rewrite lookup_insert_ne.
Qed.

(** Stale good news about a suspect does not change it. *)
Lemma spec_report_alive_stale k q r m :
  suspected_since k q m →
  (key (server r) = k → (lamport_time r < lamport_time q)%Z) →
  suspected_since k q (spec_report_alive now me clock r m).
Proof.
  intros Hs Hr. unfold spec_report_alive. case_decide; [done|].
  destruct (decide (key (server r) = k)) as [Hk|Hk].
  - destruct Hs as (q' & Hm & Ht & Hl). unfold overruled. rewrite Hk, Hm.
    rewrite bool_decide_true by done. simpl.
    rewrite (proj2 (Z.ltb_lt _ _)) by (rewrite Hl; auto). by exists q'.
  - case_if; [done|]. case_if; [done|].
    by apply suspected_since_raise, suspected_since_AddAlive.
Qed.

Lemma spec_report_suspected_since k q r m :
  k ≠ key me → suspected_since k q m →
  suspected_since k q (spec_report_suspected now me clock r m).
Proof.
  intros Hk Hs. unfold spec_report_suspected. spec_cases.
  by apply suspected_since_raise, suspected_since_ReportSuspected.
Qed.

Lemma spec_report_alive_since k l r m :
  (l <= clock)%Z → alive_since k l m → alive_since k l (spec_report_alive now me clock r m).
Proof.
  intros Hl Hs. unfold spec_report_alive. case_decide; [done|]. case_if; [done|].
  case_if; [done|]. by apply alive_since_raise, alive_since_AddAlive.
Qed.

(** A suspicion older than the good news is ignored. *)
Lemma spec_report_suspected_stale k l r m :
  (l <= clock)%Z → alive_since k l m → (key (server r) = k → (lamport_time r < l)%Z) →
  alive_since k l (spec_report_suspected now me clock r m).
Proof.
  intros Hl Hs Hr. unfold spec_report_suspected. case_decide; [done|].
  destruct (decide (key (server r) = k)) as [Hk|Hk].
  - destruct Hs as (q & Hm & Hq). unfold overruled. rewrite Hk, Hm.
    rewrite bool_decide_true by done. simpl.
    rewrite (proj2 (Z.ltb_lt _ _)) by (specialize (Hr Hk); lia). by exists q.
  - case_if; [done|]. case_if; [done|].
    by apply alive_since_raise, alive_since_ReportSuspected.
Qed.
End ReportNews.

Section ReportTheorems.
Context {os : OS} (now : Timestamp).
Implicit Types (x y : Server) (s : SwimServer).

Lemma view_alive_seek y q s :
  view_of s !! key y = Some (Alive, q) → seek y (alive_ s) = Some q.
Proof.
  rewrite lookup_view. destruct (seek y (alive_ s)); [by intros [= ->]|].
  by destruct (seek y (suspected_ s)).
Qed.

(** Stale good news is ignored: a suspect stays suspected, since the same instant
    and with the same Lamport time, through a report in which every mention of it as
    alive is older than the suspicion (and that it did not send itself). *)
Theorem stale_good_news_ignored x rep y q s :
  server_inv s → seek y (suspected_ s) = Some q → key x ≠ key y →
  (∀ r, r ∈ alive rep → key (server r) = key y → (lamport_time r < lamport_time q)%Z) →
  ∃ q', seek y (suspected_ (OnReport now x rep s)) = Some q' ∧
    timestamp q' = timestamp q ∧ lamport_time q' = lamport_time q.
Proof.
  intros Hi Hq Hx Hr.
  assert (key y ≠ key (self s)) as Hme.
  { intros E. by rewrite (inv_self _ Hi y E) in Hq. }
  assert (suspected_since (key y) q (view_of (OnReport now x rep s))) as (q' & Hm & Hq').
  { rewrite refine_OnReport by done. unfold spec_OnReport.
    apply (fold_view (suspected_since (key y) q));
      [intros; by apply spec_report_suspected_since|].
    apply (fold_view (suspected_since (key y) q));
      [intros; apply spec_report_alive_stale; auto|].
    apply suspected_since_AddAlive; [done|]. exists q.
    rewrite lookup_view, Hq. destruct (seek y (alive_ s)) eqn:Ha; [|done].
    rewrite (inv_disjoint _ Hi y) in Hq; [done | by eexists]. }
  exists q'. split; [by apply view_suspect_seek | done].
Qed.

(** Stale suspicions are ignored: an alive server stays alive, with a Lamport time
    that does not decrease, through a report whose suspicions of it are all older
    than its record. *)
Theorem stale_suspicion_ignored x rep y q s :
  server_inv s → seek y (alive_ s) = Some q → (lamport_time q <= lamport_time_ s)%Z →
  (∀ r, r ∈ suspected rep → key (server r) = key y → (lamport_time r < lamport_time q)%Z) →
  ∃ q', seek y (alive_ (OnReport now x rep s)) = Some q' ∧
    (lamport_time q <= lamport_time q')%Z.
Proof.
  intros Hi Hq Hc Hr.
  assert (alive_since (key y) (lamport_time q) (view_of (OnReport now x rep s)))
    as (q' & Hm & Hq').
  { rewrite refine_OnReport by done. unfold spec_OnReport.
    apply (fold_view (alive_since (key y) (lamport_time q)));
      [intros; apply spec_report_suspected_stale; auto|].
    apply (fold_view (alive_since (key y) (lamport_time q)));
      [intros; by apply spec_report_alive_since|].
    apply alive_since_AddAlive; [done|]. exists q. by rewrite lookup_view, Hq. }
  exists q'. split; [by apply view_alive_seek | done].
Qed.

(** The sender of a report is alive afterwards, stamped with the receiver's
    clock, unless the report itself carries a suspicion of it at least as late as
    that clock. *)
Theorem report_sender_alive x rep s :
  server_inv s → port x ≠ 0%Z →
  (∀ r, r ∈ suspected rep → key (server r) = key x → (lamport_time r < lamport_time_ s)%Z) →
  ∃ q, seek x (alive_ (OnReport now x rep s)) = Some q ∧
    (lamport_time_ s <= lamport_time q)%Z.
Proof.
  intros Hi Hp Hr.
  assert (alive_since (key x) (lamport_time_ s) (view_of (OnReport now x rep s)))
    as (q & Hm & Hq).
  { rewrite refine_OnReport by done. unfold spec_OnReport.
    apply (fold_view (alive_since (key x) (lamport_time_ s)));
      [intros; apply spec_report_suspected_stale; auto; lia|].
    apply (fold_view (alive_since (key x) (lamport_time_ s)));
      [intros; apply spec_report_alive_since; [lia | done]|].
    by apply AddAlive_alive_since. }
  exists q. split; [by apply view_alive_seek | done].
Qed.

(** Good news that is not stale is accepted: a reported server (another one, with a
    port, and not suspected with a later time) becomes alive with the reported
    timestamp and the receiver's clock, and its incarnation is the larger of the one
    already known to be alive (0 if none) and the reported one. *)
Theorem good_news_accepted r s :
  server_inv s → key (server r) ≠ key (self s) → port (server r) ≠ 0%Z →
  (0 <= incarnation (server r))%Z →
  (∀ q, seek (server r) (suspected_ s) = Some q → (lamport_time q <= lamport_time r)%Z) →
  ∃ q, seek (server r) (alive_ (OnReport_alive now r s)) = Some q ∧
    seek (server r) (suspected_ (OnReport_alive now r s)) = None ∧
    timestamp q = timestamp r ∧ lamport_time q = lamport_time_ s ∧
    incarnation (server q) =
      Z.max (match seek (server r) (alive_ s) with
             | Some p => incarnation (server p) | None => 0%Z end)
            (incarnation (server r)).
Proof.
  intros Hi Hme%Server_eqb_neq Hp Hinc Hs. unfold OnReport_alive. rewrite Hme.
  pose proof (inv_alive _ Hi) as Ha. pose proof (inv_suspected _ Hi) as Hsu.
  assert (known_later now r (suspected_ s) = false) as ->.
  { unfold known_later. rewrite find_seek.
    change (seek (server (MakeRecord (server r) now)) (suspected_ s))
      with (seek (server r) (suspected_ s)).
    destruct (seek (server r) (suspected_ s)) as [q|]; [|done].
    apply Z.ltb_ge. by apply Hs. }
  simpl. rewrite seek_raise by (apply inv_alive; auto with gossip).
  rewrite Server_eqb_refl, seek_alive_AddAlive, seek_suspected_AddAlive by done.
  rewrite Server_eqb_refl. simpl. eexists. split; [done|]. split; [done|].
  rewrite timestamp_raise, lamport_time_raise. unfold raise.
  destruct (seek (server r) (alive_ s)) as [p|]; simpl.
  - split; [done|]. split; [done|].
    destruct (Z.ltb_spec (incarnation (server p)) (incarnation (server r))); simpl; lia.
  - split; [done|]. split; [done|].
    destruct (Z.ltb_spec 0 (incarnation (server r))); simpl; lia.
Qed.
End ReportTheorems.

(** A report from [host1] with old news about [host2]. *)
Definition stale_report : SwimReport :=
  mkSwimReport host1 [mkServerRecord host2 ms0 3 None] [mkServerRecord host1 ms0 2 None].

Lemma stale_good_news_ignored_witness :
  ∃ q', seek host2 (suspected_ (OnReport t0 host1 stale_report node_as)) = Some q' ∧
    timestamp q' = ms0 ∧ lamport_time q' = 10%Z.
Proof.
  apply (stale_good_news_ignored t0 host1 stale_report host2
           (fresh_record t0 host2 ms0 10) node_as node_as_inv).
  - reflexivity.
  - discriminate.
  - intros r Hr _. apply list_elem_of_singleton in Hr as ->. reflexivity.
Defined.

Lemma stale_suspicion_ignored_witness :
  ∃ q', seek host1 (alive_ (OnReport t0 host3 stale_report node_as)) = Some q' ∧
    (5 <= lamport_time q')%Z.
Proof.
  apply (stale_suspicion_ignored t0 host3 stale_report host1
           (fresh_record t0 host1 ms0 5) node_as node_as_inv).
  - reflexivity.
  - vm_compute. discriminate.
  - intros r Hr _. apply list_elem_of_singleton in Hr as ->. reflexivity.
Defined.

Lemma report_sender_alive_witness :
  ∃ q, seek host1 (alive_ (OnReport t0 host1 stale_report node_as)) = Some q ∧
    (10 <= lamport_time q)%Z.
Proof.
  apply (report_sender_alive t0 host1 stale_report node_as node_as_inv).
  - discriminate.
  - intros r Hr _. apply list_elem_of_singleton in Hr as ->. reflexivity.
Defined.

Lemma good_news_accepted_witness :
  ∃ q, seek host3 (alive_ (OnReport_alive t0 (mkServerRecord host3 ms0 1 None) node_as)) = Some q ∧
    incarnation (server q) = 7%Z.
Proof.
  destruct (good_news_accepted t0 (mkServerRecord host3 ms0 1 None) node_as node_as_inv)
    as (q & Hq & _ & _ & _ & Hinc); [discriminate | discriminate | done | discriminate |].
  exists q. split; [exact Hq | exact Hinc].
Defined.
