(* ===== verification/ServerClock.v ===== *)
(** * Lamport time, self-defence and identity of the server

    The clock and the times of the records; the pings a server sends when it is reported
    as suspected; what happens when its configured name is not the system's. *)

From Stdlib Require Import ZArith Lia String.
From stdpp Require Import base list strings gmap.
From S2P Require Import Prelude StdSet SwimCommon UtilsHost SwimClient SwimServer Membership Refinement ServerProps Fixtures.

(** ** The Lamport clock *)

(** C32 Processing a message moves the server's clock strictly past both its own time
    and the message's, except that the largest 64-bit time resets the clock to 0. *)
Theorem Lamport_clock_advances (t : Z) (s : SwimServer) :
  is_u64 (lamport_time_ s) → is_u64 t →
  let c := lamport_time_ s in
  let c' := lamport_time_ (UpdateLamportTime t s) in
  is_u64 c' ∧
  if (Z.max c t =? two64 - 1)%Z then c' = 0%Z else (c < c')%Z ∧ (t < c')%Z.
Proof.
  intros Hc Ht c c'. unfold c', UpdateLamportTime. simpl. split; [apply u64_range|].
  unfold is_u64 in *. destruct (Z.eqb_spec (Z.max c t) (two64 - 1)) as [E|E]; fold c.
  - rewrite E. by vm_compute.
  - rewrite u64_small; unfold is_u64; lia.
Qed.

Lemma Lamport_clock_advances_witness :
  lamport_time_ (UpdateLamportTime (two64 - 1) node_as) = 0%Z.
Proof.
  apply (Lamport_clock_advances (two64 - 1) node_as); unfold is_u64, two64; simpl; [|lia].
  vm_compute. split; [discriminate | reflexivity].
Defined.

Definition bounded_times (c : Z) (m : view) : Prop :=
  ∀ k st r, m !! k = Some (st, r) → (lamport_time r <= c)%Z.

Section Bounded.
Context (now : Timestamp) (me : Server) (c : Z).

Lemma bounded_insert (k : string * Z) (st : Status) (r : ServerRecord) (m : view) :
  (lamport_time r <= c)%Z → bounded_times c m → bounded_times c (<[k:=(st, r)]> m).
Proof.
  intros Hr Hm k' st' r'. rewrite lookup_insert. case_decide; [naive_solver | eauto].
Qed.

Lemma bounded_AddAlive x t m : bounded_times c m → bounded_times c (spec_AddAlive now c x t m).
Proof.
  intros Hm. unfold spec_AddAlive. case_if; [done|]. apply bounded_insert; [|done].
  repeat case_match; simpl; lia.
Qed.

Lemma bounded_ReportSuspected x t m :
  bounded_times c m → bounded_times c (spec_ReportSuspected now me c x t m).
Proof.
  intros Hm. unfold spec_ReportSuspected. case_if; [done|].
  case_decide; [by apply bounded_AddAlive|].
  repeat case_match; try done; apply bounded_insert; simpl; done || lia.
Qed.

Lemma bounded_raise r m : bounded_times c m → bounded_times c (spec_raise r m).
Proof.
  intros Hm k st q. unfold spec_raise. rewrite lookup_alter. case_decide; [|apply Hm].
  subst. destruct (m !! _) as [[st' q']|] eqn:Hq; simpl; [|done]. intros [= <- <-].
  rewrite lamport_time_raise. by eapply Hm.
Qed.

Lemma bounded_OnReport x rep m :
  bounded_times c m → bounded_times c (spec_OnReport now me c x rep m).
Proof.
  intros Hm. unfold spec_OnReport. apply (fold_view (bounded_times c)).
  - intros r m' _ Hm'. unfold spec_report_suspected. spec_cases.
    by apply bounded_raise, bounded_ReportSuspected.
  - apply (fold_view (bounded_times c)); [|by apply bounded_AddAlive].
    intros r m' _ Hm'. unfold spec_report_alive. spec_cases.
    by apply bounded_raise, bounded_AddAlive.
Qed.
End Bounded.

(** The event does not overflow the clock. *)
Definition no_overflow (e : event) (s : SwimServer) : Prop :=
  match e with
  | ev_UpdateLamportTime t => is_u64 t ∧ (Z.max (lamport_time_ s) t < two64 - 1)%Z
  | _ => True
  end.

Lemma bounded_step {os : OS} {pb : Protobuf} host me e a b :
  spec_step host me e a b → bounded_times a.1 a.2 → is_u64 a.1 →
  (∀ t, e = ev_UpdateLamportTime t → is_u64 t ∧ (Z.max a.1 t < two64 - 1)%Z) →
  bounded_times b.1 b.2 ∧ is_u64 b.1.
Proof.
  destruct 1; simpl; intros Hm Hc Ht;
    try (split; [|done]; auto using bounded_AddAlive, bounded_ReportSuspected,
      bounded_OnReport; fail).
  - split; [|done]. unfold spec_RemoveSuspected. repeat case_match; try done.
    intros k st q. rewrite lookup_delete. case_decide; [done | apply Hm].
  - specialize (Ht t eq_refl). split; [|apply u64_range].
    intros k st q Hq. apply Hm in Hq. rewrite u64_small; unfold is_u64 in *; lia.
Qed.

Section Times.
Context {os : OS} {pb : Protobuf}.

Inductive reachable_no_overflow : SwimServer → Prop :=
  | no_overflow_new host_name p cb threads poll :
      reachable_no_overflow (newSwimServer host_name p cb threads poll)
  | no_overflow_step e s :
      reachable_no_overflow s → no_overflow e s → reachable_no_overflow (exec e s).

Lemma no_overflow_bounded s :
  reachable_no_overflow s →
  server_inv s ∧ bounded_times (lamport_time_ s) (view_of s) ∧ is_u64 (lamport_time_ s).
Proof.
  induction 1 as [| e s Hr (Hi & Hb & Hc) Hn].
  - split; [auto with gossip|]. split; [intros [h p'] st r Hv; by vm_compute in Hv|].
    unfold is_u64, two64. simpl. lia.
  - split; [by apply inv_exec|].
    apply (bounded_step _ _ _ _ _ (exec_refines e s Hi) Hb Hc).
    intros t ->. exact Hn.
Qed.

(** C33 As long as the clock does not overflow, every record a server holds carries
    a Lamport time of at most the server's clock: nothing known is from the future. *)
Theorem record_times_bounded s r :
  reachable_no_overflow s → r ∈ alive_ s ∨ r ∈ suspected_ s →
  (lamport_time r <= lamport_time_ s)%Z.
Proof.
  intros (Hi & Hb & _)%no_overflow_bounded [Hr|Hr].
  - apply (Hb (key (server r)) Alive). rewrite lookup_view.
    by rewrite (seek_elem _ _ (inv_alive _ Hi) Hr).
  - pose proof (seek_elem _ _ (inv_suspected _ Hi) Hr) as Hs.
    apply (Hb (key (server r)) Suspect). rewrite lookup_view, Hs.
    destruct (seek (server r) (alive_ s)) eqn:Ha; [|done].
    rewrite (inv_disjoint _ Hi) in Hs; [done | by eexists].
Qed.
End Times.

Lemma record_times_bounded_witness : ∃ pb : Protobuf,
  reachable_no_overflow (pb:=pb) node_as ∧ (10 <= lamport_time_ node_as)%Z.
Proof.
  exists {| SerializeAsString := λ _, ""; ParseFromArray := λ _, None |}.
  set (pb := {| SerializeAsString := λ _, ""; ParseFromArray := λ _, None |}).
  assert (reachable_no_overflow (pb:=pb) node_as) as Hr.
  { apply (no_overflow_step (ev_ReportSuspected t0 host2 ms0)); [|done].
    apply (no_overflow_step (ev_UpdateLamportTime 9));
      [|by vm_compute; repeat split].
    apply (no_overflow_step (ev_AddAlive t0 host1 ms0)); [|done].
    apply (no_overflow_step (ev_UpdateLamportTime 4)); [apply no_overflow_new|].
    by vm_compute; repeat split. }
  split; [exact Hr|].
  apply (record_times_bounded (pb:=pb) node_as (fresh_record t0 host2 ms0 10) Hr).
  right. apply list_elem_of_singleton. reflexivity.
Defined.

(** ** Answering suspicions of oneself *)

Section SelfDefence.
Context {os : OS} (now : Timestamp).
Implicit Types (s : SwimServer) (rep : SwimReport) (from : Server).

(** The messages a server has posted. *)
Definition posted (s : SwimServer) : list (string * SwimEnvelope) :=
  omap (λ e, match e with Posted uri m => Some (uri, m) | _ => None end) (effects_ s).

(** The ping that answers a suspicion reported by [from]. *)
Definition self_defence (from : Server) (s : SwimServer) : string * SwimEnvelope :=
  let hname := if (String.length (host_name_ s) =? 0)%nat then Hostname else host_name_ s in
  (uri_of from,
   mkSwimEnvelope STATUS_UPDATE
     (Some (mkServer hname (port_ s) (Some (InetAddress hname)) 0))
     (u64 (lamport_time_ s + 1)) None None).

Lemma posted_AddAlive x t s : posted (AddAlive now x t s).1 = posted s.
Proof.
  unfold posted. rewrite effects_AddAlive, omap_app. case_if; simpl; by rewrite app_nil_r.
Qed.

Lemma posted_ReportSuspected x t s : posted (ReportSuspected now x t s).1 = posted s.
Proof.
  destruct (Z.eq_dec (port x) 0%Z); [by rewrite ReportSuspected_port0|].
  destruct (decide (key x = key (self s))).
  { rewrite ReportSuspected_self by done. apply posted_AddAlive. }
  unfold posted. rewrite effects_ReportSuspected, omap_app by done.
  case_if; simpl; by rewrite app_nil_r.
Qed.

Lemma posted_OnReport_alive r s : posted (OnReport_alive now r s) = posted s.
Proof.
  unfold OnReport_alive. do 2 (case_if; [done|]). apply posted_AddAlive.
Qed.

Lemma posted_OnReport_suspected from r s :
  posted (OnReport_suspected now from r s) =
    posted s ++ (if Server_eqb (server r) (self s) then [self_defence from s] else []).
Proof.
  unfold OnReport_suspected. case_if.
  - unfold posted. simpl. rewrite omap_app. done.
  - rewrite app_nil_r. case_if; [done|]. apply posted_ReportSuspected.
Qed.

Lemma self_defence_config from s s' :
  config s = config s' → self_defence from s = self_defence from s'.
Proof.
  unfold config, self_defence. intros Hc.
  assert (host_name_ s = host_name_ s' ∧ port_ s = port_ s' ∧ lamport_time_ s = lamport_time_ s')
    as (-> & -> & ->) by (split_and!; congruence). done.
Qed.

Lemma posted_suspected_loop from l s :
  posted (fold_left (λ s r, OnReport_suspected now from r s) l s) =
    posted s ++ replicate (length (filter (λ r, key (server r) = key (self s)) l))
                  (self_defence from s).
Proof.
  revert s. induction l as [|r l IH]; intros s; simpl; [by rewrite app_nil_r|].
  pose proof (config_OnReport_suspected now from r s) as Hc.
  rewrite IH, posted_OnReport_suspected, (config_self _ _ Hc).
  rewrite (self_defence_config _ _ _ Hc), <- app_assoc. f_equal.
  rewrite filter_cons. case_key.
  - by rewrite decide_True.
  - by rewrite decide_False.
Qed.

Lemma posted_alive_loop l s :
  posted (fold_left (λ s r, OnReport_alive now r s) l s) = posted s.
Proof.
  revert s. induction l as [|r l IH]; intros s; simpl; [done|].
  by rewrite IH, posted_OnReport_alive.
Qed.

(** A server told that it is suspected answers: processing a report posts exactly
    one ping to the report's sender for every entry that names the server itself as
    suspected, carrying the server's host name, port and next Lamport time, and posts
    nothing else. *)
Theorem suspected_server_answers x rep s :
  posted (OnReport now x rep s) =
    posted s ++
    replicate (length (filter (λ r, key (server r) = key (self s)) (suspected rep)))
      (self_defence (report_sender rep) s).
Proof.
  unfold OnReport. rewrite posted_suspected_loop, posted_alive_loop, posted_AddAlive.
  assert (config (fold_left (λ s r, OnReport_alive now r s) (alive rep)
    (AddAlive now x (CurrentTime now) s).1) = config s) as Hc.
  { rewrite (config_fold _ _ _ (config_OnReport_alive now)). apply config_AddAlive. }
  by rewrite (config_self _ _ Hc), (self_defence_config _ _ _ Hc).
Qed.

(** The name under which the server's clients present it to other servers. *)
Definition advertised (s : SwimServer) : Server :=
  self_ (newSwimClient (host_name_ s) (lamport_time_ s) Server_default (port_ s)
           kDefaultTimeoutMsec).

(** C34 A server configured with a host name other than the operating system's does
    not recognise itself: a report that names it as suspected, under the name it
    advertises, puts it into its own suspected set. *)
Theorem renamed_server_suspects_itself from r s :
  server_inv s → host_name_ s ≠ "" → host_name_ s ≠ Hostname → port_ s ≠ 0%Z →
  key (server r) = key (advertised s) →
  seek (advertised s) (alive_ s) = None →
  is_Some (seek (advertised s) (suspected_ (OnReport_suspected now from r s))).
Proof.
  intros Hi Hn Hh Hp Hk Ha.
  assert (key (advertised s) = (host_name_ s, port_ s)) as Hadv.
  { unfold advertised, newSwimClient. destruct (host_name_ s); done. }
  assert (key (server r) ≠ key (self s)) as Hne.
  { rewrite Hk, Hadv. intros [=]. done. }
  assert (port (server r) ≠ 0%Z) as Hpr.
  { rewrite Hadv in Hk. unfold key in Hk. congruence. }
  unfold OnReport_suspected. rewrite (proj2 (Server_eqb_neq _ _) Hne).
  assert (known_later now r (alive_ s) = false) as ->.
  { unfold known_later. rewrite find_seek.
    change (seek (server (MakeRecord (server r) now)) (alive_ s))
      with (seek (server r) (alive_ s)).
    by rewrite (seek_key _ _ _ Hk), Ha. }
  simpl. rewrite seek_raise by (apply inv_suspected; auto with gossip).
  rewrite (proj2 (Server_eqb_key _ _) (eq_sym Hk)).
  rewrite seek_suspected_ReportSuspected, Server_eqb_refl by eauto with gossip.
  simpl. by eexists.
Qed.
End SelfDefence.

(** A node started as [alias] on the host [node0]. *)
Definition renamed_node : SwimServer := newSwimServer "alias" 9200 false kNumThreads 50.

Lemma renamed_server_suspects_itself_witness :
  is_Some (seek (advertised renamed_node)
    (suspected_ (OnReport_suspected t0 host1
       (mkServerRecord (mkServer "alias" 9200 None 0) ms0 1 None) renamed_node))).
Proof.
  apply (renamed_server_suspects_itself t0 host1); try discriminate; try reflexivity.
  unfold renamed_node. auto with gossip.
Defined.
