(* ===== verification/ServerLoop.v ===== *)
(** * The listening loop ([SwimServer::start])

    Each turn of the loop polls the socket, checks whether the server was stopped
    meanwhile, and otherwise parses the message, dispatches it on its type and
    replies.  A turn is described by what [poll] and [recv] answered and by whether
    [stop()] was called during the poll; the loop runs over a list of turns. *)

From Stdlib Require Import ZArith Lia String.
From stdpp Require Import base list strings gmap.
From S2P Require Import Prelude StdSet SwimCommon UtilsHost SwimClient SwimServer Membership Refinement ServerProps ServerClock Fixtures Codec.

Section Loop.
Context {os : OS} {pb : Protobuf}.

(** The [switch] on the message type.  The destination of a forward request is passed on
    as a pointer: only the thread [OnForwardRequest] starts dereferences it. *)
Definition dispatch (now : Timestamp) (message : SwimEnvelope) (s : SwimServer)
    : outcome SwimServer :=
  match type message with
  | STATUS_UPDATE =>
      let s := UpdateLamportTime (env_lamport_time message) s in
      client ← deref (sender message);
      Done (OnUpdate now client s)
  | STATUS_REPORT =>
      let s := UpdateLamportTime (env_lamport_time message) s in
      from ← deref (sender message);
      rep ← deref (report message);
      Done (OnReport now from rep s)
  | STATUS_REQUEST =>
      let s := UpdateLamportTime (env_lamport_time message) s in
      from ← deref (sender message);
      Done (OnForwardRequest now from (destination_server message) s)
  | _ => Done s
  end.

(** The pings a handler has posted between [s] and [s']: [connect] throws for an address
    it refuses. *)
Definition pings_connect (s s' : SwimServer) : outcome SwimServer :=
  if forallb (λ m, zmq_connect m.1) (drop (length (posted s)) (posted s')) then Done s'
  else Aborted.

(** Parsing, dispatch and reply. *)
Definition handle_message (now : Timestamp) (msg : string) (s : SwimServer)
    : outcome (SwimServer * string) :=
  match ParseFromArray msg with
  | Some message =>
      s' ← dispatch now message s;
      s' ← pings_connect s s';
      Done (s', "OK")
  | None => Done (s, "FAIL")
  end.

Record turn := mkTurn {
  stop_called : bool;        (** [stop()] ran during the poll *)
  poll_rc : Z;
  poll_revents : Z;
  received : option string;  (** [recv]; [None]: it failed *)
  turn_time : Timestamp
}.

(** The [while] loop: the replies sent and the state when it ends or the turns do. *)
Fixpoint serve (turns : list turn) (s : SwimServer) : outcome (SwimServer * list string) :=
  match turns with
  | [] => Done (s, [])
  | t :: turns =>
      if stopped_ s then Done (s, [])
      else
        let s := if stop_called t then stop s else s in
        if stopped_ s then Done (s, [])
        else if (0 <? poll_rc t)%Z && negb (poll_revents t =? 0)%Z then
          match received t with
          | None => Aborted
          | Some msg =>
              '(s, reply) ← handle_message (turn_time t) msg s;
              '(s, replies) ← serve turns s;
              Done (s, reply :: replies)
          end
        else serve turns s
  end.

(** [start()]; [socket_ok] is the state of the new socket and [bind_ok] whether it can
    be bound to its address: [bind] throws otherwise, out of the server's thread. *)
Definition start (socket_ok bind_ok : bool) (turns : list turn) (s : SwimServer)
    : outcome (SwimServer * list string) :=
  if negb socket_ok then Done (s, [])
  else if negb bind_ok then Aborted
  else serve turns (set_stopped false s).

(** ** Dispatch *)

(** The submessages that the loop itself dereferences are present. *)
Definition pointers_present (message : SwimEnvelope) : Prop :=
  match type message with
  | STATUS_UPDATE | STATUS_REQUEST => is_Some (sender message)
  | STATUS_REPORT => is_Some (sender message) ∧ is_Some (report message)
  | _ => True
  end.

(** So is the destination of a request, which the thread started for it dereferences. *)
Definition payload_present (message : SwimEnvelope) : Prop :=
  pointers_present message ∧
  (type message = STATUS_REQUEST → is_Some (destination_server message)).

Lemma dispatch_Done now message s :
  pointers_present message → ∃ s', dispatch now message s = Done s'.
Proof.
  unfold pointers_present, dispatch.
  destruct (type message); try (by eexists);
    [intros [a ->] | intros [[a ->] [b ->]] | intros [a ->]]; by eexists.
Qed.

Lemma dispatch_null now message s :
  ¬ pointers_present message → dispatch now message s = NullDereference.
Proof.
  unfold pointers_present, dispatch.
  destruct (type message), (sender message), (report message);
    simpl; try done; intros Hn; exfalso; apply Hn; repeat split; eauto.
Qed.

Lemma inv_dispatch now message s s' :
  server_inv s → dispatch now message s = Done s' → server_inv s'.
Proof.
  intros Hi. unfold dispatch.
  destruct (type message), (sender message), (report message);
    simpl; intros [=]; subst; auto with gossip.
Qed.

Lemma inv_handle_message now msg s s' reply :
  server_inv s → handle_message now msg s = Done (s', reply) → server_inv s'.
Proof.
  intros Hi. unfold handle_message. destruct (ParseFromArray msg) as [e|]; [|by intros [= <- _]].
  destruct (dispatch now e s) as [s1| |] eqn:Hd; simpl; try done.
  unfold pings_connect. case_if; [|done]. intros [= <- _]. by eapply inv_dispatch.
Qed.

(** *** The handlers' pings *)

(** The message makes the server ping an address: it is a report that names the server as
    suspected, and the address is that of the report's sender. *)
Definition makes_ping (message : SwimEnvelope) (s : SwimServer) (uri : string) : Prop :=
  ∃ rep r, type message = STATUS_REPORT ∧ report message = Some rep ∧
    r ∈ suspected rep ∧ key (server r) = key (self s) ∧ uri = uri_of (report_sender rep).

Lemma posted_dispatch now message s s' :
  dispatch now message s = Done s' →
  ∃ new, posted s' = posted s ++ new ∧ ∀ uri, makes_ping message s uri ↔ uri ∈ new.*1.
Proof.
  assert (∀ s', posted s' = posted s → (type message = STATUS_REPORT → False) →
    ∃ new, posted s' = posted s ++ new ∧ ∀ uri, makes_ping message s uri ↔ uri ∈ new.*1) as Hnone.
  { intros s1 E Ht. exists []. rewrite app_nil_r. split; [done|]. intros uri.
    split; [intros (rep & r & ? & _); by destruct Ht | by intros ?%elem_of_nil]. }
  unfold dispatch. destruct (type message) eqn:Et; try (intros [= <-]; by apply Hnone).
  - destruct (sender message) as [a|]; [|done]. intros [= <-]. apply Hnone; [|done].
    apply (posted_AddAlive now a (CurrentTime now) (UpdateLamportTime _ s)).
  - destruct (sender message) as [a|]; [|done]. destruct (report message) as [rep|] eqn:Er; [|done].
    intros [= <-]. eexists. split; [apply (suspected_server_answers now a rep (UpdateLamportTime _ s))|].
    change (self (UpdateLamportTime _ s)) with (self s). set (l := filter _ (suspected rep)).
    assert (∀ r, r ∈ l ↔ key (server r) = key (self s) ∧ r ∈ suspected rep) as Hl
      by (intros r; unfold l; by rewrite list_elem_of_filter).
    intros uri. rewrite fmap_replicate, elem_of_replicate. split.
    + intros (rep' & r & _ & E & Hr & Hk & ->). rewrite Er in E. injection E as <-.
      split; [done|]. intros Hz. assert (r ∈ l) as Hin by (by apply Hl).
      destruct l; [by apply elem_of_nil in Hin | done].
    + intros [-> Hz]. destruct l as [|r l']; [done|]. exists rep, r.
      destruct (proj1 (Hl r)) as [Hk Hr]; [left | done].
  - destruct (sender message) as [a|]; [|done]. intros [= <-]. apply Hnone; [|done].
    unfold OnForwardRequest, posted. cbn. rewrite omap_app. cbn. rewrite app_nil_r.
    apply (posted_AddAlive now a (CurrentTime now) (UpdateLamportTime _ s)).
Qed.

(** The process survives exactly if the addresses to ping are accepted. *)
Lemma pings_connect_spec now message s s' :
  dispatch now message s = Done s' →
  ((∀ uri, makes_ping message s uri → zmq_connect uri = true) → pings_connect s s' = Done s') ∧
  (∀ uri, makes_ping message s uri → zmq_connect uri = false → pings_connect s s' = Aborted).
Proof.
  intros Hd. destruct (posted_dispatch now message s s' Hd) as (new & Hp & Hm).
  unfold pings_connect. rewrite Hp, drop_app_length. split.
  - intros Hall. assert (forallb (λ m, zmq_connect m.1) new = true) as ->; [|done].
    apply forallb_forall. intros m Hin%list_elem_of_In. apply Hall, Hm. by apply list_elem_of_fmap_2.
  - intros uri Hu Hz. apply Hm in Hu as (m & -> & Hin)%list_elem_of_fmap.
    destruct (forallb _ new) eqn:E; [|done]. rewrite forallb_forall in E.
    apply list_elem_of_In, E in Hin. congruence.
Qed.

(** C30 Whether a received message is safe to process depends on its payload and on the
    server it makes this one ping.  A message that cannot be parsed is answered FAIL and
    changes nothing.  A parsed one without the submessages that the loop dereferences makes
    it dereference a null pointer.  With them it is answered OK, unless it is a report that
    names the server as suspected and a sender whose address [connect] refuses: that ends the
    process.  A request without a destination is among the messages answered OK, and the
    thread that is started for it dereferences a null pointer. *)
Theorem message_handling now msg s :
  match ParseFromArray msg with
  | None => handle_message now msg s = Done (s, "FAIL")
  | Some message =>
      (¬ pointers_present message → handle_message now msg s = NullDereference) ∧
      (pointers_present message →
         (∀ uri, makes_ping message s uri → zmq_connect uri = false →
            handle_message now msg s = Aborted) ∧
         ((∀ uri, makes_ping message s uri → zmq_connect uri = true) →
            ∃ s', handle_message now msg s = Done (s', "OK") ∧ (server_inv s → server_inv s') ∧
              (type message = STATUS_REQUEST → destination_server message = None →
                 ∃ x, ForwardThread x None ∈ effects_ s' ∧
                   ∀ t ex s1, ForwardThread_body t ex x None s1 = NullDereference)))
  end.
Proof.
  unfold handle_message. destruct (ParseFromArray msg) as [message|]; [|done]. split.
  { intros Hn. by rewrite dispatch_null. }
  intros Hp. destruct (dispatch_Done now message s Hp) as [s' Hd].
  destruct (pings_connect_spec now message s s' Hd) as [Hok Hno]. rewrite Hd. cbn. split.
  - intros uri Hu Hz. by rewrite (Hno uri Hu Hz).
  - intros Hall. exists s'. rewrite Hok by done. split; [done|]. split.
    { intros Hi. by eapply inv_dispatch. }
    intros Et En. unfold dispatch in Hd. rewrite Et, En in Hd.
    destruct (sender message) as [x|]; [|done]. injection Hd as <-. exists x. split; [|done].
    cbn. apply elem_of_app. right. left.
Qed.

(** The server that a report in the message names as its sender can be pinged. *)
Definition pings_accepted (message : SwimEnvelope) : Prop :=
  ∀ rep, report message = Some rep → zmq_connect (uri_of (report_sender rep)) = true.

Lemma handle_parsed now msg message s s' :
  ParseFromArray msg = Some message → dispatch now message s = Done s' →
  pings_accepted message → handle_message now msg s = Done (s', "OK").
Proof.
  intros Hm Hd Ha. unfold handle_message. rewrite Hm, Hd. cbn.
  destruct (pings_connect_spec now message s s' Hd) as [-> _]; [done|].
  intros uri (rep & r & _ & Er & _ & _ & ->). by apply Ha.
Qed.

(** The socket does not fail in this turn and the message, if any, has the
    submessages its handler uses and a sender of its report that can be pinged. *)
Definition turn_safe (t : turn) : Prop :=
  match received t with
  | None => False
  | Some msg => match ParseFromArray msg with
                | Some message => payload_present message ∧ pings_accepted message
                | None => True
                end
  end.

Lemma handle_message_Done now msg s :
  match ParseFromArray msg with
  | Some message => payload_present message ∧ pings_accepted message
  | None => True
  end →
  ∃ s' reply, handle_message now msg s = Done (s', reply) ∧ (reply = "OK" ∨ reply = "FAIL").
Proof.
  destruct (ParseFromArray msg) as [message|] eqn:Hm.
  - intros [[Hp _] Ha]. destruct (dispatch_Done now message s Hp) as [s' Hd].
    rewrite (handle_parsed now msg message s s' Hm Hd Ha). eauto.
  - intros _. unfold handle_message. rewrite Hm. eauto.
Qed.

(** C31 On messages that carry the submessages their handlers use, and whose report, if
    any, names a sender that can be pinged, the loop never fails: it keeps the server well formed, replies OK or FAIL at most once per turn,
    and once [stop()] has been called it processes nothing more: no reply is sent and
    the state changes only by being stopped, even if a message had arrived. *)
Theorem serve_well_behaved turns s :
  server_inv s → Forall turn_safe turns →
  ∃ s' replies,
    serve turns s = Done (s', replies) ∧ server_inv s' ∧
    length replies ≤ length turns ∧ Forall (λ r, r = "OK" ∨ r = "FAIL") replies ∧
    (∀ t rest, turns = t :: rest → stopped_ s = true ∨ stop_called t = true →
       replies = [] ∧ stopped_ s' = true ∧ view_of s' = view_of s ∧
       lamport_time_ s' = lamport_time_ s).
Proof.
  intros Hi Hf. revert s Hi. induction Hf as [|t turns Ht _ IH]; intros s Hi; simpl.
  { exists s, []. split_and!; try done. }
  destruct (stopped_ s) eqn:Hst.
  { exists s, []. split_and!; try done; simpl; lia. }
  destruct (stop_called t) eqn:Hsc; simpl.
  { exists (stop s), []. split_and!; try done; first [by apply inv_stopped | simpl; lia]. }
  rewrite Hst. case_if.
  - unfold turn_safe in Ht. destruct (received t) as [msg|]; [|done].
    destruct (handle_message_Done (turn_time t) msg s Ht) as (s1 & reply & Hm & Hreply).
    pose proof (inv_handle_message _ _ _ _ _ Hi Hm) as Hi1.
    destruct (IH s1 Hi1) as (s' & replies & Hs' & ? & ? & ? & _).
    rewrite Hm. simpl. rewrite Hs'. simpl.
    exists s', (reply :: replies). split_and!; try done; [simpl; lia | by constructor |].
    intros ? ? [= <- <-]. rewrite Hsc. by intros [?|?].
  - destruct (IH s Hi) as (s' & replies & -> & ? & ? & ? & _).
    exists s', replies. split_and!; try done; [lia|].
    intros ? ? [= <- <-]. rewrite Hsc. by intros [?|?].
Qed.
End Loop.

(** ** A client and a server together *)

Section EndToEnd.
Context {os : OS} {pb : Protobuf} {laws : ProtobufLaws pb}.

(** A network that hands every request to the server [s] and returns its reply. *)
Definition connected (now : Timestamp) (s : SwimServer) : Exchange := λ uri payload timeout,
  match handle_message now payload s with
  | Done (_, reply) => Received reply
  | _ => PollTimedOut
  end.

Lemma handle_encoded now e s s' :
  encodable e = true → dispatch now e s = Done s' → pings_accepted e →
  handle_message now (SerializeAsString e) s = Done (s', "OK").
Proof. intros He Hd Ha. eapply handle_parsed; [by apply parse_serialize | done | done]. Qed.

Lemma postMessage_connected now c e s s' :
  encodable (stamp c e).2 = true → zmq_connect (destinationUri c) = true →
  dispatch now (stamp c e).2 s = Done s' → pings_accepted (stamp c e).2 →
  postMessage (connected now s) e c = (Some true, (stamp c e).1).
Proof.
  intros He Hc Hd Ha. pose proof (handle_encoded now _ s s' He Hd Ha) as Hh.
  unfold postMessage, connected. destruct (stamp c e) as [c' e'] eqn:E.
  assert (destinationUri c' = destinationUri c) as ->.
  { unfold stamp in E. injection E as <- _. done. }
  cbn [fst snd] in *. by rewrite Hc, Hh.
Qed.

(** C16 A ping to a connected, well-formed server succeeds, if it can be encoded and
    [connect] accepts the address of its destination: the client sees OK; the
    server's clock passes both its own and the client's time; the client is alive at
    the server, stamped with that clock, and no longer suspected, and no other server
    is affected. *)
Theorem ping_end_to_end now c s :
  server_inv s → port (self_ c) ≠ 0%Z →
  encodable (stamp c Ping_envelope).2 = true → zmq_connect (destinationUri c) = true →
  ∃ s' r,
    handle_message now (SerializeAsString (stamp c Ping_envelope).2) s = Done (s', "OK") ∧
    (Ping (connected now s) c).1 = Some true ∧
    lamport_time_ s' =
      u64 (Z.max (lamport_time_ s) (u64 (client_lamport_time_ c + 1)) + 1) ∧
    seek (self_ c) (alive_ s') = Some r ∧ lamport_time r = lamport_time_ s' ∧
    timestamp r = CurrentTime now ∧
    seek (self_ c) (suspected_ s') = None ∧
    (∀ y, key y ≠ key (self_ c) → view_of s' !! key y = view_of s !! key y).
Proof.
  intros Hi Hp He Hc.
  set (s0 := UpdateLamportTime (u64 (client_lamport_time_ c + 1)) s).
  assert (server_inv s0) as Hi0 by (subst s0; auto with gossip).
  exists (OnUpdate now (self_ c) s0).
  pose proof (refine_OnUpdate now (self_ c) s0 Hi0) as Hv.
  destruct (AddAlive_alive_since now (lamport_time_ s0) (self_ c) (CurrentTime now)
    (view_of s0) Hp) as (r & Hr & _).
  pose proof (lookup_view (self_ c) (OnUpdate now (self_ c) s0)) as Hl.
  rewrite Hv, Hr in Hl.
  assert (dispatch now (stamp c Ping_envelope).2 s = Done (OnUpdate now (self_ c) s0)) as Hd
    by done.
  assert (pings_accepted (stamp c Ping_envelope).2) as Hpa by (intros rep [=]).
  exists r. split; [by apply handle_encoded|].
  split. { unfold Ping. by rewrite (postMessage_connected _ _ _ _ _ He Hc Hd Hpa). }
  assert (seek (self_ c) (alive_ (OnUpdate now (self_ c) s0)) = Some r) as Ha.
  { apply view_alive_seek. by rewrite Hv. }
  split. { apply (config_clock _ _ (config_AddAlive now (self_ c) (CurrentTime now) s0)). }
  split; [done|].
  assert (lamport_time r = lamport_time_ s0 ∧ timestamp r = CurrentTime now) as [Hrl Hrt].
  { unfold spec_AddAlive in Hr. rewrite (proj2 (Z.eqb_neq _ _) Hp), lookup_insert_eq in Hr.
    injection Hr as <-. repeat case_match; done. }
  split_and!.
  - rewrite Hrl. symmetry.
    apply (config_clock _ _ (config_AddAlive now (self_ c) (CurrentTime now) s0)).
  - done.
  - apply (inv_disjoint _ (inv_OnUpdate now (self_ c) s0 Hi0)). by eexists.
  - intros y Hy. rewrite Hv. unfold spec_AddAlive.
    rewrite (proj2 (Z.eqb_neq _ _) Hp), lookup_insert_ne by done. done.
Qed.
End EndToEnd.

(** The client of [host2] talking to [node_as], which suspects [host2]. *)
Definition client2 : SwimClient := mkSwimClient 41 (mkServer "node0" 9200 None 0) host2 25 256.

Lemma ping_end_to_end_witness : ∃ s' r,
  handle_message (pb:=bit_codec) t0
    (SerializeAsString (Protobuf:=bit_codec) (stamp client2 Ping_envelope).2) node_as
    = Done (s', "OK") ∧
  seek host2 (alive_ s') = Some r ∧ seek host2 (suspected_ s') = None.
Proof.
  destruct (ping_end_to_end (pb:=bit_codec) t0 client2 node_as node_as_inv)
    as (s' & r & H1 & _ & _ & H2 & _ & _ & H3 & _); [discriminate | reflexivity | reflexivity |].
  exists s', r. exact (conj H1 (conj H2 H3)).
Defined.

(** Two pings arrive, the first while the server is being stopped. *)
Lemma serve_well_behaved_witness :
  let ping := SerializeAsString (Protobuf:=bit_codec) (stamp client2 Ping_envelope).2 in
  ∃ s' replies,
    serve (pb:=bit_codec) [mkTurn true 1 1 (Some ping) t0; mkTurn false 1 1 (Some ping) t0]
      (set_stopped false node_as) = Done (s', replies) ∧
    replies = [] ∧ server_inv s'.
Proof.
  intros ping.
  assert (turn_safe (pb:=bit_codec) (mkTurn true 1 1 (Some ping) t0) ∧
          turn_safe (pb:=bit_codec) (mkTurn false 1 1 (Some ping) t0)) as [H1 H2].
  { unfold turn_safe, ping. cbn [received]. rewrite (parse_serialize (pb:=bit_codec)) by reflexivity.
    split; (split; [split; [by eexists | discriminate] | discriminate]). }
  destruct (serve_well_behaved (pb:=bit_codec)
    [mkTurn true 1 1 (Some ping) t0; mkTurn false 1 1 (Some ping) t0] (set_stopped false node_as))
    as (s' & replies & Hs & Hi & _ & _ & Hstop).
  - apply inv_stopped, node_as_inv.
  - constructor; [exact H1 | constructor; [exact H2 | constructor]].
  - exists s', replies. split; [exact Hs|]. split; [|exact Hi].
    apply (Hstop _ _ eq_refl). right. reflexivity.
Defined.
