(* ===== verification/Neighbors.v ===== *)
(** * Choosing neighbors ([GossipFailureDetector::GetUniqueNeighbors])

    The round-robin choice walks the alive set from a persistent index and skips the
    server itself; the random choice draws with replacement and gives up after a few
    collisions.  The round-robin loop is written with fuel; [round_robin_enough]
    shows that [2 * n + 1] turns always suffice. *)

From Stdlib Require Import ZArith Lia String.
From stdpp Require Import base list strings gmap.
From S2P Require Import Prelude StdSet SwimCommon UtilsHost SwimClient SwimServer Membership Fixtures.

(** How a loop ends: with a value, with the exception [empty_set], or not within
    the fuel. *)
Inductive loop_result (A : Type) :=
  | Finished (a : A)
  | ThrownEmptySet
  | OutOfFuel.
Arguments Finished {A}.
Arguments ThrownEmptySet {A}.
Arguments OutOfFuel {A}.

Definition kMaxCollisions : nat := 3.

Section Choice.
Context {os : OS}.

(** [round_robin_index_ > alive_size() - 1], on unsigned integers. *)
Definition past_end (index : nat) (s : SwimServer) : bool :=
  if (alive_size s =? 0)%nat then false else (alive_size s - 1 <? index)%nat.

(** The loop of the round-robin branch, from counter [idx], index [index] and the
    neighbors found so far. *)
Fixpoint round_robin (fuel : nat) (s : SwimServer) (n idx index : nat)
    (others : list Server) : loop_result (list Server * nat) :=
  match fuel with
  | O => OutOfFuel
  | S fuel =>
      if (idx <? n)%nat then
        let index := if past_end index s then 0%nat else index in
        match GetNeighborByIndex index s with
        | None => ThrownEmptySet
        | Some other =>
            let index := S index in
            if Server_eqb other (self s) then
              if (alive_size s <=? 1)%nat then Finished (others, index)
              else round_robin fuel s n idx index others
            else round_robin fuel s n (S idx) index (insert other others).1
        end
      else Finished (others, index)
  end.

(** The loop of the random branch; [draw i] is the draw of turn [i]. *)
Fixpoint random_choice (turns i : nat) (draw : nat → nat) (s : SwimServer)
    (collisions : nat) (others : list Server) : list Server :=
  match turns with
  | O => others
  | S turns =>
      match GetRandomNeighbor (draw i) s with
      | None => random_choice turns (S i) draw s collisions others
      | Some other =>
          let '(others, inserted) := insert other others in
          if negb inserted then
            if (kMaxCollisions <? S collisions)%nat then others
            else random_choice turns (S i) draw s (S collisions) others
          else random_choice turns (S i) draw s collisions others
      end
  end.

(** The neighbors and the new round-robin index. *)
Definition GetUniqueNeighbors (k : nat) (roundRobin : bool) (draw : nat → nat)
    (index : nat) (s : SwimServer) : loop_result (list Server * nat) :=
  let n := Nat.min k (alive_size s) in
  if roundRobin then round_robin (S (2 * n)) s n 0 index []
  else Finished (random_choice n 0 draw s 0 [], index).
End Choice.

(** ** Round robin *)

Section RoundRobin.
Context {os : OS} (s : SwimServer) (Ho : ordered (alive_ s)).

(** The other servers of the alive set. *)
Definition is_other (x : Server) : Prop := Server_eqb x (self s) = false.
Definition all_servers : list Server := server <$> alive_ s.
Definition other_servers : list Server := filter is_other all_servers.

Let N := alive_size s.

Definition current (index : nat) : nat := if past_end index s then 0 else index.

Lemma length_all : length all_servers = N.
Proof. apply length_fmap. Qed.

Lemma current_lt index : 0 < N → current index < N.
Proof.
  intros HN. unfold current, past_end. fold N.
  destruct (Nat.eqb_spec N 0); [lia|]. destruct (Nat.ltb_spec (N - 1) index); lia.
Qed.

Lemma current_succ i : i < N → current (S i) = if decide (S i = N) then 0 else S i.
Proof.
  intros Hi. unfold current, past_end. fold N.
  destruct (Nat.eqb_spec N 0); [lia|].
  destruct (Nat.ltb_spec (N - 1) (S i)); case_decide; lia.
Qed.

Lemma neighbor_at i : i < N → GetNeighborByIndex i s = all_servers !! i.
Proof.
  intros Hi. unfold GetNeighborByIndex. change (size (alive_ s)) with N.
  destruct (Nat.eqb_spec N 0); [lia|]. destruct (Nat.leb_spec N i); [lia|].
  unfold at_index, all_servers. by rewrite list_lookup_fmap.
Qed.

Lemma neighbor_lookup i : i < N → ∃ x, all_servers !! i = Some x ∧ x ∈ all_servers.
Proof.
  intros Hi. destruct (lookup_lt_is_Some_2 all_servers i) as [x Hx].
  { by rewrite length_all. }
  exists x. split; [done | by eapply list_elem_of_lookup_2].
Qed.

Lemma all_servers_key_inj i j x y :
  all_servers !! i = Some x → all_servers !! j = Some y → key x = key y → i = j.
Proof.
  intros Hx Hy Hk.
  pose proof (ordered_NoDup_keys (alive_ s) Ho) as Hnd.
  assert ((λ r, key (server r)) <$> alive_ s = key <$> all_servers) as Hm.
  { unfold all_servers. by rewrite <- list_fmap_compose. }
  rewrite Hm in Hnd. eapply NoDup_lookup; [exact Hnd | |].
  - rewrite list_lookup_fmap, Hx. done.
  - rewrite list_lookup_fmap, Hy, Hk. done.
Qed.

Lemma elem_of_others x : x ∈ other_servers ↔ is_other x ∧ x ∈ all_servers.
Proof. apply list_elem_of_filter. Qed.

Lemma NoDup_all : NoDup all_servers.
Proof.
  apply NoDup_alt. intros i j x Hi Hj. by eapply all_servers_key_inj.
Qed.

Lemma NoDup_others : NoDup other_servers.
Proof. apply NoDup_filter, NoDup_all. Qed.

Lemma others_not_equiv i x y :
  all_servers !! i = Some x → y ∈ all_servers → equivb x y = true → x = y.
Proof.
  intros Hx [j Hy]%list_elem_of_lookup_1 E%Server_eqb_key.
  pose proof (all_servers_key_inj i j x y Hx Hy E) as ->. congruence.
Qed.

(** Turn [i] of a walk that starts at [a]. *)
Definition walk (a i : nat) : nat := if a + i <? N then a + i else a + i - N.

(** What holds of the neighbors found so far: either the whole alive set has been
    visited, or the walk is at turn [j] and has found [idx] neighbors. *)
Definition progress_made (a idx index : nat) (others : list Server) : Prop :=
  ordered others ∧ (∀ x, x ∈ others → x ∈ other_servers) ∧
  ((∀ x, x ∈ other_servers → x ∈ others) ∧ length other_servers ≤ idx ∨
   ∃ j, j < N ∧ current index = walk a j ∧ length others = idx ∧
     (∀ x, x ∈ others → ∃ i, i < j ∧ all_servers !! walk a i = Some x) ∧
     (∀ i x, i < j → all_servers !! walk a i = Some x → is_other x → x ∈ others)).

Lemma walk_lt a i : a < N → i < N → walk a i < N.
Proof. intros Ha Hi. unfold walk. destruct (Nat.ltb_spec (a + i) N); lia. Qed.

Lemma walk_inj a i j : a < N → i < N → j < N → walk a i = walk a j → i = j.
Proof.
  unfold walk. destruct (Nat.ltb_spec (a + i) N), (Nat.ltb_spec (a + j) N); lia.
Qed.

Lemma walk_onto a p : a < N → p < N → ∃ i, i < N ∧ walk a i = p.
Proof.
  intros Ha Hp. destruct (decide (a ≤ p)).
  - exists (p - a). unfold walk. destruct (Nat.ltb_spec (a + (p - a)) N); lia.
  - exists (p + N - a). unfold walk. destruct (Nat.ltb_spec (a + (p + N - a)) N); lia.
Qed.

Lemma walk_succ a j : a < N → S j < N → current (S (walk a j)) = walk a (S j).
Proof.
  intros Ha Hj. rewrite current_succ by (apply walk_lt; lia).
  unfold walk. destruct (Nat.ltb_spec (a + j) N), (Nat.ltb_spec (a + S j) N);
    case_decide; lia.
Qed.

(** Having visited every turn below [N], the walk has seen the whole set. *)
Lemma walk_complete a (others : list Server) :
  a < N →
  (∀ i x, i < N → all_servers !! walk a i = Some x → is_other x → x ∈ others) →
  ∀ x, x ∈ other_servers → x ∈ others.
Proof.
  intros Ha Hv x [Hx [p Hp]%list_elem_of_lookup_1]%elem_of_others.
  destruct (walk_onto a p Ha) as (i & Hi & <-).
  { rewrite <- length_all. by eapply lookup_lt_Some. }
  by eapply Hv.
Qed.

(** Moves a found-so-far walk one turn on, once turn [j] is accounted for. *)
Lemma progress_next a idx j (others : list Server) :
  a < N → j < N → ordered others → (∀ x, x ∈ others → x ∈ other_servers) →
  length others = idx →
  (∀ x, x ∈ others → ∃ i, i < S j ∧ all_servers !! walk a i = Some x) →
  (∀ i x, i < S j → all_servers !! walk a i = Some x → is_other x → x ∈ others) →
  progress_made a idx (S (walk a j)) others.
Proof.
  intros Ha Hj Hord Hs Hl Hfrom Hall. split; [done|]. split; [done|].
  destruct (decide (S j = N)) as [E|E].
  - left. rewrite E in Hall. pose proof (walk_complete a others Ha Hall) as Hc.
    split; [done|]. rewrite <- Hl.
    apply submseteq_length, NoDup_submseteq; [apply NoDup_others | done].
  - right. exists (S j). split; [lia|]. split; [apply walk_succ; [done | lia]|]. done.
Qed.

Lemma progress_self a idx index x others :
  a < N → all_servers !! current index = Some x → ¬ is_other x →
  progress_made a idx index others → progress_made a idx (S (current index)) others.
Proof.
  intros Ha Hx Hself (Hord & Hs & [Hc|(j & Hj & Hcur & Hl & Hfrom & Hall)]).
  { split; [done|]. split; [done|]. by left. }
  rewrite Hcur. apply progress_next; auto.
  - intros y Hy. destruct (Hfrom y Hy) as (i & Hi & ?). exists i. split; [lia | done].
  - intros i y Hi Hy Hoy. destruct (decide (i = j)) as [->|]; [|apply (Hall i); [lia | done..]].
    rewrite <- Hcur, Hx in Hy. congruence.
Qed.

Lemma progress_other a idx index x others :
  a < N → all_servers !! current index = Some x → is_other x →
  progress_made a idx index others →
  progress_made a (S idx) (S (current index)) (insert x others).1.
Proof.
  intros Ha Hx Hother (Hord & Hs & Hcase).
  assert (x ∈ other_servers) as Hxo.
  { apply elem_of_others. split; [done | by eapply list_elem_of_lookup_2]. }
  destruct Hcase as [[Hc Hm]|(j & Hj & Hcur & Hl & Hfrom & Hall)].
  - rewrite (insert_present x x); [|done | apply find_self; auto].
    split; [done|]. split; [done|]. left. split; [done | lia].
  - assert (find x others = None) as Hnone.
    { apply find_None. intros y Hy. apply not_true_is_false. intros E.
      destruct (Hfrom y Hy) as (i & Hi & Hyi).
      apply Server_eqb_key in E. rewrite Hcur in Hx.
      pose proof (all_servers_key_inj _ _ _ _ Hx Hyi E) as Hw.
      apply walk_inj in Hw; lia. }
    rewrite Hcur in *. apply progress_next; auto; [by apply ordered_insert|..].
    + intros y [->|Hy]%elem_of_insert; auto.
    + pose proof (size_insert x others Hord) as Hsz. rewrite Hnone in Hsz.
      unfold size in Hsz. lia.
    + intros y [->|Hy]%elem_of_insert; [exists j; split; [lia | done]|].
      destruct (Hfrom y Hy) as (i & Hi & ?). exists i. split; [lia | done].
    + intros i y Hi Hy Hoy. destruct (decide (i = j)) as [->|].
      * rewrite Hx in Hy. injection Hy as <-. by apply elem_of_insert_new.
      * apply elem_of_insert_old; [done|]. apply (Hall i); [lia | done..].
Qed.

(** The result of a finished walk that was to find [n] neighbors. *)
Definition walk_result (n : nat) (others : list Server) : Prop :=
  ordered others ∧ (∀ x, x ∈ others → x ∈ other_servers) ∧
  length others = Nat.min n (length other_servers).

Lemma progress_result a n index others :
  progress_made a n index others → walk_result n others.
Proof.
  intros (Hord & Hs & Hcase).
  assert (length others ≤ length other_servers) as Hle.
  { apply submseteq_length, NoDup_submseteq; [by apply ordered_NoDup | done]. }
  split; [done|]. split; [done|].
  destruct Hcase as [[Hc Hm]|(j & _ & _ & Hl & _)]; [|lia].
  assert (length other_servers ≤ length others); [|lia].
  apply submseteq_length, NoDup_submseteq; [apply NoDup_others | done].
Qed.

(** Only this server is alive: nobody is left to gossip with. *)
Lemma alone_no_others i x :
  N ≤ 1 → all_servers !! i = Some x → ¬ is_other x → other_servers = [].
Proof.
  intros HN Hx Hself. pose proof length_all as Hl. pose proof (lookup_lt_Some _ _ _ Hx).
  destruct all_servers as [|y [|z l]] eqn:E; simpl in *; try lia.
  assert (i = 0) as -> by lia. simplify_eq/=.
  unfold other_servers. rewrite E, filter_cons_False by done. done.
Qed.

Lemma is_other_dec_spec x : is_other x ↔ Server_eqb x (self s) = false.
Proof. done. Qed.

(** The successor of the turn at which the walk meets the server itself. *)
Lemma after_self index x :
  1 < N → all_servers !! current index = Some x → ¬ is_other x →
  ∃ y, all_servers !! current (S (current index)) = Some y ∧ is_other y.
Proof.
  intros HN Hx Hself. assert (current index < N) as Hlt by (apply current_lt; lia).
  destruct (neighbor_lookup (current (S (current index)))) as (y & Hy & _).
  { apply current_lt. lia. }
  exists y. split; [done|]. unfold is_other in *. apply not_true_is_false. intros Ey.
  apply not_false_is_true in Hself. apply Server_eqb_key in Ey, Hself.
  rewrite <- Hself in Ey. pose proof (all_servers_key_inj _ _ _ _ Hy Hx Ey) as Hc.
  rewrite current_succ in Hc by done. case_decide; lia.
Qed.

Lemma round_robin_turn fuel n idx index others x :
  idx < n → 0 < N → all_servers !! current index = Some x →
  round_robin (S fuel) s n idx index others =
    if Server_eqb x (self s) then
      if (N <=? 1)%nat then Finished (others, S (current index))
      else round_robin fuel s n idx (S (current index)) others
    else round_robin fuel s n (S idx) (S (current index)) (insert x others).1.
Proof.
  intros Hidx HN Hx. simpl. rewrite (proj2 (Nat.ltb_lt idx n)) by done.
  fold (current index). rewrite neighbor_at by by apply current_lt.
  by rewrite Hx.
Qed.

(** Twice the number of neighbors still wanted, plus one, is enough fuel. *)
Lemma round_robin_enough a n todo fuel idx index others :
  a < N → n ≤ N → idx + todo = n → 2 * todo + 1 ≤ fuel →
  progress_made a idx index others →
  ∃ others' index',
    round_robin fuel s n idx index others = Finished (others', index') ∧
    walk_result n others'.
Proof.
  intros Ha Hn. revert fuel idx index others.
  induction todo as [|todo IH]; intros [|fuel] idx index others Hidx Hfuel Hp; try lia.
  { simpl. rewrite (proj2 (Nat.ltb_ge idx n)) by lia. do 2 eexists. split; [done|].
    assert (idx = n) as <- by lia. by eapply progress_result. }
  destruct (neighbor_lookup (current index)) as (x & Hx & _); [apply current_lt; lia|].
  rewrite (round_robin_turn _ _ _ _ _ x) by (done || lia).
  destruct (Server_eqb x (self s)) eqn:Eself.
  - assert (¬ is_other x) as Hself by (unfold is_other; congruence).
    destruct (Nat.leb_spec N 1) as [HN|HN].
    { do 2 eexists. split; [done|]. destruct Hp as (Hord & Hs & _).
      pose proof (alone_no_others _ _ HN Hx Hself) as Ho'. unfold walk_result.
      rewrite Ho' in *. split; [done|]. split; [done|].
      destruct others as [|y others]; [simpl; lia|].
      exfalso. apply (elem_of_nil y), Hs. left. }
    destruct fuel as [|fuel]; [lia|].
    destruct (after_self index x HN Hx Hself) as (y & Hy & Hoy).
    rewrite (round_robin_turn _ _ _ _ _ y) by (done || lia).
    rewrite Hoy. apply IH; [lia | lia|].
    apply progress_other; [done | done | done |]. by eapply progress_self.
  - apply IH; [lia | lia|]. by apply progress_other.
Qed.

Lemma progress_start index : 0 < N → progress_made (current index) 0 index [].
Proof.
  intros HN. pose proof (current_lt index HN) as Hc.
  split; [constructor|]. split; [by intros x ?%elem_of_nil|]. right. exists 0.
  split; [done|]. split_and!; [|done | by intros x ?%elem_of_nil | lia].
  unfold walk. destruct (Nat.ltb_spec (current index + 0) N); lia.
Qed.
End RoundRobin.

Section Neighbors.
Context {os : OS}.

Lemma round_robin_total k index s :
  ordered (alive_ s) →
  ∃ others index',
    GetUniqueNeighbors k true (λ _, 0) index s = Finished (others, index') ∧
    NoDup (key <$> others) ∧
    (∀ x, x ∈ others → key x ≠ key (self s) ∧ ∃ r, r ∈ alive_ s ∧ server r = x) ∧
    length others = Nat.min k (length (other_servers s)).
Proof.
  intros Ho.
  assert (length (other_servers s) ≤ alive_size s) as Hm.
  { rewrite <- (length_all s). unfold other_servers. apply length_filter. }
  assert (∃ others index',
    GetUniqueNeighbors k true (λ _, 0) index s = Finished (others, index') ∧
    walk_result s (Nat.min k (alive_size s)) others) as (others & index' & Hr & Hord & Hs & Hl).
  { unfold GetUniqueNeighbors. destruct (alive_size s) as [|N'] eqn:HN.
    - rewrite Nat.min_0_r. do 2 eexists. split; [done|].
      split; [constructor|]. split; [by intros x ?%elem_of_nil|]. simpl. lia.
    - eapply (round_robin_enough s Ho (current s index) _ (Nat.min k (S N'))); try lia.
      + apply current_lt. lia.
      + apply progress_start. lia. }
  exists others, index'. split; [done|]. split; [by apply ordered_keys_NoDup|].
  split; [|lia].
  intros x Hx. apply Hs, elem_of_others in Hx as [Hox (r & -> & Hr')%list_elem_of_fmap].
  split; [by apply Server_eqb_neq | eauto].
Qed.

(** C15 The round-robin choice always terminates without an exception and returns
    distinct members of the alive set other than the server itself: exactly [k] of
    them, or all of them when there are fewer. *)
Theorem round_robin_neighbors k draw index s :
  server_inv s →
  ∃ others index',
    GetUniqueNeighbors k true draw index s = Finished (others, index') ∧
    NoDup (key <$> others) ∧
    (∀ x, x ∈ others → key x ≠ key (self s) ∧ ∃ r, r ∈ alive_ s ∧ server r = x) ∧
    length others = Nat.min k (length (other_servers s)).
Proof.
  intros Hi. exact (round_robin_total k index s (inv_alive _ Hi)).
Qed.

Lemma random_choice_spec turns i draw s collisions others :
  ordered others → (∀ x, x ∈ others → x ∈ server <$> alive_ s) →
  let res := random_choice turns i draw s collisions others in
  ordered res ∧ (∀ x, x ∈ res → x ∈ server <$> alive_ s) ∧
  length others ≤ length res ≤ length others + turns.
Proof.
  revert i collisions others.
  induction turns as [|turns IH]; intros i collisions others Ho Hs; simpl; [split_and!; done || lia|].
  destruct (GetRandomNeighbor (draw i) s) as [other|] eqn:Hg.
  - assert (other ∈ server <$> alive_ s) as Hin.
    { unfold GetRandomNeighbor in Hg. case_if; [done|]. unfold at_index in Hg.
      rewrite <- list_lookup_fmap in Hg. by eapply list_elem_of_lookup_2. }
    pose proof (ordered_insert other others Ho) as Ho'.
    pose proof (size_insert other others Ho) as Hsz. unfold size in Hsz.
    assert (∀ x, x ∈ (insert other others).1 → x ∈ server <$> alive_ s) as Hs'.
    { intros x [->|Hx]%elem_of_insert; auto. }
    destruct (insert other others) as [set ins]. simpl in *.
    assert (length others ≤ length set ≤ S (length others)) as Hlen by (case_match; lia).
    destruct ins; cbn [negb].
    + destruct (IH (S i) collisions set Ho' Hs') as (H1 & H2 & H3). split_and!; done || lia.
    + destruct (IH (S i) (S collisions) set Ho' Hs') as (H1 & H2 & H3).
      destruct (kMaxCollisions <? S collisions)%nat; split_and!; done || lia.
  - destruct (IH (S i) collisions others Ho Hs) as (H1 & H2 & H3). split_and!; done || lia.
Qed.

(** The random choice never throws and returns distinct members of the alive
    set, at most [k]; it returns at least one when [k] and the set allow it and the
    draws are in range. *)
Theorem random_neighbors k draw index s :
  server_inv s → (∀ i, draw i < alive_size s) →
  ∃ others,
    GetUniqueNeighbors k false draw index s = Finished (others, index) ∧
    NoDup (key <$> others) ∧
    (∀ x, x ∈ others → ∃ r, r ∈ alive_ s ∧ server r = x) ∧
    Nat.min 1 (Nat.min k (alive_size s)) ≤ length others ≤ Nat.min k (alive_size s).
Proof.
  intros Hi Hd. unfold GetUniqueNeighbors. eexists. split; [done|].
  destruct (Nat.min k (alive_size s)) as [|n] eqn:Hn.
  { simpl. split; [constructor|]. split; [by intros x ?%elem_of_nil | lia]. }
  simpl. destruct (GetRandomNeighbor (draw 0) s) as [other|] eqn:Hg.
  - unfold GetRandomNeighbor in Hg. case_if; [done|]. unfold at_index in Hg.
    rewrite <- list_lookup_fmap in Hg.
    destruct (random_choice_spec n 1 draw s 0 [other]) as (H1 & H2 & H3).
    { repeat constructor. }
    { intros x ->%list_elem_of_singleton. by eapply list_elem_of_lookup_2. }
    simpl. split; [by apply ordered_keys_NoDup|]. split; [|simpl in *; lia].
    intros x (r & -> & Hr)%H2%list_elem_of_fmap. eauto.
  - exfalso. unfold GetRandomNeighbor in Hg. specialize (Hd 0).
    change (size (alive_ s)) with (alive_size s) in Hg.
    rewrite (proj2 (Nat.eqb_neq _ _)) in Hg by lia. unfold at_index in Hg.
    rewrite <- list_lookup_fmap in Hg. apply lookup_ge_None in Hg.
    rewrite length_fmap in Hg. unfold alive_size, size in *. lia.
Qed.
End Neighbors.

(** A node that knows [host1], [host3] and itself. *)
Definition node_three : SwimServer :=
  (AddAlive t0 (self node_a) ms0 (AddAlive t0 host3 ms0 node_a).1).1.

Lemma node_three_inv : server_inv node_three.
Proof. unfold node_three. auto with gossip. Qed.

Lemma round_robin_neighbors_witness :
  ∃ others index',
    GetUniqueNeighbors 6 true (λ _, 0) 1 node_three = Finished (others, index') ∧
    length others = 2.
Proof.
  destruct (round_robin_neighbors 6 (λ _, 0) 1 node_three node_three_inv)
    as (others & index' & H1 & _ & _ & H2).
  exists others, index'. split; [exact H1 | rewrite H2; reflexivity].
Defined.

Lemma random_neighbors_witness :
  ∃ others,
    GetUniqueNeighbors 2 false (λ i, Nat.min i 2) 0 node_three = Finished (others, 0) ∧
    1 ≤ length others.
Proof.
  destruct (random_neighbors 2 (λ i, Nat.min i 2) 0 node_three node_three_inv)
    as (others & H1 & _ & _ & H2).
  - intros i. change (alive_size node_three) with 3. lia.
  - exists others. split; [exact H1 | apply H2].
Defined.
