(* ===== verification/Detector.v ===== *)
(** * The failure detector ([GossipFailureDetector.hpp], [GossipFailureDetector.cpp])

    The detector drives its embedded [SwimServer]: it reports to neighbors, asks
    others to ping the ones that do not answer, pings suspects and evicts the expired
    ones.  Its methods run in a state monad over a [World]: the detector, the requests
    sent so far, and the number of questions put to the environment.  The environment
    answers question [n] through the class [Environment]: the clock, the network and
    the random draws.  A method ends with a value, fails in one of the ways of [failure], or
    runs out of fuel; [DetectorProps] proves that the only way to fail is a request to an
    address that ZeroMQ refuses. *)

From Stdlib Require Import ZArith Lia String.
From stdpp Require Import base list strings gmap.
From S2P Require Import Prelude StdSet SwimCommon UtilsHost SwimClient SwimServer Membership Refinement Report Fixtures Codec ServerProps Neighbors.

(** The four kinds of background thread. *)
Inductive BackgroundThread :=
  | thread_report_full
  | thread_report_single
  | thread_collect
  | thread_ping_suspect.

Record GossipFailureDetector := mkDetector {
  update_round_interval_ : Z;
  grace_period_ : Z;
  ping_timeout_ : Z;
  detector_host_name_ : string;
  num_reports_ : nat;
  num_forwards_ : nat;
  round_robin_index_ : nat;
  gossip_server_ : SwimServer;
  threads_ : list (BackgroundThread * bool)  (** with [joinable()] *)
}.

Definition set_gossip_server (s : SwimServer) (d : GossipFailureDetector) :=
  mkDetector (update_round_interval_ d) (grace_period_ d) (ping_timeout_ d)
    (detector_host_name_ d) (num_reports_ d) (num_forwards_ d) (round_robin_index_ d)
    s (threads_ d).
Definition set_round_robin_index (i : nat) (d : GossipFailureDetector) :=
  mkDetector (update_round_interval_ d) (grace_period_ d) (ping_timeout_ d)
    (detector_host_name_ d) (num_reports_ d) (num_forwards_ d) i
    (gossip_server_ d) (threads_ d).
Definition set_threads (l : list (BackgroundThread * bool)) (d : GossipFailureDetector) :=
  mkDetector (update_round_interval_ d) (grace_period_ d) (ping_timeout_ d)
    (detector_host_name_ d) (num_reports_ d) (num_forwards_ d) (round_robin_index_ d)
    (gossip_server_ d) l.
Definition set_update_round_interval (t : Z) (d : GossipFailureDetector) :=
  mkDetector t (grace_period_ d) (ping_timeout_ d)
    (detector_host_name_ d) (num_reports_ d) (num_forwards_ d) (round_robin_index_ d)
    (gossip_server_ d) (threads_ d).
Definition set_grace_period (t : Z) (d : GossipFailureDetector) :=
  mkDetector (update_round_interval_ d) t (ping_timeout_ d)
    (detector_host_name_ d) (num_reports_ d) (num_forwards_ d) (round_robin_index_ d)
    (gossip_server_ d) (threads_ d).
Definition set_ping_timeout (t : Z) (d : GossipFailureDetector) :=
  mkDetector (update_round_interval_ d) (grace_period_ d) t
    (detector_host_name_ d) (num_reports_ d) (num_forwards_ d) (round_robin_index_ d)
    (gossip_server_ d) (threads_ d).
Definition set_num_reports (n : nat) (d : GossipFailureDetector) :=
  mkDetector (update_round_interval_ d) (grace_period_ d) (ping_timeout_ d)
    (detector_host_name_ d) n (num_forwards_ d) (round_robin_index_ d)
    (gossip_server_ d) (threads_ d).
Definition set_num_forwards (n : nat) (d : GossipFailureDetector) :=
  mkDetector (update_round_interval_ d) (grace_period_ d) (ping_timeout_ d)
    (detector_host_name_ d) (num_reports_ d) n (round_robin_index_ d)
    (gossip_server_ d) (threads_ d).

Definition kDefaultNumReports : nat := 6.
Definition kDefaultNumForward : nat := 3.

Inductive ReportType := FULL | SINGLE.

(** The constructor: the server is created; its thread calls [start()]. *)
Definition newDetector {os : OS} (host_name : string) (statusCb : bool) (port interval
    grace_period ping_timeout_msec : Z) : GossipFailureDetector :=
  mkDetector interval grace_period ping_timeout_msec host_name kDefaultNumReports
    kDefaultNumForward 0
    (newSwimServer host_name port statusCb kNumThreads kDefaultPollingIntervalMsec) [].

(** ** The environment and the monad *)

Class Environment := {
  clock_at : nat → Timestamp;
  exchange_at : nat → Exchange;
  draw_at : nat → nat → nat  (** [draw_at n size], of [uniform_int_distribution(0, size - 1)] *)
}.

(** A request: destination, envelope, whether it was answered OK. *)
Abbreviation request := (string * SwimEnvelope * bool)%type.

Record World := mkWorld {
  detector : GossipFailureDetector;
  requests : list request;
  asked : nat
}.

(** What ends a process: the exception [empty_set] where nothing catches it; the exception
    of [connect] in the detached thread of [postMessage]; undefined behaviour; [LOG(FATAL)]. *)
Inductive failure :=
  | empty_set
  | connect_refused (uri : string)
  | undefined_behaviour
  | log_fatal.

(** How a computation ends; [Unfinished]: its fuel did not suffice. *)
Inductive completion (A : Type) :=
  | Value (a : A)
  | Failed (f : failure)
  | Unfinished.
Arguments Value {A} _.
Arguments Failed {A} _.
Arguments Unfinished {A}.

Definition M (A : Type) : Type := World → completion A * World.

#[export] Instance M_ret : MRet M := λ A a w, (Value a, w).
#[export] Instance M_bind : MBind M := λ A B f m w,
  match m w with
  | (Value a, w) => f a w
  | (Failed e, w) => (Failed e, w)
  | (Unfinished, w) => (Unfinished, w)
  end.

Section Monad.
Context {os : OS} {pb : Protobuf} {env : Environment}.

Definition gets {A} (f : GossipFailureDetector → A) : M A := λ w, (Value (f (detector w)), w).
Definition on_server {A} (f : SwimServer → SwimServer * A) : M A := λ w,
  let r := f (gossip_server_ (detector w)) in
  (Value r.2, mkWorld (set_gossip_server r.1 (detector w)) (requests w) (asked w)).
Definition on_server_ (f : SwimServer → SwimServer) : M unit := on_server (λ s, (f s, tt)).

(** Reading the system clock. *)
Definition now : M Timestamp := λ w,
  (Value (clock_at (asked w)), mkWorld (detector w) (requests w) (S (asked w))).

(** A draw below [size]. *)
Definition draw (size : nat) : M nat := λ w,
  (Value (draw_at (asked w) size), mkWorld (detector w) (requests w) (S (asked w))).

(** Posting an envelope from a client and waiting for the answer. *)
Definition post (e : SwimEnvelope) (c : SwimClient) : M bool := λ w,
  match (postMessage (exchange_at (asked w)) e c).1 with
  | Some ok =>
      (Value ok, mkWorld (detector w)
                   (requests w ++ [(destinationUri c, (stamp c e).2, ok)]) (S (asked w)))
  | None => (Failed (connect_refused (destinationUri c)), w)
  end.

(** [for (const auto &a : l) f(a)] *)
Fixpoint for_each {A} (l : list A) (f : A → M unit) : M unit :=
  match l with
  | [] => mret tt
  | a :: l => f a ≫= λ _, for_each l f
  end.

(** ** Methods *)

(** [SwimClient(host_name_, gossip_server_->GetLamportTime(), dest,
    gossip_server_->port())] *)
Definition client_to (dest : Server) : M SwimClient :=
  gets (λ d, newSwimClient (detector_host_name_ d) (GetLamportTime (gossip_server_ d)) dest
               (port_ (gossip_server_ d)) kDefaultTimeoutMsec).

(** [GetUniqueNeighbors(k)], by round robin. *)
Definition unique_neighbors (k : nat) : M (list Server) := λ w,
  let d := detector w in
  match GetUniqueNeighbors k true (λ _, 0) (round_robin_index_ d) (gossip_server_ d) with
  | Finished (others, index) =>
      (Value others, mkWorld (set_round_robin_index index d) (requests w) (asked w))
  | ThrownEmptySet => (Failed empty_set, w)
  | OutOfFuel => (Unfinished, w)
  end.

(** [SendReport(client, report, other)]; the clients of the forward requests share
    the time read before the loop. *)
Definition SendReport_to (client : SwimClient) (report : SwimReport) (other : Server) : M bool :=
  ret ← post (Send_envelope report) client;
  if negb ret then
    t ← now;
    _ ← on_server (ReportSuspected t other (CurrentTime t));
    k ← gets num_forwards_;
    forwards ← unique_neighbors k;
    lamportTime ← gets (λ d, GetLamportTime (gossip_server_ d));
    _ ← for_each forwards (λ fwd,
          c ← gets (λ d, newSwimClient (detector_host_name_ d) lamportTime fwd
                           (port_ (gossip_server_ d)) kDefaultTimeoutMsec);
          _ ← post (RequestPing_envelope other) c;
          mret tt);
    mret ret
  else mret ret.

Definition report_and_mark (report : SwimReport) (other : Server) : M unit :=
  client ← client_to other;
  ok ← SendReport_to client report other;
  if (ok : bool) then
    t ← now;
    _ ← on_server (AddAlive t other (CurrentTime t));
    mret tt
  else mret tt.

Definition SendReport {ss : StdSort} (type : ReportType) : M unit :=
  empty ← gets (λ d, alive_empty (gossip_server_ d));
  if (empty : bool) then mret tt
  else
    t1 ← now;
    t2 ← now;
    report ← gets (λ d, PrepareReport t1 t2 (gossip_server_ d));
    match type with
    | FULL =>
        k ← gets num_reports_;
        others ← unique_neighbors k;
        for_each others (report_and_mark report)
    | SINGLE =>
        size ← gets (λ d, alive_size (gossip_server_ d));
        num ← (if (size =? 0)%nat then mret 0 else draw size);
        picked ← gets (λ d, GetRandomNeighbor num (gossip_server_ d));
        match picked with
        | Some other => report_and_mark report other
        | None => mret tt
        end
    end.

Definition PingRandomSuspected : M unit :=
  size ← gets (λ d, suspected_size (gossip_server_ d));
  num ← (if (size =? 0)%nat then mret 0 else draw size);
  picked ← gets (λ d, GetRandomSuspect num (gossip_server_ d));
  match picked with
  | Some suspect =>
      client ← client_to suspect;
      ok ← post Ping_envelope client;
      if (ok : bool) then
        t ← now;
        _ ← on_server (AddAlive t suspect (CurrentTime t));
        mret tt
      else mret tt
  | None => mret tt
  end.

(** [long expiredTime = CurrentTime() - grace_period().count()] and the unsigned
    comparison [timestamp() < expiredTime]. *)
Definition expired (t grace : Z) (r : ServerRecord) : bool :=
  let expiredTime := s64 (u64 (CurrentTime t - u64 grace)) in
  (timestamp r <? u64 expiredTime)%Z.

Definition GarbageCollectSuspected {ss : StdSort} : M unit :=
  t1 ← now;
  t2 ← now;
  report ← gets (λ d, PrepareReport t1 t2 (gossip_server_ d));
  t ← now;
  grace ← gets grace_period_;
  for_each (suspected report) (λ r,
    if expired t grace r then
      t' ← now;
      on_server_ (RemoveSuspected t' (server r) remove_evicted)
    else mret tt).

Definition AddNeighbor (host : Server) : M unit :=
  client ← client_to host;
  ok ← post Ping_envelope client;
  t ← now;
  if (ok : bool) then
    _ ← on_server (AddAlive t host (CurrentTime t)); mret tt
  else
    _ ← on_server (ReportSuspected t host (CurrentTime t)); mret tt.

(** Starting the background threads; a round of each of them. *)
Definition InitAllBackgroundThreads : M unit := λ w,
  let d := detector w in
  if negb (isRunning (gossip_server_ d)) then (Value tt, w)
  else (Value tt,
        mkWorld (set_threads (threads_ d ++
          [(thread_report_full, true); (thread_report_single, true);
           (thread_collect, true); (thread_ping_suspect, true)]) d)
          (requests w) (asked w)).

(** Every thread is joined (its loop sees the stopped server and ends); the server
    is started again if it was running.  [restarted] is whether the new [start()]
    got its socket within the wait; if not, the process is terminated. *)
Definition StopAllBackgroundThreads (restarted : bool) : M unit := λ w,
  let d := detector w in
  let server_was_stopped := isRunning (gossip_server_ d) in
  let d := if server_was_stopped then set_gossip_server (stop (gossip_server_ d)) d else d in
  let d := set_threads ((λ t, (t.1, false)) <$> threads_ d) d in
  if server_was_stopped then
    if restarted then
      (Value tt, mkWorld (set_gossip_server (set_stopped false (gossip_server_ d)) d)
                   (requests w) (asked w))
    else (Failed log_fatal, mkWorld d (requests w) (asked w))
  else (Value tt, mkWorld d (requests w) (asked w)).

Definition thread_round {ss : StdSort} (t : BackgroundThread) : M unit :=
  running ← gets (λ d, isRunning (gossip_server_ d));
  if negb running then mret tt
  else match t with
       | thread_report_full => SendReport FULL
       | thread_report_single => SendReport SINGLE
       | thread_collect => GarbageCollectSuspected
       | thread_ping_suspect => PingRandomSuspected
       end.
End Monad.
