(* ===== verification/DetectorProps.v ===== *)
(** * What the failure detector guarantees

    Whatever the environment answers, a round of the background threads and a call of
    [AddNeighbor] complete, unless a request goes to an address that ZeroMQ refuses;
    [AddNeighbor] classifies its host; an unanswered report makes
    its addressee suspected and is escalated to other neighbors; garbage collection
    evicts exactly the expired suspects of the current report. *)

From Stdlib Require Import ZArith Lia String SpecFloat.
From stdpp Require Import base list strings gmap.
From S2P Require Import Prelude StdSet SwimCommon UtilsHost SwimClient SwimServer Membership Refinement Report Fixtures Codec Neighbors Detector.

(** ** How the methods end, and that the server stays well formed *)

Section Safety.
Context {os : OS} {pb : Protobuf} {env : Environment}.

Definition server_of (w : World) : SwimServer := gossip_server_ (detector w).

(** A value, or the exception of [connect] on an address that it refuses. *)
Definition ends_well {A} (r : completion A) : Prop :=
  match r with
  | Value _ => True
  | Failed (connect_refused uri) => zmq_connect uri = false
  | _ => False
  end.

(** Run from a world whose server is well formed, the computation ends well and leaves a
    well-formed server. *)
Definition safe {A} (m : M A) : Prop :=
  ∀ w, server_inv (server_of w) → ends_well (m w).1 ∧ server_inv (server_of (m w).2).

Lemma safe_ret {A} (a : A) : safe (mret a).
Proof. intros w Hi. done. Qed.

Lemma safe_bind {A B} (m : M A) (f : A → M B) :
  safe m → (∀ a, safe (f a)) → safe (m ≫= f).
Proof.
  intros Hm Hf w Hi. destruct (Hm w Hi) as [He Hi1]. unfold mbind, M_bind.
  destruct (m w) as [[a|e|] w1]; [by apply Hf | done | done].
Qed.

Lemma safe_gets {A} (f : GossipFailureDetector → A) : safe (gets f).
Proof. intros w Hi. done. Qed.
Lemma safe_now : safe now.
Proof. intros w Hi. done. Qed.
Lemma safe_draw size : safe (draw size).
Proof. intros w Hi. done. Qed.

(** What [post] does, whatever the network. *)
Lemma post_cases e c w :
  (∃ ok, (postMessage (exchange_at (asked w)) e c).1 = Some ok ∧
     zmq_connect (destinationUri c) = true ∧
     post e c w = (Value ok, mkWorld (detector w)
       (requests w ++ [(destinationUri c, (stamp c e).2, ok)]) (S (asked w)))) ∨
  ((postMessage (exchange_at (asked w)) e c).1 = None ∧
     zmq_connect (destinationUri c) = false ∧
     post e c w = (Failed (connect_refused (destinationUri c)), w)).
Proof.
  unfold post.
  assert (if zmq_connect (destinationUri c)
    then is_Some (postMessage (exchange_at (asked w)) e c).1
    else (postMessage (exchange_at (asked w)) e c).1 = None) as H.
  { unfold postMessage, stamp. change (destinationUri (set_client_lamport_time _ c))
      with (destinationUri c). destruct (zmq_connect (destinationUri c)); cbn [negb]; [|done].
    by destruct (exchange_at _ _ _ _); eexists. }
  destruct (zmq_connect (destinationUri c)).
  - left. destruct H as [ok ->]. by exists ok.
  - right. by rewrite H.
Qed.

Lemma safe_post e c : safe (post e c).
Proof.
  intros w Hi. destruct (post_cases e c w) as [(ok & _ & _ & ->)|(_ & Hz & ->)]; done.
Qed.

Lemma safe_on_server {A} (f : SwimServer → SwimServer * A) :
  (∀ s, server_inv s → server_inv (f s).1) → safe (on_server f).
Proof. intros Hf w Hi. split; [done|]. by apply Hf. Qed.

Lemma safe_if {A} (b : bool) (m1 m2 : M A) : safe m1 → safe m2 → safe (if b then m1 else m2).
Proof. by destruct b. Qed.

Lemma safe_for_each {A} (l : list A) f : (∀ a, safe (f a)) → safe (for_each l f).
Proof.
  intros Hf. induction l as [|a l IH]; [apply safe_ret|]. simpl. by apply safe_bind.
Qed.

Lemma unique_neighbors_spec k w :
  ordered (alive_ (server_of w)) →
  ∃ others index',
    unique_neighbors k w =
      (Value others, mkWorld (set_round_robin_index index' (detector w)) (requests w) (asked w)) ∧
    NoDup (key <$> others) ∧
    (∀ x, x ∈ others → key x ≠ key (self (server_of w)) ∧
       ∃ r, r ∈ alive_ (server_of w) ∧ server r = x) ∧
    length others = Nat.min k (length (other_servers (server_of w))).
Proof.
  intros Hi.
  destruct (round_robin_total k (round_robin_index_ (detector w)) (server_of w) Hi)
    as (others & index' & Hr & Hrest).
  exists others, index'. split; [|done]. unfold unique_neighbors, server_of in *. by rewrite Hr.
Qed.

Lemma safe_unique_neighbors k : safe (unique_neighbors k).
Proof.
  intros w Hi. destruct (unique_neighbors_spec k w (inv_alive _ Hi)) as (others & index' & Hr & _).
  by rewrite Hr.
Qed.

Lemma safe_client_to dest : safe (client_to dest).
Proof. apply safe_gets. Qed.

Create HintDb safe.
Hint Resolve safe_client_to safe_ret safe_gets safe_now safe_draw safe_post safe_unique_neighbors : safe.

(** Takes a computation apart into its steps. *)
Ltac solve_safe :=
  repeat first
    [ progress intros
    | solve [auto with safe]
    | apply safe_bind
    | apply safe_if
    | apply safe_for_each
    | apply safe_on_server; intros; simpl; solve [auto with gossip]
    | match goal with |- safe (match ?x with _ => _ end) => destruct x end ].

Lemma safe_SendReport_to c rep other : safe (SendReport_to c rep other).
Proof. unfold SendReport_to. solve_safe. Qed.
Hint Resolve safe_SendReport_to : safe.

Lemma safe_report_and_mark rep other : safe (report_and_mark rep other).
Proof. unfold report_and_mark. solve_safe. Qed.
Hint Resolve safe_report_and_mark : safe.

Lemma safe_SendReport {ss : StdSort} type : safe (SendReport type).
Proof. unfold SendReport. solve_safe. Qed.

Lemma safe_PingRandomSuspected : safe PingRandomSuspected.
Proof. unfold PingRandomSuspected. solve_safe. Qed.

Lemma safe_GarbageCollectSuspected {ss : StdSort} : safe GarbageCollectSuspected.
Proof. unfold GarbageCollectSuspected, on_server_. solve_safe. Qed.

Lemma safe_AddNeighbor host : safe (AddNeighbor host).
Proof. unfold AddNeighbor. solve_safe. Qed.

Lemma safe_thread_round {ss : StdSort} t : safe (thread_round t).
Proof.
  unfold thread_round.
  pose proof safe_SendReport. pose proof safe_PingRandomSuspected.
  pose proof (safe_GarbageCollectSuspected (ss:=ss)). solve_safe; auto.
Qed.

(** The rounds of the background threads and the calls of the user, in any order. *)
Inductive activity :=
  | act_thread (t : BackgroundThread)
  | act_AddNeighbor (host : Server).

Definition perform {ss : StdSort} (a : activity) : M unit :=
  match a with
  | act_thread t => thread_round t
  | act_AddNeighbor host => AddNeighbor host
  end.

(** C5 Whatever the clock, the network and the random draws do, and in whatever
    order the rounds of the background threads and calls to [AddNeighbor] happen one after
    the other, they come to an end and the embedded server stays well formed.  They end in
    one of two ways: all of them complete, or the process is ended by [connect], which throws
    for an address that it refuses; no other exception escapes and no loop goes on for ever. *)
Theorem detector_never_fails {ss : StdSort} (l : list activity) w :
  server_inv (server_of w) →
  ∃ res w', for_each l perform w = (res, w') ∧ server_inv (server_of w') ∧
    (res = Value tt ∨ ∃ uri, res = Failed (connect_refused uri) ∧ zmq_connect uri = false).
Proof.
  intros Hi.
  destruct (safe_for_each l perform) with (w := w) as [He Hi']; [|done|].
  { intros []; [apply safe_thread_round | apply safe_AddNeighbor]. }
  destruct (for_each l perform w) as [res w']. exists res, w'. split; [done|]. split; [done|].
  destruct res as [[]|[]|]; try done; [by left | right; eauto].
Qed.
End Safety.

(** ** What the methods do *)

(** Unfolds the monad. *)
Ltac run_monad :=
  unfold client_to, gets, post, now, draw, on_server, on_server_, mbind, M_bind, mret, M_ret;
  simpl.

Section Methods.
Context {os : OS} {pb : Protobuf} {env : Environment}.
Implicit Types (w : World) (x : Server).

(** The client a detector uses to talk to [dest]. *)
Definition detector_client (dest : Server) (w : World) : SwimClient :=
  newSwimClient (detector_host_name_ (detector w)) (lamport_time_ (server_of w)) dest
    (port_ (server_of w)) kDefaultTimeoutMsec.

(** [AddNeighbor] pings the host once: if the ping is answered the host becomes
    alive, otherwise it becomes suspected, in both cases with the time of the answer;
    it is in exactly one of the two sets. *)
Lemma AddNeighbor_classifies host w ok :
  server_inv (server_of w) → port host ≠ 0%Z → key host ≠ key (self (server_of w)) →
  let c := detector_client host w in
  (postMessage (exchange_at (asked w)) Ping_envelope c).1 = Some ok →
  ∃ w',
    AddNeighbor host w = (Value tt, w') ∧
    requests w' = requests w ++ [(destinationUri c, (stamp c Ping_envelope).2, ok)] ∧
    (if ok then seek host (suspected_ (server_of w')) = None ∧
       ∃ r, seek host (alive_ (server_of w')) = Some r ∧
         timestamp r = CurrentTime (clock_at (S (asked w)))
     else seek host (alive_ (server_of w')) = None ∧
       is_Some (seek host (suspected_ (server_of w')))).
Proof.
  intros Hi Hp Hs c Hok. unfold AddNeighbor. run_monad.
  change (newSwimClient _ _ _ _ _) with c. rewrite Hok.
  pose proof (inv_alive _ Hi) as Ha. pose proof (inv_suspected _ Hi) as Hsu.
  destruct ok; simpl; eexists; (split; [done|]); split; [done| |done|]; simpl;
    unfold server_of in *; simpl.
  - rewrite seek_suspected_AddAlive, seek_alive_AddAlive, Server_eqb_refl by done.
    split; [done|]. eexists. split; [done|]. by destruct (seek host _).
  - rewrite seek_alive_ReportSuspected, seek_suspected_ReportSuspected, Server_eqb_refl by done.
    split; [done|]. by eexists.
Qed.

(** How a loop over [forwards] ends that has posted a request to as many of them as there
    are answers [oks]: with [v], or at the next one, whose address is refused. *)
Definition loop_ends {A} (forwards : list Server) (oks : list bool) (v : A) (res : completion A)
    : Prop :=
  length oks = length forwards ∧ res = Value v ∨
  ∃ fwd, forwards !! length oks = Some fwd ∧ zmq_connect (uri_of fwd) = false ∧
    res = Failed (connect_refused (uri_of fwd)).

(** The forwarding loop posts one request per neighbor and changes nothing else. *)
Lemma forward_loop other lamportTime forwards w :
  ∃ oks res,
    loop_ends forwards oks tt res ∧
    for_each forwards (λ fwd,
      c ← gets (λ d, newSwimClient (detector_host_name_ d) lamportTime fwd
                       (port_ (gossip_server_ d)) kDefaultTimeoutMsec);
      _ ← post (RequestPing_envelope other) c;
      mret tt) w =
    (res, mkWorld (detector w)
      (requests w ++ zip_with (λ fwd ok,
         let c := newSwimClient (detector_host_name_ (detector w)) lamportTime fwd
                    (port_ (server_of w)) kDefaultTimeoutMsec in
         (destinationUri c, (stamp c (RequestPing_envelope other)).2, ok)) forwards oks)
      (asked w + length oks)).
Proof.
  revert w. induction forwards as [|fwd l IH]; intros w.
  - exists [], (Value tt). split; [by left|]. simpl. rewrite app_nil_r, Nat.add_0_r. by destruct w.
  - set (c := newSwimClient (detector_host_name_ (detector w)) lamportTime fwd
      (port_ (server_of w)) kDefaultTimeoutMsec).
    simpl for_each. unfold mbind, M_bind. cbn beta. unfold gets. fold (server_of w) c.
    destruct (post_cases (RequestPing_envelope other) c w) as [(ok & _ & _ & E)|(_ & Hz & E)].
    + destruct (IH (mkWorld (detector w)
        (requests w ++ [(destinationUri c, (stamp c (RequestPing_envelope other)).2, ok)])
        (S (asked w)))) as (oks & res & Hl & Hr).
      exists (ok :: oks), res. split.
      { destruct Hl as [[Hl ->]|(f & Hf & Hz & ->)]; [left; cbn; by rewrite Hl | right; by exists f]. }
      rewrite E. unfold mret, M_ret. etrans; [exact Hr|]. unfold server_of. simpl.
      rewrite <- app_assoc. simpl. f_equal. f_equal. lia.
    + exists [], (Failed (connect_refused (uri_of fwd))). split; [right; by exists fwd|].
      rewrite E. cbn. rewrite app_nil_r, Nat.add_0_r. by destruct w.
Qed.

(** Running a bind whose first step is known. *)
Lemma bind_step {A B} (m : M A) (f : A → M B) w a w' :
  m w = (Value a, w') → (m ≫= f) w = f a w'.
Proof. intros Hm. unfold mbind, M_bind. by rewrite Hm. Qed.

(** A bind that completes has a first step that does. *)
Lemma bind_Value_inv {A B} (m : M A) (f : A → M B) w b w' :
  (m ≫= f) w = (Value b, w') → ∃ a w1, m w = (Value a, w1) ∧ f a w1 = (Value b, w').
Proof. unfold mbind, M_bind. destruct (m w) as [[a|e|] w1]; [eauto | done | done]. Qed.

(** What [SendReport_to] does when the report is not answered: the world after the
    addressee is suspected, the neighbors chosen there, the requests they get. *)
Lemma SendReport_to_unanswered c rep other w :
  server_inv (server_of w) →
  (postMessage (exchange_at (asked w)) (Send_envelope rep) c).1 = Some false →
  let t := clock_at (S (asked w)) in
  let s' := (ReportSuspected t other (CurrentTime t) (server_of w)).1 in
  ∃ w' forwards oks res,
    SendReport_to c rep other w = (res, w') ∧ loop_ends forwards oks false res ∧
    server_of w' = s' ∧
    requests w' = requests w ++ (destinationUri c, (stamp c (Send_envelope rep)).2, false) ::
      zip_with (λ fwd ok,
        let f := detector_client fwd w in
        (destinationUri f, (stamp f (RequestPing_envelope other)).2, ok)) forwards oks ∧
    NoDup (key <$> forwards) ∧
    (∀ x, x ∈ forwards → key x ≠ key (self s') ∧ ∃ r, r ∈ alive_ s' ∧ server r = x) ∧
    length forwards = Nat.min (num_forwards_ (detector w)) (length (other_servers s')) ∧
    num_reports_ (detector w') = num_reports_ (detector w).
Proof.
  intros Hi Hunanswered t s'.
  pose proof (config_ReportSuspected t other (CurrentTime t) (server_of w)) as Hc. fold s' in Hc.
  assert (lamport_time_ s' = lamport_time_ (server_of w) ∧ port_ s' = port_ (server_of w))
    as [Hclock Hport] by (unfold config in Hc; split; congruence).
  set (w1 := mkWorld (set_gossip_server s' (detector w))
    (requests w ++ [(destinationUri c, (stamp c (Send_envelope rep)).2, false)])
    (S (S (asked w)))).
  assert (server_inv (server_of w1)) as Hi1 by (change (server_inv s'); unfold s'; auto with gossip).
  destruct (unique_neighbors_spec (num_forwards_ (detector w)) w1 (inv_alive _ Hi1))
    as (forwards & index' & Hu & Hnd & Hf & Hl).
  set (w2 := mkWorld (set_round_robin_index index' (detector w1)) (requests w1) (asked w1)) in *.
  destruct (forward_loop other (lamport_time_ (server_of w)) forwards w2) as (oks & res & Hlo & Hr).
  match type of Hr with _ = (_, ?w) => set (w3 := w) in Hr end.
  exists w3, forwards, oks, (match res with
    Value _ => Value false | Failed e => Failed e | Unfinished => Unfinished end).
  split; [|split; [|split; [|split]]].
  - unfold SendReport_to.
    erewrite bind_step by (unfold post; by rewrite Hunanswered). cbn [negb].
    erewrite bind_step by done. erewrite bind_step by done. erewrite bind_step by done.
    erewrite bind_step by exact Hu. erewrite bind_step by done.
    unfold mbind at 1, M_bind at 1.
    match goal with |- match ?e with _ => _ end = _ => assert (e = (res, w3)) as ->
      by (etrans; [|exact Hr]; by rewrite <- Hclock) end.
    by destruct res.
  - destruct Hlo as [[? ->]|(f & ? & ? & ->)]; [by left | right; eauto].
  - done.
  - unfold w3. cbn [requests]. change (port_ (server_of w2)) with (port_ s'). rewrite Hport.
    change (requests w2) with (requests w1). unfold w1. cbn [requests].
    by rewrite <- app_assoc.
  - by split_and!.
Qed.

(** C17 A report that is not answered escalates: its addressee is no longer alive
    and is suspected; then [num_forwards_] alive servers (or all of them, if fewer),
    none of them the addressee or the server itself, are chosen and each get one request to
    ping it, one after the other, unless [connect] refuses the address of one of them, which
    ends the process there; no other message is sent. *)
Theorem unanswered_report_escalates c rep other w :
  server_inv (server_of w) → port other ≠ 0%Z → key other ≠ key (self (server_of w)) →
  (postMessage (exchange_at (asked w)) (Send_envelope rep) c).1 = Some false →
  ∃ w' forwards oks res,
    SendReport_to c rep other w = (res, w') ∧ loop_ends forwards oks false res ∧
    seek other (alive_ (server_of w')) = None ∧
    is_Some (seek other (suspected_ (server_of w'))) ∧
    requests w' = requests w ++ (destinationUri c, (stamp c (Send_envelope rep)).2, false) ::
      zip_with (λ fwd ok,
        let f := detector_client fwd w in
        (destinationUri f, (stamp f (RequestPing_envelope other)).2, ok)) forwards oks ∧
    NoDup (key <$> forwards) ∧
    length forwards =
      Nat.min (num_forwards_ (detector w)) (length (other_servers (server_of w'))) ∧
    (∀ x, x ∈ forwards → key x ≠ key (self (server_of w)) ∧ key x ≠ key other ∧
       is_Some (seek x (alive_ (server_of w')))).
Proof.
  intros Hi Hp Hs Hunanswered.
  pose proof (inv_alive _ Hi) as Ha. pose proof (inv_suspected _ Hi) as Hsu.
  destruct (SendReport_to_unanswered c rep other w Hi Hunanswered)
    as (w' & forwards & oks & res & Hrun & Hlo & Hw' & Hreq & Hnd & Hf & Hl & _).
  exists w', forwards, oks, res. rewrite Hw'.
  assert (∀ s t, server_inv s → port other ≠ 0%Z → key other ≠ key (self s) →
    seek other (alive_ (ReportSuspected t other (CurrentTime t) s).1) = None) as Hgone.
  { intros s t Hi' _ Hs'. pose proof (inv_alive _ Hi').
    by rewrite seek_alive_ReportSuspected, Server_eqb_refl by done. }
  split_and!; try done; [by apply Hgone | |].
  - rewrite seek_suspected_ReportSuspected, Server_eqb_refl by done. by eexists.
  - intros x Hx. destruct (Hf x Hx) as [Hxs (r & Hr & <-)].
    rewrite (config_self _ _ (config_ReportSuspected _ _ _ _)) in Hxs.
    apply seek_elem in Hr; [|by apply inv_alive, inv_ReportSuspected].
    split; [done|]. split; [|rewrite Hr; by eexists].
    intros E. rewrite (seek_key _ _ _ E), Hgone in Hr by done. done.
Qed.
(** A round of pinging suspects, when the draw picks the record [r]. *)
Lemma PingRandomSuspected_picked w r :
  suspected_ (server_of w) !! draw_at (asked w) (suspected_size (server_of w)) = Some r →
  let c := detector_client (server r) w in
  zmq_connect (destinationUri c) = true →
  let ok := default false (postMessage (exchange_at (S (asked w))) Ping_envelope c).1 in
  let t := clock_at (S (S (asked w))) in
  PingRandomSuspected w =
    (Value tt, mkWorld
       (if ok then set_gossip_server (AddAlive t (server r) (CurrentTime t) (server_of w)).1
                     (detector w) else detector w)
       (requests w ++ [(destinationUri c, (stamp c Ping_envelope).2, ok)])
       (S (if ok then S (S (asked w)) else S (asked w)))).
Proof.
  intros Hr c Hz ok t. unfold PingRandomSuspected, server_of in *.
  assert ((suspected_size (gossip_server_ (detector w)) =? 0)%nat = false) as Hpos.
  { apply lookup_lt_Some in Hr. apply Nat.eqb_neq. unfold suspected_size, size. lia. }
  unfold gets, mbind, M_bind. rewrite Hpos. unfold draw. cbn [detector].
  unfold GetRandomSuspect, at_index. unfold suspected_size in Hpos. rewrite Hpos.
  rewrite Hr. cbn [fmap option_fmap option_map].
  unfold client_to, gets, now, on_server, mret, M_ret. cbn [detector asked requests].
  fold (server_of w). change (newSwimClient _ _ _ _ _) with c.
  destruct (post_cases Ping_envelope c (mkWorld (detector w) (requests w) (S (asked w))))
    as [(b & Hb & _ & E)|(_ & Hz' & _)]; [|congruence].
  rewrite E. cbn [asked] in Hb. assert (b = ok) as -> by (unfold ok; by rewrite Hb).
  by destruct ok.
Qed.

(** C8 A round of pinging suspects sends one ping, to a suspected server; if it is
    answered that server is no longer suspected and is alive with the time of the
    answer, otherwise no membership changes.  With no suspects nothing is sent.  (The
    addresses of the suspects are accepted by [connect].) *)
Theorem suspect_ping_recovers w :
  server_inv (server_of w) → (∀ n size, 0 < size → draw_at n size < size) →
  (∀ r, r ∈ suspected_ (server_of w) → zmq_connect (uri_of (server r)) = true) →
  (suspected_ (server_of w) = [] → PingRandomSuspected w = (Value tt, w)) ∧
  (suspected_ (server_of w) ≠ [] →
   ∃ r w',
     let c := detector_client (server r) w in
     let ok := default false (postMessage (exchange_at (S (asked w))) Ping_envelope c).1 in
     r ∈ suspected_ (server_of w) ∧
     PingRandomSuspected w = (Value tt, w') ∧
     requests w' = requests w ++ [(destinationUri c, (stamp c Ping_envelope).2, ok)] ∧
     if ok then seek (server r) (suspected_ (server_of w')) = None ∧
       ∃ r', seek (server r) (alive_ (server_of w')) = Some r' ∧
         timestamp r' = CurrentTime (clock_at (S (S (asked w))))
     else server_of w' = server_of w).
Proof.
  intros Hi Hdraw Hz. pose proof (inv_alive _ Hi) as Ha. pose proof (inv_suspected _ Hi) as Hsu.
  split.
  { intros Hn. unfold PingRandomSuspected, gets, mbind, M_bind, suspected_size, GetRandomSuspect.
    fold (server_of w). rewrite Hn. simpl. fold (server_of w). by rewrite Hn. }
  intros Hn. set (n := suspected_size (server_of w)).
  assert (0 < n) as Hpos.
  { unfold n, suspected_size, size. destruct (suspected_ _); [done | simpl; lia]. }
  destruct (lookup_lt_is_Some_2 (suspected_ (server_of w)) (draw_at (asked w) n)
    (Hdraw _ _ Hpos)) as [r Hr].
  pose proof (PingRandomSuspected_picked w r Hr (Hz r (list_elem_of_lookup_2 _ _ _ Hr))) as Hrun.
  apply list_elem_of_lookup_2 in Hr.
  assert (port (server r) ≠ 0%Z) as Hp.
  { intros E. apply (seek_elem _ _ Hsu) in Hr.
    destruct (inv_port _ Hi _ E) as [_ Hq]. by rewrite Hr in Hq. }
  cbv zeta in Hrun |- *. exists r. eexists. split; [done|]. split; [exact Hrun|]. split; [done|].
  set (ok := default false _).
  destruct ok; [|done]. unfold server_of at 1 3. simpl.
  rewrite seek_suspected_AddAlive, seek_alive_AddAlive, Server_eqb_refl by done.
  split; [done|]. eexists. split; [done|]. by destruct (seek (server r) _).
Qed.
End Methods.

(** ** Garbage collection *)

Section Collection.
Context {os : OS} {pb : Protobuf} {env : Environment} {ss : StdSort}.
Implicit Types (w : World) (x : Server).

(** A record is in a list of records, up to the key of its server. *)
Definition listed_expired (t grace : Z) (l : list ServerRecord) (x : Server) : bool :=
  existsb (λ r, Server_eqb x (server r) && expired t grace r) l.

Lemma collect_loop t grace l w :
  ordered (suspected_ (server_of w)) →
  ∃ w',
    for_each l (λ r,
      if expired t grace r then
        t' ← now; on_server_ (RemoveSuspected t' (server r) remove_evicted)
      else mret tt) w = (Value tt, w') ∧
    requests w' = requests w ∧
    alive_ (server_of w') = alive_ (server_of w) ∧
    ∀ x, seek x (suspected_ (server_of w')) =
      if listed_expired t grace l x then None else seek x (suspected_ (server_of w)).
Proof.
  revert w. induction l as [|r l IH]; intros w Ho; [by exists w|]. simpl for_each.
  destruct (expired t grace r) eqn:Er.
  - set (t' := clock_at (asked w)).
    set (w1 := mkWorld (set_gossip_server
      (RemoveSuspected t' (server r) remove_evicted (server_of w)) (detector w))
      (requests w) (S (asked w))).
    assert (suspected_ (server_of w1) = (erase (MakeRecord (server r) t')
      (suspected_ (server_of w))).1) as Hs by apply suspected_RemoveSuspected.
    assert (ordered (suspected_ (server_of w1))) as Ho1 by (rewrite Hs; solve_ordered).
    destruct (IH w1 Ho1) as (w' & Hrun & Hreq & Hal & Hseek).
    exists w'. split_and!; [erewrite bind_step; [exact Hrun | done] | exact Hreq | |].
    + rewrite Hal. apply alive_RemoveSuspected.
    + intros x. rewrite Hseek, Hs, seek_erase by done.
      change (Server_eqb x (server (MakeRecord (server r) t'))) with (Server_eqb x (server r)).
      unfold listed_expired. simpl. rewrite Er, andb_true_r.
      destruct (Server_eqb x (server r)); simpl; by destruct (existsb _ l).
  - destruct (IH w Ho) as (w' & Hrun & Hreq & Hal & Hseek).
    exists w'. split_and!; [erewrite bind_step; [exact Hrun | done] | done | done |].
    intros x. rewrite Hseek. unfold listed_expired. simpl. by rewrite Er, andb_false_r.
Qed.

(** C18 One garbage collection sends no message, leaves the alive set as it is, and
    removes from the suspected set exactly the servers whose record is listed in the
    report of the moment and whose time stamp is more than the grace period old. *)
Theorem collection_evicts_expired w :
  server_inv (server_of w) →
  let rep := PrepareReport (clock_at (asked w)) (clock_at (S (asked w))) (server_of w) in
  let t := clock_at (S (S (asked w))) in
  let grace := grace_period_ (detector w) in
  ∃ w',
    GarbageCollectSuspected w = (Value tt, w') ∧
    requests w' = requests w ∧
    alive_ (server_of w') = alive_ (server_of w) ∧
    ∀ x, seek x (suspected_ (server_of w')) =
      match seek x (suspected_ (server_of w)) with
      | Some r => if bool_decide (r ∈ suspected rep) && expired t grace r
                  then None else Some r
      | None => None
      end.
Proof.
  intros Hi rep t grace.
  set (w1 := mkWorld (detector w) (requests w) (S (S (S (asked w))))).
  destruct (collect_loop t grace (suspected rep) w1 (inv_suspected _ Hi))
    as (w' & Hrun & Hreq & Hal & Hseek).
  exists w'. split_and!; [exact Hrun | exact Hreq | exact Hal |].
  intros x. rewrite Hseek. change (server_of w1) with (server_of w).
  destruct (seek x (suspected_ (server_of w))) as [r|] eqn:Hx; [|by case_if].
  apply seek_Some in Hx as [Hr Hk].
  assert (listed_expired t grace (suspected rep) x =
    bool_decide (r ∈ suspected rep) && expired t grace r) as ->; [|done].
  apply eq_true_iff_eq. unfold listed_expired.
  rewrite existsb_exists, andb_true_iff, bool_decide_eq_true.
  setoid_rewrite andb_true_iff. setoid_rewrite Server_eqb_key.
  setoid_rewrite <- list_elem_of_In. split; [|by intros [? ?]; exists r].
  intros (q & Hq & Hqx & Hqe). enough (q = r) as -> by done.
  pose proof (kept_elem _ _ _ Hq) as Hq'.
  apply (seek_elem _ _ (inv_suspected _ Hi)) in Hq', Hr.
  rewrite (seek_key (server q) (server r)) in Hq' by congruence. congruence.
Qed.
End Collection.

(** ** Suspects that are never collected *)

Section Stuck.
Context {os : OS} {pb : Protobuf} {env : Environment} {ss : StdSort}.
Implicit Types (w : World) (x : Server).

(** A single record aged between 174 seconds and an hour is over the budget. *)
Lemma cost_over_budget a :
  (174 <= a <= 3600)%Z →
  double_gt (double_add (S754_zero false) (cost a)) kTimeDecayBudget = true.
Proof.
  intros Ha.
  assert (forallb (λ a, double_gt (double_add (S754_zero false) (cost a)) kTimeDecayBudget)
    (seqZ 174 3427) = true) as Hall by (vm_compute; reflexivity).
  rewrite forallb_forall in Hall. apply Hall, list_elem_of_In, elem_of_seqZ. lia.
Qed.

(** C36 A suspect the collector misses for too long is never evicted: when every
    suspect was stamped between 174 seconds and an hour before the collection, the
    report lists none of them and the suspected set stays as it is, however short the
    grace period. *)
Theorem old_suspects_stay w :
  let time := CurrentTime (clock_at (S (asked w))) in
  Forall (λ r, (174000 <= time - timestamp r <= 3600000)%Z) (suspected_ (server_of w)) →
  ∃ w', GarbageCollectSuspected w = (Value tt, w') ∧ server_of w' = server_of w.
Proof.
  intros time Hf.
  assert (suspected (PrepareReport (clock_at (asked w)) (clock_at (S (asked w)))
    (gossip_server_ (detector w))) = []) as Hnone.
  { rewrite PrepareReport_suspected. rewrite <- (sort_perm (suspected_ (server_of w))) in Hf.
    unfold server_of in Hf. destruct Hf as [|r l Hr _]; [done|].
    cbn [within_budget]. fold time.
    rewrite age_signed by (unfold two63; lia).
    rewrite cost_over_budget; [done|]. Z.to_euclidean_division_equations. lia. }
  eexists. split.
  - unfold GarbageCollectSuspected, now, gets, mbind, M_bind. cbn [detector asked requests].
    by rewrite Hnone.
  - done.
Qed.
End Stuck.

(** ** Evaluated on a small cluster *)

(** An environment whose clock stands [seconds] after the fixtures' time and whose
    network answers every request as [reply] says. *)
Definition env_at (seconds : Z) (reply : ZmqReply) : Environment := {|
  clock_at := λ _, (t0 + seconds * 1000000000)%Z;
  exchange_at := λ _ _ _ _, reply;
  draw_at := λ _ _, 0
|}.

(** A detector on a running server, with the default intervals (grace period 35 seconds). *)
Definition world_of (s : SwimServer) : World :=
  mkWorld (set_gossip_server (set_stopped false s) (newDetector "node0" true 9200 2000 35000 500)) [] 0.

Lemma detector_never_fails_witness :
  ∃ res w',
    for_each
      [act_thread thread_report_full; act_AddNeighbor host3; act_thread thread_ping_suspect;
       act_thread thread_collect]
      (perform (pb := bit_codec) (env := env_at 40 PollTimedOut) (ss := merge_StdSort))
      (world_of node_as) = (res, w') ∧
    server_inv (server_of w').
Proof.
  destruct (detector_never_fails (pb := bit_codec) (env := env_at 40 PollTimedOut)
    (ss := merge_StdSort)
    [act_thread thread_report_full; act_AddNeighbor host3; act_thread thread_ping_suspect;
     act_thread thread_collect] (world_of node_as)) as (res & w' & H & Hi & _).
  - exact (inv_stopped _ _ node_as_inv).
  - exists res, w'. split; [exact H | exact Hi].
Defined.

Lemma AddNeighbor_classifies_witness :
  ∃ w',
    AddNeighbor (pb := bit_codec) (env := env_at 1 (Received "OK")) host2 (world_of node_as) =
      (Value tt, w') ∧
    seek host2 (suspected_ (server_of w')) = None ∧
    ∃ r, seek host2 (alive_ (server_of w')) = Some r ∧ timestamp r = (ms0 + 1000)%Z.
Proof.
  destruct (AddNeighbor_classifies (pb := bit_codec) (env := env_at 1 (Received "OK")) host2
    (world_of node_as) true (inv_stopped _ _ node_as_inv) ltac:(done) ltac:(done) ltac:(reflexivity))
    as (w' & Hrun & _ & H).
  exists w'. split; [exact Hrun|exact H].
Defined.

Lemma unanswered_report_escalates_witness :
  ∃ w' (forwards : list Server) res,
    SendReport_to (pb := bit_codec) (env := env_at 1 PollTimedOut)
      (detector_client host1 (world_of node_three)) (mkSwimReport host1 [] []) host1
      (world_of node_three) = (res, w') ∧
    is_Some (seek host1 (suspected_ (server_of w'))) ∧ 
    length forwards = Nat.min kDefaultNumForward (length (other_servers (server_of w'))).
Proof.
  destruct (unanswered_report_escalates (pb := bit_codec) (env := env_at 1 PollTimedOut)
    (detector_client host1 (world_of node_three)) (mkSwimReport host1 [] []) host1
    (world_of node_three) (inv_stopped _ _ node_three_inv) ltac:(done) ltac:(done) ltac:(reflexivity))
    as (w' & fwd & oks & res & Hrun & _ & _ & Hs & _ & _ & Hl & _).
  exists w', fwd, res. split; [exact Hrun|]. split; [exact Hs|].
  exact Hl.
Defined.

(** Forty seconds later [host2] is evicted. *)
Lemma collection_evicts_expired_witness :
  ∃ w',
    GarbageCollectSuspected (env := env_at 40 PollTimedOut) (ss := merge_StdSort)
      (world_of node_as) = (Value tt, w') ∧
    seek host2 (suspected_ (server_of w')) = None.
Proof.
  destruct (collection_evicts_expired (env := env_at 40 PollTimedOut) (ss := merge_StdSort)
    (world_of node_as) (inv_stopped _ _ node_as_inv)) as (w' & Hrun & _ & _ & Hseek).
  exists w'. split; [exact Hrun|]. rewrite Hseek. vm_compute. reflexivity.
Defined.

(** Two hundred seconds later it is not. *)
Lemma old_suspects_stay_witness :
  ∃ w',
    GarbageCollectSuspected (env := env_at 200 PollTimedOut) (ss := merge_StdSort)
      (world_of node_as) = (Value tt, w') ∧ suspected_ (server_of w') ≠ [].
Proof.
  destruct (old_suspects_stay (env := env_at 200 PollTimedOut) (ss := merge_StdSort)
    (world_of node_as)) as (w' & Hrun & Hs).
  { repeat constructor; vm_compute; discriminate. }
  exists w'. split; [exact Hrun|]. rewrite Hs. discriminate.
Defined.

Lemma suspect_ping_recovers_witness :
  ∃ r w',
    r ∈ suspected_ node_as ∧
    PingRandomSuspected (pb := bit_codec) (env := env_at 1 (Received "OK")) (world_of node_as) =
      (Value tt, w') ∧
    seek (server r) (suspected_ (server_of w')) = None.
Proof.
  destruct (suspect_ping_recovers (pb := bit_codec) (env := env_at 1 (Received "OK"))
    (world_of node_as) (inv_stopped _ _ node_as_inv)) as [_ H].
  { intros n size Hs. exact Hs. }
  { intros r Hr. apply list_elem_of_singleton in Hr as ->. reflexivity. }
  destruct H as (r & w' & Hr & Hrun & _ & Hs); [discriminate|].
  exists r, w'. split; [exact Hr|]. split; [exact Hrun|].
  apply list_elem_of_singleton in Hr as ->. exact (proj1 Hs).
Defined.
