(* ===== verification/Detection.v ===== *)
(** * Everybody is reported to, and crashed servers are detected

    Every alive server is sent a report within a bounded number of rounds of the thread that
    sends full reports, and one that does not answer is then suspected.  The rounds need not
    follow each other at once: between two of them the other threads and the messages of
    other servers may do anything that adds no server to the alive set ([quiet]), such as
    single reports, collections, and messages from and about known members ([quiet_single],
    [quiet_collect], [quiet_exec]).  A round itself is not interrupted.  Each round either
    suspects somebody, which makes the alive set smaller, or walks the round-robin index on
    towards the server; the argument is a measure made of the two. *)

From Stdlib Require Import ZArith Lia String.
From stdpp Require Import base list strings gmap.
From S2P Require Import Prelude StdSet SwimCommon UtilsHost SwimClient SwimServer Membership Refinement Report Fixtures Codec Neighbors Detector DetectorProps.

(** ** How far the round-robin index is from a server *)

Section Distance.
Context {os : OS} (s : SwimServer) (Ho : ordered (alive_ s)).

Let N := alive_size s.

(** The number of turns from [index] to position [p]. *)
Definition distance (p index : nat) : nat :=
  if current s index <=? p then p - current s index else p + alive_size s - current s index.

Lemma distance_lt p index : p < N → distance p index < N.
Proof.
  intros Hp. pose proof (current_lt s index ltac:(fold N; lia)) as Hc. unfold distance.
  fold N in Hc |- *. destruct (Nat.leb_spec (current s index) p); lia.
Qed.

Lemma distance_step p index :
  p < N → current s index ≠ p → distance p (S (current s index)) < distance p index.
Proof.
  intros Hp Hne. pose proof (current_lt s index ltac:(fold N; lia)) as Hc.
  unfold distance. rewrite current_succ by done. fold N in Hc |- *.
  destruct (Nat.leb_spec (current s index) p); case_decide;
    (match goal with |- context [?a <=? ?b] => destruct (Nat.leb_spec a b) end); lia.
Qed.

(** A finished walk of the round-robin loop that had something to do has either
    picked the server at position [p] or come nearer to it. *)
Lemma round_robin_nearer p x fuel n idx index others others' index' :
  all_servers s !! p = Some x → is_other s x → ordered others →
  round_robin fuel s n idx index others = Finished (others', index') →
  (is_Some (find x others) → is_Some (find x others')) ∧
  (idx < n → is_Some (find x others') ∨ distance p index' < distance p index) ∧
  (n ≤ idx → distance p index' ≤ distance p index).
Proof.
  intros Hx Hother. assert (p < N) as Hp.
  { unfold N. rewrite <- (length_all s). by eapply lookup_lt_Some. }
  revert idx index others. induction fuel as [|fuel IH]; intros idx index others Hord Hr; [done|].
  destruct (decide (idx < n)) as [Hidx|Hidx].
  2: { simpl in Hr. rewrite (proj2 (Nat.ltb_ge idx n)) in Hr by lia. simplify_eq.
       split; [done|]. split; [lia | done]. }
  destruct (neighbor_lookup s (current s index)) as (y & Hy & _).
  { apply current_lt. fold N. lia. }
  rewrite (round_robin_turn s _ _ _ _ _ y) in Hr by (done || fold N; lia).
  destruct (decide (current s index = p)) as [Hcp|Hcp].
  - assert (y = x) as -> by congruence. unfold is_other in Hother. rewrite Hother in Hr.
    apply IH in Hr as [Hkeep _]; [|by apply ordered_insert].
    assert (is_Some (find x (insert x others).1)) as Hin.
    { rewrite find_insert by done. rewrite equivb_refl. by eexists. }
    split; [auto|]. split; [auto | lia].
  - pose proof (distance_step p index Hp Hcp) as Hd.
    destruct (Server_eqb y (self s)).
    + destruct (Nat.leb_spec (alive_size s) 1) as [HN|HN].
      { fold N in HN. pose proof (current_lt s index ltac:(fold N; lia)) as Hc. fold N in Hc. lia. }
      apply IH in Hr as (Hkeep & Hlt & _); [|done]. split; [done|]. split; [|lia].
      intros _. destruct (Hlt Hidx); [by left | right; lia].
    + apply IH in Hr as (Hkeep & Hlt & Hge); [|by apply ordered_insert]. split; [|split; [|lia]].
      * intros [z Hz]. apply Hkeep. rewrite find_insert by done. case_if; [by eexists | by rewrite Hz].
      * intros _. destruct (decide (S idx < n)) as [Hs|Hs].
        -- destruct (Hlt Hs); [by left | right; lia].
        -- right. specialize (Hge ltac:(lia)). lia.
Qed.
End Distance.

(** ** Sets with the same servers *)

(** A record reduced to the key of its server. *)
Definition bare (r : ServerRecord) : ServerRecord :=
  mkServerRecord (mkServer (hostname (server r)) (port (server r)) None 0) 0 0 None.

Lemma ordered_bare l : ordered l → ordered (bare <$> l).
Proof.
  induction l as [|r l IH]; [done|]. rewrite fmap_cons. intros [Hlt Ho]%ordered_cons.
  apply ordered_cons. split; [|by apply IH]. intros q (q' & -> & Hq)%list_elem_of_fmap.
  exact (Hlt q' Hq).
Qed.

Lemma find_bare x l : find x (bare <$> l) = bare <$> find x l.
Proof.
  induction l as [|r l IH]; [done|]. rewrite fmap_cons. cbn [find].
  change (equivb x (bare r)) with (equivb x r). by destruct (equivb x r).
Qed.

Lemma bare_key r q : key (server r) = key (server q) → bare r = bare q.
Proof. unfold key, bare. by intros [= -> ->]. Qed.

Lemma NoDup_keys l : ordered l → NoDup ((key ∘ server) <$> l).
Proof.
  intros Ho. apply NoDup_fmap_2_strong; [|by apply ordered_NoDup].
  intros r q Hr Hq E. apply (seek_elem _ _ Ho) in Hr, Hq.
  rewrite (seek_key (server r) (server q)) in Hr by done. congruence.
Qed.

(** A set whose servers are among those of another one has the same servers in the same
    order, or fewer. *)
Lemma keys_shrink l l' :
  ordered l → ordered l' → (∀ y, is_Some (seek y l') → is_Some (seek y l)) →
  (∀ y, is_Some (seek y l) → is_Some (seek y l')) ∧ key ∘ server <$> l' = key ∘ server <$> l ∨
  length l' < length l.
Proof.
  intros Ho Ho' Hsub.
  destruct (decide (Forall (λ r, is_Some (seek (server r) l')) l)) as [Hf|Hf].
  - left. rewrite list.Forall_forall in Hf.
    assert (∀ y, is_Some (seek y l) → is_Some (seek y l')) as Hsup.
    { intros y [r [Hr E]%seek_Some]. rewrite <- (seek_key _ _ _ E). by apply Hf. }
    split; [done|].
    assert (bare <$> l' = bare <$> l) as E.
    { apply ordered_ext; [by apply ordered_bare..|]. intros x. rewrite !find_bare, !find_seek.
      specialize (Hsub (server x)). specialize (Hsup (server x)).
      destruct (seek (server x) l) as [r|] eqn:Hr, (seek (server x) l') as [q|] eqn:Hq; cbn.
      - apply seek_Some in Hr as [_ Hr], Hq as [_ Hq]. f_equal. apply bare_key. congruence.
      - destruct (Hsup (mk_is_Some _ _ eq_refl)). done.
      - destruct (Hsub (mk_is_Some _ _ eq_refl)). done.
      - done. }
    apply (f_equal (fmap (key ∘ server))) in E. rewrite <- !list_fmap_compose in E. exact E.
  - right. apply not_Forall_Exists in Hf; [|intros r; apply _].
    apply Exists_exists in Hf as (r & Hr & Hn).
    assert (key (server r) :: (key ∘ server <$> l') ⊆+ key ∘ server <$> l) as Hm.
    { apply NoDup_submseteq.
      - apply NoDup_cons. split; [|by apply NoDup_keys].
        intros (q & E & Hq)%list_elem_of_fmap. apply Hn.
        rewrite (seek_key _ _ _ E), (seek_elem _ _ Ho' Hq). by eexists.
      - intros k [->|Hk]%elem_of_cons; [by apply (list_elem_of_fmap_2 (key ∘ server))|].
        apply list_elem_of_fmap in Hk as (q & -> & Hq).
        destruct (Hsub (server q)) as [r' [Hr' E]%seek_Some].
        { rewrite (seek_elem _ _ Ho' Hq). by eexists. }
        apply list_elem_of_fmap. by exists r'. }
    apply submseteq_length in Hm. cbn in Hm. rewrite !length_fmap in Hm. lia.
Qed.

(** ** What may happen between two rounds *)

Section Reporting.
Context {os : OS} {pb : Protobuf} {env : Environment}.
Implicit Types (w : World) (x y z : Server).

(** Nobody is added to the alive set; and unless somebody leaves it, the round-robin index
    stays where it is. *)
Record quiet w w' : Prop := {
  quiet_inv : server_inv (server_of w');
  quiet_self : self (server_of w') = self (server_of w);
  quiet_reports : num_reports_ (detector w') = num_reports_ (detector w);
  quiet_alive y : is_Some (seek y (alive_ (server_of w'))) → is_Some (seek y (alive_ (server_of w)));
  quiet_index :
    (∀ y, is_Some (seek y (alive_ (server_of w))) → is_Some (seek y (alive_ (server_of w')))) →
    round_robin_index_ (detector w') = round_robin_index_ (detector w)
}.

Lemma quiet_refl w : server_inv (server_of w) → quiet w w.
Proof. by constructor. Qed.

Lemma quiet_trans w1 w2 w3 : quiet w1 w2 → quiet w2 w3 → quiet w1 w3.
Proof.
  intros [_ Hs1 Hr1 Ha1 Hx1] [Hi Hs2 Hr2 Ha2 Hx2]. constructor; [done | congruence.. | auto |].
  intros H. rewrite Hx2, Hx1; [done|..]; intros y Hy; auto.
Qed.

(** A change of the server alone. *)
Lemma quiet_server w w' :
  server_inv (server_of w') → self (server_of w') = self (server_of w) →
  detector w' = set_gossip_server (server_of w') (detector w) →
  (∀ y, is_Some (seek y (alive_ (server_of w'))) → is_Some (seek y (alive_ (server_of w)))) →
  quiet w w'.
Proof. intros Hi Hs E Ha. constructor; [done | done | by rewrite E | done | by rewrite E]. Qed.

Lemma quiet_same w w' : server_inv (server_of w) → detector w' = detector w → quiet w w'.
Proof. intros Hi E. constructor; unfold server_of in *; by rewrite E. Qed.

Definition alive_keys w : list (string * Z) := key <$> all_servers (server_of w).

Lemma length_alive_keys w : length (alive_keys w) = alive_size (server_of w).
Proof. unfold alive_keys. by rewrite length_fmap, length_all. Qed.

Lemma quiet_cases w w' :
  server_inv (server_of w) → quiet w w' →
  alive_keys w' = alive_keys w ∧
    round_robin_index_ (detector w') = round_robin_index_ (detector w) ∨
  alive_size (server_of w') < alive_size (server_of w).
Proof.
  intros Hi [Hi' _ _ Ha Hx].
  destruct (keys_shrink _ _ (inv_alive _ Hi) (inv_alive _ Hi') Ha) as [[Hsup E]|Hlt];
    [left | by right].
  split; [|by apply Hx]. unfold alive_keys, all_servers. by rewrite <- !list_fmap_compose.
Qed.

(** *** Messages and calls that only concern known members *)

Definition known_alive (s : SwimServer) x : Prop := is_Some (seek x (alive_ s)).

Lemma known_alive_AddAlive t x time s y :
  server_inv s → known_alive s x → known_alive (AddAlive t x time s).1 y ↔ known_alive s y.
Proof.
  intros Hi Hx. unfold known_alive in *. destruct (decide (port x = 0%Z)) as [E|Hp].
  { by rewrite AddAlive_port0. }
  rewrite seek_alive_AddAlive by (done || apply Hi). destruct (Server_eqb y x) eqn:E; [|done].
  apply Server_eqb_key in E. rewrite (seek_key _ _ _ E). split; [done | by eexists].
Qed.

Lemma known_alive_ReportSuspected t x time s y :
  server_inv s → (key x = key (self s) → known_alive s x) →
  known_alive (ReportSuspected t x time s).1 y → known_alive s y.
Proof.
  intros Hi Hx. destruct (decide (port x = 0%Z)) as [E|Hp]; [by rewrite ReportSuspected_port0|].
  destruct (decide (key x = key (self s))) as [E|Hme].
  { rewrite ReportSuspected_self by done. apply known_alive_AddAlive; auto. }
  unfold known_alive. rewrite seek_alive_ReportSuspected by (done || apply Hi).
  case_if; [by intros [? [=]] | done].
Qed.

Lemma known_raise_alive t r s y :
  server_inv s → known_alive (set_alive (raise_incarnation t r (alive_ s)) s) y ↔ known_alive s y.
Proof.
  intros Hi. unfold known_alive. cbn [set_alive alive_]. rewrite seek_raise by apply Hi.
  destruct (Server_eqb y (server r)) eqn:E; [|done].
  apply Server_eqb_key in E. rewrite (seek_key _ _ _ E). by rewrite fmap_is_Some.
Qed.

Lemma known_OnReport_alive t r s y :
  server_inv s → known_alive s (server r) →
  known_alive (OnReport_alive t r s) y ↔ known_alive s y.
Proof.
  intros Hi Hr. unfold OnReport_alive. do 2 (case_if; [done|]).
  rewrite known_raise_alive by auto with gossip. by apply known_alive_AddAlive.
Qed.

Lemma known_OnReport_suspected t from r s y :
  server_inv s → known_alive (OnReport_suspected t from r s) y → known_alive s y.
Proof.
  intros Hi. unfold OnReport_suspected.
  destruct (Server_eqb (server r) (self s)) eqn:E; [done|]. case_if; [done|].
  change (known_alive (ReportSuspected t (server r) (timestamp r) s).1 y → known_alive s y).
  apply known_alive_ReportSuspected; [done|]. apply Server_eqb_neq in E. by intros ?.
Qed.

Lemma known_alive_loop t l s y :
  server_inv s → Forall (λ r, known_alive s (server r)) l →
  known_alive (fold_left (λ s r, OnReport_alive t r s) l s) y ↔ known_alive s y.
Proof.
  revert s. induction l as [|r l IH]; intros s Hi Hl; [done|]. cbn [fold_left].
  apply Forall_cons in Hl as [Hr Hl]. rewrite IH; [by apply known_OnReport_alive | auto with gossip |].
  eapply Forall_impl; [exact Hl|]. intros q Hq. by apply known_OnReport_alive.
Qed.

Lemma known_suspected_loop t from l s y :
  server_inv s →
  known_alive (fold_left (λ s r, OnReport_suspected t from r s) l s) y → known_alive s y.
Proof.
  revert s. induction l as [|r l IH]; intros s Hi; [done|]. cbn [fold_left].
  intros H. eapply known_OnReport_suspected, IH; [done | auto with gossip | exact H].
Qed.

(** The event adds nobody: the servers it makes alive are known to be. *)
Definition quiet_event (e : event) (s : SwimServer) : Prop :=
  match e with
  | ev_AddAlive _ x _ | ev_OnUpdate _ x | ev_OnForwardRequest _ x _ => known_alive s x
  | ev_ReportSuspected _ x _ => key x ≠ key (self s)
  | ev_OnReport _ x rep => known_alive s x ∧ Forall (λ r, known_alive s (server r)) (alive rep)
  | ev_ForwardThread _ _ _ d => ∀ y, d = Some y → key y ≠ key (self s)
  | ev_RemoveSuspected _ _ _ | ev_UpdateLamportTime _ | ev_stop => True
  end.

Lemma known_exec e s y :
  server_inv s → quiet_event e s → known_alive (exec e s) y → known_alive s y.
Proof.
  intros Hi. destruct e as [t x ti|t x ti|t x rt|t x|t x rep|t x d|t ex x d|t|];
    cbn [exec quiet_event]; intros He Hy.
  - by apply known_alive_AddAlive in Hy.
  - by apply known_alive_ReportSuspected in Hy.
  - unfold known_alive in *. by rewrite alive_RemoveSuspected in Hy.
  - change (known_alive (AddAlive t x (CurrentTime t) s).1 y) in Hy. by apply known_alive_AddAlive in Hy.
  - destruct He as [Hx Hl]. apply known_suspected_loop in Hy.
    2: { apply (fold_left_inv server_inv); auto with gossip. }
    rewrite known_alive_loop in Hy; [by apply known_alive_AddAlive in Hy | auto with gossip |].
    eapply Forall_impl; [exact Hl|]. intros r Hr. by apply known_alive_AddAlive.
  - change (known_alive (AddAlive t x (CurrentTime t) s).1 y) in Hy. by apply known_alive_AddAlive in Hy.
  - destruct (ForwardThread_body t ex x d s) as [s'| |] eqn:E; [|done..].
    unfold ForwardThread_body in E. destruct d as [d|]; [|done].
    cbn -[Send ReportSuspected] in E. destruct (Send _ _ _).1 as [[]|]; [by injection E as <- | |done].
    injection E as <-. eapply known_alive_ReportSuspected in Hy; [exact Hy | auto with gossip |].
    intros E. by destruct (He d eq_refl).
  - done.
  - done.
Qed.

Lemma self_exec e s : self (exec e s) = self s.
Proof.
  destruct e as [t x ti|t x ti|t x rt|t x|t x rep|t x d|t ex x d|t|]; cbn [exec]; try done;
    try (apply config_self;
      auto using config_AddAlive, config_ReportSuspected, config_RemoveSuspected, config_OnReport; fail).
  - apply (config_self _ _ (config_AddAlive t x (CurrentTime t) s)).
  - apply (config_self _ _ (config_AddAlive t x (CurrentTime t) s)).
  - destruct (ForwardThread_body t ex x d s) as [s'| |] eqn:E; [|done..].
    unfold ForwardThread_body in E. destruct d as [d|]; [|done].
    cbn -[Send ReportSuspected] in E. destruct (Send _ _ _).1 as [[]|]; [by injection E as <- | |done].
    injection E as <-. etrans; [apply (config_self _ _ (config_ReportSuspected _ _ _ _)) | done].
Qed.

(** Every event that adds nobody to the alive set may happen between two rounds. *)
Lemma quiet_exec e w :
  server_inv (server_of w) → quiet_event e (server_of w) →
  quiet w (mkWorld (set_gossip_server (exec e (server_of w)) (detector w)) (requests w) (asked w)).
Proof.
  intros Hi He. apply quiet_server; [by apply inv_exec | apply self_exec | done|].
  intros y. by apply known_exec.
Qed.

(** ** One report *)

(** Requests to [x] are never answered OK. *)
Definition unresponsive x : Prop :=
  ∀ n payload timeout reply,
    exchange_at n (uri_of x) payload timeout =
      Received reply → c_str reply ≠ "OK".

Lemma unresponsive_post x n e c ok :
  unresponsive x → key (dest_ c) = key x →
  (postMessage (exchange_at n) e c).1 = Some ok → ok = false.
Proof.
  intros Hx Hk. unfold postMessage, stamp, destinationUri. simpl. rewrite (uri_of_key _ _ Hk).
  case_if; [done|]. destruct (exchange_at n _ _ _) eqn:Ex; simpl; intros [= <-]; try done.
  apply String.eqb_neq. by eapply Hx.
Qed.

(** What processing some neighbors leaves alone or makes smaller, and what it sends. *)
Record progressed w w' : Prop := {
  prog_quiet : quiet w w';
  prog_requests : ∃ sent, requests w' = requests w ++ sent
}.

Lemma progressed_refl w : server_inv (server_of w) → progressed w w.
Proof. intros Hi. split; [by apply quiet_refl|]. exists []. by rewrite app_nil_r. Qed.

Lemma progressed_trans w1 w2 w3 : progressed w1 w2 → progressed w2 w3 → progressed w1 w3.
Proof.
  intros [H1 [l1 E1]] [H2 [l2 E2]]. split; [by eapply quiet_trans|].
  exists (l1 ++ l2). by rewrite app_assoc, <- E1.
Qed.

(** Nothing is known anew or forgotten about [z]. *)
Definition untouched z w w' : Prop :=
  seek z (alive_ (server_of w')) = seek z (alive_ (server_of w)) ∧
  seek z (suspected_ (server_of w')) = seek z (suspected_ (server_of w)).

(** Between [w] and [w'], a server was sent the report [rep], at an address that is accepted;
    if it answers nobody it is suspected. *)
Definition reported_to rep y w w' : Prop :=
  zmq_connect (uri_of y) = true ∧
  (∃ sent c ok, requests w' = requests w ++ sent ∧
     (destinationUri c, (stamp c (Send_envelope rep)).2, ok) ∈ sent ∧ key (dest_ c) = key y) ∧
  (unresponsive y → is_Some (seek y (suspected_ (server_of w')))).

(** The report to [y] is answered. *)
Lemma report_answered rep y w :
  let c := detector_client y w in
  (postMessage (exchange_at (asked w)) (Send_envelope rep) c).1 = Some true →
  let t := clock_at (S (asked w)) in
  report_and_mark rep y w =
    (Value tt, mkWorld (set_gossip_server (AddAlive t y (CurrentTime t) (server_of w)).1 (detector w))
       (requests w ++ [(destinationUri c, (stamp c (Send_envelope rep)).2, true)])
       (S (S (asked w)))).
Proof.
  intros c Hok t. unfold report_and_mark. erewrite bind_step by done.
  erewrite (bind_step _ _ _ true (mkWorld (detector w)
    (requests w ++ [(destinationUri c, (stamp c (Send_envelope rep)).2, true)]) (S (asked w))));
    [done|]. unfold SendReport_to.
  erewrite bind_step; [|unfold post; fold (server_of w); change (newSwimClient _ _ _ _ _) with c;
    by rewrite Hok]. done.
Qed.

(** One neighbor is reported to: if it answers nothing of the membership changes but
    its time stamp; otherwise it is no longer alive. *)
Lemma report_and_mark_step rep y w res w' :
  server_inv (server_of w) → is_Some (seek y (alive_ (server_of w))) →
  key y ≠ key (self (server_of w)) → report_and_mark rep y w = (res, w') →
  progressed w w' ∧ (∀ z, key z ≠ key y → untouched z w w') ∧
  (res = Value tt → reported_to rep y w w').
Proof.
  intros Hi Hy Hme Hrun. pose proof (inv_alive _ Hi) as Ha. pose proof (inv_suspected _ Hi) as Hsu.
  assert (port y ≠ 0%Z) as Hp.
  { intros E. destruct (inv_port _ Hi _ E) as [Hn _]. rewrite Hn in Hy. by destruct Hy. }
  set (c := detector_client y w).
  destruct (post_cases (Send_envelope rep) c w) as [([] & Hok & Hz & Hpost)|(_ & _ & Hpost)].
  - rewrite (report_answered rep y w Hok) in Hrun. injection Hrun as <- <-.
    set (t := clock_at (S (asked w))). split; [|split].
    + split; [|by eexists]. apply quiet_server; cbn; [auto with gossip | |done|].
      * apply (config_self _ _ (config_AddAlive _ _ _ _)).
      * intros z. apply (known_alive_AddAlive t y (CurrentTime t) (server_of w) z Hi Hy).
    + intros z Hzy. unfold untouched, server_of at 1 3. cbn.
      rewrite seek_alive_AddAlive, seek_suspected_AddAlive by done.
      by rewrite (proj2 (Server_eqb_neq z y)).
    + intros _. split; [done|]. split; [eexists _, c, true; split; [done|]; split; [left | done]|].
      intros Hun. by pose proof (unresponsive_post y _ _ c _ Hun eq_refl Hok).
  - destruct (SendReport_to_unanswered c rep y w Hi Hok)
      as (w1 & forwards & oks & r1 & Hrun1 & Hends & Hw1 & Hreq & _ & _ & _ & Hnr).
    assert (w1 = w') as ->.
    { unfold report_and_mark in Hrun. erewrite bind_step in Hrun by done.
      change (newSwimClient _ _ _ _ _) with c in Hrun. unfold mbind, M_bind in Hrun.
      fold (server_of w) in Hrun. change (newSwimClient _ _ _ _ _) with c in Hrun.
      rewrite Hrun1 in Hrun. destruct Hends as [[_ ->]|(f & _ & _ & ->)]; by injection Hrun. }
    assert (quiet w w') as Hq.
    { constructor; rewrite ?Hw1; [auto with gossip | | done | |].
      - apply (config_self _ _ (config_ReportSuspected _ _ _ _)).
      - intros z. by apply known_alive_ReportSuspected.
      - intros Hall. specialize (Hall y Hy).
        rewrite seek_alive_ReportSuspected, Server_eqb_refl in Hall by done. by destruct Hall. }
    split; [split; [done | by eexists]|]. split.
    + intros z Hzy. unfold untouched. rewrite Hw1.
      rewrite seek_alive_ReportSuspected, seek_suspected_ReportSuspected by done.
      by rewrite (proj2 (Server_eqb_neq z y)).
    + intros _. split; [done|].
      split; [eexists _, c, false; split; [exact Hreq|]; split; [left | done]|].
      intros _. rewrite Hw1, seek_suspected_ReportSuspected, Server_eqb_refl by done. by eexists.
  - assert (report_and_mark rep y w = (Failed (connect_refused (destinationUri c)), w)) as E.
    { unfold report_and_mark. erewrite bind_step by done. fold (server_of w).
      change (newSwimClient _ _ _ _ _) with c. unfold SendReport_to, mbind, M_bind.
      by rewrite Hpost. }
    rewrite E in Hrun. injection Hrun as <- <-. split; [by apply progressed_refl | done].
Qed.

(** ** One round *)

Lemma report_loop rep l w w' :
  server_inv (server_of w) → NoDup (key <$> l) →
  (∀ y, y ∈ l → is_Some (seek y (alive_ (server_of w))) ∧ key y ≠ key (self (server_of w))) →
  for_each l (report_and_mark rep) w = (Value tt, w') →
  progressed w w' ∧ (∀ z, key z ∉ key <$> l → untouched z w w') ∧
  (∀ y, y ∈ l → reported_to rep y w w').
Proof.
  revert w. induction l as [|y l IH]; intros w Hi Hnd Hl Hrun.
  { injection Hrun as <-. split; [by apply progressed_refl|].
    split; [done | by intros ? ?%elem_of_nil]. }
  rewrite fmap_cons in Hnd. apply NoDup_cons in Hnd as [Hny Hnd].
  destruct (Hl y ltac:(left)) as [Hy Hme].
  apply bind_Value_inv in Hrun as ([] & w1 & Hrun1 & Hrun).
  destruct (report_and_mark_step rep y w _ w1 Hi Hy Hme Hrun1) as (Hp1 & Hz1 & Hu1).
  destruct (IH w1) as (Hp2 & Hz2 & Hu2).
  - apply Hp1.
  - done.
  - intros z Hz. destruct (Hl z ltac:(by right)) as [Hza Hzm].
    assert (key z ≠ key y) as Hzy.
    { intros E. apply Hny. rewrite <- E. by apply list_elem_of_fmap_2. }
    destruct (Hz1 z Hzy) as [-> _]. by rewrite (quiet_self _ _ (prog_quiet _ _ Hp1)).
  - done.
  - split; [by eapply progressed_trans|]. split.
    + intros z Hz. rewrite fmap_cons in Hz. apply not_elem_of_cons in Hz as [Hzy Hzl].
      destruct (Hz1 z Hzy) as [Ea Es], (Hz2 z Hzl) as [Fa Fs]. split; congruence.
    + destruct (prog_requests _ _ Hp1) as [sent1 E1], (prog_requests _ _ Hp2) as [sent2 E2].
      intros z Hz. apply elem_of_cons in Hz as [->|Hz].
      * destruct (Hu1 eq_refl) as (Hc & (sent & c & ok & E & Hin & Hd) & Hun). split; [done|]. split.
        -- exists (sent ++ sent2), c, ok. rewrite E2, E, app_assoc. split; [done|].
           split; [|done]. apply elem_of_app. by left.
        -- destruct (Hz2 y Hny) as [_ ->]. done.
      * destruct (Hu2 z Hz) as (Hc & (sent & c & ok & E & Hin & Hd) & Hun). split; [done|].
        split; [|done]. exists (sent1 ++ sent), c, ok. rewrite E, E1, app_assoc. split; [done|].
        split; [|done]. apply elem_of_app. by right.
Qed.

Lemma unresponsive_key x y : key x = key y → unresponsive x → unresponsive y.
Proof. unfold unresponsive. intros E Hx. by rewrite <- (uri_of_key _ _ E). Qed.

Lemma all_servers_seek y s :
  ordered (alive_ s) → y ∈ all_servers s → is_Some (seek y (alive_ s)).
Proof. intros Ho (r & -> & Hr)%list_elem_of_fmap. rewrite (seek_elem r) by done. by eexists. Qed.

(** The neighbors a round reports to, and where they leave the index. *)
Lemma unique_neighbors_nearer k p y w :
  server_inv (server_of w) → all_servers (server_of w) !! p = Some y →
  is_other (server_of w) y → 0 < k →
  ∃ others index',
    unique_neighbors k w =
      (Value others, mkWorld (set_round_robin_index index' (detector w)) (requests w) (asked w)) ∧
    NoDup (key <$> others) ∧
    (∀ z, z ∈ others → is_Some (seek z (alive_ (server_of w))) ∧ key z ≠ key (self (server_of w))) ∧
    ((∃ z, z ∈ others ∧ key z = key y) ∨
     distance (server_of w) p index' < distance (server_of w) p (round_robin_index_ (detector w))).
Proof.
  intros Hi Hp Hy Hk. pose proof (inv_alive _ Hi) as Ho.
  destruct (unique_neighbors_spec k w (inv_alive _ Hi)) as (others & index' & Hu & Hnd & Hin & _).
  exists others, index'. split; [done|]. split; [done|]. split.
  { intros z Hz. destruct (Hin z Hz) as [Hne (r & Hr & <-)]. split; [|done].
    rewrite (seek_elem r) by done. by eexists. }
  assert (GetUniqueNeighbors k true (λ _, 0) (round_robin_index_ (detector w)) (server_of w) =
    Finished (others, index')) as Hr.
  { unfold unique_neighbors in Hu. fold (server_of w) in Hu.
    destruct (GetUniqueNeighbors _ _ _ _ _) as [[o i]| |]; simplify_eq. done. }
  unfold GetUniqueNeighbors in Hr.
  destruct (round_robin_nearer _ p y _ _ _ _ _ _ _ Hp Hy ltac:(constructor) Hr) as (_ & Hlt & _).
  destruct Hlt as [[z Hz]|?]; [| |by right].
  - apply lookup_lt_Some in Hp. rewrite length_all in Hp. lia.
  - left. exists z. apply find_Some in Hz as [? E]. split; [done|].
    symmetry. by apply Server_eqb_key.
Qed.

(** The report of a round that starts now. *)
Definition report_of {ss : StdSort} w : SwimReport :=
  PrepareReport (clock_at (asked w)) (clock_at (S (asked w))) (server_of w).

Lemma reported_to_key rep x y w w' :
  key y = key x → reported_to rep x w w' → reported_to rep y w w'.
Proof.
  intros E (Hc & (sent & c & ok & Er & Hin & Hd) & Hs). split_and!.
  - by rewrite (uri_of_key _ _ E).
  - exists sent, c, ok. by rewrite E.
  - intros Hun. rewrite (seek_key y x) by done. apply Hs. by apply (unresponsive_key y x).
Qed.

(** The distance depends on the number of servers only. *)
Lemma distance_size s s' p index :
  alive_size s' = alive_size s → distance s' p index = distance s p index.
Proof. intros E. unfold distance, current, past_end. by rewrite E. Qed.

(** One round of full reports, which reports to [y], at position [p], or comes nearer to
    it or loses somebody else. *)
Lemma round_progress {ss : StdSort} p y w w' :
  server_inv (server_of w) → all_servers (server_of w) !! p = Some y →
  is_other (server_of w) y → 0 < num_reports_ (detector w) →
  SendReport FULL w = (Value tt, w') →
  server_inv (server_of w') ∧
  self (server_of w') = self (server_of w) ∧
  num_reports_ (detector w') = num_reports_ (detector w) ∧
  (reported_to (report_of w) y w w' ∨
   is_Some (seek y (alive_ (server_of w'))) ∧
     (alive_keys w' = alive_keys w ∧
      distance (server_of w') p (round_robin_index_ (detector w')) <
        distance (server_of w) p (round_robin_index_ (detector w)) ∨
      alive_size (server_of w') < alive_size (server_of w))).
Proof.
  intros Hi Hp Hy Hk Hrun. pose proof (inv_alive _ Hi) as Ho.
  assert (alive_empty (server_of w) = false) as Hne.
  { apply lookup_lt_Some in Hp. rewrite length_all in Hp. apply Nat.eqb_neq. lia. }
  set (rep := report_of w).
  set (w0 := mkWorld (detector w) (requests w) (S (S (asked w)))).
  destruct (unique_neighbors_nearer (num_reports_ (detector w)) p y w0 Hi Hp Hy Hk)
    as (others & index' & Hu & Hnd & Hin & Hnear).
  set (w1 := mkWorld (set_round_robin_index index' (detector w0)) (requests w0) (asked w0)) in *.
  assert (for_each others (report_and_mark rep) w1 = (Value tt, w')) as Hloop.
  { rewrite <- Hrun. unfold SendReport. erewrite bind_step by done. fold (server_of w). rewrite Hne.
    do 3 erewrite bind_step by done. erewrite bind_step by done.
    by erewrite bind_step by exact Hu. }
  destruct (report_loop rep others w1 w' Hi Hnd Hin Hloop) as (Hpr & Hz & Hs).
  pose proof (prog_quiet _ _ Hpr) as Hq.
  split; [apply Hq|]. split; [apply (quiet_self _ _ Hq)|]. split; [apply (quiet_reports _ _ Hq)|].
  destruct (decide (key y ∈ key <$> others)) as [Hyo|Hyo].
  - left. apply list_elem_of_fmap in Hyo as (z & Hk' & Hzo).
    by apply (reported_to_key _ z y), Hs.
  - right. destruct (Hz y Hyo) as [Hya _]. split.
    { rewrite Hya. apply all_servers_seek; [done | by eapply list_elem_of_lookup_2]. }
    destruct (quiet_cases w1 w' Hi Hq) as [[Ea Ei]|Hlt]; [left | by right]. split; [done|].
    destruct Hnear as [(z & Hzo & Hzk)|Hnear].
    { exfalso. apply Hyo. rewrite <- Hzk. by apply list_elem_of_fmap_2. }
    rewrite Ei. rewrite (distance_size (server_of w)); [exact Hnear|].
    change (alive_size (server_of w)) with (alive_size (server_of w1)).
    by rewrite <- !length_alive_keys, Ea.
Qed.

(** *** The other threads *)

(** A single report, completed or not, adds nobody (to a server that does not list itself). *)
Lemma quiet_single {ss : StdSort} w res w' :
  server_inv (server_of w) → seek (self (server_of w)) (alive_ (server_of w)) = None →
  SendReport SINGLE w = (res, w') → quiet w w'.
Proof.
  intros Hi Hme Hrun. unfold SendReport in Hrun. erewrite bind_step in Hrun by done.
  fold (server_of w) in Hrun.
  destruct (alive_empty (server_of w)); [injection Hrun as <- <-; by apply quiet_refl|].
  do 4 erewrite bind_step in Hrun by done. cbn [detector] in Hrun. fold (server_of w) in Hrun.
  set (rep := PrepareReport _ _ _) in Hrun.
  assert (∀ w1 num, detector w1 = detector w →
    (picked ← gets (λ d, GetRandomNeighbor num (gossip_server_ d));
     match picked with Some other => report_and_mark rep other | None => mret tt end) w1 = (res, w') →
    quiet w w') as Hpick.
  { intros w1 num E. erewrite bind_step by done.
    assert (server_of w1 = server_of w) as Es by (unfold server_of; by rewrite E).
    assert (quiet w w1) as Hq by (by apply quiet_same).
    fold (server_of w1). rewrite Es.
    destruct (GetRandomNeighbor num (server_of w)) as [y|] eqn:Ey; [|by intros [= <- <-]].
    assert (is_Some (seek y (alive_ (server_of w)))) as Hy.
    { unfold GetRandomNeighbor, at_index in Ey. case_if; [done|].
      destruct (alive_ (server_of w) !! num) as [r|] eqn:Er; [|done]. injection Ey as <-.
      apply list_elem_of_lookup_2 in Er. rewrite (seek_elem _ _ (inv_alive _ Hi) Er). by eexists. }
    intros Hr. eapply quiet_trans; [exact Hq|].
    destruct (report_and_mark_step rep y w1 res w') as [Hp _]; rewrite ?Es; try done; [|apply Hp].
    intros Ek. rewrite (seek_key _ _ _ Ek), Hme in Hy. by destruct Hy. }
  destruct (alive_size (server_of w) =? 0)%nat; eapply Hpick; try exact Hrun; done.
Qed.

(** A collection changes the suspected set only. *)
Lemma quiet_collect {ss : StdSort} w res w' :
  server_inv (server_of w) → GarbageCollectSuspected w = (res, w') → quiet w w'.
Proof.
  intros Hi. unfold GarbageCollectSuspected. do 4 erewrite bind_step by done.
  erewrite bind_step by done. set (rep := PrepareReport _ _ _). set (t := clock_at _).
  cbn [detector]. match goal with |- for_each _ _ ?v = _ → _ => set (w1 := v) end.
  intros Hrun. assert (quiet w w1) as Hq by (by apply quiet_same).
  eapply quiet_trans; [exact Hq|]. assert (server_inv (server_of w1)) as Hi1 by done.
  clearbody w1. clear Hq Hi. revert w1 Hi1 Hrun.
  induction (suspected rep) as [|r l IH]; intros w1 Hi1 Hrun.
  { injection Hrun as <- <-. by apply quiet_refl. }
  cbn [for_each] in Hrun. destruct (expired t (grace_period_ (detector w)) r).
  - erewrite bind_step in Hrun by done. eapply quiet_trans; [|eapply IH; [|exact Hrun]].
    + apply quiet_server; cbn; [auto with gossip | | done |].
      * apply (config_self _ _ (config_RemoveSuspected _ _ _ _)).
      * intros y. unfold server_of. cbn. by rewrite alive_RemoveSuspected.
    + cbn. auto with gossip.
  - erewrite bind_step in Hrun by done. by eapply IH.
Qed.

(** ** Detection *)

(** Rounds of the thread that sends full reports: round [i] starts in [ws i] and completes
    in [we i], and what happens before the next one is quiet. *)
Record rounds {ss : StdSort} (n : nat) (ws we : nat → World) : Prop := {
  rounds_run i : i < n → SendReport FULL (ws i) = (Value tt, we i);
  rounds_between i : S i < n → quiet (we i) (ws (S i))
}.

Lemma rounds_shift {ss : StdSort} n ws we :
  rounds (S n) ws we → rounds n (λ i, ws (S i)) (λ i, we (S i)).
Proof. intros [Hr Hb]. split; intros i Hi; [apply Hr | apply Hb]; lia. Qed.

(** The measure of a world: the alive set shrinks, or the index comes nearer. *)
Definition measure_le (K m : nat) x w : Prop :=
  ∀ p, alive_keys w !! p = Some (key x) →
    alive_size (server_of w) * K + distance (server_of w) p (round_robin_index_ (detector w)) ≤ m.

Lemma alive_key_lookup x w :
  server_inv (server_of w) → is_Some (seek x (alive_ (server_of w))) →
  ∃ p y, all_servers (server_of w) !! p = Some y ∧ key y = key x.
Proof.
  intros Hi [r [Hr E]%seek_Some].
  assert (server r ∈ all_servers (server_of w)) as [p Hp]%list_elem_of_lookup_1
    by (by apply list_elem_of_fmap_2).
  eauto.
Qed.

(** Losing somebody makes the measure smaller, wherever the index goes. *)
Lemma measure_shrinks K m x w w' :
  measure_le K m x w → alive_size (server_of w) ≤ K → (∃ p, alive_keys w !! p = Some (key x)) →
  alive_size (server_of w') < alive_size (server_of w) →
  ∃ m', m' < m ∧ measure_le K m' x w'.
Proof.
  intros Hm HK [p Hp] Hlt. specialize (Hm p Hp).
  exists (alive_size (server_of w') * K + pred K). split.
  - destruct (alive_size (server_of w)) as [|N]; [lia|].
    assert (alive_size (server_of w') * K ≤ N * K) by (apply Nat.mul_le_mono_r; lia). simpl in Hm. lia.
  - intros q Hq. apply Nat.add_le_mono_l. apply lookup_lt_Some in Hq.
    rewrite length_alive_keys in Hq.
    pose proof (distance_lt (server_of w') q (round_robin_index_ (detector w')) Hq). lia.
Qed.

Lemma measure_quiet K m x w w' :
  server_inv (server_of w) → quiet w w' → measure_le K m x w →
  alive_size (server_of w) ≤ K → (∃ p, alive_keys w !! p = Some (key x)) →
  ∃ m', m' ≤ m ∧ measure_le K m' x w'.
Proof.
  intros Hi Hq Hm HK Hp. destruct (quiet_cases w w' Hi Hq) as [[Ea Ei]|Hlt].
  - exists m. split; [done|]. intros p. rewrite Ea, Ei. intros H%Hm.
    assert (alive_size (server_of w') = alive_size (server_of w)) as E
      by (by rewrite <- !length_alive_keys, Ea).
    by rewrite (distance_size (server_of w)), E by done.
  - destruct (measure_shrinks K m x w w' Hm HK Hp Hlt) as (m' & ? & ?). exists m'. split; [lia | done].
Qed.

(** Between [w], at the end of a round, and [w'], at the start of the next one, [x] is removed
    from the alive set. *)
Definition leaves_between x w w' : Prop :=
  is_Some (seek x (alive_ (server_of w))) ∧ seek x (alive_ (server_of w')) = None.

Lemma rounds_reach {ss : StdSort} K m x n ws we :
  server_inv (server_of (ws 0)) → is_Some (seek x (alive_ (server_of (ws 0)))) →
  key x ≠ key (self (server_of (ws 0))) → 0 < num_reports_ (detector (ws 0)) →
  alive_size (server_of (ws 0)) ≤ K → measure_le K m x (ws 0) → m < n → rounds n ws we →
  ∃ i, i ≤ m ∧
    (leaves_between x (we i) (ws (S i)) ∨
     server_inv (server_of (we i)) ∧ reported_to (report_of (ws i)) x (ws i) (we i)).
Proof.
  revert n ws we. induction m as [m IH] using lt_wf_ind.
  intros n ws we Hi Hx Hme Hk HK Hm Hn Hrs.
  destruct (alive_key_lookup x (ws 0) Hi Hx) as (p & y & Hp & Hy).
  assert (alive_keys (ws 0) !! p = Some (key x)) as Hpx.
  { unfold alive_keys. rewrite list_lookup_fmap, Hp. cbn. by rewrite Hy. }
  assert (is_other (server_of (ws 0)) y) as Hother by (apply Server_eqb_neq; congruence).
  destruct (round_progress p y (ws 0) (we 0) Hi Hp Hother Hk) as (Hi1 & Hself & Hnr & Hcase);
    [apply Hrs; lia|]. rewrite (seek_key y x) in Hcase by done.
  destruct Hcase as [Hs|[Ha Hcase]].
  { exists 0. split; [lia|]. right. split; [done|]. by apply (reported_to_key _ y). }
  assert (∃ m1, m1 < m ∧ measure_le K m1 x (we 0)) as (m1 & Hm1 & Hmw).
  { destruct Hcase as [[Ea Hd]|Hlt]; [|by apply (measure_shrinks K m x (ws 0)); eauto].
    specialize (Hm p Hpx).
    assert (alive_size (server_of (we 0)) = alive_size (server_of (ws 0))) as Esz
      by (by rewrite <- !length_alive_keys, Ea).
    exists (alive_size (server_of (we 0)) * K +
      distance (server_of (we 0)) p (round_robin_index_ (detector (we 0)))).
    split; [rewrite Esz; lia|]. intros q Hq. rewrite Ea in Hq.
    assert (q = p) as ->; [|done].
    unfold alive_keys in Hq. rewrite list_lookup_fmap in Hq.
    destruct (all_servers (server_of (ws 0)) !! q) as [z|] eqn:Hz; [|done]. apply (inj Some) in Hq.
    eapply all_servers_key_inj; [apply (inv_alive _ Hi) | exact Hz | exact Hp |]. by rewrite Hy. }
  destruct n as [|[|n]]; [lia | lia|].
  assert (quiet (we 0) (ws 1)) as Hq by (apply Hrs; lia).
  destruct (seek x (alive_ (server_of (ws 1)))) as [r|] eqn:Hr.
  2: { exists 0. split; [lia | by left]. }
  assert (alive_size (server_of (we 0)) ≤ K) as HK1.
  { destruct Hcase as [[Ea _]|]; [|lia]. rewrite <- length_alive_keys, Ea, length_alive_keys. done. }
  destruct (measure_quiet K m1 x (we 0) (ws 1) Hi1 Hq Hmw HK1) as (m2 & Hm2 & Hmw2).
  { destruct (alive_key_lookup x (we 0) Hi1 Ha) as (q & z & Hz & E). exists q.
    unfold alive_keys. rewrite list_lookup_fmap, Hz. cbn. by rewrite E. }
  destruct (IH m2 ltac:(lia) (S n) (λ i, ws (S i)) (λ i, we (S i))) as (i & Hle & Hend).
  - apply Hq.
  - rewrite Hr. by eexists.
  - rewrite (quiet_self _ _ Hq), Hself. done.
  - by rewrite (quiet_reports _ _ Hq), Hnr.
  - destruct (quiet_cases _ _ Hi1 Hq) as [[Ea _]|]; [|lia].
    rewrite <- length_alive_keys, Ea, length_alive_keys. done.
  - done.
  - lia.
  - by apply rounds_shift.
  - exists (S i). split; [lia | done].
Qed.

(** The last world that starts no round does not matter. *)
Lemma rounds_last {ss : StdSort} n ws we :
  rounds n ws we → rounds n (λ i, if i <? n then ws i else we (pred i)) we.
Proof.
  intros [Hr Hb]. split; intros i Hi; rewrite (proj2 (Nat.ltb_lt _ _)) by lia; auto.
Qed.

Lemma rounds_reach_within {ss : StdSort} x ws we :
  server_inv (server_of (ws 0)) → is_Some (seek x (alive_ (server_of (ws 0)))) →
  key x ≠ key (self (server_of (ws 0))) → 0 < num_reports_ (detector (ws 0)) →
  let N := alive_size (server_of (ws 0)) in
  rounds (N * N + N) ws we →
  ∃ i, i < N * N + N ∧
    (S i < N * N + N ∧ leaves_between x (we i) (ws (S i)) ∨
     server_inv (server_of (we i)) ∧ reported_to (report_of (ws i)) x (ws i) (we i)).
Proof.
  intros Hi Hx Hme Hk N Hrs.
  destruct (alive_key_lookup x (ws 0) Hi Hx) as (p & y & Hp & _).
  apply lookup_lt_Some in Hp. rewrite length_all in Hp. fold N in Hp.
  set (n := N * N + N) in *. set (ws' := λ i, if i <? n then ws i else we (pred i)).
  assert (∀ i, i < n → ws' i = ws i) as Hws.
  { intros i Hn. unfold ws'. by rewrite (proj2 (Nat.ltb_lt _ _)) by lia. }
  assert (ws' 0 = ws 0) as H0 by (apply Hws; lia).
  destruct (rounds_reach N (N * N + pred N) x n ws' we) as (i & Hle & Hend);
    rewrite ?H0; try done; try lia; [|by apply rounds_last|].
  - intros q Hq. apply lookup_lt_Some in Hq. rewrite length_alive_keys in Hq.
    pose proof (distance_lt (server_of (ws 0)) q (round_robin_index_ (detector (ws 0))) Hq).
    fold N in H |- *. lia.
  - exists i. split; [lia|]. rewrite (Hws i) in Hend by lia. destruct Hend as [Hl|]; [left | by right].
    destruct (decide (S i < n)) as [Hlt|Hge]; [by rewrite Hws in Hl|].
    destruct Hl as [Ha Hn]. unfold ws' in Hn. rewrite (proj2 (Nat.ltb_ge _ _)) in Hn by lia.
    cbn [pred] in Hn. rewrite Hn in Ha. by destruct Ha.
Qed.

(** C10 Reporting is fair.  Let a server [x] be alive, and let [N * N + N] rounds of full
    reports complete, where [N] is the number of alive servers at the start; between two
    rounds anything may happen that adds no server to the alive set, and that leaves the
    round-robin index alone unless a server leaves the set.  Then one of the rounds sends [x]
    a report, unless [x] is removed from the alive set between two of them.  The report is the
    one prepared in its round, and it is stamped by a client addressed to [x]. *)
Theorem reports_reach_everyone {ss : StdSort} x ws we :
  server_inv (server_of (ws 0)) → is_Some (seek x (alive_ (server_of (ws 0)))) →
  key x ≠ key (self (server_of (ws 0))) → 0 < num_reports_ (detector (ws 0)) →
  let N := alive_size (server_of (ws 0)) in
  rounds (N * N + N) ws we →
  ∃ i, i < N * N + N ∧
    (S i < N * N + N ∧ leaves_between x (we i) (ws (S i)) ∨
     ∃ sent c ok,
       requests (we i) = requests (ws i) ++ sent ∧ key (dest_ c) = key x ∧
       (destinationUri c, (stamp c (Send_envelope
          (PrepareReport (clock_at (asked (ws i))) (clock_at (S (asked (ws i))))
             (server_of (ws i))))).2, ok) ∈ sent).
Proof.
  intros Hi Hx Hme Hk N Hrs.
  destruct (rounds_reach_within x ws we Hi Hx Hme Hk Hrs) as (i & Hlt & Hend).
  exists i. split; [done|]. destruct Hend as [?|(_ & _ & (sent & c & ok & Hs & Hin & Hd) & _)];
    [by left | right]. by exists sent, c, ok.
Qed.

(** C9 Failure detection is complete.  Let a server [x] be alive and answer no request any
    more, and let [N * N + N] rounds of full reports complete, where [N] is the number of
    alive servers at the start; between two rounds anything may happen that adds no server to
    the alive set, and that leaves the round-robin index alone unless a server leaves the set.
    Then one of the rounds makes [x] suspected and no longer alive, unless [x] is already
    removed from the alive set between two of them. *)
Theorem crashed_server_is_suspected {ss : StdSort} x ws we :
  server_inv (server_of (ws 0)) → is_Some (seek x (alive_ (server_of (ws 0)))) →
  key x ≠ key (self (server_of (ws 0))) → unresponsive x → 0 < num_reports_ (detector (ws 0)) →
  let N := alive_size (server_of (ws 0)) in
  rounds (N * N + N) ws we →
  ∃ i, i < N * N + N ∧
    (S i < N * N + N ∧ leaves_between x (we i) (ws (S i)) ∨
     seek x (alive_ (server_of (we i))) = None ∧ is_Some (seek x (suspected_ (server_of (we i))))).
Proof.
  intros Hi Hx Hme Hun Hk N Hrs.
  destruct (rounds_reach_within x ws we Hi Hx Hme Hk Hrs) as (i & Hlt & Hend).
  exists i. split; [done|]. destruct Hend as [?|(Hi' & _ & _ & Hs)]; [by left | right].
  specialize (Hs Hun). split; [|done].
  apply eq_None_not_Some. intros Ha. apply (inv_disjoint _ Hi') in Ha. rewrite Ha in Hs.
  by destruct Hs.
Qed.

(** ** Rounds that follow each other at once *)

Definition report_rounds {ss : StdSort} (n : nat) : M unit :=
  for_each (replicate n FULL) SendReport.

(** The world after some rounds. *)
Definition after {ss : StdSort} (n : nat) w : World := (report_rounds n w).2.

Lemma report_rounds_S {ss : StdSort} n w :
  report_rounds (S n) w = (_ ← report_rounds n; SendReport FULL) w.
Proof.
  unfold report_rounds. revert w. induction n as [|n IH]; intros w.
  - cbn [replicate for_each]. unfold mbind, M_bind, mret, M_ret.
    by destruct (SendReport FULL w) as [[[]|e|] w1].
  - change (replicate (S (S n)) FULL) with (FULL :: replicate (S n) FULL).
    change (replicate (S n) FULL) with (FULL :: replicate n FULL) at 2.
    cbn [for_each]. unfold mbind at 1 2 3, M_bind at 1 2 3.
    destruct (SendReport FULL w) as [[[]|e|] w1]; [apply IH | done..].
Qed.

Lemma rounds_at_once {ss : StdSort} n w :
  server_inv (server_of w) → (report_rounds n w).1 = Value tt →
  rounds n (λ i, after i w) (λ i, after (S i) w).
Proof.
  intros Hi Hn.
  assert (∀ i, i ≤ n → (report_rounds i w).1 = Value tt) as Hall.
  { induction n as [|n IH]; intros i Hle; [by replace i with 0 by lia|].
    destruct (decide (i = S n)) as [->|]; [done|]. apply IH; [|lia].
    rewrite report_rounds_S in Hn. unfold mbind, M_bind in Hn.
    by destruct (report_rounds n w) as [[[]|e|] w1]. }
  assert (∀ i, server_inv (server_of (after i w))) as Hinv.
  { intros i. apply (safe_for_each (replicate i FULL) SendReport); [|done].
    intros a. apply safe_SendReport. }
  split; intros i Hlt; [|by apply quiet_refl].
  pose proof (Hall (S i) ltac:(lia)) as HS. pose proof (Hall i ltac:(lia)) as H0.
  unfold after in *. rewrite report_rounds_S in *. unfold mbind, M_bind in *.
  destruct (report_rounds i w) as [[[]|e|] w1]; try done. cbn in *.
  destruct (SendReport FULL w1) as [[[]|e|] w2]; done.
Qed.
End Reporting.

(** A ping of [host1], which is alive, arrives before every round. *)
Definition pinged (w : World) : World :=
  mkWorld (set_gossip_server (exec (os := os0) (pb := bit_codec) (ev_OnUpdate t0 host1) (server_of w))
    (detector w)) (requests w) (asked w).

Fixpoint pinged_before {ss : StdSort} (env : Environment) (n : nat) (w : World) : World :=
  match n with
  | O => w
  | S n => pinged (SendReport (pb := bit_codec) FULL (pinged_before env n w)).2
  end.

Section Witnesses.
#[local] Existing Instance bit_codec.
#[local] Existing Instance merge_StdSort.

Lemma pinged_before_inv env n w :
  server_inv (server_of w) → server_inv (server_of (pinged_before env n w)).
Proof.
  intros Hi. induction n as [|n IH]; [done|]. cbn [pinged_before]. apply inv_exec.
  by apply safe_SendReport.
Qed.

(** Everybody answers; [host1] pings between the rounds. *)
Definition all_answer : Environment := env_at 1 (Received "OK").
Definition round_start (i : nat) : World := pinged_before all_answer i (world_of node_three).
Definition round_end (i : nat) : World := (SendReport (env := all_answer) FULL (round_start i)).2.

Lemma rounds_with_pings : rounds (env := all_answer) 12 round_start round_end.
Proof.
  split; intros i Hi.
  - unfold round_end. rewrite (surjective_pairing (SendReport FULL (round_start i))) at 1.
    f_equal. do 12 (destruct i as [|i]; [vm_compute; reflexivity|]). lia.
  - apply (quiet_exec (ev_OnUpdate t0 host1)).
    + apply safe_SendReport, pinged_before_inv. exact (inv_stopped _ _ node_three_inv).
    + do 12 (destruct i as [|i]; [vm_compute; eexists; reflexivity|]). lia.
Qed.

Lemma reports_reach_everyone_witness :
  ∃ i, i < 12 ∧
    (leaves_between host3 (round_end i) (round_start (S i)) ∨
     ∃ sent, requests (round_end i) = requests (round_start i) ++ sent ∧ sent ≠ []).
Proof.
  destruct (reports_reach_everyone (env := all_answer) host3 round_start round_end)
    as (i & Hi & H).
  - exact (inv_stopped _ _ node_three_inv).
  - eexists. reflexivity.
  - discriminate.
  - apply Nat.lt_0_succ.
  - exact rounds_with_pings.
  - exists i. split; [exact Hi|]. destruct H as [H|(sent & c & ok & Hs & _ & Hin)].
    + left. exact (proj2 H).
    + right. exists sent. split; [exact Hs|]. intros ->. by apply elem_of_nil in Hin.
Defined.

(** Nobody answers. *)
Definition none_answer : Environment := env_at 1 PollTimedOut.

Lemma crashed_server_is_suspected_witness :
  let ws i := after (env := none_answer) i (world_of node_three) in
  ∃ i, i < 12 ∧ is_Some (seek host3 (suspected_ (server_of (ws (S i))))).
Proof.
  intros ws.
  destruct (crashed_server_is_suspected (env := none_answer) host3 ws (λ i, ws (S i)))
    as (i & Hi & H).
  - exact (inv_stopped _ _ node_three_inv).
  - eexists. reflexivity.
  - discriminate.
  - intros ? ? ? ? [=].
  - apply Nat.lt_0_succ.
  - apply (rounds_at_once (env := none_answer)); [exact (inv_stopped _ _ node_three_inv)|].
    vm_compute. reflexivity.
  - exists i. split; [exact Hi|]. destruct H as [[_ [[r H] Hn]]|[_ H]]; [|exact H].
    rewrite Hn in H. discriminate H.
Defined.
End Witnesses.
