(* ===== verification/Dissemination.v ===== *)
(** * How news spreads

    One server prepares a report, posts it, and another server handles it.  What the
    receiver knows afterwards is determined server by server: the news it accepts, the
    news it rejects because it holds later contrary news, and the servers the report
    does not mention, for which nothing changes. *)

From Stdlib Require Import ZArith Lia String.
From stdpp Require Import base list strings gmap.
From S2P Require Import Prelude StdSet SwimCommon UtilsHost SwimClient SwimServer Membership Refinement Report Fixtures Codec ServerProps ServerLoop.

(** ** The two loops of [OnReport], entry by entry *)

Section Loops.
Context (now : Timestamp) (me : Server) (clock : Z).
Implicit Types (m : view) (r : ServerRecord) (k : string * Z).

Lemma lookup_spec_raise_ne r m k : k ≠ key (server r) → spec_raise r m !! k = m !! k.
Proof. intros Hk. unfold spec_raise. by rewrite lookup_alter_ne. Qed.

Lemma lookup_spec_AddAlive_ne x t m k :
  k ≠ key x → spec_AddAlive now clock x t m !! k = m !! k.
Proof. intros Hk. unfold spec_AddAlive. case_if; [done|]. by rewrite lookup_insert_ne. Qed.

Lemma lookup_spec_ReportSuspected_ne x t m k :
  k ≠ key x → spec_ReportSuspected now me clock x t m !! k = m !! k.
Proof.
  intros Hk. unfold spec_ReportSuspected. case_if; [done|].
  case_decide; [by apply lookup_spec_AddAlive_ne|].
  repeat case_match; by rewrite ?lookup_insert_ne.
Qed.

Lemma lookup_report_alive_ne r m k :
  k ≠ key (server r) → spec_report_alive now me clock r m !! k = m !! k.
Proof.
  intros Hk. unfold spec_report_alive. case_decide; [done|]. do 2 (case_if; [done|]).
  by rewrite lookup_spec_raise_ne, lookup_spec_AddAlive_ne.
Qed.

Lemma lookup_report_suspected_ne r m k :
  k ≠ key (server r) → spec_report_suspected now me clock r m !! k = m !! k.
Proof.
  intros Hk. unfold spec_report_suspected. case_decide; [done|]. do 2 (case_if; [done|]).
  by rewrite lookup_spec_raise_ne, lookup_spec_ReportSuspected_ne.
Qed.

(** A loop whose body only touches the entry of its record. *)
Section Fold.
Context (f : ServerRecord → view → view).
Context (Hf : ∀ r m k, k ≠ key (server r) → f r m !! k = m !! k).

Lemma fold_unlisted l m k :
  k ∉ ((λ r, key (server r)) <$> l) → fold_left (λ m r, f r m) l m !! k = m !! k.
Proof.
  revert m. induction l as [|r l IH]; intros m Hk; simpl; [done|].
  rewrite fmap_cons, not_elem_of_cons in Hk. destruct Hk as [Hk Hl].
  by rewrite IH, Hf.
Qed.

(** With one record per server, the entry is what the body makes of the initial one. *)
Lemma fold_listed l m r (P : option (Status * ServerRecord) → Prop) :
  NoDup ((λ r, key (server r)) <$> l) → r ∈ l →
  (∀ m', m' !! key (server r) = m !! key (server r) → P (f r m' !! key (server r))) →
  P (fold_left (λ m r, f r m) l m !! key (server r)).
Proof.
  intros Hnd (l1 & l2 & ->)%list_elem_of_split HP.
  rewrite fmap_app, fmap_cons in Hnd. apply NoDup_app in Hnd as (_ & H12 & Hnd).
  apply NoDup_cons in Hnd as [H2 _].
  rewrite fold_left_app. simpl. rewrite fold_unlisted by done. apply HP, fold_unlisted.
  intros H1. apply (H12 _ H1). left.
Qed.
End Fold.

(** News of an alive server that is not overruled. *)
Lemma report_alive_accepted r m :
  key (server r) ≠ key me → port (server r) ≠ 0%Z →
  (∀ q, m !! key (server r) = Some (Suspect, q) → (lamport_time q <= lamport_time r)%Z) →
  ∃ q, spec_report_alive now me clock r m !! key (server r) = Some (Alive, q) ∧
    timestamp q = timestamp r ∧ lamport_time q = clock.
Proof.
  intros Hme Hp Hq. unfold spec_report_alive. rewrite decide_False by done.
  assert (overruled Alive r m = false) as ->.
  { unfold overruled. destruct (m !! key (server r)) as [[[] q]|]; [done| |done].
    simpl. apply Z.ltb_ge. by apply Hq. }
  rewrite (proj2 (Z.eqb_neq _ _) Hp). unfold spec_raise, spec_AddAlive.
  rewrite (proj2 (Z.eqb_neq _ _) Hp), lookup_alter_eq, lookup_insert_eq. simpl.
  eexists. split; [done|]. rewrite timestamp_raise, lamport_time_raise.
  repeat case_match; done.
Qed.

(** News of a suspect that is not overruled. *)
Lemma report_suspect_accepted r m :
  key (server r) ≠ key me → port (server r) ≠ 0%Z →
  (∀ q, m !! key (server r) = Some (Alive, q) → (lamport_time q <= lamport_time r)%Z) →
  ∃ q, spec_report_suspected now me clock r m !! key (server r) = Some (Suspect, q).
Proof.
  intros Hme Hp Hq. unfold spec_report_suspected. rewrite decide_False by done.
  assert (overruled Suspect r m = false) as ->.
  { unfold overruled. destruct (m !! key (server r)) as [[[] q]|]; [|done|done].
    simpl. apply Z.ltb_ge. by apply Hq. }
  rewrite (proj2 (Z.eqb_neq _ _) Hp). unfold spec_raise, spec_ReportSuspected.
  rewrite (proj2 (Z.eqb_neq _ _) Hp), lookup_alter_eq, decide_False by done.
  destruct (m !! key (server r)) as [[[] q]|] eqn:Hm; rewrite ?lookup_insert_eq, ?Hm; by eexists.
Qed.

(** *** The whole report *)

Lemma listed_key r (l : list ServerRecord) : r ∈ l → key (server r) ∈ ((λ r, key (server r)) <$> l).
Proof. apply (list_elem_of_fmap_2 (λ r, key (server r))). Qed.

Context (x : Server) (rep : SwimReport) (m : view).
Context (Hnd : NoDup ((λ r, key (server r)) <$> alive rep ++ suspected rep)).

Lemma spec_OnReport_unlisted k :
  k ≠ key x → k ∉ ((λ r, key (server r)) <$> alive rep ++ suspected rep) →
  spec_OnReport now me clock x rep m !! k = m !! k.
Proof.
  rewrite fmap_app, not_elem_of_app. intros Hk [Ha Hs]. unfold spec_OnReport.
  rewrite (fold_unlisted _ lookup_report_suspected_ne), (fold_unlisted _ lookup_report_alive_ne)
    by done. by apply lookup_spec_AddAlive_ne.
Qed.

Lemma spec_OnReport_alive r :
  r ∈ alive rep → key (server r) ≠ key me → port (server r) ≠ 0%Z →
  (∀ q, m !! key (server r) = Some (Suspect, q) → (lamport_time q <= lamport_time r)%Z) →
  ∃ q, spec_OnReport now me clock x rep m !! key (server r) = Some (Alive, q) ∧
    timestamp q = timestamp r ∧ lamport_time q = clock.
Proof.
  rewrite fmap_app in Hnd. apply NoDup_app in Hnd as (Hnda & Hdisj & _).
  intros Hr Hme Hp Hq. unfold spec_OnReport.
  rewrite (fold_unlisted _ lookup_report_suspected_ne) by by apply Hdisj, listed_key.
  eapply (fold_listed _ lookup_report_alive_ne) with
    (P := λ o, ∃ q, o = Some (Alive, q) ∧ timestamp q = timestamp r ∧ lamport_time q = clock);
    [done..|].
  intros m' Hm'. apply report_alive_accepted; [done..|].
  intros q Hs. rewrite Hm' in Hs. apply Hq. revert Hs. unfold spec_AddAlive.
  case_if; [done|]. rewrite lookup_insert. case_decide; [by intros [=] | done].
Qed.

Lemma spec_OnReport_suspected r :
  r ∈ suspected rep → key (server r) ≠ key me → key (server r) ≠ key x →
  port (server r) ≠ 0%Z →
  (∀ q, m !! key (server r) = Some (Alive, q) → (lamport_time q <= lamport_time r)%Z) →
  ∃ q, spec_OnReport now me clock x rep m !! key (server r) = Some (Suspect, q).
Proof.
  rewrite fmap_app in Hnd. apply NoDup_app in Hnd as (_ & Hdisj & Hnds).
  intros Hr Hme Hx Hp Hq. unfold spec_OnReport.
  eapply (fold_listed _ lookup_report_suspected_ne) with (P := λ o, ∃ q, o = Some (Suspect, q));
    [done..|].
  intros m' Hm'. apply report_suspect_accepted; [done..|].
  intros q Hs. apply Hq. rewrite <- Hs, Hm'.
  rewrite (fold_unlisted _ lookup_report_alive_ne), lookup_spec_AddAlive_ne; [done | done |].
  intros Hin. by apply (Hdisj _ Hin), listed_key.
Qed.
End Loops.

(** ** A report from one server to another *)

Section Spread.
Context {osA osB : OS} {pb : Protobuf} {laws : ProtobufLaws pb} {ss : StdSort}.

(** The members a server holds have a port. *)
Lemma member_port {os : OS} s r : server_inv s → r ∈ alive_ s ∨ r ∈ suspected_ s → port (server r) ≠ 0%Z.
Proof.
  intros Hi Hr E. destruct (inv_port _ Hi _ E) as [Ha Hs].
  destruct Hr as [Hr|Hr].
  - rewrite (seek_elem _ _ (inv_alive _ Hi) Hr) in Ha. done.
  - rewrite (seek_elem _ _ (inv_suspected _ Hi) Hr) in Hs. done.
Qed.

(** C14 A report spreads what its sender knows.  When [A] prepares a report and posts
    it, the message can be encoded and [B] could connect to [A] (to refute a suspicion of
    itself), the receiver [B] answers OK, and afterwards: every server listed alive is alive
    at [B], with the time stamp [A] had and [B]'s new clock, unless it is [B] itself or
    [B] suspected it with a later time; every server listed as suspected is suspected
    at [B], unless it is [B] or the sender, or [B] knew it alive with a later time; and
    [B] changes nothing it knows about servers that are neither listed nor the sender. *)
Theorem report_spreads t1 t2 t c (sA sB : SwimServer) :
  server_inv (os := osA) sA → server_inv (os := osB) sB →
  let rep := PrepareReport (os := osA) t1 t2 sA in
  let e := (stamp c (Send_envelope rep)).2 in
  encodable e = true → zmq_connect (OS := osB) (uri_of (self (os := osA) sA)) = true →
  let clock := u64 (Z.max (lamport_time_ sB) (u64 (client_lamport_time_ c + 1)) + 1) in
  ∃ sB',
    handle_message (os := osB) t (SerializeAsString e) sB = Done (sB', "OK") ∧
    (∀ r, r ∈ alive rep → key (server r) ≠ key (self (os := osB) sB) →
       (∀ q, seek (server r) (suspected_ sB) = Some q → (lamport_time q <= lamport_time r)%Z) →
       ∃ q, seek (server r) (alive_ sB') = Some q ∧ timestamp q = timestamp r ∧
         lamport_time q = clock) ∧
    (∀ r, r ∈ suspected rep → key (server r) ≠ key (self (os := osB) sB) →
       key (server r) ≠ key (self_ c) →
       (∀ q, seek (server r) (alive_ sB) = Some q → (lamport_time q <= lamport_time r)%Z) →
       is_Some (seek (server r) (suspected_ sB'))) ∧
    (∀ y, key y ≠ key (self_ c) →
       key y ∉ ((λ r, key (server r)) <$> alive rep ++ suspected rep) →
       view_of sB' !! key y = view_of sB !! key y).
Proof.
  intros HA HB rep e He Hz clock.
  destruct (report_lists_members t1 t2 sA HA) as (HaA & HsA & Hnd & _).
  fold rep in HaA, HsA, Hnd.
  set (s0 := UpdateLamportTime (env_lamport_time e) sB).
  assert (server_inv (os := osB) s0) as H0 by (unfold s0; auto with gossip).
  exists (OnReport (os := osB) t (self_ c) rep s0).
  split.
  { apply (handle_encoded (os := osB)); [done | done |]. intros r [= <-].
    by rewrite (uri_of_key (report_sender rep) (self (os := osA) sA)). }
  pose proof (refine_OnReport t (self_ c) rep s0 H0) as Hv.
  split_and!.
  - intros r Hr Hme Hq.
    destruct (spec_OnReport_alive t (self (os := osB) s0) clock (self_ c) rep (view_of s0) Hnd r)
      as (q & Hl & Ht); [done | done | | |].
    + apply (member_port (os := osA) sA); [done|]. left. by eapply elem_of_submseteq.
    + intros q Hs. by apply Hq, view_suspect_seek.
    + exists q. split; [|done]. apply view_alive_seek. by rewrite Hv.
  - intros r Hr Hme Hx Hq.
    destruct (spec_OnReport_suspected t (self (os := osB) s0) clock (self_ c) rep (view_of s0)
      Hnd r) as (q & Hl); [done | done | done | | |].
    + apply (member_port (os := osA) sA); [done|]. right. by eapply elem_of_submseteq.
    + intros q Hs. by apply Hq, view_alive_seek.
    + exists q. apply view_suspect_seek. by rewrite Hv.
  - intros y Hy Hn. rewrite Hv. by apply spec_OnReport_unlisted.
Qed.
End Spread.

(** [node_as] knows [host1] alive and [host2] suspected; a new server on [host3] learns
    both from its report. *)
Definition newcomer : SwimServer := newSwimServer (os := os3) "host3" 5500 false kNumThreads 50.

Lemma report_spreads_witness :
  let rep := PrepareReport (ss := merge_StdSort) t0 t0 node_as in
  let c := newSwimClient "node0" (lamport_time_ node_as) host3 9200 kDefaultTimeoutMsec in
  ∃ s' q,
    handle_message (os := os3) (pb := bit_codec) t0
      (SerializeAsString (Protobuf := bit_codec) (stamp c (Send_envelope rep)).2) newcomer =
      Done (s', "OK") ∧
    seek host1 (alive_ s') = Some q ∧ lamport_time q = 12%Z ∧
    is_Some (seek host2 (suspected_ s')).
Proof.
  intros rep c.
  destruct (report_spreads (osB := os3) (pb := bit_codec) (ss := merge_StdSort) t0 t0 t0 c
    node_as newcomer node_as_inv (inv_new (os := os3) _ _ _ _ _)) as (s' & Hm & Ha & Hs & _);
    [vm_compute; reflexivity | vm_compute; reflexivity |].
  destruct (Ha (fresh_record t0 host1 ms0 5)) as (q & Hq & _ & Hl).
  { vm_compute. left. }
  { vm_compute. discriminate. }
  { intros q Hq. vm_compute in Hq. discriminate Hq. }
  exists s', q. split; [exact Hm|]. split; [exact Hq|]. split; [exact Hl|].
  apply (Hs (fresh_record t0 host2 ms0 10)).
  - vm_compute. left.
  - vm_compute. discriminate.
  - vm_compute. discriminate.
  - intros p Hp. vm_compute in Hp. discriminate Hp.
Defined.
