(* ===== verification/Recovery.v ===== *)
(** * A false suspicion is refuted

    When a server [A] gets no answer from [x] it suspects it, and asks some neighbors to
    ping [x] on its behalf.  A neighbor [B] forwards the request as a report that names [x]
    as suspected and [A] as the one who suspects it; [x], if it is up, pings [A]; and [A]
    takes the suspicion back.  Each leg of the exchange is a lemma about one server, and the
    theorem puts the three servers together. *)

From Stdlib Require Import ZArith Lia String.
From stdpp Require Import base list strings gmap.
From S2P Require Import Prelude StdSet SwimCommon UtilsHost SwimClient SwimServer Membership Refinement Report Fixtures Codec ServerProps ServerClock ServerLoop Neighbors Detector DetectorProps.

Section Legs.
Context {os : OS} {pb : Protobuf} {laws : ProtobufLaws pb}.
Implicit Types (s : SwimServer) (x from : Server).

(** The request to ping [x] is accepted, and a thread is started for it. *)
Lemma request_accepted t c x s :
  encodable_server (self_ c) = true → encodable_server x = true →
  ∃ s', handle_message t (SerializeAsString (stamp c (RequestPing_envelope x)).2) s =
      Done (s', "OK") ∧
    ForwardThread (self_ c) (Some x) ∈ effects_ s'.
Proof.
  intros Hc Hx. eexists. split.
  { apply handle_encoded; [rewrite encodable_stamp; cbn -[encodable_server]; by rewrite Hc, Hx | done | by intros ? [=]]. }
  cbn. apply elem_of_app. right. left.
Qed.

(** The report that the forwarding thread sends to [x]. *)
Definition forwarded_report (t : Timestamp) from x s : SwimEnvelope :=
  (stamp (newSwimClient (host_name_ s) (lamport_time_ s) x (port_ s) kDefaultTimeoutMsec)
     (Send_envelope (mkSwimReport from [] [MakeRecord x t]))).2.

(** The thread posts it, whatever becomes of it. *)
Lemma request_forwarded t ex from x s :
  zmq_connect (uri_of x) = true →
  ∃ s', ForwardThread_body t ex from (Some x) s = Done s' ∧
    Posted (uri_of x) (forwarded_report t from x s) ∈ effects_ s'.
Proof.
  intros Hz. unfold ForwardThread_body. cbn [deref mbind outcome_bind].
  set (c := newSwimClient _ _ _ _ _). set (s' := emit _ s).
  assert (Posted (uri_of x) (forwarded_report t from x s) ∈ effects_ s') as He.
  { apply elem_of_app. right. left. }
  assert (is_Some (Send ex (mkSwimReport from [] [MakeRecord x t]) c).1) as [ok ->].
  { unfold Send, postMessage, stamp. change (destinationUri (set_client_lamport_time _ c)) with (uri_of x).
    rewrite Hz. cbn [negb]. by destruct (ex _ _ _); eexists. }
  eexists. split; [done|]. destruct ok; cbn [negb]; [done|]. revert He. generalize s'. clear s'. intros s' He.
  destruct (decide (port x = 0%Z)); [by rewrite ReportSuspected_port0|].
  destruct (decide (key x = key (self s'))).
  - rewrite ReportSuspected_self by done. cbn [fst]. rewrite effects_AddAlive.
    apply elem_of_app. by left.
  - rewrite effects_ReportSuspected by done. apply elem_of_app. by left.
Qed.

(** A server that is reported as suspected pings the one who suspects it. *)
Lemma suspicion_answered t tf c from x s :
  key x = key (self s) → zmq_connect (uri_of from) = true →
  encodable_server (self_ c) = true → encodable_server from = true → encodable_server x = true →
  ∃ s', handle_message t
      (SerializeAsString (stamp c (Send_envelope (mkSwimReport from [] [MakeRecord x tf]))).2) s =
      Done (s', "OK") ∧
    ∃ d, Posted (uri_of from) (stamp d Ping_envelope).2 ∈ effects_ s' ∧
      self_ d = advertised s.
Proof.
  intros Hx Hz Hce Hf Hxe. eexists. split.
  { apply handle_encoded; [|done | by intros rep [= <-]].
    rewrite encodable_stamp. cbn -[encodable_server encodable_record].
    unfold encodable_report. cbn -[encodable_server encodable_record].
    by rewrite Hce, Hf, encodable_MakeRecord. }
  set (s0 := UpdateLamportTime (client_lamport_time_ (stamp c Ping_envelope).1) s).
  set (d := newSwimClient (host_name_ s) (lamport_time_ s0) from (port_ s) kDefaultTimeoutMsec).
  exists d. split; [|done].
  set (s1 := (AddAlive t (self_ c) (CurrentTime t) s0).1).
  assert (config s1 = config s0) as Hc by apply config_AddAlive.
  change (Posted (uri_of from) (stamp d Ping_envelope).2 ∈
    effects_ (OnReport_suspected t from (MakeRecord x tf) s1)).
  unfold OnReport_suspected. rewrite (config_self _ _ Hc).
  change (Server_eqb (server (MakeRecord x tf)) (self s0)) with (Server_eqb x (self s)).
  rewrite (proj2 (Server_eqb_key _ _) Hx). apply elem_of_app. right.
  unfold config in Hc. injection Hc as _ El Ep _ _ _ _ Eh. rewrite El, Ep, Eh. left.
Qed.

(** A ping takes a suspicion back. *)
Lemma ping_refutes t d x s :
  server_inv s → key (self_ d) = key x → port x ≠ 0%Z → encodable_server (self_ d) = true →
  ∃ s', handle_message t (SerializeAsString (stamp d Ping_envelope).2) s = Done (s', "OK") ∧
    is_Some (seek x (alive_ s')) ∧ seek x (suspected_ s') = None.
Proof.
  intros Hi Hk Hp He. eexists. split.
  { apply handle_encoded; [rewrite encodable_stamp; cbn -[encodable_server]; by rewrite He | done | by intros ? [=]]. }
  set (s0 := UpdateLamportTime _ s). assert (server_inv s0) as H0 by (unfold s0; auto with gossip).
  assert (is_Some (seek x (alive_ (OnUpdate t (self_ d) s0)))) as Ha.
  { change (alive_ (OnUpdate t (self_ d) s0)) with
      (alive_ (AddAlive t (self_ d) (CurrentTime t) s0).1).
    rewrite seek_alive_AddAlive; [| |apply H0].
    - rewrite (proj2 (Server_eqb_key _ _)) by done. by eexists.
    - by rewrite (key_port _ _ Hk). }
  split; [exact Ha|]. by apply (inv_disjoint _ (inv_OnUpdate t (self_ d) s0 H0)).
Qed.
End Legs.

(** ** The whole exchange *)

Section Exchange.
Context {osA osB osX : OS} {pb : Protobuf} {laws : ProtobufLaws pb} {env : Environment}.

(** C11 A false suspicion is refuted.  Let the names of the servers involved be valid
    text, let [A] be able to connect to its members, [B] to [x] and [x] to [A], and let a
    report of [A] to [x] stay unanswered.  Then [A] suspects [x] and asks as many neighbors as it is configured to (or as it has) to
    ping [x].  If such a request reaches a server [B], it accepts it and starts a thread,
    which sends [x] a report; if that reaches [x], which knows itself under the name by which
    [A] knows it, [x] sends a ping to the address [A] gave with its request; and if that
    reaches [A], then [x] is alive at [A] again and no longer suspected.  [B], [x] and, by
    then, [A] may be in any well-formed state, and the times are arbitrary. *)
Theorem false_suspicion_is_refuted c rep x (wA : World) (sB sB2 sX sA : SwimServer)
    (tB tF tX tA : Timestamp) (ex : Exchange) :
  server_inv (os := osA) (server_of wA) → server_inv (os := osA) sA →
  port x ≠ 0%Z → key x ≠ key (self (os := osA) (server_of wA)) →
  key x = key (self (os := osX) sX) → key (advertised (os := osX) sX) = key x →
  let me := self_ (detector_client (os := osA) x wA) in
  encodable_server x = true → encodable_server me = true →
  encodable_server (advertised (os := osB) sB2) = true →
  encodable_server (advertised (os := osX) sX) = true →
  (∀ r, r ∈ alive_ (server_of wA) → zmq_connect (OS := osA) (uri_of (server r)) = true) →
  zmq_connect (OS := osB) (uri_of x) = true → zmq_connect (OS := osX) (uri_of me) = true →
  (postMessage (os := osA) (exchange_at (asked wA)) (Send_envelope rep) c).1 = Some false →
  ∃ wA' neighbors,
    SendReport_to (os := osA) c rep x wA = (Value false, wA') ∧
    is_Some (seek x (suspected_ (server_of wA'))) ∧
    length neighbors = Nat.min (num_forwards_ (detector wA))
      (length (other_servers (os := osA) (server_of wA'))) ∧
    ∀ n, n ∈ neighbors →
      let f := detector_client (os := osA) n wA in
      ∃ ok sB' sF eX sX' ping sA',
        (uri_of n, (stamp f (RequestPing_envelope x)).2, ok) ∈ requests wA' ∧
        handle_message (os := osB) tB (SerializeAsString (stamp f (RequestPing_envelope x)).2) sB =
          Done (sB', "OK") ∧
        ForwardThread (self_ f) (Some x) ∈ effects_ sB' ∧
        ForwardThread_body (os := osB) tF ex (self_ f) (Some x) sB2 = Done sF ∧
        Posted (uri_of x) eX ∈ effects_ sF ∧
        handle_message (os := osX) tX (SerializeAsString eX) sX = Done (sX', "OK") ∧
        Posted (uri_of (self_ f)) ping ∈ effects_ sX' ∧
        handle_message (os := osA) tA (SerializeAsString ping) sA = Done (sA', "OK") ∧
        is_Some (seek x (alive_ sA')) ∧ seek x (suspected_ sA') = None.
Proof.
  intros HiA HiA2 Hp Hme HxX Hadv me Hex Heme HeB HeX HzA HzB HzX Hun.
  destruct (SendReport_to_unanswered (os := osA) c rep x wA HiA Hun)
    as (wA' & neighbors & oks & res & Hrun & Hends & Hw' & Hreq & _ & Hnb & Hl & _).
  pose proof (inv_suspected _ HiA) as Hsu.
  assert (length oks = length neighbors ∧ res = Value false) as [Hlo ->].
  { destruct Hends as [?|(y & Hy & Hz & _)]; [done|].
    apply list_elem_of_lookup_2 in Hy. destruct (Hnb y Hy) as [_ (r & Hr & <-)].
    rewrite alive_ReportSuspected in Hr by done. apply elem_of_erase in Hr.
    rewrite (HzA r Hr) in Hz. done. }
  exists wA', neighbors. split; [done|]. rewrite Hw'. split; [|split; [done|]].
  { rewrite seek_suspected_ReportSuspected, Server_eqb_refl by done. by eexists. }
  intros n Hn f. apply list_elem_of_lookup_1 in Hn as [i Hi].
  destruct (lookup_lt_is_Some_2 oks i) as [ok Hok]; [rewrite Hlo; by eapply lookup_lt_Some|].
  destruct (request_accepted (os := osB) tB f x sB Heme Hex) as (sB' & HB & HBe).
  destruct (request_forwarded (os := osB) tF ex (self_ f) x sB2 HzB) as (sF & HF & HFe).
  destruct (suspicion_answered (os := osX) tX tF
    (newSwimClient (os := osB) (host_name_ sB2) (lamport_time_ sB2) x (port_ sB2) kDefaultTimeoutMsec)
    (self_ f) x sX HxX HzX HeB Heme Hex) as (sX' & HX & d & HXe & Hd).
  destruct (ping_refutes (os := osA) tA d x sA HiA2) as (sA' & HA & Halive);
    [by rewrite Hd | done | by rewrite Hd |].
  exists ok, sB', sF, (forwarded_report (os := osB) tF (self_ f) x sB2), sX', (stamp d Ping_envelope).2, sA'.
  split; [|done]. rewrite Hreq. apply elem_of_app. right. right.
  apply (list_elem_of_lookup_2 _ i). by rewrite lookup_zip_with, Hi, Hok.
Qed.
End Exchange.

(** ** Evaluated on the fixtures *)

(** [node_three] knows [host1] and [host3]; its report to [host3] is lost, and [host1] is
    asked to ping [host3]. *)
Definition host1_server : SwimServer := newSwimServer (os := os1) "host1" 1234 false kNumThreads 50.
Definition host3_server : SwimServer :=
  newSwimServer (os := os3) "host3" (port host3) false kNumThreads 50.
Definition lost : Environment := env_at 1 PollTimedOut.

Lemma false_suspicion_is_refuted_witness :
  ∃ wA' (n : list Server) sA',
    SendReport_to (pb := bit_codec) (env := lost)
      (detector_client host3 (world_of node_three)) (mkSwimReport Server_default [] []) host3
      (world_of node_three) = (Value false, wA') ∧
    length n = 1 ∧
    is_Some (seek host3 (suspected_ (server_of wA'))) ∧
    is_Some (seek host3 (alive_ sA')) ∧ seek host3 (suspected_ sA') = None.
Proof.
  destruct (false_suspicion_is_refuted (osA := os0) (osB := os1) (osX := os3)
    (pb := bit_codec) (env := lost) (detector_client host3 (world_of node_three))
    (mkSwimReport Server_default [] []) host3 (world_of node_three) host1_server host1_server
    host3_server node_as t0 t0 t0 t0 (λ _ _ _, PollTimedOut))
    as (wA' & n & Hrun & Hs & Hl & Hn).
  - exact (inv_stopped _ _ node_three_inv).
  - exact node_as_inv.
  - discriminate.
  - discriminate.
  - reflexivity.
  - reflexivity.
  - reflexivity.
  - vm_compute. reflexivity.
  - vm_compute. reflexivity.
  - vm_compute. reflexivity.
  - intros r Hr. apply list_elem_of_In in Hr.
    repeat (destruct Hr as [<-|Hr]; [vm_compute; reflexivity|]). destruct Hr.
  - vm_compute. reflexivity.
  - vm_compute. reflexivity.
  - reflexivity.
  - assert (length n = 1) as Hn1.
    { rewrite Hl. assert ((SendReport_to (pb := bit_codec) (env := lost)
        (detector_client host3 (world_of node_three)) (mkSwimReport Server_default [] []) host3
        (world_of node_three)).2 = wA') as <- by (by rewrite Hrun). vm_compute. reflexivity. }
    destruct n as [|y n]; [discriminate Hn1|].
    destruct (Hn y (list_elem_of_here _ _)) as (ok & sB' & sF & eX & sX' & ping & sA' & _ & _ & _ & _ & _ & _ & _ & _ & H).
    exists wA', (y :: n), sA'. split; [exact Hrun|]. split; [exact Hn1|]. split; [exact Hs | exact H].
Defined.
