(* ===== verification/Lifecycle.v ===== *)
(** * Starting, stopping and destroying ([~SwimServer], [~GossipFailureDetector],
      [InitAllBackgroundThreads], [StopAllBackgroundThreads])

    The destructors stop the server and wait a bounded number of times for it to be
    seen stopped.  What each call of [isRunning()] answers while they wait is an
    argument of the model, since another thread may be inside [start()]. *)

From Stdlib Require Import ZArith Lia String.
From stdpp Require Import base list strings gmap.
From S2P Require Import Prelude StdSet SwimCommon UtilsHost SwimClient SwimServer Membership Refinement Report Fixtures Codec Neighbors Detector DetectorProps.

(** ** Waiting *)

(** [while (isRunning() && retry_count-- > 0) sleep]: the final [retry_count] and the
    number of answers of [isRunning()] used; [running i] is the [i]-th one.  The test
    decrements the count also when it fails, so a loop that gives up leaves -1. *)
Fixpoint wait_while (running : nat → bool) (i retry_count : nat) : Z * nat :=
  if running i then
    match retry_count with
    | O => ((-1)%Z, S i)
    | S retry_count => wait_while running (S i) retry_count
    end
  else (Z.of_nat retry_count, S i).

(** [~SwimServer()]: the stopped server and whether the time-out error is logged. *)
Definition destroySwimServer (running : nat → bool) (s : SwimServer) : SwimServer * bool :=
  let s := stop s in
  let '(retry_count, _) := wait_while running 0 5 in
  (s, (retry_count =? 0)%Z).

(** [~GossipFailureDetector()]. *)
Definition destroyDetector (restarted : bool) : M unit := λ w,
  let d := detector w in
  if isRunning (gossip_server_ d) then
    let d := set_gossip_server (stop (gossip_server_ d)) d in
    let '(_, _) := wait_while (λ _, isRunning (gossip_server_ d)) 0 5 in
    let w := mkWorld d (requests w) (asked w) in
    if isRunning (gossip_server_ d) then (Failed log_fatal, w)
    else StopAllBackgroundThreads restarted w
  else StopAllBackgroundThreads restarted w.

(** The loop reads [isRunning()] until it answers no, at most once more than the
    retries. *)
Lemma wait_while_spec running i n :
  let '(retry, next) := wait_while running i n in
  (i < next ≤ S (i + n)) ∧ (∀ j, i ≤ j < pred next → running j = true) ∧
  (retry = (-1)%Z ∧ next = S (i + n) ∧ running (pred next) = true ∨
   retry = Z.of_nat (S (i + n) - next) ∧ running (pred next) = false).
Proof.
  revert i. induction n as [|n IH]; intros i; simpl.
  - destruct (running i) eqn:E; simpl.
    + split; [lia|]. split; [intros; lia|]. left. split; [done|]. split; [lia|done].
    + split; [lia|]. split; [intros; lia|]. right. split; [|done]. f_equal. lia.
  - destruct (running i) eqn:E; simpl.
    + specialize (IH (S i)). destruct (wait_while running (S i) n) as [retry next].
      destruct IH as (Hn & Hall & Hend). split; [lia|]. split.
      * intros j Hj. destruct (decide (j = i)) as [->|]; [done|]. apply Hall. lia.
      * destruct Hend as [(-> & -> & Hr)|(-> & Hr)]; [left|right].
        -- split; [done|]. split; [lia|]. by replace (pred (S (i + S n))) with (pred (S (S i + n))) by lia.
        -- split; [f_equal; lia | done].
    + split; [lia|]. split; [intros; lia|]. right. split; [f_equal; lia | done].
Qed.

(** ** The server's destructor *)

(** C37 The destructor of a server marks it stopped and keeps its membership.  The
    time-out error is logged exactly when the server is seen running five times and
    stopped the sixth time; in particular a server that never stops is given up on
    without the error. *)
Theorem server_destructor running s :
  let '(s', logged) := destroySwimServer running s in
  stopped_ s' = true ∧ view_of s' = view_of s ∧
  (logged = true ↔ (∀ i, i < 5 → running i = true) ∧ running 5 = false) ∧
  ((∀ i, running i = true) → logged = false).
Proof.
  unfold destroySwimServer. pose proof (wait_while_spec running 0 5) as Hw.
  destruct (wait_while running 0 5) as [retry next]. destruct Hw as (Hn & Hall & Hend).
  split; [done|]. split; [done|].
  assert (((retry =? 0)%Z = true) ↔ (∀ i, i < 5 → running i = true) ∧ running 5 = false) as Hiff.
  { rewrite Z.eqb_eq. split.
    - intros ->. destruct Hend as [[? _]|[Heq Hr]]; [done|].
      assert (next = 6) as -> by lia. split; [|done]. intros i Hi. apply Hall. lia.
    - intros [Hrun Hstop]. destruct Hend as [(_ & -> & Hr)|(-> & Hr)].
      { simpl in Hr. congruence. }
      destruct (decide (next = 6)) as [->|Hne]; [done|].
      rewrite Hrun in Hr by lia. done. }
  split; [exact Hiff|]. intros Hrun. apply not_true_iff_false. rewrite Hiff.
  intros [_ Hstop]. by rewrite Hrun in Hstop.
Qed.

(** ** The detector's threads *)

(** What outlives a stop: the membership and the clock of the server, the requests. *)
Definition kept (w w' : World) : Prop :=
  view_of (server_of w') = view_of (server_of w) ∧
  lamport_time_ (server_of w') = lamport_time_ (server_of w) ∧ requests w' = requests w.

Definition all_joined (w : World) : Prop :=
  Forall (λ t : BackgroundThread * bool, t.2 = false) (threads_ (detector w)).

Lemma StopAll_stopped restarted w :
  isRunning (server_of w) = false →
  ∃ w', StopAllBackgroundThreads restarted w = (Value tt, w') ∧ all_joined w' ∧ kept w w' ∧
    isRunning (server_of w') = false.
Proof.
  intros Hr. unfold StopAllBackgroundThreads, server_of in *. rewrite Hr.
  eexists. split; [done|]. split; [|done].
  unfold all_joined. simpl. by apply Forall_fmap, Forall_true.
Qed.

(** [StopAllBackgroundThreads] on a running detector joins every thread and
    leaves the server running, with its members and clock (unless the restart fails,
    which ends the process); on a stopped one it does not start it.  The destructor
    joins every thread and leaves the server stopped. *)
Theorem detector_lifecycle restarted w :
  (isRunning (server_of w) = true →
   ∃ w', StopAllBackgroundThreads restarted w =
       (if restarted then Value tt else Failed log_fatal, w') ∧ all_joined w' ∧ kept w w' ∧
     isRunning (server_of w') = restarted) ∧
  (isRunning (server_of w) = false →
   ∃ w', StopAllBackgroundThreads restarted w = (Value tt, w') ∧ all_joined w' ∧ kept w w' ∧
     isRunning (server_of w') = false) ∧
  (∃ w', destroyDetector restarted w = (Value tt, w') ∧ all_joined w' ∧ kept w w' ∧
     isRunning (server_of w') = false).
Proof.
  split; [|split].
  - intros Hr. unfold StopAllBackgroundThreads, server_of in *. rewrite Hr.
    destruct restarted; eexists; (split; [done|]); (split; [|done]);
      unfold all_joined; simpl; by apply Forall_fmap, Forall_true.
  - apply StopAll_stopped.
  - unfold destroyDetector. destruct (isRunning (gossip_server_ (detector w))) eqn:Hr; simpl.
    + exact (StopAll_stopped restarted (mkWorld (set_gossip_server (stop (server_of w)) (detector w))
        (requests w) (asked w)) eq_refl).
    + by apply StopAll_stopped.
Qed.

(** The four threads of a running detector, started and then stopped. *)
Lemma detector_lifecycle_witness :
  ∃ w', StopAllBackgroundThreads true (InitAllBackgroundThreads (world_of node_as)).2 =
          (Value tt, w') ∧
    length (threads_ (detector (InitAllBackgroundThreads (world_of node_as)).2)) = 4 ∧
    all_joined w'.
Proof.
  destruct (detector_lifecycle true (InitAllBackgroundThreads (world_of node_as)).2) as [H _].
  destruct (H eq_refl) as (w' & Hs & Hj & _).
  exists w'. split; [exact Hs|]. split; [reflexivity | exact Hj].
Defined.
