(* ===== verification/Interleaving.v ===== *)
(** * Concurrent updates of the membership sets

    The detector's threads, the listening loop and the forwarding threads call
    [AddAlive] and [ReportSuspected] concurrently.  The two sets are guarded by two
    mutexes, each held for one access at a time, so an operation is a sequence of
    atomic actions and the operations of several threads interleave between them.  A
    thread holds the local variables of its call (the record it builds and the flag
    [inserted]); a pool of threads steps by letting any of them perform its next
    action, or by the listening loop advancing the clock. *)

From Stdlib Require Import ZArith Lia String.
From stdpp Require Import base list strings gmap relations.
From S2P Require Import Prelude StdSet SwimCommon UtilsHost SwimClient SwimServer Membership Fixtures.

(** The atomic actions: the critical sections, the loads of [lamport_time_] and the
    callback. *)
Inductive action :=
  | act_erase_suspected
  | act_erase_alive
  | act_load_clock
  | act_insert_alive
  | act_touch_alive
  | act_insert_suspected
  | act_notify (status : ServerStatus).

Record thread := mkThread {
  todo : list action;
  local_record : ServerRecord;
  inserted_ : bool
}.

Section Threads.
Context {os : OS}.

(** The effect of an action on the thread's locals and the server. *)
Definition act (a : action) (r : ServerRecord) (ins : bool) (s : SwimServer)
    : ServerRecord * bool * SwimServer :=
  match a with
  | act_erase_suspected => (r, ins, set_suspected (erase r (suspected_ s)).1 s)
  | act_erase_alive => (r, ins, set_alive (erase r (alive_ s)).1 s)
  | act_load_clock => (set_lamport_time (lamport_time_ s) r, ins, s)
  | act_insert_alive =>
      let '(set, ins) := insert r (alive_ s) in (r, ins, set_alive set s)
  | act_touch_alive =>
      if negb ins then
        match find r (alive_ s) with
        | Some _ =>
            (r, ins, set_alive (modify (λ pr, set_lamport_time (lamport_time_ s)
               (set_timestamp (timestamp r) pr)) r (alive_ s)) s)
        | None => (r, ins, s)
        end
      else (r, ins, s)
  | act_insert_suspected =>
      let '(set, ins) := insert r (suspected_ s) in (r, ins, set_suspected set s)
  | act_notify status_suspect =>
      (r, ins, if (ins : bool) then callback None status_suspect s else s)
  | act_notify st => (r, ins, if (ins : bool) then callback (Some r) st s else s)
  end.

Definition step_thread (t : thread) (s : SwimServer) : option (thread * SwimServer) :=
  match todo t with
  | [] => None
  | a :: l =>
      let '(r, ins, s) := act a (local_record t) (inserted_ t) s in
      Some (mkThread l r ins, s)
  end.

(** The calls: [now] is the time their [MakeRecord] reads, [me] is [self()]. *)
Definition add_actions : list action :=
  [act_erase_suspected; act_load_clock; act_insert_alive; act_touch_alive;
   act_notify status_alive].
Definition suspect_actions : list action :=
  [act_load_clock; act_erase_alive; act_insert_suspected; act_notify status_suspect].

Definition AddAlive_thread (now : Timestamp) (x : Server) (t : Z) : thread :=
  mkThread (if (port x =? 0)%Z then [] else add_actions)
    (set_timestamp t (MakeRecord x now)) false.

Definition ReportSuspected_thread (me : Server) (now : Timestamp) (x : Server) (t : Z) : thread :=
  mkThread (if (port x =? 0)%Z then []
            else if Server_eqb x me then add_actions else suspect_actions)
    (set_timestamp t (MakeRecord x now)) false.

(** One step of the pool. *)
Inductive pool_step : list thread * SwimServer → list thread * SwimServer → Prop :=
  | pool_thread ts i t t' s s' :
      ts !! i = Some t → step_thread t s = Some (t', s') →
      pool_step (ts, s) (<[i := t']> ts, s')
  | pool_clock ts time s :
      pool_step (ts, s) (ts, UpdateLamportTime time s).

(** A thread run to its end without interruption; an operation has at most five
    actions. *)
Fixpoint run_alone (fuel : nat) (t : thread) (s : SwimServer) : thread * SwimServer :=
  match fuel with
  | O => (t, s)
  | S fuel =>
      match step_thread t s with
      | Some (t, s) => run_alone fuel t s
      | None => (t, s)
      end
  end.
End Threads.

(** ** Uninterrupted operations *)

Section Alone.
Context {os : OS}.

Lemma RemoveSuspected_alive now x s :
  RemoveSuspected now x remove_alive s =
    set_suspected (erase (MakeRecord x now) (suspected_ s)).1 s.
Proof. unfold RemoveSuspected. by destruct (erase _ _). Qed.

(** The actions are the operations: a thread that is not interrupted ends in
    the state, and with the value of [inserted], of the method it runs. *)
Lemma run_alone_is_sequential now x t s :
  port x ≠ 0%Z →
  (let '(th, s') := run_alone 5 (AddAlive_thread now x t) s in
   (s', inserted_ th) = AddAlive now x t s ∧ todo th = []) ∧
  (key x ≠ key (self s) →
   let '(th, s') := run_alone 5 (ReportSuspected_thread (self s) now x t) s in
   (s', inserted_ th) = ReportSuspected now x t s ∧ todo th = []).
Proof.
  intros Hp%Z.eqb_neq. split.
  - unfold AddAlive_thread, AddAlive. rewrite Hp, RemoveSuspected_alive. unfold run_alone, step_thread, act. simpl.
    rewrite (erase_equiv (set_timestamp t (MakeRecord x now)) (MakeRecord x now))
      by (by apply record_equiv_key).
    destruct (insert _ _) as [set [|]]; simpl; [by split|].
    destruct (find _ set); by split.
  - intros Hs%Server_eqb_neq. unfold ReportSuspected_thread, ReportSuspected.
    rewrite Hp, Hs. unfold run_alone, step_thread, act. simpl. destruct (insert _ _) as [set [|]]; by split.
Qed.
End Alone.

(** ** Any interleaving *)

Section Pools.
Context {os : OS}.
Implicit Types (s : SwimServer) (th : thread) (r : ServerRecord).

(** The server a thread works on. *)
Definition subject th : string * Z := key (server (local_record th)).

(** The part of the invariant that does not relate the two sets. *)
Record sets_inv s : Prop := {
  sets_alive : ordered (alive_ s);
  sets_suspected : ordered (suspected_ s);
  sets_port x : port x = 0%Z → seek x (alive_ s) = None ∧ seek x (suspected_ s) = None;
  sets_self x : key x = key (self s) → seek x (suspected_ s) = None
}.

(** A thread in the middle of one of the two operations. *)
Definition operation (me : Server) th : Prop :=
  (todo th ≠ [] → port (server (local_record th)) ≠ 0%Z) ∧
  (todo th `suffix_of` add_actions ∨
   todo th `suffix_of` suspect_actions ∧ subject th ≠ key me).

(** What one action does to the record of a server in the two sets. *)
Definition at_subject (a : action) (r : ServerRecord) (al su : option ServerRecord)
    : option ServerRecord * option ServerRecord :=
  match a with
  | act_erase_suspected => (al, None)
  | act_erase_alive => (None, su)
  | act_insert_alive => (Some (default r al), su)
  | act_touch_alive => (al, su)
  | act_insert_suspected => (al, Some (default r su))
  | act_load_clock | act_notify _ => (al, su)
  end.

Lemma act_spec a r ins s :
  ordered (alive_ s) → ordered (suspected_ s) →
  let '(r', _, s') := act a r ins s in
  config s' = config s ∧ key (server r') = key (server r) ∧
  ordered (alive_ s') ∧ ordered (suspected_ s') ∧
  (∀ y, key y ≠ key (server r) →
     seek y (alive_ s') = seek y (alive_ s) ∧ seek y (suspected_ s') = seek y (suspected_ s)) ∧
  (∀ y, key y = key (server r) →
     let '(al, su) := at_subject a r (seek y (alive_ s)) (seek y (suspected_ s)) in
     (is_Some (seek y (alive_ s')) ↔ is_Some al) ∧ (is_Some (seek y (suspected_ s')) ↔ is_Some su)).
Proof.
  intros Ha Hs.
  assert (∀ y, key y = key (server r) → seek (server r) (alive_ s) = seek y (alive_ s) ∧
    seek (server r) (suspected_ s) = seek y (suspected_ s)) as Hk.
  { intros y E. by rewrite !(seek_key y (server r)). }
  assert (∀ y, key y ≠ key (server r) → Server_eqb y (server r) = false) as Hne.
  { intros y. by rewrite Server_eqb_neq. }
  assert (∀ y, key y = key (server r) → Server_eqb y (server r) = true) as Heq.
  { intros y. by rewrite Server_eqb_key. }
  destruct a; simpl.
  - split_and!; try done; [solve_ordered|..]; intros y Hy; rewrite ?seek_erase by done;
      rewrite ?Hne, ?Heq by done; done.
  - split_and!; try done; [solve_ordered|..]; intros y Hy; rewrite ?seek_erase by done;
      rewrite ?Hne, ?Heq by done; done.
  - split_and!; try done.
  - destruct (insert r (alive_ s)) as [set ins'] eqn:E.
    assert (set = (insert r (alive_ s)).1) as -> by (by rewrite E). simpl.
    split_and!; try done; [solve_ordered|..]; intros y Hy; rewrite ?seek_insert by done;
      rewrite ?Hne, ?Heq by done; [done|]. by destruct (Hk y Hy) as [-> _].
  - destruct (negb ins); [|by split_and!].
    destruct (find r (alive_ s)); [|by split_and!]. simpl.
    split_and!; try done; [solve_ordered|..]; intros y Hy;
      rewrite ?seek_modify by auto with gossip; rewrite ?Hne, ?Heq by done; [done|].
    destruct (Hk y Hy) as [-> _]. by rewrite fmap_is_Some.
  - destruct (insert r (suspected_ s)) as [set ins'] eqn:E.
    assert (set = (insert r (suspected_ s)).1) as -> by (by rewrite E). simpl.
    split_and!; try done; [solve_ordered|..]; intros y Hy; rewrite ?seek_insert by done;
      rewrite ?Hne, ?Heq by done; [done|]. by destruct (Hk y Hy) as [_ ->].
  - assert (∀ p st, let s' := if (ins : bool) then callback p st s else s in
      config s' = config s ∧ alive_ s' = alive_ s ∧ suspected_ s' = suspected_ s) as Hcb.
    { intros p st. destruct ins; simpl; by autorewrite with gossip. }
    destruct status; simpl;
      match goal with |- context [callback ?p ?st s] => destruct (Hcb p st) as (Hc & Hal & Hsu) end;
      rewrite Hc, Hal, Hsu; by split_and!.
Qed.

Lemma sets_inv_act a r ins s :
  sets_inv s → port (server r) ≠ 0%Z →
  (a = act_insert_suspected → key (server r) ≠ key (self s)) →
  let '(_, _, s') := act a r ins s in sets_inv s'.
Proof.
  intros [Ha Hs Hp0 Hse] Hp Hme. pose proof (act_spec a r ins s Ha Hs) as Hact.
  destruct (act a r ins s) as [[r' ins'] s']. destruct Hact as (Hc & _ & Ha' & Hs' & Hfr & Hat).
  constructor; [done | done | |].
  - intros x Hx. destruct (decide (key x = key (server r))) as [E|E].
    { apply key_port in E. congruence. }
    destruct (Hfr x E) as [-> ->]. by apply Hp0.
  - intros x Hx. rewrite (config_self _ _ Hc) in Hx.
    destruct (decide (key x = key (server r))) as [E|E].
    2: { destruct (Hfr x E) as [_ ->]. by apply Hse. }
    apply eq_None_not_Some. specialize (Hat x E). pose proof (Hse x Hx) as Hnone.
    destruct a; simpl in Hat; destruct Hat as [_ ->]; rewrite ?Hnone; try by intros [? ?].
    exfalso. apply (Hme eq_refl). congruence.
Qed.

(** The next action of an operation, and the operation after it. *)
Lemma operation_step me th a l :
  operation me th → todo th = a :: l →
  port (server (local_record th)) ≠ 0%Z ∧
  (a = act_insert_suspected → subject th ≠ key me) ∧
  ∀ r ins, key (server r) = subject th → operation me (mkThread l r ins).
Proof.
  intros [Hp Hop] E. rewrite E in *. split; [by apply Hp|]. split.
  - intros ->. destruct Hop as [[k Hk]|[_ Hop]]; [|done].
    do 5 (destruct k as [|? k]; simplify_eq/=). by destruct k.
  - intros r ins Hr. split.
    + intros _. simpl. rewrite (key_port _ _ Hr). by apply Hp.
    + destruct Hop as [Hop|[Hop Hne]]; [left | right; split; [|unfold subject in *; simpl; congruence]];
        simpl; (etrans; [|exact Hop]); by apply suffix_cons_r.
Qed.

Lemma pool_step_sets ts s ts' s' :
  pool_step (ts, s) (ts', s') → Forall (operation (self s)) ts → sets_inv s →
  Forall (operation (self s')) ts' ∧ sets_inv s' ∧ self s' = self s.
Proof.
  intros Hstep Hop Hi. inversion Hstep as [? i th th' ? ? Hth Hs|]; subst.
  - pose proof (Forall_lookup_1 _ _ _ _ Hop Hth) as Ho.
    unfold step_thread in Hs. destruct (todo th) as [|a l] eqn:E; [done|].
    destruct (operation_step _ _ _ _ Ho E) as (Hp & Hme & Hnext).
    pose proof (act_spec a (local_record th) (inserted_ th) s (sets_alive _ Hi)
      (sets_suspected _ Hi)) as Hact.
    pose proof (sets_inv_act a (local_record th) (inserted_ th) s Hi Hp Hme) as Hi'.
    destruct (act a (local_record th) (inserted_ th) s) as [[r ins] s1]. simplify_eq.
    destruct Hact as (Hc & Hk & _). rewrite (config_self _ _ Hc).
    split; [|done]. apply Forall_insert; [done|]. by apply Hnext.
  - split; [exact Hop|]. split; [|done]. destruct Hi. by constructor.
Qed.

Lemma pool_steps_sets p p' :
  rtc pool_step p p' → Forall (operation (self p.2)) p.1 → sets_inv p.2 →
  Forall (operation (self p'.2)) p'.1 ∧ sets_inv p'.2 ∧ self p'.2 = self p.2.
Proof.
  induction 1 as [|[ts s] [ts1 s1] p' Hstep _ IH]; intros Hop Hi; [done|].
  destruct (pool_step_sets _ _ _ _ Hstep Hop Hi) as (Hop1 & Hi1 & E).
  destruct (IH Hop1 Hi1) as (? & ? & ?). simpl in *. split; [done|]. split; [done | congruence].
Qed.

(** However the calls of any number of threads interleave, and however
    far they have got, both sets stay ordered (no duplicates), no server on port 0
    enters them and the server does not suspect itself. *)
Theorem interleavings_keep_sets ts s ts' s' :
  rtc pool_step (ts, s) (ts', s') → Forall (operation (self s)) ts → server_inv s →
  ordered (alive_ s') ∧ ordered (suspected_ s') ∧
  ∀ x, (port x = 0%Z → seek x (alive_ s') = None ∧ seek x (suspected_ s') = None) ∧
    (key x = key (self s) → seek x (suspected_ s') = None).
Proof.
  intros Hsteps Hop Hi.
  assert (sets_inv s) as Hs by (destruct Hi; by constructor).
  destruct (pool_steps_sets _ _ Hsteps Hop Hs) as (_ & Hi' & E). simpl in *.
  split; [apply Hi'|]. split; [apply Hi'|]. intros x. split; [apply Hi'|].
  rewrite <- E. apply Hi'.
Qed.

(** *** Threads on different servers *)

Definition disjoint_at (y : Server) s : Prop :=
  seek y (alive_ s) = None ∨ seek y (suspected_ s) = None.

(** What a thread in the middle of its operation knows about its subject. *)
Definition guarded th s : Prop :=
  ∀ y, key y = subject th →
    match todo th with
    | act_load_clock :: act_insert_alive :: _ | act_insert_alive :: _ =>
        seek y (suspected_ s) = None
    | act_insert_suspected :: _ => seek y (alive_ s) = None
    | _ => disjoint_at y s
    end.

Lemma guarded_step me th a l s :
  operation me th → todo th = a :: l → sets_inv s → guarded th s →
  let '(r, ins, s') := act a (local_record th) (inserted_ th) s in
  guarded (mkThread l r ins) s'.
Proof.
  intros [_ Hop] E Hi Hg.
  pose proof (act_spec a (local_record th) (inserted_ th) s (sets_alive _ Hi)
    (sets_suspected _ Hi)) as Hact.
  destruct (act a (local_record th) (inserted_ th) s) as [[r ins] s'].
  destruct Hact as (_ & Hk & _ & _ & _ & Hat). intros y Hy. unfold subject in Hy. simpl in Hy.
  rewrite Hk in Hy. specialize (Hat y Hy). specialize (Hg y Hy). rewrite E in Hg, Hop.
  assert (∀ o o' : option ServerRecord, (is_Some o ↔ is_Some o') → (o = None ↔ o' = None)) as Hn.
  { intros o o' Ho. by rewrite !eq_None_not_Some, Ho. }
  assert (∀ q : ServerRecord, Some q = None ↔ False) as Hsome by done.
  unfold disjoint_at in *.
  destruct (at_subject a (local_record th) (seek y (alive_ s)) (seek y (suspected_ s)))
    as [al su] eqn:Hs. destruct Hat as [Hal%Hn Hsu%Hn].
  destruct Hop as [[k Hk']|[[k Hk'] _]]; unfold add_actions, suspect_actions in Hk';
    (do 5 (try (destruct k as [|? k]; [injection Hk' as <- <-; simpl in Hs, Hg |- *;
       injection Hs as <- <-; rewrite ?Hsome in *; tauto | injection Hk' as _ Hk'])));
    by destruct k.
Qed.

(** Every thread is guarded; a server no thread works on is in at most one set. *)
Record separated (ts : list thread) s : Prop := {
  sep_subjects : NoDup (subject <$> ts);
  sep_guarded : Forall (λ th, guarded th s) ts;
  sep_others y : key y ∉ subject <$> ts → disjoint_at y s
}.

Lemma guarded_frame th s s' :
  (∀ y, key y = subject th → seek y (alive_ s') = seek y (alive_ s) ∧
     seek y (suspected_ s') = seek y (suspected_ s)) →
  guarded th s → guarded th s'.
Proof.
  intros Hfr Hg y Hy. specialize (Hg y Hy). unfold disjoint_at in *.
  by destruct (Hfr y Hy) as [-> ->].
Qed.

Lemma separated_step ts s ts' s' :
  pool_step (ts, s) (ts', s') → Forall (operation (self s)) ts → sets_inv s →
  separated ts s → separated ts' s'.
Proof.
  intros Hstep Hop Hi [Hnd Hg Hot].
  inversion Hstep as [? i th th' ? ? Hth Hs|]; subst; [|by constructor].
  unfold step_thread in Hs. destruct (todo th) as [|a l] eqn:E; [done|].
  pose proof (act_spec a (local_record th) (inserted_ th) s (sets_alive _ Hi)
    (sets_suspected _ Hi)) as Hact.
  pose proof (guarded_step _ _ _ _ _ (Forall_lookup_1 _ _ _ _ Hop Hth) E Hi
    (Forall_lookup_1 _ _ _ _ Hg Hth)) as Hg'.
  destruct (act a (local_record th) (inserted_ th) s) as [[r ins] s1]. simplify_eq.
  destruct Hact as (_ & Hk & _ & _ & Hfr & _).
  assert (subject <$> <[i:=mkThread l r ins]> ts = subject <$> ts) as Hsub.
  { rewrite list_fmap_insert. apply list_insert_id. rewrite list_lookup_fmap, Hth. simpl.
    f_equal. symmetry. exact Hk. }
  constructor; rewrite ?Hsub; [done| |].
  - apply Forall_lookup. intros j th1 Hj.
    destruct (decide (i = j)) as [<-|Hij].
    { rewrite list_lookup_insert_eq in Hj by (by eapply lookup_lt_Some). by simplify_eq. }
    rewrite list_lookup_insert_ne in Hj by done.
    apply (guarded_frame _ s); [|exact (Forall_lookup_1 _ _ _ _ Hg Hj)].
    intros y Hy. apply Hfr. rewrite Hy. intros Hsame. apply Hij.
    apply (NoDup_lookup (subject <$> ts) i j (subject th)); [done|..];
      rewrite list_lookup_fmap; [by rewrite Hth | rewrite Hj; simpl; by f_equal].
  - intros y Hy. destruct (Hfr y) as [Ha Hsu]; [|unfold disjoint_at; rewrite Ha, Hsu; by apply Hot].
    intros Hk'. apply Hy. rewrite Hk'. apply list_elem_of_fmap. exists th. split; [done|].
    by eapply list_elem_of_lookup_2.
Qed.

Lemma pool_steps_separated p p' :
  rtc pool_step p p' → Forall (operation (self p.2)) p.1 → sets_inv p.2 →
  separated p.1 p.2 → separated p'.1 p'.2.
Proof.
  induction 1 as [|[ts s] [ts1 s1] p' Hstep _ IH]; intros Hop Hi Hsep; [done|].
  destruct (pool_step_sets _ _ _ _ Hstep Hop Hi) as (Hop1 & Hi1 & _).
  apply IH; [done | done |]. by eapply separated_step.
Qed.

(** A thread that has not started its operation. *)
Definition fresh th : Prop :=
  todo th = [] ∨ todo th = add_actions ∨ todo th = suspect_actions.

(** C28 Concurrent calls about different servers are safe: when no two
    threads work on the same server, then however their calls interleave, once all of
    them have returned the server is well formed; in particular no server is both
    alive and suspected. *)
Theorem separate_calls_keep_invariant ts s ts' s' :
  rtc pool_step (ts, s) (ts', s') → Forall (λ th, operation (self s) th ∧ fresh th) ts →
  NoDup (subject <$> ts) → server_inv s → Forall (λ th, todo th = []) ts' → server_inv s'.
Proof.
  intros Hsteps Hf Hnd Hi Hdone. apply Forall_and in Hf as [Hop Hfresh].
  assert (sets_inv s) as Hsets by (destruct Hi; by constructor).
  assert (∀ y, disjoint_at y s) as Hdis.
  { intros y. unfold disjoint_at. destruct (seek y (alive_ s)) eqn:E; [right | by left].
    apply (inv_disjoint _ Hi). by eexists. }
  assert (separated ts s) as Hsep.
  { constructor; [done| |by intros]. eapply Forall_impl; [exact Hfresh|].
    intros th Hth y _. unfold fresh in Hth. destruct Hth as [->|[->| ->]]; apply Hdis. }
  destruct (pool_steps_sets _ _ Hsteps Hop Hsets) as (_ & [] & _).
  pose proof (pool_steps_separated _ _ Hsteps Hop Hsets Hsep) as [_ Hg Hot]. simpl in *.
  constructor; try done. intros x Hx.
  assert (disjoint_at x s') as [Hn|Hn]; [|by rewrite Hn in Hx; destruct Hx|done].
  destruct (decide (key x ∈ subject <$> ts')) as [Hin|]; [|by apply Hot].
  apply list_elem_of_fmap in Hin as (th & Hk & Hth).
  rewrite list.Forall_forall in Hg, Hdone. specialize (Hg th Hth x Hk).
  by rewrite (Hdone th Hth) in Hg.
Qed.
End Pools.

(** ** Two calls about the same server *)

(** One thread hears from [host1] while another one fails to reach it. *)
Definition race : list thread :=
  [AddAlive_thread t0 host1 ms0; ReportSuspected_thread (self node) t0 host1 ms0].

(** Runs the threads of a pool as a list of indices says. *)
Fixpoint run_schedule (l : list nat) (p : list thread * SwimServer) : list thread * SwimServer :=
  match l with
  | [] => p
  | i :: l =>
      match p.1 !! i ≫= λ t, step_thread t p.2 with
      | Some (t, s) => run_schedule l (<[i := t]> p.1, s)
      | None => run_schedule l p
      end
  end.

Lemma run_schedule_steps l p : rtc pool_step p (run_schedule l p).
Proof.
  revert p. induction l as [|i l IH]; intros [ts s]; simpl; [done|].
  destruct (ts !! i) as [t|] eqn:Ht; simpl; [|apply IH].
  destruct (step_thread t s) as [[t' s']|] eqn:Hs; [|apply IH].
  eapply rtc_l; [by eapply pool_thread | apply IH].
Qed.

(** Concurrent calls about the same server are not safe: from a well-formed
    server, an [AddAlive] and a [ReportSuspected] of the same server can interleave so
    that, after both have returned, the server is in both sets. *)
Theorem same_server_race :
  server_inv node ∧
  ∃ ts s, rtc pool_step (race, node) (ts, s) ∧ Forall (λ th, todo th = []) ts ∧
    is_Some (seek host1 (alive_ s)) ∧ is_Some (seek host1 (suspected_ s)).
Proof.
  split; [apply inv_new|].
  destruct (run_schedule [0; 1; 1; 1; 1; 0; 0; 0; 0] (race, node)) as [ts s] eqn:E.
  exists ts, s. split; [rewrite <- E; apply run_schedule_steps|].
  vm_compute in E. injection E as <- <-.
  split; [by repeat constructor|]. split; by eexists.
Qed.

(** ** Evaluated on a small pool *)

Lemma run_alone_is_sequential_witness :
  (run_alone 5 (AddAlive_thread t0 host3 ms0) node_as).2 = (AddAlive t0 host3 ms0 node_as).1.
Proof.
  destruct (run_alone_is_sequential t0 host3 ms0 node_as) as [H _]; [discriminate|].
  destruct (run_alone 5 (AddAlive_thread t0 host3 ms0) node_as) as [th s'].
  destruct H as [H _]. rewrite <- H. reflexivity.
Defined.

(** The thread of a call is in the middle of an operation. *)
Lemma AddAlive_operation me now x t : operation me (AddAlive_thread now x t).
Proof.
  unfold operation, AddAlive_thread. simpl. destruct (Z.eqb_spec (port x) 0%Z) as [E|E].
  - split; [done|]. left. apply suffix_nil.
  - split; [done|]. by left.
Qed.

Lemma ReportSuspected_operation me now x t : operation me (ReportSuspected_thread me now x t).
Proof.
  unfold operation, ReportSuspected_thread. simpl.
  destruct (Z.eqb_spec (port x) 0%Z) as [E|E]; [split; [done|]; left; apply suffix_nil|].
  destruct (Server_eqb x me) eqn:K; (split; [done|]); [by left | right].
  split; [done|]. by apply Server_eqb_neq in K.
Qed.

Lemma interleavings_keep_sets_witness :
  ordered (alive_ (run_schedule [0; 1; 1; 0; 1] (race, node)).2).
Proof.
  pose proof (run_schedule_steps [0; 1; 1; 0; 1] (race, node)) as Hs.
  destruct (run_schedule [0; 1; 1; 0; 1] (race, node)) as [ts s].
  apply (interleavings_keep_sets race node ts s Hs).
  - constructor; [apply AddAlive_operation|].
    constructor; [apply ReportSuspected_operation | constructor].
  - apply inv_new.
Defined.

(** Two calls about different servers, interleaved. *)
Definition two_calls : list thread :=
  [AddAlive_thread t0 host2 ms0; ReportSuspected_thread (self node_as) t0 host1 ms0].

Lemma separate_calls_keep_invariant_witness :
  ∃ ts s, rtc pool_step (two_calls, node_as) (ts, s) ∧ server_inv s ∧
    is_Some (seek host2 (alive_ s)) ∧ is_Some (seek host1 (suspected_ s)).
Proof.
  pose proof (run_schedule_steps [0; 1; 1; 0; 0; 1; 0; 1; 0] (two_calls, node_as)) as Hs.
  destruct (run_schedule [0; 1; 1; 0; 0; 1; 0; 1; 0] (two_calls, node_as)) as [ts s] eqn:E.
  exists ts, s. split; [exact Hs|]. split.
  - apply (separate_calls_keep_invariant two_calls node_as ts s Hs).
    + constructor; [split; [apply AddAlive_operation | right; left; reflexivity]|].
      constructor; [split; [apply ReportSuspected_operation | right; right; reflexivity]|].
      constructor.
    + apply (bool_decide_unpack _). vm_compute. exact I.
    + apply node_as_inv.
    + vm_compute in E. injection E as <- <-. repeat constructor.
  - vm_compute in E. injection E as <- <-. split; eexists; reflexivity.
Defined.
