(* ===== verification/Handlers.v ===== *)
(** * The message handlers as interleaved sequences of critical sections

    [Interleaving] has the two basic operations.  A handler ([OnReport], [OnUpdate],
    [OnForwardRequest], an eviction) is a sequence of jobs: calls of those operations and
    critical sections of its own.  The jobs about one entry of a report form a group, and
    [continue] drops the rest of the group.  A task runs a handler; the tasks of all
    threads interleave between any two critical sections. *)

From Stdlib Require Import ZArith Lia String.
From stdpp Require Import base list strings gmap relations.
From S2P Require Import Prelude StdSet SwimCommon UtilsHost SwimClient SwimServer Membership Refinement Fixtures Interleaving.

Inductive job :=
  | job_AddAlive (x : Server) (t : Z)
  | job_ReportSuspected (x : Server) (t : Z)
  | job_continue_if_suspected_later (r : ServerRecord)
  | job_continue_if_alive_later (r : ServerRecord)
  | job_raise_alive (r : ServerRecord)
  | job_raise_suspected (r : ServerRecord)
  | job_erase_suspected (x : Server)
  | job_evict (x : Server)
  | job_notify_removed (x : Server)
  | job_ping (from : Server)
  | job_start_forward (sender : Server) (destination : option Server).

(** [current] is the operation being called; [removed] is the count of an eviction. *)
Record task := mkTask {
  current : thread;
  group : list job;
  groups : list (list job);
  removed : bool
}.

Definition idle : thread := mkThread [] ServerRecord_default false.

Section Tasks.
Context {os : OS} (me : Server) (now : Timestamp).

(** A critical section, or an effect outside of them: whether the rest of the group
    is dropped, the flag, and the server. *)
Definition do_job (j : job) (flag : bool) (s : SwimServer) : bool * bool * SwimServer :=
  match j with
  | job_continue_if_suspected_later r => (known_later now r (suspected_ s), flag, s)
  | job_continue_if_alive_later r => (known_later now r (alive_ s), flag, s)
  | job_raise_alive r => (false, flag, set_alive (raise_incarnation now r (alive_ s)) s)
  | job_raise_suspected r => (false, flag, set_suspected (raise_incarnation now r (suspected_ s)) s)
  | job_erase_suspected x =>
      (false, flag, set_suspected (erase (MakeRecord x now) (suspected_ s)).1 s)
  | job_evict x =>
      let '(set, num) := erase (MakeRecord x now) (suspected_ s) in
      (false, (0 <? num)%nat, set_suspected set s)
  | job_notify_removed x =>
      (false, flag, if flag then callback (Some (MakeRecord x now)) status_removed s else s)
  | job_ping from =>
      let client := newSwimClient (host_name_ s) (lamport_time_ s) from (port_ s)
                      kDefaultTimeoutMsec in
      (false, flag, emit (Posted (destinationUri client) (stamp client Ping_envelope).2) s)
  | job_start_forward x d => (false, flag, emit (SwimServer.ForwardThread x d) s)
  | job_AddAlive _ _ | job_ReportSuspected _ _ => (false, flag, s)
  end.

(** The operation a job calls. *)
Definition call_of (j : job) : option thread :=
  match j with
  | job_AddAlive x t => Some (AddAlive_thread now x t)
  | job_ReportSuspected x t => Some (ReportSuspected_thread me now x t)
  | _ => None
  end.

Definition step_task (t : task) (s : SwimServer) : option (task * SwimServer) :=
  match step_thread (current t) s with
  | Some (th, s) => Some (mkTask th (group t) (groups t) (removed t), s)
  | None =>
      match group t with
      | [] =>
          match groups t with
          | [] => None
          | g :: gs => Some (mkTask idle g gs (removed t), s)
          end
      | j :: g =>
          match call_of j with
          | Some th => Some (mkTask th g (groups t) (removed t), s)
          | None =>
              let '(skip, flag, s) := do_job j (removed t) s in
              Some (mkTask idle (if (skip : bool) then [] else g) (groups t) flag, s)
          end
      end
  end.

(** ** The handlers *)

(** An entry of the two loops of [OnReport]. *)
Definition alive_entry (r : ServerRecord) : list job :=
  if Server_eqb (server r) me then []
  else [job_continue_if_suspected_later r; job_AddAlive (server r) (timestamp r); job_raise_alive r].
Definition suspected_entry (from : Server) (r : ServerRecord) : list job :=
  if Server_eqb (server r) me then [job_ping from]
  else [job_continue_if_alive_later r; job_ReportSuspected (server r) (timestamp r);
        job_raise_suspected r].

Inductive handler :=
  | on_AddAlive (x : Server) (t : Z)
  | on_ReportSuspected (x : Server) (t : Z)
  | on_evict (x : Server)
  | on_update (client : Server)
  | on_report (sender : Server) (report : SwimReport)
  | on_forward (sender : Server) (destination : option Server).

Definition handler_jobs (h : handler) : list (list job) :=
  match h with
  | on_AddAlive x t => [[job_AddAlive x t]]
  | on_ReportSuspected x t => [[job_ReportSuspected x t]]
  | on_evict x => [[job_evict x; job_notify_removed x]]
  | on_update client => [[job_AddAlive client (CurrentTime now); job_erase_suspected client]]
  | on_report sender report =>
      [job_AddAlive sender (CurrentTime now)] :: (alive_entry <$> alive report) ++
      (suspected_entry (report_sender report) <$> suspected report)
  | on_forward sender destination =>
      [[job_AddAlive sender (CurrentTime now); job_start_forward sender destination]]
  end.

Definition handler_task (h : handler) : task := mkTask idle [] (handler_jobs h) false.

(** The handler as one call. *)
Definition handle (h : handler) (s : SwimServer) : SwimServer :=
  match h with
  | on_AddAlive x t => (AddAlive now x t s).1
  | on_ReportSuspected x t => (ReportSuspected now x t s).1
  | on_evict x => RemoveSuspected now x remove_evicted s
  | on_update client => OnUpdate now client s
  | on_report sender report => OnReport now sender report s
  | on_forward sender destination => OnForwardRequest now sender destination s
  end.
End Tasks.

(** ** A handler that is not interrupted *)

Section Uninterrupted.
Context {os : OS} (me : Server) (now : Timestamp).
Implicit Types s : SwimServer.

Definition task_step (p p' : task * SwimServer) : Prop :=
  step_task me now p.1 p.2 = Some p'.

(** The call of an operation runs to its end. *)
Lemma run_thread th s th' s' fuel g gs f :
  run_alone fuel th s = (th', s') →
  rtc task_step (mkTask th g gs f, s) (mkTask th' g gs f, s').
Proof.
  revert th s. induction fuel as [|fuel IH]; intros th s; cbn [run_alone]; [by intros [= <- <-]|].
  destruct (step_thread th s) as [[th1 s1]|] eqn:E; [|by intros [= <- <-]].
  intros H. eapply rtc_l; [|by apply IH]. unfold task_step, step_task. cbn [fst snd current].
  by rewrite E.
Qed.

Lemma alone_AddAlive x t s :
  ∃ th, run_alone 5 (AddAlive_thread now x t) s = (th, (AddAlive now x t s).1) ∧ todo th = [].
Proof.
  destruct (Z.eqb_spec (port x) 0%Z) as [E|E].
  - exists (AddAlive_thread now x t). unfold AddAlive, AddAlive_thread. rewrite (proj2 (Z.eqb_eq _ _) E).
    by split.
  - destruct (run_alone_is_sequential now x t s E) as [H _].
    destruct (run_alone 5 _ s) as [th s']. destruct H as [H Ht]. exists th. by rewrite <- H.
Qed.

Lemma alone_ReportSuspected x t s :
  self s = me →
  ∃ th, run_alone 5 (ReportSuspected_thread me now x t) s = (th, (ReportSuspected now x t s).1) ∧
    todo th = [].
Proof.
  intros <-. destruct (Z.eqb_spec (port x) 0%Z) as [E|E].
  - exists (ReportSuspected_thread (self s) now x t). unfold ReportSuspected, ReportSuspected_thread.
    rewrite (proj2 (Z.eqb_eq _ _) E). by split.
  - destruct (Server_eqb x (self s)) eqn:K.
    + destruct (alone_AddAlive x t s) as (th & H & Ht). exists th. rewrite <- Ht.
      unfold ReportSuspected. rewrite (proj2 (Z.eqb_neq _ _) E), K. cbn [fst]. rewrite <- H.
      unfold ReportSuspected_thread, AddAlive_thread. by rewrite (proj2 (Z.eqb_neq _ _) E), K.
    + apply Server_eqb_neq in K. destruct (run_alone_is_sequential now x t s E) as [_ H].
      specialize (H K). destruct (run_alone 5 _ s) as [th s']. destruct H as [H Ht]. exists th.
      by rewrite <- H.
Qed.

(** A task between two jobs. *)
Definition between (p : task * SwimServer) (g : list job) (gs : list (list job)) s : Prop :=
  ∃ th f, rtc task_step p (mkTask th g gs f, s) ∧ todo th = [].

Lemma idle_step th s : todo th = [] → step_thread th s = None.
Proof. intros E. unfold step_thread. by rewrite E. Qed.

Lemma between_group p g gs s : between p [] (g :: gs) s → between p g gs s.
Proof.
  intros (th & f & Hr & Ht). exists idle, f. split; [|done]. eapply rtc_r; [exact Hr|].
  unfold task_step, step_task. cbn. by rewrite idle_step.
Qed.

Lemma between_AddAlive p x t g gs s :
  between p (job_AddAlive x t :: g) gs s → between p g gs (AddAlive now x t s).1.
Proof.
  intros (th & f & Hr & Ht). destruct (alone_AddAlive x t s) as (th' & E & Ht').
  exists th', f. split; [|done]. etrans; [exact Hr|].
  eapply rtc_l; [|by eapply (run_thread _ _ _ _ 5)].
  unfold task_step, step_task. cbn [fst snd current group groups removed]. by rewrite idle_step.
Qed.

Lemma between_ReportSuspected p x t g gs s :
  self s = me → between p (job_ReportSuspected x t :: g) gs s →
  between p g gs (ReportSuspected now x t s).1.
Proof.
  intros Hme (th & f & Hr & Ht). destruct (alone_ReportSuspected x t s Hme) as (th' & E & Ht').
  exists th', f. split; [|done]. etrans; [exact Hr|].
  eapply rtc_l; [|by eapply (run_thread _ _ _ _ 5)].
  unfold task_step, step_task. cbn [fst snd current group groups removed]. by rewrite idle_step.
Qed.

(** A job that is not a call, whose effect does not depend on the flag. *)
Lemma between_job p j g gs s skip s' :
  call_of me now j = None → (∀ f, ∃ f', do_job now j f s = (skip, f', s')) →
  between p (j :: g) gs s → between p (if (skip : bool) then [] else g) gs s'.
Proof.
  intros Hc Hj (th & f & Hr & Ht). destruct (Hj f) as [f' E]. exists idle, f'. split; [|done].
  eapply rtc_r; [exact Hr|]. unfold task_step, step_task. cbn [fst snd current group groups removed].
  by rewrite idle_step, Hc, E by done.
Qed.

Lemma between_effect p j g gs s s' :
  call_of me now j = None → (∀ f, do_job now j f s = (false, f, s')) →
  between p (j :: g) gs s → between p g gs s'.
Proof. intros Hc Hj. apply (between_job p j g gs s false s' Hc). eauto. Qed.

Lemma between_alive_entry p r gs s :
  self s = me → between p (alive_entry me r) gs s → between p [] gs (OnReport_alive now r s).
Proof.
  intros Hme Hb. unfold alive_entry, OnReport_alive in *. rewrite Hme.
  destruct (Server_eqb (server r) me); [done|].
  apply (between_job _ _ _ _ _ (known_later now r (suspected_ s)) s) in Hb; [|done|by eexists].
  destruct (known_later now r (suspected_ s)); [done|]. apply between_AddAlive in Hb.
  by eapply between_effect; [| |exact Hb].
Qed.

Lemma between_suspected_entry p from r gs s :
  self s = me → between p (suspected_entry me from r) gs s →
  between p [] gs (OnReport_suspected now from r s).
Proof.
  intros Hme Hb. unfold suspected_entry, OnReport_suspected in *. rewrite Hme.
  destruct (Server_eqb (server r) me).
  { by eapply between_effect; [| |exact Hb]. }
  apply (between_job _ _ _ _ _ (known_later now r (alive_ s)) s) in Hb; [|done|by eexists].
  destruct (known_later now r (alive_ s)); [done|]. apply between_ReportSuspected in Hb; [|done].
  by eapply between_effect; [| |exact Hb].
Qed.

(** A loop over entries. *)
Lemma between_loop (entry : ServerRecord → list job) (body : SwimServer → ServerRecord → SwimServer)
    p l gs s :
  (∀ s r, config (body s r) = config s) →
  (∀ r gs s, self s = me → between p (entry r) gs s → between p [] gs (body s r)) →
  self s = me → between p [] ((entry <$> l) ++ gs) s → between p [] gs (fold_left body l s).
Proof.
  intros Hc He. revert s. induction l as [|r l IH]; intros s Hme Hb; cbn [fold_left]; [done|].
  apply IH; [by rewrite (config_self _ _ (Hc s r))|]. apply He; [done|]. by apply between_group.
Qed.

Lemma between_evict p x gs s :
  between p [job_evict x; job_notify_removed x] gs s →
  between p [] gs (RemoveSuspected now x remove_evicted s).
Proof.
  intros (th & f & Hr & Ht). unfold RemoveSuspected.
  destruct (erase (MakeRecord x now) (suspected_ s)) as [set num] eqn:E.
  exists idle, (0 <? num)%nat. split; [|done]. etrans; [exact Hr|].
  eapply rtc_l; [|apply rtc_once].
  - unfold task_step, step_task. cbn [fst snd current group groups removed].
    rewrite idle_step by done. cbn [call_of do_job]. rewrite E. reflexivity.
  - reflexivity.
Qed.

(** A handler that is not interrupted does what the sequential model of it does:
    its critical sections, one after the other, end in the same state. *)
Theorem handlers_run_alone h s :
  self s = me → ∃ t, rtc task_step (handler_task me now h, s) (t, handle now h s) ∧
    step_task me now t (handle now h s) = None.
Proof.
  intros Hme. set (p := (handler_task me now h, s)).
  assert (between p [] (handler_jobs me now h) s) as Hb by (by exists idle, false).
  cut (between p [] [] (handle now h s)).
  { intros (th & f & Hr & Ht). eexists. split; [exact Hr|]. unfold step_task. cbn. by rewrite idle_step. }
  unfold p in *. clearbody p. destruct h as [x t|x t|x|client|sender rep|sender dest]; cbn [handler_jobs handle] in *;
    apply between_group in Hb.
  - by apply between_AddAlive in Hb.
  - by apply between_ReportSuspected in Hb.
  - by apply between_evict in Hb.
  - apply between_AddAlive in Hb.
    by eapply between_effect; [| |exact Hb].
  - apply between_AddAlive in Hb. 
    rewrite <- (app_nil_r (suspected_entry _ _ <$> _)) in Hb. unfold OnReport.
    assert (∀ l s, self (fold_left (λ s r, OnReport_alive now r s) l s) = self s) as Hself.
    { induction l as [|r l IH]; intros s0; [done|]. cbn [fold_left]. rewrite IH.
      apply config_self, config_OnReport_alive. }
    apply (between_loop (suspected_entry me (report_sender rep))).
    + intros s0 r. apply config_OnReport_suspected.
    + intros r gs s0. apply between_suspected_entry.
    + rewrite Hself, <- Hme. apply config_self, config_AddAlive.
    + apply (between_loop (alive_entry me)); [..|exact Hb].
      * intros s0 r. apply config_OnReport_alive.
      * intros r gs s0. apply between_alive_entry.
      * rewrite <- Hme. apply config_self, config_AddAlive.
  - apply between_AddAlive in Hb.
    by eapply between_effect; [| |exact Hb].
Qed.
End Uninterrupted.

(** ** Any interleaving of any handlers *)

Section Pool.
Context {os : OS} (me : Server).
Implicit Types s : SwimServer.

(** The tasks of all threads, each with the time its clock shows. *)
Inductive handlers_step :
    list (Timestamp * task) * SwimServer → list (Timestamp * task) * SwimServer → Prop :=
  | handlers_task ts i now t t' s s' :
      ts !! i = Some (now, t) → step_task me now t s = Some (t', s') →
      handlers_step (ts, s) (<[i := (now, t')]> ts, s')
  | handlers_clock ts time s :
      handlers_step (ts, s) (ts, UpdateLamportTime time s).

(** Changing a set without adding members keeps [sets_inv]. *)
Lemma sets_inv_alive l s :
  sets_inv s → ordered l → (∀ x, seek x (alive_ s) = None → seek x l = None) →
  sets_inv (set_alive l s).
Proof. intros [Ha Hs Hp Hm] Hl Hx. constructor; try done. intros x Hx0. split; [apply Hx|]; by apply Hp. Qed.

Lemma sets_inv_suspected l s :
  sets_inv s → ordered l → (∀ x, seek x (suspected_ s) = None → seek x l = None) →
  sets_inv (set_suspected l s).
Proof.
  intros [Ha Hs Hp Hm] Hl Hx. constructor; try done.
  - intros x Hx0. split; [|apply Hx]; by apply Hp.
  - intros x Hx0. by apply Hx, Hm.
Qed.

Lemma raise_none now r set x :
  ordered set → seek x set = None → seek x (raise_incarnation now r set) = None.
Proof.
  intros Ho Hx. rewrite seek_raise by done. case_key; [|done].
  rewrite (seek_key (server r) x) by done. by rewrite Hx.
Qed.

Lemma erase_none r set x : ordered set → seek x set = None → seek x (erase r set).1 = None.
Proof. intros Ho Hx. rewrite seek_erase by done. by case_if. Qed.

Lemma sets_inv_emit e s : sets_inv s → sets_inv (emit e s).
Proof. intros []. by constructor. Qed.

Lemma job_keeps_sets now j f s :
  sets_inv s → let '(_, _, s') := do_job now j f s in sets_inv s' ∧ self s' = self s.
Proof.
  intros Hi. pose proof (sets_alive _ Hi) as Ha. pose proof (sets_suspected _ Hi) as Hs.
  destruct j; cbn [do_job]; try done.
  - split; [|done]. apply sets_inv_alive; [done | by apply ordered_raise|]. intros x. by apply raise_none.
  - split; [|done]. apply sets_inv_suspected; [done | by apply ordered_raise|]. intros x. by apply raise_none.
  - split; [|done]. apply sets_inv_suspected; [done | solve_ordered|]. intros y. by apply erase_none.
  - pose proof (ordered_erase (MakeRecord x now) (suspected_ s) Hs) as Ho.
    pose proof (λ y, erase_none (MakeRecord x now) (suspected_ s) y Hs) as Hn.
    destruct (erase _ _) as [set num]. split; [|done]. by apply sets_inv_suspected.
  - destruct f; [|done]. unfold callback. case_if; [|done]. by split; [apply sets_inv_emit|].
  - by split; [apply sets_inv_emit|].
  - by split; [apply sets_inv_emit|].
Qed.

(** Every task is in the middle of an operation or between two jobs. *)
Definition pool_inv (p : list (Timestamp * task) * SwimServer) : Prop :=
  Forall (λ nt, operation me (current nt.2)) p.1 ∧ sets_inv p.2 ∧ self p.2 = me.

Lemma idle_operation : operation me idle.
Proof. split; [done|]. left. apply suffix_nil. Qed.

Lemma step_task_keeps now t s t' s' :
  operation me (current t) → sets_inv s → self s = me → step_task me now t s = Some (t', s') →
  operation me (current t') ∧ sets_inv s' ∧ self s' = me.
Proof.
  intros Hop Hi Hme. unfold step_task. destruct (step_thread (current t) s) as [[th s1]|] eqn:E.
  - intros [= <- <-]. cbn [current].
    destruct (pool_step_sets [current t] s [th] s1) as (H1 & H2 & H3); [|by rewrite Hme; constructor|done|].
    + apply (pool_thread [current t] 0 (current t) th s s1); done.
    + rewrite H3, Hme in H1. split; [by apply Forall_cons in H1 as [? _]|]. split; [done | congruence].
  - destruct (group t) as [|j g].
    + destruct (groups t) as [|g gs]; [done|]. intros [= <- <-]. split; [apply idle_operation | done].
    + destruct (call_of me now j) as [th|] eqn:Ec.
      * intros [= <- <-]. split; [|done]. destruct j; simplify_eq/=;
          [apply AddAlive_operation | apply ReportSuspected_operation].
      * pose proof (job_keeps_sets now j (removed t) s Hi) as Hj.
        destruct (do_job now j (removed t) s) as [[skip f] s1]. intros [= <- <-].
        destruct Hj as [? ->]. split; [apply idle_operation | done].
Qed.

Lemma handlers_step_inv p p' : handlers_step p p' → pool_inv p → pool_inv p'.
Proof.
  intros [ts i now t t' s s' Hi Hs|ts time s] (Hop & Hsets & Hme); cbn [fst snd] in *.
  - pose proof (Forall_lookup_1 _ _ _ _ Hop Hi) as Ho.
    destruct (step_task_keeps now t s t' s' Ho Hsets Hme Hs) as (Ho' & Hsets' & Hme').
    split; [|done]. by apply Forall_insert.
  - split; [done|]. split; [|done]. destruct Hsets. by constructor.
Qed.

Lemma tasks_keep_sets now p p' :
  rtc (task_step me now) p p' → operation me (current p.1) → sets_inv p.2 → self p.2 = me →
  sets_inv p'.2 ∧ self p'.2 = me.
Proof.
  induction 1 as [|[t s] [t1 s1] p' Hs _ IH]; intros Hop Hi Hme; [done|].
  destruct (step_task_keeps now t s t1 s1 Hop Hi Hme Hs) as (? & ? & ?). by apply IH.
Qed.

(** However the critical sections of any number of message handlers,
    evictions and calls interleave, and at every moment, both sets are ordered (without
    duplicates), no server on port 0 is in them and the server does not suspect itself. *)
Theorem handlers_keep_sets hs s ts' s' :
  rtc handlers_step ((λ nh, (nh.1, handler_task me nh.1 nh.2)) <$> hs, s) (ts', s') →
  self s = me → server_inv s →
  ordered (alive_ s') ∧ ordered (suspected_ s') ∧
  ∀ x, (port x = 0%Z → seek x (alive_ s') = None ∧ seek x (suspected_ s') = None) ∧
    (key x = key me → seek x (suspected_ s') = None).
Proof.
  intros Hr Hme Hi.
  assert (pool_inv (ts', s')) as (_ & Hs & Hme').
  { assert (pool_inv ((λ nh, (nh.1, handler_task me nh.1 nh.2)) <$> hs, s)) as H0.
    { split; [|split; [destruct Hi; by constructor | done]]. cbn [fst]. apply Forall_fmap, Forall_true.
      intros nh. apply idle_operation. }
    revert H0. generalize dependent ((λ nh, (nh.1, handler_task me nh.1 nh.2)) <$> hs, s).
    induction 1; eauto using handlers_step_inv. }
  cbn [snd] in *. destruct Hs as [Ha Hsu Hp Hm]. split; [done|]. split; [done|].
  intros x. split; [apply Hp|]. intros Hk. apply Hm. by rewrite Hme'.
Qed.
End Pool.

(** A handler keeps the sets well formed, also where they overlap. *)
Lemma handle_sets {os : OS} now h s : sets_inv s → sets_inv (handle now h s).
Proof.
  intros Hi. destruct (handlers_run_alone (self s) now h s eq_refl) as (t & Hr & _).
  by apply (tasks_keep_sets (self s) now _ _ Hr (idle_operation _) Hi eq_refl).
Qed.

(** ** Evaluated on the fixtures *)

(** A report that knows [host2] alive and suspects [host1] and this server. *)
Definition mixed_report : SwimReport :=
  mkSwimReport host3 [fresh_record t0 host2 ms0 20]
    [fresh_record t0 host1 ms0 20; fresh_record t0 (self node_as) ms0 20].

Lemma handlers_run_alone_witness :
  ∃ t, rtc (task_step (self node_as) t0)
         (handler_task (self node_as) t0 (on_report host3 mixed_report), node_as)
         (t, handle t0 (on_report host3 mixed_report) node_as).
Proof.
  destruct (handlers_run_alone (self node_as) t0 (on_report host3 mixed_report) node_as)
    as (t & H & _); [reflexivity|]. exists t. exact H.
Defined.

(** Runs the tasks of a pool as a list of indices says. *)
Fixpoint run_handlers (me : Server) (l : list nat) (p : list (Timestamp * task) * SwimServer)
    : list (Timestamp * task) * SwimServer :=
  match l with
  | [] => p
  | i :: l =>
      match p.1 !! i with
      | Some (now, t) =>
          match step_task me now t p.2 with
          | Some (t, s) => run_handlers me l (<[i := (now, t)]> p.1, s)
          | None => run_handlers me l p
          end
      | None => run_handlers me l p
      end
  end.

Lemma run_handlers_steps me l p : rtc (handlers_step me) p (run_handlers me l p).
Proof.
  revert p. induction l as [|i l IH]; intros [ts s]; simpl; [done|].
  destruct (ts !! i) as [[now t]|] eqn:Ht; [|apply IH].
  destruct (step_task me now t s) as [[t' s']|] eqn:Hs; [|apply IH].
  eapply rtc_l; [by eapply handlers_task | apply IH].
Qed.

Definition two_handlers : list (Timestamp * handler) :=
  [(t0, on_report host3 mixed_report); (t0, on_evict host2)].

Lemma handlers_keep_sets_witness :
  ordered (suspected_ (run_handlers (self node_as)
    [0; 0; 0; 1; 0; 0; 1; 0; 0; 0; 1; 0; 0; 0; 0; 0; 0; 0; 0; 0; 0; 0]
    ((λ nh, (nh.1, handler_task (self node_as) nh.1 nh.2)) <$> two_handlers, node_as)).2).
Proof.
  match goal with |- ordered (suspected_ (run_handlers ?me ?l ?p).2) =>
    pose proof (run_handlers_steps me l p) as Hs; destruct (run_handlers me l p) as [ts s] end.
  apply (handlers_keep_sets (self node_as) two_handlers node_as ts s Hs).
  - reflexivity.
  - apply node_as_inv.
Defined.
