(* ===== verification/Threads.v ===== *)
(** * The detector's threads, step by step

    [Detector] has the methods of the failure detector as uninterrupted computations.
    Here they are programs whose steps are what a thread does without giving another
    thread a chance: reading a set under its lock, one critical section of an update
    ([Handlers]), a request with its answer, a write of the round-robin index.  Run
    without interruption a program does what its method does ([threads_run_alone]);
    interleaved with another thread, a full report may find the alive set empty after it
    has checked that it is not, and then throws ([full_report_race]).  A thread that crashes
    ends the process; the other threads may still take a few steps until it does, so nothing
    is said about when they stop. *)

From Stdlib Require Import ZArith Lia String.
From stdpp Require Import base list strings gmap relations.
From S2P Require Import Prelude StdSet SwimCommon UtilsHost SwimClient SwimServer Membership Refinement Report Fixtures Codec ServerLoop Interleaving Handlers Neighbors Detector DetectorProps Detection Dissemination.

(** ** Programs *)

(** The two sets, for a random pick. *)
Inductive member_set := pick_alive | pick_suspected.

(** A program ends with a value, crashes, or runs out of fuel; or it takes a step and goes
    on with the answer. *)
Inductive Prog (R : Type) : Type :=
  | Ret (r : R)
  | Crash (f : failure)
  | NoFuel
  | Read (k : GossipFailureDetector → Prog R)
  | SetIndex (index : nat) (k : Prog R)
  | Call (now : Timestamp) (h : handler) (k : Prog R)
  | Now (k : Timestamp → Prog R)
  | Pick (set : member_set) (k : option Server → Prog R)
  | Post (e : SwimEnvelope) (c : SwimClient) (k : bool → Prog R).
Arguments Ret {R} _.
Arguments Crash {R} _.
Arguments NoFuel {R}.
Arguments Read {R} _.
Arguments SetIndex {R} _ _.
Arguments Call {R} _ _ _.
Arguments Now {R} _.
Arguments Pick {R} _ _.
Arguments Post {R} _ _ _.

Fixpoint prog_bind {A B} (f : A → Prog B) (p : Prog A) : Prog B :=
  match p with
  | Ret a => f a
  | Crash e => Crash e
  | NoFuel => NoFuel
  | Read k => Read (λ d, prog_bind f (k d))
  | SetIndex i k => SetIndex i (prog_bind f k)
  | Call t h k => Call t h (prog_bind f k)
  | Now k => Now (λ t, prog_bind f (k t))
  | Pick set k => Pick set (λ o, prog_bind f (k o))
  | Post e c k => Post e c (λ ok, prog_bind f (k ok))
  end.

#[export] Instance Prog_ret : MRet Prog := λ A a, Ret a.
#[export] Instance Prog_bind : MBind Prog := λ A B f p, prog_bind f p.

(** [try { p } catch (const empty_set &) { h }] *)
Fixpoint catch_empty {A} (h p : Prog A) : Prog A :=
  match p with
  | Ret a => Ret a
  | Crash empty_set => h
  | Crash e => Crash e
  | NoFuel => NoFuel
  | Read k => Read (λ d, catch_empty h (k d))
  | SetIndex i k => SetIndex i (catch_empty h k)
  | Call t hd k => Call t hd (catch_empty h k)
  | Now k => Now (λ t, catch_empty h (k t))
  | Pick set k => Pick set (λ o, catch_empty h (k o))
  | Post e c k => Post e c (λ ok, catch_empty h (k ok))
  end.

Definition p_gets {A} (f : GossipFailureDetector → A) : Prog A := Read (λ d, Ret (f d)).
Definition p_now : Prog Timestamp := Now Ret.
Definition p_call (t : Timestamp) (h : handler) : Prog unit := Call t h (Ret tt).
Definition p_post (e : SwimEnvelope) (c : SwimClient) : Prog bool := Post e c Ret.

Fixpoint p_for_each {A} (l : list A) (f : A → Prog unit) : Prog unit :=
  match l with
  | [] => Ret tt
  | a :: l => f a ≫= λ _, p_for_each l f
  end.

(** ** The methods as programs *)

Section Programs.
Context {os : OS} {ss : StdSort}.

Definition p_client_to (dest : Server) : Prog SwimClient :=
  p_gets (λ d, newSwimClient (detector_host_name_ d) (GetLamportTime (gossip_server_ d)) dest
                 (port_ (gossip_server_ d)) kDefaultTimeoutMsec).

(** The round-robin loop of [GetUniqueNeighbors]: the size of the set, the neighbor at the
    index and the size again are read under a lock each, and the index, which is not
    guarded, is read and written in between. *)
Fixpoint p_round_robin (fuel n idx : nat) (others : list Server) : Prog (list Server) :=
  match fuel with
  | O => NoFuel
  | S fuel =>
      if (idx <? n)%nat then
        past ← p_gets (λ d, past_end (round_robin_index_ d) (gossip_server_ d));
        (if (past : bool) then SetIndex 0 (Ret tt) else Ret tt);;
        index ← p_gets round_robin_index_;
        SetIndex (S index) (Ret tt);;
        found ← p_gets (λ d, GetNeighborByIndex index (gossip_server_ d));
        match found with
        | None => Crash empty_set
        | Some other =>
            me ← p_gets (λ d, self (gossip_server_ d));
            if Server_eqb other me then
              size ← p_gets (λ d, alive_size (gossip_server_ d));
              if (size <=? 1)%nat then Ret others else p_round_robin fuel n idx others
            else p_round_robin fuel n (S idx) (insert other others).1
        end
      else Ret others
  end.

(** The loop has no bound in the source; alone it needs at most [2 * n + 1] turns, and
    [extra] more are given when other threads interfere. *)
Definition p_unique_neighbors (extra k : nat) : Prog (list Server) :=
  n ← p_gets (λ d, Nat.min k (alive_size (gossip_server_ d)));
  p_round_robin (S (2 * n) + extra) n 0 [].

Definition p_SendReport_to (extra : nat) (client : SwimClient) (report : SwimReport)
    (other : Server) : Prog bool :=
  ret ← p_post (Send_envelope report) client;
  if negb ret then
    t ← p_now;
    p_call t (on_ReportSuspected other (CurrentTime t));;
    k ← p_gets num_forwards_;
    forwards ← p_unique_neighbors extra k;
    lamportTime ← p_gets (λ d, GetLamportTime (gossip_server_ d));
    p_for_each forwards (λ fwd,
      c ← p_gets (λ d, newSwimClient (detector_host_name_ d) lamportTime fwd
                         (port_ (gossip_server_ d)) kDefaultTimeoutMsec);
      _ ← p_post (RequestPing_envelope other) c;
      Ret tt);;
    Ret ret
  else Ret ret.

Definition p_report_and_mark (extra : nat) (report : SwimReport) (other : Server) : Prog unit :=
  client ← p_client_to other;
  ok ← p_SendReport_to extra client report other;
  if (ok : bool) then
    t ← p_now;
    p_call t (on_AddAlive other (CurrentTime t))
  else Ret tt.

(** [PrepareReport]: the two sets are copied under a lock each. *)
Definition p_PrepareReport : Prog SwimReport :=
  s ← p_gets gossip_server_;
  t1 ← p_now;
  suspects ← p_gets (λ d, suspected_ (gossip_server_ d));
  t2 ← p_now;
  Ret (PrepareReport t1 t2 (set_suspected suspects s)).

Definition p_SendReport (extra : nat) (type : ReportType) : Prog unit :=
  empty ← p_gets (λ d, alive_empty (gossip_server_ d));
  if (empty : bool) then Ret tt
  else
    report ← p_PrepareReport;
    match type with
    | FULL =>
        k ← p_gets num_reports_;
        others ← p_unique_neighbors extra k;
        p_for_each others (p_report_and_mark extra report)
    | SINGLE =>
        catch_empty (Ret tt)
          (picked ← Pick pick_alive Ret;
           match picked with
           | Some other => p_report_and_mark extra report other
           | None => Crash empty_set
           end)
    end.

Definition p_PingRandomSuspected : Prog unit :=
  catch_empty (Ret tt)
    (picked ← Pick pick_suspected Ret;
     match picked with
     | Some suspect =>
         client ← p_client_to suspect;
         ok ← p_post Ping_envelope client;
         if (ok : bool) then
           t ← p_now;
           p_call t (on_AddAlive suspect (CurrentTime t))
         else Ret tt
     | None => Crash empty_set
     end).

Definition p_GarbageCollectSuspected : Prog unit :=
  report ← p_PrepareReport;
  t ← p_now;
  grace ← p_gets grace_period_;
  p_for_each (suspected report) (λ r,
    if expired t grace r then
      t' ← p_now;
      p_call t' (on_evict (server r))
    else Ret tt).

Definition p_AddNeighbor (host : Server) : Prog unit :=
  client ← p_client_to host;
  ok ← p_post Ping_envelope client;
  t ← p_now;
  if (ok : bool) then p_call t (on_AddAlive host (CurrentTime t))
  else p_call t (on_ReportSuspected host (CurrentTime t)).

(** The thread that [OnForwardRequest] starts. *)
Definition p_ForwardThread (sender : Server) (destination : option Server) : Prog unit :=
  match destination with
  | None => Crash undefined_behaviour
  | Some destination =>
      t ← p_now;
      let report := mkSwimReport sender [] [MakeRecord destination t] in
      client ← p_gets (λ d, newSwimClient (host_name_ (gossip_server_ d))
                              (GetLamportTime (gossip_server_ d)) destination
                              (port_ (gossip_server_ d)) kDefaultTimeoutMsec);
      ok ← p_post (Send_envelope report) client;
      if negb ok then
        t ← p_now;
        p_call t (on_ReportSuspected destination (CurrentTime t))
      else Ret tt
  end.

Definition p_thread_round (extra : nat) (t : BackgroundThread) : Prog unit :=
  running ← p_gets (λ d, isRunning (gossip_server_ d));
  if negb running then Ret tt
  else match t with
       | thread_report_full => p_SendReport extra FULL
       | thread_report_single => p_SendReport extra SINGLE
       | thread_collect => p_GarbageCollectSuspected
       | thread_ping_suspect => p_PingRandomSuspected
       end.

Definition p_perform (extra : nat) (a : activity) : Prog unit :=
  match a with
  | act_thread t => p_thread_round extra t
  | act_AddNeighbor host => p_AddNeighbor host
  end.
End Programs.

(** ** Programs run alone *)

Section Alone.
Context {os : OS} {pb : Protobuf} {env : Environment} {ss : StdSort}.
Implicit Types w : World.

Definition members (set : member_set) (d : GossipFailureDetector) : list ServerRecord :=
  match set with
  | pick_alive => alive_ (gossip_server_ d)
  | pick_suspected => suspected_ (gossip_server_ d)
  end.

(** A random member, for the draw [num]. *)
Definition random_member (set : member_set) (num : nat) (d : GossipFailureDetector)
    : option Server :=
  match set with
  | pick_alive => GetRandomNeighbor num (gossip_server_ d)
  | pick_suspected => GetRandomSuspect num (gossip_server_ d)
  end.

Definition pick (set : member_set) : M (option Server) :=
  size ← gets (λ d, size (members set d));
  num ← (if (size =? 0)%nat then mret 0 else draw size);
  gets (random_member set num).

Lemma pick_spec set w :
  ∃ picked n, pick set w = (Value picked, mkWorld (detector w) (requests w) n).
Proof.
  unfold pick, mbind, M_bind, gets. destruct (_ =? 0)%nat; [|by do 2 eexists].
  destruct w. by do 2 eexists.
Qed.

(** A program without interruption. *)
Fixpoint run {A} (p : Prog A) : M A :=
  match p with
  | Ret a => mret a
  | Crash f => λ w, (Failed f, w)
  | NoFuel => λ w, (Unfinished, w)
  | Read k => λ w, run (k (detector w)) w
  | SetIndex i k => λ w,
      run k (mkWorld (set_round_robin_index i (detector w)) (requests w) (asked w))
  | Call t h k => _ ← on_server_ (handle t h); run k
  | Now k => t ← now; run (k t)
  | Pick set k => picked ← pick set; run (k picked)
  | Post e c k => ok ← post e c; run (k ok)
  end.

Lemma run_bind {A B} (p : Prog A) (f : A → Prog B) w :
  run (p ≫= f) w = (run p ≫= λ a, run (f a)) w.
Proof.
  revert w. induction p as [a| | |k IH|i k IH|t h k IH|k IH|set k IH|e c k IH]; intros w;
    try done.
  - exact (IH _ w).
  - exact (IH _).
  - exact (IH _).
  - exact (IH _ _).
  - cbn. unfold mbind, M_bind. destruct (pick_spec set w) as (picked & n & ->). apply IH.
  - cbn. unfold mbind, M_bind.
    destruct (post_cases e c w) as [(ok & _ & _ & ->)|(_ & _ & ->)]; [apply IH | done].
Qed.

(** The program does what the method does, which ends well and keeps the sets well
    formed. *)
Definition same {A} (p : Prog A) (m : M A) : Prop :=
  ∀ w, sets_inv (server_of w) →
    run p w = m w ∧ ends_well (m w).1 ∧ sets_inv (server_of (m w).2).

Lemma same_bind {A B} (p : Prog A) (m : M A) (f : A → Prog B) (g : A → M B) :
  same p m → (∀ a, same (f a) (g a)) → same (p ≫= f) (m ≫= g).
Proof.
  intros Hp Hf w Hi. destruct (Hp w Hi) as (E & He & Hi1).
  rewrite run_bind. unfold mbind, M_bind. rewrite E.
  destruct (m w) as [[a|e|] w1]; [by apply Hf | done | done].
Qed.

Lemma same_ret {A} (a : A) : same (Ret a) (mret a).
Proof. intros w Hi. done. Qed.

Lemma same_gets {A} (f : GossipFailureDetector → A) : same (p_gets f) (gets f).
Proof. intros w Hi. done. Qed.

Lemma same_now : same p_now now.
Proof. intros w Hi. done. Qed.

Lemma same_post e c : same (p_post e c) (post e c).
Proof.
  intros w Hi. cbn. unfold mbind, M_bind.
  destruct (post_cases e c w) as [(ok & _ & _ & ->)|(_ & Hz & ->)]; done.
Qed.

Lemma same_call {A B} t h (f : SwimServer → SwimServer * A) (p : Prog B) (m : M B) :
  (∀ s, (f s).1 = handle t h s) → same p m → same (p_call t h;; p) (_ ← on_server f; m).
Proof.
  intros Hf Hp w Hi.
  destruct (Hp (mkWorld (set_gossip_server (f (server_of w)).1 (detector w)) (requests w) (asked w)))
    as [E Hm]; [by cbn; rewrite Hf; apply handle_sets|].
  split; [|exact Hm]. cbn. unfold on_server_, on_server, mbind, M_bind. cbn.
  fold (server_of w). rewrite <- Hf. exact E.
Qed.

Lemma same_call_last {A} t h (f : SwimServer → SwimServer * A) :
  (∀ s, (f s).1 = handle t h s) → same (p_call t h) (_ ← on_server f; mret tt).
Proof. intros Hf. exact (same_call t h f (Ret tt) (mret tt) Hf (same_ret tt)). Qed.

Lemma same_for_each {A} (l : list A) f g :
  (∀ a, same (f a) (g a)) → same (p_for_each l f) (for_each l g).
Proof.
  intros Hf. induction l as [|a l IH]; [apply same_ret|]. cbn. by apply same_bind.
Qed.

Lemma same_client_to dest : same (p_client_to dest) (client_to dest).
Proof. apply same_gets. Qed.

(** Catching an exception that is not thrown. *)
Lemma run_catch {A} (h p : Prog A) w :
  (run p w).1 ≠ Failed empty_set → run (catch_empty h p) w = run p w.
Proof.
  revert w. induction p as [b|[]| |k IH|i k IH|t hd k IH|k IH|set k IH|e c k IH]; intros w;
    try done.
  - exact (IH _ w).
  - exact (IH _).
  - exact (IH _).
  - exact (IH _ _).
  - cbn. unfold mbind, M_bind. destruct (pick_spec set w) as (picked & n & ->). apply IH.
  - cbn. unfold mbind, M_bind.
    destruct (post_cases e c w) as [(ok & _ & _ & ->)|(_ & _ & ->)]; [apply IH | done].
Qed.

Lemma same_catch {A} (h p : Prog A) m : same p m → same (catch_empty h p) m.
Proof.
  intros Hp w Hi. destruct (Hp w Hi) as (E & He & Hi'). split; [|done].
  rewrite run_catch; [done|]. rewrite E. by destruct (m w) as [[a|[]|] w1].
Qed.

(** With enough fuel for the uninterrupted loop, more makes no difference. *)
Lemma run_round_robin fuel extra n w idx others found index :
  round_robin fuel (server_of w) n idx (round_robin_index_ (detector w)) others =
    Finished (found, index) →
  run (p_round_robin (fuel + extra) n idx others) w =
    (Value found, mkWorld (set_round_robin_index index (detector w)) (requests w) (asked w)).
Proof.
  revert w idx others. induction fuel as [|fuel IH]; intros w idx others; [done|].
  cbn [round_robin p_round_robin Nat.add]. destruct (idx <? n)%nat.
  2: { intros [= <- <-]. by destruct w as [[] ? ?]. }
  intros E. cbn. unfold server_of in *.
  destruct (past_end (round_robin_index_ (detector w)) (gossip_server_ (detector w)));
    cbn; (destruct (GetNeighborByIndex _ _) as [other|]; [|done]); cbn;
    (destruct (Server_eqb other _); cbn; [destruct (_ <=? 1)%nat; cbn|]);
    try (by injection E as <- <-);
    by apply (IH (mkWorld (set_round_robin_index _ (detector w)) _ _)).
Qed.

Lemma same_unique_neighbors extra k : same (p_unique_neighbors extra k) (unique_neighbors k).
Proof.
  intros w Hi. destruct (unique_neighbors_spec k w (sets_alive _ Hi)) as (others & index & E & _).
  rewrite E. split; [|done].
  unfold unique_neighbors, GetUniqueNeighbors in E. fold (server_of w) in E.
  refine (run_round_robin (S (2 * Nat.min k (alive_size (server_of w)))) extra _ w 0 [] _ _ _).
  destruct (round_robin _ _ _ _ _ _) as [[found index']| |]; [|done..].
  injection E as -> E. by rewrite E.
Qed.

(** [PrepareReport] reads the two sets apart. *)
Lemma same_PrepareReport {A} (f : SwimReport → Prog A) (g : SwimReport → M A) :
  (∀ r, same (f r) (g r)) →
  same (p_PrepareReport ≫= f)
    (t1 ← now; t2 ← now; report ← gets (λ d, PrepareReport t1 t2 (gossip_server_ d)); g report).
Proof.
  intros Hf w Hi.
  assert (∀ s, set_suspected (suspected_ s) s = s) as E by (by intros []).
  edestruct (Hf (PrepareReport (clock_at (asked w)) (clock_at (S (asked w))) (server_of w)))
    as [Er Hr]; [|split; [|exact Hr]]; [done|].
  rewrite run_bind. rewrite <- (E (server_of w)) in Er. exact Er.
Qed.

(** A random member, whose set may be empty. *)
Lemma same_pick set (p : Server → Prog unit) (g : Server → M unit) :
  (∀ x, same (p x) (g x)) →
  same (catch_empty (Ret tt) (picked ← Pick set Ret;
          match picked with Some x => p x | None => Crash empty_set end))
    (size ← gets (λ d, size (members set d));
     num ← (if (size =? 0)%nat then mret 0 else draw size);
     picked ← gets (random_member set num);
     match picked with Some x => g x | None => mret tt end).
Proof.
  intros Hp w Hi. cbn. unfold pick, mbind, M_bind, gets.
  destruct (size (members set (detector w)) =? 0)%nat; cbn;
    (destruct (random_member set _ _) as [x|]; cbn; [|done]).
  - exact (same_catch (Ret tt) _ _ (Hp x) w Hi).
  - exact (same_catch (Ret tt) _ _ (Hp x) (mkWorld _ _ _) Hi).
Qed.

Lemma same_evict t x : same (p_call t (on_evict x)) (on_server_ (RemoveSuspected t x remove_evicted)).
Proof.
  intros w Hi. split; [done|]. split; [done|]. exact (handle_sets t (on_evict x) _ Hi).
Qed.

Lemma same_if {A} (b : bool) (p q : Prog A) (m n : M A) :
  same p m → same q n → same (if b then p else q) (if b then m else n).
Proof. by destruct b. Qed.

Create HintDb same.
Hint Resolve same_ret same_gets same_now same_post same_client_to same_unique_neighbors
  same_evict : same.

(** Takes a program and its method apart into their steps. *)
Ltac solve_same :=
  repeat first
    [ progress intros
    | solve [auto with same]
    | apply same_call_last; done
    | apply same_call; [done|]
    | apply same_PrepareReport
    | apply same_bind
    | apply same_if
    | apply same_for_each ].

Lemma same_SendReport_to extra c rep other :
  same (p_SendReport_to extra c rep other) (SendReport_to c rep other).
Proof. unfold p_SendReport_to, SendReport_to. solve_same. Qed.
Hint Resolve same_SendReport_to : same.

Lemma same_report_and_mark extra rep other :
  same (p_report_and_mark extra rep other) (report_and_mark rep other).
Proof. unfold p_report_and_mark, report_and_mark. solve_same. Qed.
Hint Resolve same_report_and_mark : same.

Lemma same_SendReport extra type : same (p_SendReport extra type) (SendReport type).
Proof.
  unfold p_SendReport, SendReport. solve_same. destruct type; solve_same.
  apply (same_pick pick_alive). solve_same.
Qed.

Lemma same_PingRandomSuspected : same p_PingRandomSuspected PingRandomSuspected.
Proof. apply (same_pick pick_suspected). solve_same. Qed.

Lemma same_GarbageCollectSuspected : same p_GarbageCollectSuspected GarbageCollectSuspected.
Proof. unfold p_GarbageCollectSuspected, GarbageCollectSuspected. solve_same. Qed.

Lemma same_AddNeighbor host : same (p_AddNeighbor host) (AddNeighbor host).
Proof. unfold p_AddNeighbor, AddNeighbor. solve_same. Qed.
Hint Resolve same_SendReport same_PingRandomSuspected same_GarbageCollectSuspected
  same_AddNeighbor : same.

Lemma same_perform extra a : same (p_perform extra a) (perform a).
Proof.
  destruct a as [t|host]; cbn [p_perform perform]; [|solve_same].
  unfold p_thread_round, thread_round. solve_same. destruct t; solve_same.
Qed.
End Alone.

(** ** Interleaved threads *)

(** What a thread was started for: a round of a background thread or a call from outside;
    the forwarding of a request; a message received. *)
Inductive thread_kind :=
  | of_activity (a : activity)
  | of_forward (sender : Server) (destination : option Server)
  | of_message (e : SwimEnvelope).

(** A thread in the middle of a call of a handler, if any, and the rest of its program. *)
Record running := mkRunning {
  kind : thread_kind;
  calling : option (Timestamp * task);
  rest : Prog unit
}.

Definition with_server (s : SwimServer) (w : World) : World :=
  mkWorld (set_gossip_server s (detector w)) (requests w) (asked w).

(** The handler of a message ([None]: a message type that is ignored). *)
Definition message_handler (e : SwimEnvelope) : outcome (option handler) :=
  match type e with
  | STATUS_UPDATE => client ← deref (sender e); Done (Some (on_update client))
  | STATUS_REPORT =>
      from ← deref (sender e);
      rep ← deref (report e);
      Done (Some (on_report from rep))
  | STATUS_REQUEST =>
      from ← deref (sender e);
      Done (Some (on_forward from (destination_server e)))
  | _ => Done None
  end.

Section Interleaved.
Context {os : OS} {pb : Protobuf} {env : Environment} {ss : StdSort}.
Implicit Types (w : World) (r : running).

Lemma dispatch_handler now e s :
  dispatch now e s =
    (h ← message_handler e;
     Done (match h with
           | Some h => handle now h (UpdateLamportTime (env_lamport_time e) s)
           | None => s
           end)).
Proof.
  unfold dispatch, message_handler.
  by destruct (type e), (sender e), (report e).
Qed.

(** How a thread goes on after a step of its environment, or ends. *)
Definition continue {A} (k : A → Prog unit) (r : completion A) : Prog unit :=
  match r with
  | Value a => k a
  | Failed f => Crash f
  | Unfinished => NoFuel
  end.

(** One step of a thread: [None] when it has ended. *)
Definition step_running r w : option (running * World) :=
  match calling r with
  | Some (t, tk) =>
      match step_task (self (server_of w)) t tk (server_of w) with
      | Some (tk, s) => Some (mkRunning (kind r) (Some (t, tk)) (rest r), with_server s w)
      | None => Some (mkRunning (kind r) None (rest r), w)
      end
  | None =>
      let goes_on p w := Some (mkRunning (kind r) None p, w) in
      match rest r with
      | Ret _ | Crash _ | NoFuel => None
      | Read k => goes_on (k (detector w)) w
      | SetIndex i k =>
          goes_on k (mkWorld (set_round_robin_index i (detector w)) (requests w) (asked w))
      | Call t h k =>
          Some (mkRunning (kind r) (Some (t, handler_task (self (server_of w)) t h)) k, w)
      | Now k => goes_on (continue k (now w).1) (now w).2
      | Pick set k => goes_on (continue k (pick set w).1) (pick set w).2
      | Post e c k => goes_on (continue k (post e c w).1) (post e c w).2
      end
  end.

(** The program of a thread that starts. *)
Definition program_of (extra : nat) (k : thread_kind) : Prog unit :=
  match k with
  | of_activity a => p_perform extra a
  | of_forward sender destination => p_ForwardThread sender destination
  | of_message _ => Ret tt
  end.

Definition starting (extra : nat) (k : thread_kind) : running :=
  mkRunning k None (program_of extra k).

(** The thread that handles a message. *)
Definition receiving (now : Timestamp) (e : SwimEnvelope) (h : handler) (me : Server) : running :=
  mkRunning (of_message e) (Some (now, handler_task me now h)) (Ret tt).

(** The threads of a detector: any of them takes a step; an activity begins; the
    thread of a forwarded request begins; a message of [inbox] arrives, which advances
    the clock and starts its handler. *)
Inductive threads_step (inbox : list string) :
    list running * World → list running * World → Prop :=
  | threads_run ts w i r r' w' :
      ts !! i = Some r → step_running r w = Some (r', w') →
      threads_step inbox (ts, w) (<[i := r']> ts, w')
  | threads_activity ts w extra a :
      threads_step inbox (ts, w) (ts ++ [starting extra (of_activity a)], w)
  | threads_forward ts w extra x d :
      SwimServer.ForwardThread x d ∈ effects_ (server_of w) →
      threads_step inbox (ts, w) (ts ++ [starting extra (of_forward x d)], w)
  | threads_message ts w t msg e h :
      msg ∈ inbox → ParseFromArray msg = Some e → message_handler e = Done (Some h) →
      threads_step inbox (ts, w)
        (ts ++ [receiving t e h (self (server_of w))],
         with_server (UpdateLamportTime (env_lamport_time e) (server_of w)) w).

(** *** A thread that is not interrupted *)

Definition alone (p p' : running * World) : Prop := step_running p.1 p.2 = Some p'.

Lemma alone_task me k t p w q q' :
  rtc (task_step me t) q q' →
  operation me (Handlers.current q.1) → sets_inv q.2 → self q.2 = me →
  rtc alone (mkRunning k (Some (t, q.1)) p, with_server q.2 w)
    (mkRunning k (Some (t, q'.1)) p, with_server q'.2 w) ∧ self q'.2 = me.
Proof.
  induction 1 as [q|[tk s] [tk1 s1] q' Hs _ IH]; intros Hop Hi Hme; [done|]. cbn [fst snd] in *.
  destruct (step_task_keeps me t tk s tk1 s1 Hop Hi Hme Hs) as (Hop1 & Hi1 & E1).
  destruct (IH Hop1 Hi1 E1) as [Hr ?]. split; [|done]. eapply rtc_l; [|exact Hr].
  unfold alone, step_running. cbn. rewrite Hme. unfold task_step in Hs. cbn in Hs. by rewrite Hs.
Qed.

(** A call of a handler, from beginning to end. *)
Lemma alone_call k t h p w :
  sets_inv (server_of w) →
  rtc alone (mkRunning k None (Call t h p), w)
    (mkRunning k None p, with_server (handle t h (server_of w)) w).
Proof.
  intros Hi. destruct (handlers_run_alone _ t h (server_of w) eq_refl) as (tk & Hr & Hend).
  destruct (alone_task (self (server_of w)) k t p w _ _ Hr (idle_operation _) Hi eq_refl)
    as [Hrun Hme]. cbn [fst snd] in *.
  eapply rtc_l; [reflexivity|]. eapply rtc_r.
  - by destruct w as [[] ? ?].
  - unfold alone, step_running. cbn. by rewrite Hme, Hend.
Qed.

Lemma run_alone_steps k (p : Prog unit) w :
  sets_inv (server_of w) →
  rtc alone (mkRunning k None p, w) (mkRunning k None (continue Ret (run p w).1), (run p w).2).
Proof.
  revert w. induction p as [a| | |f IH|i f IH|t h f IH|f IH|set f IH|e c f IH]; intros w Hi;
    cbn [run]; try done.
  - eapply rtc_l; [reflexivity | by apply IH].
  - eapply rtc_l; [reflexivity|]. by apply (IH (mkWorld _ _ _)).
  - etrans; [by apply alone_call|]. apply (IH (with_server _ w)). by apply handle_sets.
  - eapply rtc_l; [reflexivity|]. by apply (IH _ (mkWorld _ _ _)).
  - unfold mbind, M_bind. destruct (pick_spec set w) as (picked & n & E). rewrite E.
    eapply rtc_l; [|by apply (IH _ (mkWorld _ _ _))].
    unfold alone, step_running. cbn. by rewrite E.
  - unfold mbind, M_bind. destruct (post_cases e c w) as [(ok & _ & _ & E)|(_ & _ & E)]; rewrite E.
    + eapply rtc_l; [|by apply (IH _ (mkWorld _ _ _))].
      unfold alone, step_running. cbn. by rewrite E.
    + apply rtc_once. unfold alone, step_running. cbn. by rewrite E.
Qed.

(** A thread of the detector that no other thread interrupts does, step by step, exactly
    what the method it calls does as a whole, and ends as it does: it reads the same, updates
    the two sets to the same, sends the same requests and leaves the same round-robin index. *)
Theorem threads_run_alone extra a w :
  sets_inv (server_of w) →
  ends_well (perform a w).1 ∧ sets_inv (server_of (perform a w).2) ∧
  rtc alone (starting extra (of_activity a), w)
    (mkRunning (of_activity a) None (continue Ret (perform a w).1), (perform a w).2).
Proof.
  intros Hi. destruct (same_perform extra a w Hi) as (E & He & Hi').
  split; [done|]. split; [done|]. rewrite <- E. by apply run_alone_steps.
Qed.

(** A forwarding thread that is not interrupted, too, does what the sequential model of
    it does. *)
Lemma ReportSuspected_emit t x ts e s :
  alive_ (ReportSuspected t x ts (emit e s)).1 = alive_ (ReportSuspected t x ts s).1 ∧
  suspected_ (ReportSuspected t x ts (emit e s)).1 = suspected_ (ReportSuspected t x ts s).1.
Proof.
  unfold ReportSuspected. change (self (emit e s)) with (self s).
  destruct (port x =? 0)%Z eqn:Hp; [done|]. destruct (Server_eqb x (self s)).
  - unfold AddAlive. rewrite Hp, !RemoveSuspected_alive. cbn.
    destruct (insert _ _) as [set []]; cbn; [by autorewrite with gossip|].
    by destruct (find _ set).
  - cbn. destruct (insert _ (suspected_ s)) as [set []]; cbn; by autorewrite with gossip.
Qed.

Lemma forward_runs_alone x d w :
  let t := clock_at (asked w) in
  clock_at (S (S (asked w))) = t →
  match ForwardThread_body t (exchange_at (S (asked w))) x d (server_of w) with
  | Done s' =>
      ∃ w', run (p_ForwardThread x d) w = (Value tt, w') ∧
        alive_ (server_of w') = alive_ s' ∧ suspected_ (server_of w') = suspected_ s'
  | NullDereference => (run (p_ForwardThread x d) w).1 = Failed undefined_behaviour
  | Aborted => ∃ uri, (run (p_ForwardThread x d) w).1 = Failed (connect_refused uri)
  end.
Proof.
  intros t Ht. destruct d as [d|]; [|done]. unfold p_ForwardThread, ForwardThread_body, Send.
  change (host_name_ (server_of w)) with (host_name_ (gossip_server_ (detector w))).
  cbn -[postMessage ReportSuspected]. unfold mbind, M_bind, post.
  cbn -[postMessage ReportSuspected].
  destruct (postMessage _ _ _).1 as [[]|]; cbn -[ReportSuspected]; [| |by eexists];
    (eexists; split; [reflexivity|]); [done|].
  unfold server_of; cbn -[ReportSuspected]. rewrite Ht. split; symmetry; apply ReportSuspected_emit.
Qed.
End Interleaved.

(** ** The race of a full report *)

Section Race.
Context {os : OS} {pb : Protobuf} {env : Environment} {ss : StdSort}.
Implicit Types (w : World) (r : running) (q : ServerRecord).

(** Runs the threads as a list of indices says. *)
Fixpoint schedule (l : list nat) (p : list running * World) : list running * World :=
  match l with
  | [] => p
  | i :: l =>
      match p.1 !! i with
      | Some r =>
          match step_running r p.2 with
          | Some (r, w) => schedule l (<[i := r]> p.1, w)
          | None => schedule l p
          end
      | None => schedule l p
      end
  end.

Lemma schedule_steps inbox l p : rtc (threads_step inbox) p (schedule l p).
Proof.
  revert p. induction l as [|i l IH]; intros [ts w]; cbn; [done|].
  destruct (ts !! i) as [r|] eqn:Hr; [|apply IH].
  destruct (step_running r w) as [[r' w']|] eqn:Hs; [|apply IH].
  eapply rtc_l; [by eapply threads_run | apply IH].
Qed.

(** A thread among others runs alone for a while. *)
Lemma alone_threads inbox ts i p p' :
  rtc alone p p' → ts !! i = Some p.1 →
  rtc (threads_step inbox) (ts, p.2) (<[i := p'.1]> ts, p'.2).
Proof.
  intros Hr. revert ts. induction Hr as [p|[r w] [r1 w1] p' Hs _ IH]; intros ts Hi.
  { by rewrite list_insert_id. }
  cbn [fst snd] in *. eapply rtc_l; [by eapply threads_run|].
  rewrite <- (list_insert_insert_eq ts i p'.1 r1). apply IH.
  apply list_lookup_insert_eq. by eapply lookup_lt_Some.
Qed.

(** A full report up to the point where it has counted the neighbors. *)
Lemma full_report_counts extra w :
  isRunning (server_of w) = true → alive_size (server_of w) = 1 → 0 < num_reports_ (detector w) →
  ∃ f : list Server → Prog unit,
    rtc alone (starting extra (of_activity (act_thread thread_report_full)), w)
      (mkRunning (of_activity (act_thread thread_report_full)) None
         (p_round_robin (3 + extra) 1 0 [] ≫= f),
       mkWorld (detector w) (requests w) (S (S (asked w)))).
Proof.
  intros Hrun Hsize Hk. eexists. unfold starting. cbn [program_of p_perform].
  unfold server_of in *.
  eapply rtc_l; [reflexivity|]. cbn -[p_round_robin]. rewrite Hrun. cbn -[p_round_robin].
  assert (alive_empty (gossip_server_ (detector w)) = false) as He
    by (unfold alive_empty; by rewrite Hsize).
  eapply rtc_l; [reflexivity|]. cbn -[p_round_robin]. rewrite He. cbn -[p_round_robin].
  do 6 (eapply rtc_l; [reflexivity|]; cbn -[p_round_robin]).
  rewrite Hsize. replace (Nat.min (num_reports_ (detector w)) 1) with 1 by lia.
  cbn -[p_round_robin]. reflexivity.
Qed.

(** Whoever has counted neighbors and finds none throws. *)
Lemma empty_set_thrown k fuel n idx others (f : list Server → Prog unit) w :
  alive_ (server_of w) = [] → idx < n →
  ∃ w', rtc alone (mkRunning k None (p_round_robin (S fuel) n idx others ≫= f), w)
    (mkRunning k None (Crash empty_set), w').
Proof.
  intros Hempty Hlt. eexists. cbn [p_round_robin]. rewrite (proj2 (Nat.ltb_lt _ _) Hlt).
  assert (∀ i, past_end i (gossip_server_ (detector w)) = false) as Hp.
  { intros i. unfold past_end, alive_size. fold (server_of w). by rewrite Hempty. }
  eapply rtc_l; [reflexivity|]. cbn. rewrite Hp. cbn.
  do 2 (eapply rtc_l; [reflexivity|]; cbn).
  eapply rtc_l; [reflexivity|]. cbn.
  unfold GetNeighborByIndex. fold (server_of w). rewrite Hempty. cbn. done.
Qed.

(** A single report to the only neighbor, which does not answer. *)
Lemma single_report_empties q w :
  server_inv (server_of w) → isRunning (server_of w) = true → alive_ (server_of w) = [q] →
  key (server q) ≠ key (self (server_of w)) → zmq_connect (uri_of (server q)) = true →
  unresponsive (server q) → (∀ n, draw_at n 1 = 0) →
  ∃ w', perform (act_thread thread_report_single) w = (Value tt, w') ∧ alive_ (server_of w') = [].
Proof.
  intros Hi Hrun Hq Hme Hz Hun Hdraw.
  assert (is_Some (seek (server q) (alive_ (server_of w)))) as Hy.
  { rewrite (seek_elem q); [by eexists | apply Hi | rewrite Hq; left]. }
  set (w1 := mkWorld (detector w) (requests w) (S (S (S (asked w))))).
  set (rep := PrepareReport (clock_at (asked w)) (clock_at (S (asked w))) (server_of w)).
  assert (perform (act_thread thread_report_single) w = report_and_mark rep (server q) w1) as E.
  { cbn [perform]. unfold thread_round. erewrite bind_step by done. fold (server_of w). rewrite Hrun.
    cbn [negb]. unfold SendReport. erewrite bind_step by done. fold (server_of w).
    unfold alive_empty, alive_size. rewrite Hq. cbn [size length Nat.eqb].
    do 3 erewrite bind_step by done. erewrite bind_step by done. cbn [detector].
    fold (server_of w). rewrite Hq. cbn [size length Nat.eqb].
    erewrite bind_step by done. erewrite bind_step by done. cbn [detector asked].
    fold (server_of w). rewrite Hdraw. unfold GetRandomNeighbor. by rewrite Hq. }
  set (c := detector_client (server q) w1).
  assert ((postMessage (exchange_at (asked w1)) (Send_envelope rep) c).1 = Some false) as Hok.
  { destruct (post_cases (Send_envelope rep) c w1) as [(ok & Hok & _)|(_ & Hno & _)].
    - by rewrite (unresponsive_post (server q) _ _ c ok Hun eq_refl Hok) in Hok.
    - change (destinationUri c) with (uri_of (server q)) in Hno. congruence. }
  destruct (SendReport_to_unanswered c rep (server q) w1 Hi Hok)
    as (w' & forwards & oks & res & Hsend & Hends & Hw' & _ & _ & Hf & _).
  assert (alive_ (server_of w') = []) as Hnone.
  { rewrite Hw', alive_ReportSuspected by (done || apply (member_port _ _ Hi); left; rewrite Hq; left).
    change (server_of w1) with (server_of w). rewrite Hq. cbn.
    rewrite (proj2 (record_equiv_key _ _)) by done. done. }
  exists w'. split; [|done]. rewrite E. unfold report_and_mark. erewrite bind_step by done.
  fold (server_of w1). change (newSwimClient _ _ _ _ _) with c.
  unfold mbind, M_bind. rewrite Hsend.
  destruct Hends as [[_ ->]|(y & Hy' & _)]; [done|].
  apply list_elem_of_lookup_2, Hf in Hy' as [_ (r & Hr & _)].
  rewrite <- Hw', Hnone in Hr. by apply elem_of_nil in Hr.
Qed.

(** C29 [SendReport] checks that there are neighbors before it counts and picks them,
    without holding the lock in between.  Whenever a running server knows exactly one other
    server, whose address is accepted and which does not answer, and a random draw among one
    server picks it, there is an interleaving of
    a full report and a single report in which the single report suspects that server after
    the full one has counted it: [GetNeighborByIndex] then throws [empty_set] in the full
    report, whose thread does not catch it, and the process ends. *)
Theorem full_report_race inbox q w :
  server_inv (server_of w) → isRunning (server_of w) = true → alive_ (server_of w) = [q] →
  key (server q) ≠ key (self (server_of w)) → zmq_connect (uri_of (server q)) = true →
  unresponsive (server q) → (∀ n, draw_at n 1 = 0) → 0 < num_reports_ (detector w) →
  ∃ w', rtc (threads_step inbox) ([], w)
    ([mkRunning (of_activity (act_thread thread_report_full)) None (Crash empty_set);
      mkRunning (of_activity (act_thread thread_report_single)) None (Ret tt)], w').
Proof.
  intros Hi Hrun Hq Hme Hz Hun Hdraw Hk.
  destruct (full_report_counts 0 w Hrun) as [f Hfull]; [|done|].
  { unfold alive_size. by rewrite Hq. }
  set (w1 := mkWorld (detector w) (requests w) (S (S (asked w)))) in Hfull.
  destruct (single_report_empties q w1 Hi Hrun Hq Hme Hz Hun Hdraw) as (w2 & Hp & Hempty).
  destruct (threads_run_alone 0 (act_thread thread_report_single) w1) as (_ & _ & Hsingle).
  { destruct Hi. by constructor. }
  rewrite Hp in Hsingle. cbn [fst snd continue] in Hsingle.
  set (kf := of_activity (act_thread thread_report_full)) in *.
  destruct (empty_set_thrown kf 2 1 0 [] f w2 Hempty ltac:(lia)) as [w3 Hthrow].
  exists w3. set (ks := of_activity (act_thread thread_report_single)) in *.
  eapply rtc_l; [apply (threads_activity inbox [] w 0 (act_thread thread_report_full))|].
  eapply rtc_l; [apply (threads_activity inbox [_] w 0 (act_thread thread_report_single))|].
  etrans; [exact (alone_threads inbox [_; _] 0 _ _ Hfull eq_refl)|].
  etrans; [exact (alone_threads inbox [_; _] 1 _ _ Hsingle eq_refl)|].
  exact (alone_threads inbox [_; _] 0 _ _ Hthrow eq_refl).
Qed.
End Race.

Lemma threads_run_alone_witness :
  ∃ p w', rtc (alone (pb := bit_codec) (env := env_at 1 PollTimedOut))
    (starting (ss := merge_StdSort) 0 (of_activity (act_thread thread_report_full)),
       world_of node_as)
    (mkRunning (of_activity (act_thread thread_report_full)) None p, w').
Proof.
  destruct (threads_run_alone (pb := bit_codec) (env := env_at 1 PollTimedOut)
    (ss := merge_StdSort) 0 (act_thread thread_report_full) (world_of node_as)) as (_ & _ & H).
  - destruct (inv_stopped false _ node_as_inv). by constructor.
  - eexists _, _. exact H.
Defined.

(** [node_a] knows [host1] alone. *)
Lemma full_report_race_witness :
  ∃ w', rtc (threads_step (pb := bit_codec) (env := env_at 1 PollTimedOut) (ss := merge_StdSort) [])
    ([], world_of node_a)
    ([mkRunning (of_activity (act_thread thread_report_full)) None (Crash empty_set);
      mkRunning (of_activity (act_thread thread_report_single)) None (Ret tt)], w').
Proof.
  eapply (full_report_race (pb := bit_codec) (env := env_at 1 PollTimedOut) (ss := merge_StdSort)
    []).
  - exact (inv_stopped _ _ node_a_inv).
  - reflexivity.
  - reflexivity.
  - discriminate.
  - reflexivity.
  - intros ? ? ? ? [=].
  - intros n. reflexivity.
  - apply Nat.lt_0_succ.
Defined.
