(* ===== verification/ThreadLogic.v ===== *)
(** * Reasoning about the detector's programs

    A condition on a program of [Threads] that an invariant of the server entails: what it
    may call, whom it may contact, and what it ends with.  The condition is a weakest
    precondition over the steps of the program, where every step may be preceded by any
    number of steps of other threads that keep the invariant.  [Cluster] instantiates it
    with trust and [Connect] with addresses. *)

From Stdlib Require Import ZArith Lia String.
From stdpp Require Import base list strings gmap.
From S2P Require Import Prelude StdSet SwimCommon UtilsHost SwimClient SwimServer Membership Report ServerTypes Handlers Neighbors Detector DetectorProps Threads.

(** What is assumed and demanded at each step: [holds] of the server whenever it is read,
    [may_call] of a handler, [may_pick] of a random member, [may_post] of a request,
    [answers] of its result, and [may_refuse] of an address that is refused. *)
Record conditions := mkConditions {
  holds : SwimServer → Prop;
  may_call : handler → Prop;
  may_pick : Server → Prop;
  may_post : SwimEnvelope → SwimClient → Prop;
  answers : SwimClient → bool → Prop;
  may_refuse : string → Prop
}.

Section Logic.
Context (C : conditions).
Implicit Types throws : Prop.

(** The program keeps to [C] and ends with a value satisfying [Q], by throwing [empty_set] if
    [throws], or because an address it posts to is refused. *)
Fixpoint wp {A} (throws : Prop) (p : Prog A) (Q : A → Prop) : Prop :=
  match p with
  | Ret a => Q a
  | Crash empty_set => throws
  | Crash (connect_refused uri) => may_refuse C uri
  | Crash _ => False
  | NoFuel => True
  | Read k => ∀ d, holds C (gossip_server_ d) → wp throws (k d) Q
  | SetIndex _ k => wp throws k Q
  | Call _ h k => may_call C h ∧ wp throws k Q
  | Now k => ∀ t, wp throws (k t) Q
  | Pick _ k => ∀ o, (∀ x, o = Some x → may_pick C x) → wp throws (k o) Q
  | Post e c k => may_post C e c ∧ ∀ ok, answers C c ok → wp throws (k ok) Q
  end.

Lemma wp_bind {A B} throws (p : Prog A) (f : A → Prog B) P Q :
  wp throws p P → (∀ a, P a → wp throws (f a) Q) → wp throws (p ≫= f) Q.
Proof.
  intros Hp Hf. induction p as [a|[]| |k IH|i k IH|t h k IH|k IH|set k IH|e c k IH]; cbn in *;
    try tauto; try (destruct Hp as [? Hp]; split; [done|]); intros; eauto.
Qed.

Lemma wp_seq {A B} throws (p : Prog A) (f : A → Prog B) Q :
  wp throws p (λ _, True) → (∀ a, wp throws (f a) Q) → wp throws (p ≫= f) Q.
Proof. intros Hp Hf. eapply wp_bind; [exact Hp | auto]. Qed.

(** A handler for [empty_set] makes a program that may throw one that does not. *)
Lemma wp_catch {A} throws (h p : Prog A) Q :
  wp True p Q → wp throws h Q → wp throws (catch_empty h p) Q.
Proof.
  intros Hp Hh. induction p as [a|[]| |k IH|i k IH|t hd k IH|k IH|set k IH|e c k IH]; cbn in *;
    try tauto; try (destruct Hp as [? Hp]; split; [done|]); intros; eauto.
Qed.

Lemma wp_for_each {A} throws (l : list A) f :
  (∀ a, a ∈ l → wp throws (f a) (λ _, True)) → wp throws (p_for_each l f) (λ _, True).
Proof.
  induction l as [|a l IH]; intros Hf; [done|].
  apply wp_seq; [apply Hf; left|]. intros _. apply IH. intros b Hb. apply Hf. by right.
Qed.

Lemma wp_gets {A} throws (f : GossipFailureDetector → A) (Q : A → Prop) :
  (∀ d, holds C (gossip_server_ d) → Q (f d)) → wp throws (p_gets f) Q.
Proof. done. Qed.

Lemma wp_gets_any {A} throws (f : GossipFailureDetector → A) : wp throws (p_gets f) (λ _, True).
Proof. done. Qed.

Lemma wp_now throws : wp throws p_now (λ _, True).
Proof. done. Qed.

Lemma wp_call throws t h : may_call C h → wp throws (p_call t h) (λ _, True).
Proof. done. Qed.

Lemma wp_post throws e c : may_post C e c → wp throws (p_post e c) (answers C c).
Proof. done. Qed.

Lemma wp_post_any throws e c : may_post C e c → wp throws (p_post e c) (λ _, True).
Proof. done. Qed.

Lemma wp_client_to {os : OS} throws x : wp throws (p_client_to x) (λ c, dest_ c = x).
Proof. done. Qed.
End Logic.

(** ** The detector's methods *)

(** What the conditions have to provide for the methods to meet them; [good] is what is
    known of the reports that are prepared. *)
Class Lawful {os : OS} {ss : StdSort} (C : conditions) (good : SwimReport → Prop) := {
  law_neighbor s i x : holds C s → GetNeighborByIndex i s = Some x → may_pick C x;
  law_report t1 t2 s s' : holds C s → holds C s' →
    good (PrepareReport t1 t2 (set_suspected (suspected_ s') s));
  law_send rep c : good rep → may_pick C (dest_ c) → may_post C (Send_envelope rep) c;
  law_ping c : may_pick C (dest_ c) → may_post C Ping_envelope c;
  law_unanswered c t : may_pick C (dest_ c) → answers C c false →
    may_call C (on_ReportSuspected (dest_ c) t);
  law_request x t c : may_call C (on_ReportSuspected x t) → may_pick C (dest_ c) →
    may_post C (RequestPing_envelope x) c;
  law_alive x t : may_pick C x → may_call C (on_AddAlive x t);
  law_evict x : may_call C (on_evict x)
}.

(** Only the full report may throw [empty_set]. *)
Definition may_throw (k : thread_kind) : Prop :=
  k = of_activity (act_thread thread_report_full).

Section Methods.
Context {os : OS} {ss : StdSort} (C : conditions) (good : SwimReport → Prop) {lawful : Lawful C good}.
Implicit Types (throws : Prop) (x : Server) (c : SwimClient).

(** The loop may throw; the neighbors it finds may be contacted. *)
Lemma wp_round_robin throws fuel n idx others :
  throws → Forall (may_pick C) others →
  wp C throws (p_round_robin fuel n idx others) (Forall (may_pick C)).
Proof.
  intros Ht. revert idx others. induction fuel as [|fuel IH]; intros idx others Ho; [done|].
  cbn [p_round_robin]. destruct (idx <? n)%nat; [|done].
  apply wp_seq; [done|]. intros past. apply wp_seq; [by destruct past|]. intros _.
  apply wp_seq; [done|]. intros index. apply wp_seq; [done|]. intros _.
  eapply (wp_bind _ _ _ _ (λ o, ∀ x, o = Some x → may_pick C x)).
  { apply wp_gets. intros d Hd x. by apply law_neighbor. }
  intros [x|] Hx; [|done]. specialize (Hx x eq_refl). apply wp_seq; [done|]. intros me.
  destruct (Server_eqb x me); [|by apply IH, Forall_insert_set].
  apply wp_seq; [done|]. intros size. destruct (size <=? 1)%nat; [done | by apply IH].
Qed.

Lemma wp_unique_neighbors throws extra k :
  throws → wp C throws (p_unique_neighbors extra k) (Forall (may_pick C)).
Proof. intros Ht. apply wp_seq; [done|]. intros n. by apply wp_round_robin. Qed.

Lemma wp_SendReport_to throws extra c rep x :
  throws → dest_ c = x → good rep → may_pick C x →
  wp C throws (p_SendReport_to extra c rep x) (λ _, True).
Proof.
  intros Ht Hd Hr Hx. unfold p_SendReport_to. subst x.
  eapply wp_bind; [by apply wp_post, law_send|]. intros [] Hok; cbn [negb]; [done|].
  pose proof (λ t, law_unanswered c t Hx Hok) as Hs.
  apply wp_seq; [done|]. intros t. apply wp_seq; [by apply wp_call|]. intros _.
  apply wp_seq; [done|]. intros k.
  eapply wp_bind; [by apply wp_unique_neighbors|]. intros forwards Hf. apply wp_seq; [done|].
  intros time. apply wp_seq; [|done]. apply wp_for_each. intros y Hy.
  rewrite list.Forall_forall in Hf. eapply (wp_bind _ _ _ _ (λ c, dest_ c = y)); [done|].
  intros d Hd. apply wp_seq; [|done]. apply wp_post_any, (law_request _ 0%Z); [done|].
  rewrite Hd. by apply Hf.
Qed.

Lemma wp_report_and_mark throws extra rep x :
  throws → good rep → may_pick C x →
  wp C throws (p_report_and_mark extra rep x) (λ _, True).
Proof.
  intros Ht Hr Hx. unfold p_report_and_mark. eapply wp_bind; [apply wp_client_to|].
  intros c Hc. apply wp_seq; [by apply wp_SendReport_to|]. intros []; [|done].
  apply wp_seq; [done|]. intros t. by apply wp_call, law_alive.
Qed.

Lemma wp_PrepareReport throws : wp C throws p_PrepareReport good.
Proof. intros d Hd t1 d' Hd' t2. by apply law_report. Qed.

Lemma wp_SendReport throws extra type :
  (type = FULL → throws) → wp C throws (p_SendReport extra type) (λ _, True).
Proof.
  intros Ht. unfold p_SendReport. apply wp_seq; [done|]. intros []; [done|].
  eapply wp_bind; [apply wp_PrepareReport|]. intros rep Hr. destruct type.
  - apply wp_seq; [done|]. intros k.
    eapply wp_bind; [by apply wp_unique_neighbors, Ht|]. intros others Ho.
    rewrite list.Forall_forall in Ho. apply wp_for_each. intros x Hx.
    by apply wp_report_and_mark; [apply Ht | | apply Ho].
  - apply wp_catch; [|done]. intros [x|] Hx; [|done]. apply wp_report_and_mark; [done | done|].
    by apply Hx.
Qed.

Lemma wp_ping_and_mark throws x :
  may_pick C x →
  wp C throws (client ← p_client_to x; ok ← p_post Ping_envelope client;
    if (ok : bool) then t ← p_now; p_call t (on_AddAlive x (CurrentTime t)) else Ret tt)
    (λ _, True).
Proof.
  intros Hx. eapply wp_bind; [apply wp_client_to|]. intros c <-.
  apply wp_seq; [by apply wp_post_any, law_ping|]. intros []; [|done].
  apply wp_seq; [done|]. intros t. by apply wp_call, law_alive.
Qed.

Lemma wp_PingRandomSuspected throws : wp C throws p_PingRandomSuspected (λ _, True).
Proof.
  apply wp_catch; [|done]. intros [x|] Hx; [|done]. by apply (wp_ping_and_mark True), Hx.
Qed.

Lemma wp_GarbageCollectSuspected throws : wp C throws p_GarbageCollectSuspected (λ _, True).
Proof.
  unfold p_GarbageCollectSuspected. apply wp_seq; [by apply (wp_bind _ _ p_PrepareReport _ good);
    [apply wp_PrepareReport|]|]. intros rep. do 2 (apply wp_seq; [done|]; intros ?).
  apply wp_for_each. intros r _. destruct (expired _ _ r); [|done].
  apply wp_seq; [done|]. intros t. apply wp_call, law_evict.
Qed.

Lemma wp_AddNeighbor throws x : may_pick C x → wp C throws (p_AddNeighbor x) (λ _, True).
Proof.
  intros Hx. unfold p_AddNeighbor. eapply wp_bind; [apply wp_client_to|]. intros c <-.
  eapply wp_bind; [by apply wp_post, law_ping|]. intros ok Hok. apply wp_seq; [done|]. intros t.
  destruct ok; apply wp_call; [by apply law_alive | by apply law_unanswered].
Qed.

Lemma wp_ForwardThread throws x d :
  may_pick C d → (∀ t, good (mkSwimReport x [] [MakeRecord d t])) →
  wp C throws (p_ForwardThread x (Some d)) (λ _, True).
Proof.
  intros Hd Hr. unfold p_ForwardThread. apply wp_seq; [done|]. intros t.
  eapply (wp_bind _ _ _ _ (λ c, dest_ c = d)); [done|]. intros c <-.
  eapply wp_bind; [by apply wp_post, law_send|]. intros [] Hok; [done|].
  apply wp_seq; [done|]. intros t'. by apply wp_call, law_unanswered.
Qed.

(** Every thread keeps to the conditions, if it was started for somebody it may contact. *)
Lemma wp_program extra k :
  (∀ x, k = of_activity (act_AddNeighbor x) → may_pick C x) →
  (∀ x d, k = of_forward x d → ∃ y, d = Some y ∧
     may_pick C y ∧ ∀ t, good (mkSwimReport x [] [MakeRecord y t])) →
  wp C (may_throw k) (program_of extra k) (λ _, True).
Proof.
  intros Ha Hf. destruct k as [[t|x]|x d|e]; cbn [program_of p_perform].
  - unfold p_thread_round. apply wp_seq; [done|]. intros b.
    destruct b; [cbn [negb]|done]. destruct t.
    + by apply wp_SendReport.
    + by apply wp_SendReport.
    + apply wp_GarbageCollectSuspected.
    + apply wp_PingRandomSuspected.
  - by apply wp_AddNeighbor, Ha.
  - destruct (Hf x d eq_refl) as (y & -> & ? & ?). by apply wp_ForwardThread.
  - done.
Qed.
End Methods.
