(* ===== verification/Cluster.v ===== *)
(** * A cluster of servers

    Many detectors, each with its embedded server and its threads, exchanging messages
    over an unreliable network.  The threads of a server interleave step by step
    ([Threads]), and so do the servers.  The messages in flight are a pool that only
    grows: a message may be delivered at any later time, more than once, in any order, or
    never.  A message that cannot be encoded (a name that is not UTF-8, say) is not parsed by
    its receiver and is never delivered; one to an address that [connect] refuses is never
    sent.  Servers join, stop, start again and crash at any time, and what a server is
    told about the fate of its requests is arbitrary, within what the network is assumed
    to do. *)

From Stdlib Require Import ZArith Lia String.
From stdpp Require Import base list strings gmap relations.
From S2P Require Import Prelude StdSet SwimCommon UtilsHost SwimClient SwimServer Membership Refinement Report Fixtures Codec ServerProps ServerTypes ServerLoop Interleaving Handlers Neighbors Detector DetectorProps Threads ThreadLogic.

(** ** Clean servers

    [trusted] is a set of servers, by [hostname:port].  A server is clean when it
    suspects no trusted server and has not told anybody to. *)

Section Clean.
Context {os : OS} (trusted : string * Z → Prop) (me : Server).
Implicit Types (s : SwimServer) (x : Server) (r : ServerRecord).

Definition untrusted x : Prop := ¬ trusted (key x).
Definition casts_none (l : list ServerRecord) : Prop := Forall (λ r, untrusted (server r)) l.

(** The submessages the receiver uses are present, and none of them casts suspicion
    on a trusted server. *)
Record clean_envelope (e : SwimEnvelope) : Prop := {
  clean_payload : payload_present e;
  clean_report rep : report e = Some rep → casts_none (suspected rep);
  clean_destination d : destination_server e = Some d → untrusted d
}.

Definition clean_effect (e : Effect) : Prop :=
  match e with
  | StatusCallback _ _ => True
  | Posted _ envelope => clean_envelope envelope
  | ForwardThread _ d => ∃ y, d = Some y ∧ untrusted y
  end.

Record clean s : Prop := {
  clean_sets : sets_inv s;
  clean_suspected : casts_none (suspected_ s);
  clean_effects : Forall clean_effect (effects_ s)
}.

Lemma clean_new host p cb threads poll : clean (newSwimServer host p cb threads poll).
Proof. split; [|constructor..]. destruct (inv_new host p cb threads poll). by constructor. Qed.

Lemma clean_stopped b s : clean s → clean (set_stopped b s).
Proof. intros [[] Hs He]. split; [by constructor | done..]. Qed.

Lemma clean_UpdateLamportTime t s : clean s → clean (UpdateLamportTime t s).
Proof. intros [[] Hs He]. split; [by constructor | done..]. Qed.

Lemma raise_untrusted now r set :
  ordered set → casts_none set → casts_none (raise_incarnation now r set).
Proof.
  intros Ho. apply Forall_raise; [|done]. intros x y E. unfold untrusted. by rewrite E.
Qed.

Lemma effects_callback_clean q st s :
  Forall clean_effect (effects_ s) → Forall clean_effect (effects_ (callback q st s)).
Proof.
  intros He. rewrite effects_callback. apply Forall_app. split; [done|].
  case_if; by repeat constructor.
Qed.

(** *** Critical sections *)

(** What a call, a job and a handler say about trusted servers. *)
Definition clean_thread (th : thread) : Prop :=
  operation me th ∧
  (act_insert_suspected ∈ todo th → untrusted (server (local_record th))).

Definition clean_job (j : job) : Prop :=
  match j with
  | job_ReportSuspected x _ => untrusted x
  | job_start_forward _ d => ∃ y, d = Some y ∧ untrusted y
  | _ => True
  end.

Record clean_task (t : task) : Prop := {
  clean_current : clean_thread (Handlers.current t);
  clean_group : Forall clean_job (group t);
  clean_groups : Forall (Forall clean_job) (groups t)
}.

Definition clean_handler (h : handler) : Prop :=
  match h with
  | on_ReportSuspected x _ => untrusted x
  | on_forward _ d => ∃ y, d = Some y ∧ untrusted y
  | on_report _ rep => casts_none (suspected rep)
  | _ => True
  end.

(** An action keeps the server clean if it may insert its subject. *)
Lemma clean_act a r ins s :
  casts_none (suspected_ s) → Forall clean_effect (effects_ s) →
  (a = act_insert_suspected → untrusted (server r)) →
  let '(r', _, s') := act a r ins s in
  key (server r') = key (server r) ∧
  casts_none (suspected_ s') ∧ Forall clean_effect (effects_ s').
Proof.
  intros Hs He Ha. destruct a as [| | | | | |st]; cbn [act].
  - split; [done|]. split; [by apply Forall_erase_set | done].
  - done.
  - done.
  - by destruct (insert r (alive_ s)).
  - destruct (negb ins); [|done]. by destruct (find r (alive_ s)).
  - pose proof (Forall_insert_set (λ q, untrusted (server q)) r (suspected_ s) (Ha eq_refl) Hs).
    by destruct (insert r (suspected_ s)).
  - destruct st, ins; (split; [done|]); rewrite ?suspected_callback;
      auto using effects_callback_clean.
Qed.

Lemma clean_step_thread th s th' s' :
  clean_thread th → clean s → self s = me → step_thread th s = Some (th', s') →
  clean_thread th' ∧ clean s' ∧ self s' = me.
Proof.
  intros [Hop Ht] [Hi Hs He] Hme Hstep.
  destruct (pool_step_sets [th] s [th'] s') as (H1 & H2 & H3); [|by rewrite Hme; constructor|done|].
  { by apply (pool_thread [th] 0 th th' s s'). }
  rewrite H3, Hme in H1. apply Forall_cons in H1 as [Hop' _].
  unfold step_thread in Hstep. destruct (todo th) as [|a l] eqn:E; [done|].
  pose proof (clean_act a (local_record th) (inserted_ th) s Hs He) as Hact.
  destruct (act a (local_record th) (inserted_ th) s) as [[r ins] s1]. injection Hstep as <- <-.
  destruct Hact as (Hk & Hs1 & He1). { intros ->. apply Ht. left. }
  split; [|split; [by split | congruence]]. split; [done|].
  cbn. intros Hl. unfold untrusted in *. rewrite Hk. apply Ht. by right.
Qed.

Lemma clean_idle : clean_thread idle.
Proof. split; [apply idle_operation | by intros ?%elem_of_nil]. Qed.

Lemma clean_AddAlive_thread now x t : clean_thread (AddAlive_thread now x t).
Proof.
  split; [apply AddAlive_operation|]. unfold AddAlive_thread, add_actions. cbn [todo].
  case_if; intros H; repeat (apply elem_of_cons in H as [H|H]; [done|]); by apply elem_of_nil in H.
Qed.

Lemma clean_do_job now j f s :
  clean s → clean_job j → let '(_, _, s') := do_job now j f s in clean s' ∧ self s' = self s.
Proof.
  intros [Hi Hs He] Hj. pose proof (job_keeps_sets now j f s Hi) as Hk.
  destruct j as [| | | |r|r|x|x|x|from|x d]; cbn [do_job] in *; try done.
  - destruct Hk. split; [by split | done].
  - destruct Hk as [Hk ?]. split; [|done]. split; [done | | done].
    apply raise_untrusted; [apply Hi | done].
  - destruct Hk as [Hk ?]. split; [|done]. split; [done | by apply Forall_erase_set | done].
  - pose proof (Forall_erase_set (λ q, untrusted (server q)) (MakeRecord x now) _ Hs) as He'.
    destruct (erase _ _) as [set num]. destruct Hk as [Hk ?]. by split.
  - destruct Hk as [Hk ?]. split; [|done]. destruct f; [|done].
    split; [done | by rewrite suspected_callback | by apply effects_callback_clean].
  - destruct Hk as [Hk ?]. split; [|done]. split; [done | done |]. apply Forall_app.
    split; [done|]. constructor; [|done]. split; [by split; [eexists|] | by intros ? [=] ..].
  - destruct Hk as [Hk ?]. split; [|done]. split; [done | done |]. apply Forall_app.
    split; [done|]. by constructor.
Qed.

Lemma clean_step_task now t s t' s' :
  clean_task t → clean s → self s = me → step_task me now t s = Some (t', s') →
  clean_task t' ∧ clean s' ∧ self s' = me.
Proof.
  intros [Hc Hg Hgs] Hs Hme. unfold step_task.
  destruct (step_thread (Handlers.current t) s) as [[th s1]|] eqn:E.
  { intros [= <- <-].
    destruct (clean_step_thread _ _ _ _ Hc Hs Hme E) as (? & ? & ?). split; [by split | done]. }
  destruct (group t) as [|j g].
  - destruct (groups t) as [|g gs]; [done|]. intros [= <- <-].
    apply Forall_cons in Hgs as [Hg1 Hgs]. split; [|done]. split; [apply clean_idle | done..].
  - apply Forall_cons in Hg as [Hj Hg]. destruct (call_of me now j) as [th|] eqn:Ec.
    + intros [= <- <-]. split; [|done]. split; [|done..].
      destruct j; simplify_eq/=; [apply clean_AddAlive_thread|].
      split; [apply ReportSuspected_operation | by intros _].
    + pose proof (clean_do_job now j (removed t) s Hs Hj) as Hd.
      destruct (do_job now j (removed t) s) as [[skip f] s1]. intros [= <- <-].
      destruct Hd as [? ->]. split; [|done]. split; [apply clean_idle | by destruct skip | done].
Qed.

Lemma clean_handler_task now h : clean_handler h → clean_task (handler_task me now h).
Proof.
  intros Hh. split; [apply clean_idle | constructor|]. cbn [groups handler_task].
  destruct h as [| | | |from rep|]; cbn [handler_jobs clean_handler] in *; try by repeat constructor.
  constructor; [by repeat constructor|]. apply Forall_app. split; apply Forall_fmap.
  - apply Forall_true. intros r. cbn. unfold alive_entry. case_if; by repeat constructor.
  - eapply Forall_impl; [exact Hh|]. intros r Hr. cbn. unfold suspected_entry.
    case_if; by repeat constructor.
Qed.

Lemma clean_message e :
  clean_envelope e →
  ∃ oh, message_handler e = Done oh ∧ ∀ h, oh = Some h → clean_handler h.
Proof.
  intros [[Hp Hq] Hr Hd]. unfold message_handler, pointers_present in *.
  destruct (type e); try (by exists None).
  - destruct Hp as [a ->]. eexists. split; [done|]. by intros h [= <-].
  - destruct Hp as [[a ->] [rep E]]. rewrite E. eexists. split; [done|]. intros h [= <-]. by apply Hr.
  - destruct Hp as [a ->]. destruct (Hq eq_refl) as [d E]. rewrite E. eexists. split; [done|].
    intros h [= <-]. exists d. split; [done|]. by apply Hd.
Qed.
End Clean.

(** ** Clean threads *)

(** A network on which every request to a trusted server is answered OK. *)
Definition reliable_for (trusted : string * Z → Prop) (ex : Exchange) : Prop :=
  ∀ x payload timeout, trusted (key x) →
    ∃ reply, ex (uri_of x) payload timeout = Received reply ∧ c_str reply = "OK".

Section CleanPrograms.
Context {os : OS} {ss : StdSort} (trusted : string * Z → Prop).
Implicit Types (x : Server) (c : SwimClient).

Lemma clean_ping c : clean_envelope trusted (stamp c Ping_envelope).2.
Proof. split; [by split; [eexists|] | by intros ? [=] ..]. Qed.

Lemma clean_send c rep :
  casts_none trusted (suspected rep) → clean_envelope trusted (stamp c (Send_envelope rep)).2.
Proof.
  intros Hr. split; [split; [split; by eexists | done] | by intros ? [= <-] | by intros ? [=]].
Qed.

Lemma clean_request c x :
  untrusted trusted x → clean_envelope trusted (stamp c (RequestPing_envelope x)).2.
Proof. intros Hx. split; [split; by eexists | by intros ? [=] | by intros ? [= <-]]. Qed.

(** A thread sends clean messages only, and casts suspicion on a server only after it has
    not answered. *)
Definition trust_conditions : conditions := {|
  holds := clean trusted;
  may_call := clean_handler trusted;
  may_pick := λ _, True;
  may_post e c := clean_envelope trusted (stamp c e).2;
  answers c ok := ok = false → untrusted trusted (dest_ c);
  may_refuse uri := zmq_connect uri = false
|}.

#[export] Instance trust_lawful :
  Lawful trust_conditions (λ rep, casts_none trusted (suspected rep)).
Proof.
  split; cbn -[stamp]; auto using clean_ping, clean_send, clean_request.
  intros t1 t2 s s' _ [_ Hs _]. unfold casts_none in *. rewrite list.Forall_forall in Hs |- *.
  intros r Hr. by eapply Hs, kept_elem.
Qed.

Lemma clean_program extra k :
  (∀ x d, k = of_forward x d → ∃ y, d = Some y ∧ untrusted trusted y) →
  wp trust_conditions (may_throw k) (program_of extra k) (λ _, True).
Proof.
  intros Hf. apply (wp_program _ (λ rep, casts_none trusted (suspected rep))); [done|].
  intros x d E. destruct (Hf x d E) as (y & -> & Hy). exists y. split; [done|]. split; [done|].
  intros t. by constructor.
Qed.
End CleanPrograms.

(** ** The threads of a clean server *)

Section CleanThreads.
Context {os : OS} {pb : Protobuf} {env : Environment} {ss : StdSort}.
Context (trusted : string * Z → Prop) (Hnet : ∀ n, reliable_for trusted (exchange_at n)).
Implicit Types (w : World) (r : running) (me : Server).

Record clean_world w : Prop := {
  clean_world_server : clean trusted (server_of w);
  clean_world_requests : Forall (λ q : request, clean_envelope trusted q.1.2) (requests w)
}.

Record clean_running me r : Prop := {
  clean_calling t tk : calling r = Some (t, tk) → clean_task trusted me tk;
  clean_rest : wp (trust_conditions trusted) (may_throw (kind r)) (rest r) (λ _, True)
}.

Lemma clean_goes_on me k p :
  wp (trust_conditions trusted) (may_throw k) p (λ _, True) → clean_running me (mkRunning k None p).
Proof. by split. Qed.

Lemma clean_ask w n : clean_world w → clean_world (mkWorld (detector w) (requests w) n).
Proof. by intros []. Qed.

(** A request to a trusted server is answered, if its address is accepted. *)
Lemma clean_post e c w :
  clean_world w → clean_envelope trusted (stamp c e).2 →
  ∃ res w', post e c w = (res, w') ∧ clean_world w' ∧ detector w' = detector w ∧
    match res with
    | Value ok => ok = false → untrusted trusted (dest_ c)
    | Failed f => ∃ uri, f = connect_refused uri ∧ zmq_connect uri = false
    | Unfinished => False
    end.
Proof.
  intros [Hs Hr] He. destruct (post_cases e c w) as [(ok & Hok & _ & ->)|(_ & Hz & ->)].
  2: { do 2 eexists. split; [done|]. split; [done|]. split; [done|]. by eexists. }
  do 2 eexists. split; [done|]. split; [split; [done|]|split; [done|]].
  - cbn. apply Forall_app. split; [done | by constructor].
  - intros -> Ht. destruct (Hnet (asked w) (dest_ c) (SerializeAsString (stamp c e).2)
      (timeout_ c) Ht) as (reply & Hx & Hreply).
    unfold postMessage, stamp, destinationUri in Hok. simpl in Hok.
    unfold stamp in Hx. simpl in Hx. rewrite Hx, Hreply in Hok. by case_if.
Qed.

Lemma clean_step_running r w r' w' :
  clean_world w → clean_running (self (server_of w)) r → step_running r w = Some (r', w') →
  clean_world w' ∧ self (server_of w') = self (server_of w) ∧
  kind r' = kind r ∧ clean_running (self (server_of w)) r'.
Proof.
  intros Hw [Hc Hp]. unfold step_running.
  destruct (calling r) as [[t tk]|] eqn:Ec.
  { specialize (Hc t tk eq_refl).
    destruct (step_task _ t tk (server_of w)) as [[tk' s']|] eqn:E; intros [= <- <-].
    - destruct (clean_step_task trusted _ t tk _ tk' s' Hc (clean_world_server _ Hw) eq_refl E)
        as (Ht' & Hs' & Hme). split; [split; [done | apply Hw]|]. split; [done|]. split; [done|].
      split; [by intros ? ? [= <- <-] | done].
    - split; [done|]. split; [done|]. split; [done|]. by split. }
  destruct (rest r) as [u|f| |k|i k|t h k|k|set k|e c k] eqn:Er; cbn in Hp; try done.
  - intros [= <- <-]. split_and!; [done..|]. apply clean_goes_on, Hp, Hw.
  - intros [= <- <-]. split_and!; [split; apply Hw|done..|]. by apply clean_goes_on.
  - intros [= <- <-]. split_and!; [done..|]. destruct Hp as [Hh Hp].
    split; [|done]. intros ? ? [= <- <-]. by apply clean_handler_task.
  - intros [= <- <-]. split_and!; [by apply clean_ask|done..|]. apply clean_goes_on, Hp.
  - destruct (pick_spec set w) as (o & n & E). rewrite E. intros [= <- <-].
    split_and!; [by apply clean_ask|done..|]. by apply clean_goes_on, Hp.
  - destruct Hp as [He Hp]. destruct (clean_post e c w Hw He) as (res & w1 & E & Hw1 & Hd & Hok).
    rewrite E. intros [= <- <-]. unfold server_of. cbn. rewrite Hd.
    split_and!; [done..|]. apply clean_goes_on.
    destruct res as [ok|f|]; [by apply Hp | | done]. by destruct Hok as (uri & -> & Hz).
Qed.

Definition clean_threads (p : list running * World) : Prop :=
  clean_world p.2 ∧ Forall (clean_running (self (server_of p.2))) p.1.

Lemma clean_threads_step inbox p p' :
  (∀ msg e, msg ∈ inbox → ParseFromArray msg = Some e → clean_envelope trusted e) →
  threads_step inbox p p' → clean_threads p →
  clean_threads p' ∧ self (server_of p'.2) = self (server_of p.2).
Proof.
  intros Hin Hstep [Hw Hts]. unfold clean_threads.
  destruct Hstep as [ts w i r r' w' Hi Hs|ts w extra a|ts w extra x d Hd|ts w t msg e h Hm He Hh];
    cbn [fst snd] in *.
  - pose proof (Forall_lookup_1 _ _ _ _ Hts Hi) as Hr.
    destruct (clean_step_running r w r' w' Hw Hr Hs) as (Hw' & Hme & _ & Hr').
    rewrite Hme. split; [|done]. split; [done|]. by apply Forall_insert.
  - split; [|done]. split; [done|]. apply Forall_app. split; [done|]. constructor; [|done].
    by apply clean_goes_on, clean_program.
  - split; [|done]. split; [done|]. apply Forall_app. split; [done|]. constructor; [|done].
    apply clean_goes_on, clean_program. intros ? ? [= <- <-].
    pose proof (clean_effects _ _ (clean_world_server _ Hw)) as Hef.
    rewrite list.Forall_forall in Hef. exact (Hef _ Hd).
  - split; [|done]. split.
    { split; [apply (clean_UpdateLamportTime trusted), Hw | apply Hw]. }
    apply Forall_app. split; [exact Hts|]. constructor; [|done].
    destruct (clean_message trusted e (Hin _ _ Hm He)) as (oh & Eh & Hc).
    rewrite Hh in Eh. injection Eh as <-.
    split; [|done]. intros ? ? [= <- <-]. by apply clean_handler_task, Hc.
Qed.

Lemma clean_threads_steps inbox p p' :
  (∀ msg e, msg ∈ inbox → ParseFromArray msg = Some e → clean_envelope trusted e) →
  rtc (threads_step inbox) p p' → clean_threads p →
  clean_threads p' ∧ self (server_of p'.2) = self (server_of p.2).
Proof.
  intros Hin. induction 1 as [|p1 p2 p3 Hs _ IH]; intros Hp; [done|].
  destruct (clean_threads_step inbox p1 p2 Hin Hs Hp) as [H2 <-]. by apply IH.
Qed.
End CleanThreads.

(** ** The cluster *)

Record Node := mkNode {
  node_os : OS;
  node_detector : GossipFailureDetector;
  node_threads : list running
}.

(** The servers by address, and the messages sent so far with theirs. *)
Record Cluster := mkCluster {
  nodes : gmap string Node;
  network : list (string * SwimEnvelope)
}.

Definition empty_cluster : Cluster := mkCluster ∅ [].

Definition node_server (nd : Node) : SwimServer := gossip_server_ (node_detector nd).

Section Cluster.
Context {pb : Protobuf} {ss : StdSort} (allowed : Exchange → Prop).

(** The messages for an address, as they are on the wire; those that cannot be encoded are
    not understood there. *)
Definition inbox_of (addr : string) (net : list (string * SwimEnvelope)) : list string :=
  (λ m, SerializeAsString m.2) <$> filter (λ m, m.1 = addr ∧ encodable m.2 = true) net.

(** What a server at address [addr] does, given the messages in flight, and what it
    sends: its threads take steps; its handlers' messages are posted; the background
    threads are started or stopped; [start()] and [stop()]. *)
Inductive node_step {os : OS} (addr : string) (net : list (string * SwimEnvelope))
    (d : GossipFailureDetector) (ts : list running) :
    GossipFailureDetector → list running → list (string * SwimEnvelope) → Prop :=
  | node_run (env : Environment) ts' w' :
      (∀ n, allowed (exchange_at n)) →
      rtc (threads_step (inbox_of addr net)) (ts, mkWorld d [] 0) (ts', w') →
      node_step addr net d ts (detector w') ts' (fst <$> requests w')
  | node_post uri e :
      Posted uri e ∈ effects_ (gossip_server_ d) → zmq_connect uri = true →
      node_step addr net d ts d ts [(uri, e)]
  | node_start_threads :
      node_step addr net d ts (detector (InitAllBackgroundThreads (mkWorld d [] 0)).2) ts []
  | node_stop_threads :
      node_step addr net d ts (detector (StopAllBackgroundThreads true (mkWorld d [] 0)).2) ts []
  | node_switch b :
      node_step addr net d ts (set_gossip_server (set_stopped b (gossip_server_ d)) d) ts [].

Inductive cluster_step (c : Cluster) : Cluster → Prop :=
  | cluster_join addr os host cb port interval grace timeout :
      cluster_step c (mkCluster
        (<[addr := mkNode os (newDetector host cb port interval grace timeout) []]> (nodes c))
        (network c))
  | cluster_crash addr : cluster_step c (mkCluster (delete addr (nodes c)) (network c))
  | cluster_node addr os d ts d' ts' sent :
      nodes c !! addr = Some (mkNode os d ts) → node_step addr (network c) d ts d' ts' sent →
      cluster_step c (mkCluster (<[addr := mkNode os d' ts']> (nodes c)) (network c ++ sent)).

Inductive cluster_reachable : Cluster → Prop :=
  | cluster_start : cluster_reachable empty_cluster
  | cluster_next c c' : cluster_reachable c → cluster_step c c' → cluster_reachable c'.

(** *** The invariant *)

Definition clean_node (trusted : string * Z → Prop) (nd : Node) : Prop :=
  clean_threads (os := node_os nd) trusted (node_threads nd, mkWorld (node_detector nd) [] 0).

Record clean_cluster (trusted : string * Z → Prop) (c : Cluster) : Prop := {
  clean_nodes : map_Forall (λ _, clean_node trusted) (nodes c);
  clean_network : Forall (λ m, clean_envelope trusted m.2) (network c)
}.

Context {laws : ProtobufLaws pb}.

Lemma clean_inbox trusted addr net msg e :
  Forall (λ m, clean_envelope trusted m.2) net →
  msg ∈ inbox_of addr net → ParseFromArray msg = Some e → clean_envelope trusted e.
Proof.
  intros Hnet ([u e'] & -> & [[_ He] Hin]%list_elem_of_filter)%list_elem_of_fmap. cbn.
  rewrite parse_serialize by done. intros [= <-]. rewrite list.Forall_forall in Hnet. exact (Hnet _ Hin).
Qed.

(** A change of the server that its threads do not notice. *)
Lemma clean_threads_detector {os : OS} trusted ts d d' :
  clean_threads trusted (ts, mkWorld d [] 0) → clean trusted (gossip_server_ d') →
  self (gossip_server_ d') = self (gossip_server_ d) →
  clean_threads trusted (ts, mkWorld d' [] 0).
Proof.
  intros [_ Hts] Hd E. split; [by split; [|constructor]|].
  change (Forall (clean_running trusted (self (gossip_server_ d'))) ts). by rewrite E.
Qed.

Lemma clean_node_step {os : OS} trusted addr net d ts d' ts' sent :
  (∀ ex, allowed ex → reliable_for trusted ex) →
  Forall (λ m, clean_envelope trusted m.2) net →
  clean_threads trusted (ts, mkWorld d [] 0) → node_step addr net d ts d' ts' sent →
  clean_threads trusted (ts', mkWorld d' [] 0) ∧ Forall (λ m, clean_envelope trusted m.2) sent.
Proof.
  intros Hex Hnet Hc Hstep. pose proof Hc as [[Hs _] _]. change (clean trusted (gossip_server_ d)) in Hs.
  destruct Hstep as [env ts' w' Henv Hrun | uri e Hin Hz | | | b].
  - destruct (clean_threads_steps trusted (λ n, Hex _ (Henv n)) (inbox_of addr net) _ _
      (λ msg e, clean_inbox trusted addr net msg e Hnet) Hrun Hc) as [[[Hs' Hr'] Hts'] E].
    split; [|by apply Forall_fmap]. split; [by split; [|constructor] | exact Hts'].
  - split; [done|]. pose proof (clean_effects _ _ Hs) as He. rewrite list.Forall_forall in He.
    apply He in Hin. by constructor.
  - split; [|constructor]. eapply clean_threads_detector; [exact Hc|..];
      unfold InitAllBackgroundThreads; by case_if.
  - split; [|constructor]. eapply clean_threads_detector; [exact Hc|..];
      unfold StopAllBackgroundThreads; cbn; case_if; try done.
    by apply clean_stopped, clean_stopped.
  - split; [|constructor]. eapply clean_threads_detector; [exact Hc | by apply clean_stopped | done].
Qed.

Lemma clean_reachable trusted c :
  (∀ ex, allowed ex → reliable_for trusted ex) →
  cluster_reachable c → clean_cluster trusted c.
Proof.
  intros Hex. induction 1 as [|c c' _ [Hn Hnet] Hstep].
  { split; [apply map_Forall_empty | constructor]. }
  destruct Hstep as [addr os host cb port interval grace timeout | addr | addr os d ts d' ts' sent Hd Hs].
  - split; [|done]. apply map_Forall_insert_2; [|done].
    split; [split; [apply clean_new | constructor] | constructor].
  - split; [by apply map_Forall_delete | done].
  - destruct (clean_node_step trusted addr (network c) d ts d' ts' sent Hex Hnet (Hn _ _ Hd) Hs)
      as [Hd' Hsent].
    split; [by apply map_Forall_insert_2 | by apply Forall_app].
Qed.
End Cluster.

(** ** What the cluster guarantees *)

Section Guarantees.
Context {pb : Protobuf} {laws : ProtobufLaws pb} {ss : StdSort}.

(** C6 Servers cannot crash each other.  In every state a cluster can reach, however
    the threads of the servers interleave, whatever the network loses, repeats or reorders
    and whoever joins, stops or crashes: the two sets of every server are strictly ordered,
    hold no server on port 0, and the suspected one not the server itself; a message in flight
    to it that can be encoded, and whose report, if any, names a sender that it can connect
    to, is handled and answered OK; a thread has crashed only as a full report that found no
    neighbor, or because it posted to an address that [connect] refuses; and every round of a
    background thread and every [AddNeighbor] that starts now and is not interrupted completes
    or ends at such an address. *)
Theorem cluster_never_fails c addr nd :
  cluster_reachable (λ _, True) c → nodes c !! addr = Some nd →
  sets_inv (os := node_os nd) (node_server nd) ∧
  (∀ t e, (addr, e) ∈ network c → encodable e = true → pings_accepted (os := node_os nd) e →
     ∃ s', handle_message (os := node_os nd) t (SerializeAsString e) (node_server nd) =
       Done (s', "OK")) ∧
  (∀ r f, r ∈ node_threads nd → rest r = Crash f →
     f = empty_set ∧ may_throw (kind r) ∨
     ∃ uri, f = connect_refused uri ∧ zmq_connect (OS := node_os nd) uri = false) ∧
  (∀ (env : Environment) extra a,
     ∃ p w', rtc (alone (os := node_os nd))
       (starting (os := node_os nd) extra (of_activity a), mkWorld (node_detector nd) [] 0)
       (mkRunning (of_activity a) None p, w') ∧
       (p = Ret tt ∨
        ∃ uri, p = Crash (connect_refused uri) ∧ zmq_connect (OS := node_os nd) uri = false)).
Proof.
  intros Hc Hnd. apply (clean_reachable _ (λ _, False)) in Hc as [Hn Hnet];
    [|by intros ? ? ? ? ? []].
  destruct (Hn _ _ Hnd) as [[[Hi _ _] _] Hts]. split_and!; [exact Hi|..].
  - intros t e He Henc Hping. rewrite list.Forall_forall in Hnet. apply Hnet in He.
    destruct (clean_message _ e He) as (oh & Eh & _).
    eexists. apply (handle_encoded (os := node_os nd)); [done | | done].
    by rewrite (dispatch_handler t e), Eh.
  - intros r f Hr E. rewrite list.Forall_forall in Hts. destruct (Hts r Hr) as [_ Hp].
    rewrite E in Hp. destruct f; [by left | right; by eexists | done..].
  - intros env extra a.
    destruct (threads_run_alone (os := node_os nd) extra a (mkWorld (node_detector nd) [] 0) Hi)
      as (He & _ & Hrun).
    eexists _, _. split; [exact Hrun|].
    destruct (perform a _).1 as [[]|[]|]; try done; [by left | right; by eexists].
Qed.

(** C7 No false suspicions.  If every request sent to certain servers is answered OK,
    then no server of the cluster ever suspects one of them, and no report in flight
    lists one of them as suspected, however the threads interleave and whatever happens to
    the other servers and to the messages between them: a suspicion is only ever born from
    an unanswered request. *)
Theorem answering_servers_never_suspected trusted c x :
  cluster_reachable (reliable_for trusted) c → trusted (key x) →
  (∀ addr nd, nodes c !! addr = Some nd → seek x (suspected_ (node_server nd)) = None) ∧
  (∀ addr e rep, (addr, e) ∈ network c → report e = Some rep → seek x (suspected rep) = None).
Proof.
  intros Hc Hx. apply (clean_reachable _ trusted) in Hc as [Hn Hnet]; [|done].
  assert (∀ l, casts_none trusted l → seek x l = None) as Hseek.
  { intros l Hl. unfold casts_none in Hl. rewrite list.Forall_forall in Hl.
    apply seek_None. intros r Hr E. apply (Hl r Hr). by rewrite E. }
  split.
  - intros addr nd Hnd. apply Hseek. by destruct (Hn _ _ Hnd) as [[[] _] _].
  - intros addr e rep He Hrep. rewrite list.Forall_forall in Hnet.
    by apply Hseek, (Hnet _ He).
Qed.
End Guarantees.

(** ** Evaluated on a small cluster *)

(** [host1] answers every request, nobody else does. *)
Definition only_host1 : Exchange := λ uri _ _,
  if String.eqb uri (uri_of host1) then Received "OK" else PollTimedOut.

Definition env_host1 : Environment := {|
  clock_at := λ _, t0;
  exchange_at := λ _, only_host1;
  draw_at := λ _ _, 0
|}.

Definition joined (host : string) (port : Z) {os : OS} : Node :=
  mkNode os (newDetector host true port 2000 35000 500) [].

Definition two_nodes : Cluster :=
  mkCluster
    (<["tcp://host1:1234" := joined "host1" 1234 (os := os1)]>
      (<["tcp://node0:9200" := joined "node0" 9200]> ∅)) [].

(** [node0] and [host1] join; two threads of [node0] add [host1], which answers, and
    [host2], which does not, taking turns. *)
Definition two_calls : list running :=
  [starting (ss := merge_StdSort) 0 (of_activity (act_AddNeighbor host1));
   starting (ss := merge_StdSort) 0 (of_activity (act_AddNeighbor host2))].

Definition node0_after : list running * World :=
  schedule (pb := bit_codec) (env := env_host1) (concat (replicate 20 [0; 1]))
    (two_calls, mkWorld (node_detector (joined "node0" 9200)) [] 0).

Definition small_cluster : Cluster :=
  mkCluster
    (<["tcp://node0:9200" := mkNode os0 (detector node0_after.2) node0_after.1]> (nodes two_nodes))
    (network two_nodes ++ (fst <$> requests node0_after.2)).

Lemma small_cluster_reachable (allowed : Exchange → Prop) :
  allowed only_host1 →
  cluster_reachable (pb := bit_codec) (ss := merge_StdSort) allowed small_cluster.
Proof.
  intros Hal. apply (cluster_next _ two_nodes).
  { eapply cluster_next; [eapply cluster_next; [constructor|]|];
      [apply (cluster_join _ empty_cluster) | apply (cluster_join _ (mkCluster _ _))]. }
  apply (cluster_node _ two_nodes "tcp://node0:9200" os0
    (node_detector (joined "node0" 9200)) []); [reflexivity|].
  apply (node_run _ _ _ _ _ env_host1); [done|].
  eapply rtc_l; [apply (threads_activity _ [] _ 0 (act_AddNeighbor host1))|].
  eapply rtc_l; [apply (threads_activity _ [_] _ 0 (act_AddNeighbor host2))|].
  rewrite <- surjective_pairing. apply schedule_steps.
Qed.

Lemma cluster_never_fails_witness :
  ∃ s' e, network small_cluster !! 0 = Some ("tcp://host1:1234", e) ∧
    handle_message (os := os1) (pb := bit_codec) t0 (SerializeAsString (Protobuf := bit_codec) e)
      (node_server (joined "host1" 1234 (os := os1))) = Done (s', "OK").
Proof.
  destruct (cluster_never_fails (pb := bit_codec) (ss := merge_StdSort) small_cluster
    "tcp://host1:1234" (joined "host1" 1234 (os := os1))) as (_ & H & _).
  - apply small_cluster_reachable. exact I.
  - reflexivity.
  - assert (∃ e, network small_cluster !! 0 = Some ("tcp://host1:1234", e)) as [e He]
      by (vm_compute; eexists; reflexivity).
    assert (encodable e = true ∧ report e = None) as [Henc Hrep].
    { vm_compute in He. injection He as <-. split; vm_compute; reflexivity. }
    destruct (H t0 e (list_elem_of_lookup_2 _ _ _ He) Henc) as (s' & Hs').
    { intros rep E. rewrite Hrep in E. discriminate E. }
    exists s', e. split; [exact He | exact Hs'].
Defined.

Lemma only_host1_reliable : reliable_for (λ k, k = key host1) only_host1.
Proof.
  intros x payload timeout Hx. exists "OK". split; [|done].
  unfold only_host1. by rewrite (uri_of_key _ _ Hx), String.eqb_refl.
Qed.

(** [node0] does suspect [host2]. *)
Lemma answering_servers_never_suspected_witness :
  seek host1 (suspected_ (server_of node0_after.2)) = None ∧
  is_Some (seek host2 (suspected_ (server_of node0_after.2))).
Proof.
  split; [|vm_compute; eexists; reflexivity].
  destruct (answering_servers_never_suspected (pb := bit_codec) (ss := merge_StdSort)
    (λ k, k = key host1) small_cluster host1) as [H _].
  - apply small_cluster_reachable, only_host1_reliable.
  - reflexivity.
  - apply (H "tcp://node0:9200" (mkNode os0 (detector node0_after.2) node0_after.1)). reflexivity.
Defined.
