(* ===== verification/UtilsParse.v ===== *)
(** * String utilities ([utils.cpp], [utils.hpp]): [trim], [split], [Vec2Str]

    Strings are lists of characters.  [std::string::find], [substr] and the
    [find_..._not_of] searches are written out; a [substr] past the end throws
    [std::out_of_range], which is a value of the result type. *)

From Stdlib Require Import ZArith Lia String Ascii.
From stdpp Require Import base list strings.
From S2P Require Import Prelude.

Abbreviation str := (list ascii).
Definition chars (s : string) : str := String.list_ascii_of_string s.

Definition space : ascii := Ascii.ascii_of_nat 32.
Definition comma : ascii := Ascii.ascii_of_nat 44.

(** ** [std::string] *)

(** [s.find(sep)]; [None] is [npos]. *)
Fixpoint find_str (sep s : str) : option nat :=
  if bool_decide (sep `prefix_of` s) then Some 0
  else match s with
       | [] => None
       | _ :: s => S <$> find_str sep s
       end.

(** [s.substr(pos)] *)
Definition substr_from (pos : nat) (s : str) : option str :=
  if pos <=? length s then Some (drop pos s) else None.

(** [s.find_first_not_of(c)] and [s.find_last_not_of(c)]. *)
Fixpoint find_first_not_of (c : ascii) (s : str) : option nat :=
  match s with
  | [] => None
  | a :: s => if decide (a = c) then S <$> find_first_not_of c s else Some 0
  end.

Fixpoint find_last_not_of (c : ascii) (s : str) : option nat :=
  match s with
  | [] => None
  | a :: s =>
      match find_last_not_of c s with
      | Some i => Some (S i)
      | None => if decide (a = c) then None else Some 0
      end
  end.

(** ** The functions *)

Definition trim (s : str) : str :=
  match find_first_not_of space s, find_last_not_of space s with
  | Some strBegin, Some strEnd =>
      let strRange := strEnd - strBegin + 1 in
      take strRange (drop strBegin s)
  | _, _ => []
  end.

Inductive split_result :=
  | Values (results : list str)
  | OutOfRange
  | SplitOutOfFuel.

(** One turn of the loop removes at least one character. *)
Fixpoint split_loop (fuel : nat) (sep : str) (trim_spaces preserve_empty : bool)
    (remains : str) (results : list str) : split_result :=
  match fuel with
  | O => SplitOutOfFuel
  | S fuel =>
      match find_str sep remains with
      | Some pos =>
          let value := take pos remains in
          let value := if trim_spaces then trim value else value in
          let results :=
            if negb (bool_decide (value = [])) || preserve_empty then results ++ [value]
            else results in
          match substr_from (pos + 1) remains with
          | Some remains => split_loop fuel sep trim_spaces preserve_empty remains results
          | None => OutOfRange
          end
      | None =>
          Values (if bool_decide (remains = []) then results else results ++ [remains])
      end
  end.

Definition split (values sep : str) (trim_spaces preserve_empty : bool) : split_result :=
  split_loop (S (S (length values))) sep trim_spaces preserve_empty values [].

(** [Vec2Str<T>]; [show] is [operator<<] of the element type. *)
Fixpoint Vec2Str_loop {T} (show : T → str) (sep : str) (first : bool) (vec : list T) (out : str)
    : str :=
  match vec with
  | [] => out
  | t :: vec =>
      let out := if negb first then out ++ sep else out in
      Vec2Str_loop show sep false vec (out ++ show t)
  end.

Definition Vec2Str {T} (show : T → str) (sep : str) (vec : list T) : str :=
  Vec2Str_loop show sep true vec [].

Example split_doc : split (chars "one,two, three ,,4") [comma] true true =
  Values (chars <$> ["one"; "two"; "three"; ""; "4"]).
Proof. reflexivity. Qed.

(** ** [trim] *)

Lemma find_first_not_of_spec c s :
  match find_first_not_of c s with
  | None => s = replicate (length s) c
  | Some b => s = replicate b c ++ drop b s ∧ ∃ a, s !! b = Some a ∧ a ≠ c
  end.
Proof.
  induction s as [|a s IH]; simpl; [done|]. case_decide as E.
  - subst. destruct (find_first_not_of c s) as [b|]; simpl.
    + destruct IH as [IH Hx]. split; [by f_equal | done].
    + by f_equal.
  - split; [done|]. by exists a.
Qed.

Lemma find_last_not_of_spec c s :
  match find_last_not_of c s with
  | None => s = replicate (length s) c
  | Some e => s = take (S e) s ++ replicate (length s - S e) c ∧
      ∃ a, s !! e = Some a ∧ a ≠ c
  end.
Proof.
  induction s as [|a s IH]; simpl; [done|].
  destruct (find_last_not_of c s) as [e|]; simpl.
  - destruct IH as [IH Hx]. split; [by f_equal | done].
  - case_decide as E; [subst; by f_equal|]. split; [|by exists a].
    rewrite Nat.sub_0_r. by f_equal.
Qed.

(** [trim] removes exactly the leading and trailing spaces: the string is the
    trimmed one between two runs of spaces, and the trimmed one neither starts nor
    ends with a space. *)
Theorem trim_spec s :
  ∃ a b, s = replicate a space ++ trim s ++ replicate b space ∧
    head (trim s) ≠ Some space ∧ last (trim s) ≠ Some space.
Proof.
  unfold trim. pose proof (find_first_not_of_spec space s) as Hb.
  pose proof (find_last_not_of_spec space s) as He.
  destruct (find_first_not_of space s) as [b|].
  2: { exists (length s), 0. simpl. rewrite app_nil_r. split; [done|]. split; done. }
  destruct (find_last_not_of space s) as [e|].
  2: { exists (length s), 0. simpl. rewrite app_nil_r. split; [done|]. split; done. }
  destruct Hb as [Hb (x & Hx & Hnx)], He as [He (y & Hy & Hny)].
  assert (b ≤ e) as Hle.
  { destruct (decide (b ≤ e)) as [|Hgt]; [done|]. exfalso.
    rewrite Hb, lookup_app_l, lookup_replicate in Hy by (rewrite length_replicate; lia).
    destruct Hy; congruence. }
  pose proof (lookup_lt_Some _ _ _ Hx) as Hbl. pose proof (lookup_lt_Some _ _ _ Hy) as Hel.
  exists b, (length s - S e). split_and!.
  - rewrite Hb at 1. f_equal. rewrite He at 1.
    rewrite drop_app_le by (rewrite length_take; lia). f_equal.
    rewrite take_drop_commute. f_equal. f_equal. lia.
  - rewrite head_lookup, lookup_take_lt, lookup_drop by lia. rewrite Nat.add_0_r, Hx. congruence.
  - rewrite last_lookup, length_take, length_drop.
    rewrite lookup_take_lt, lookup_drop by lia.
    replace (b + pred ((e - b + 1) `min` (length s - b))) with e by lia. rewrite Hy. congruence.
Qed.

(** ** [split] *)

Lemma find_str_Some sep s p :
  find_str sep s = Some p → p + length sep ≤ length s ∧ sep `prefix_of` drop p s.
Proof.
  revert p. induction s as [|a s IH]; intros p; simpl; case_bool_decide as E.
  - intros [= <-]. apply prefix_length in E as ?. simpl in *. split; [lia | done].
  - done.
  - intros [= <-]. apply prefix_length in E as ?. simpl in *. split; [lia | done].
  - destruct (find_str sep s) as [q|]; [|done]. intros [= <-].
    destruct (IH q eq_refl) as [? ?]. simpl. split; [lia | done].
Qed.

(** The fields of a string between occurrences of a character: the terminated ones
    and the rest. *)
Fixpoint fields (c : ascii) (s : str) : list str * str :=
  match s with
  | [] => ([], [])
  | a :: s =>
      let '(l, rest) := fields c s in
      if decide (a = c) then ([] :: l, rest)
      else match l with
           | [] => ([], a :: rest)
           | f :: l => ((a :: f) :: l, rest)
           end
  end.

Lemma fields_find c s :
  fields c s =
    match find_str [c] s with
    | None => ([], s)
    | Some p => let '(l, rest) := fields c (drop (p + 1) s) in (take p s :: l, rest)
    end.
Proof.
  induction s as [|a s IH]; [done|]. simpl find_str. case_bool_decide as E.
  - apply prefix_cons_inv_1 in E as <-. simpl. rewrite drop_0.
    destruct (fields _ s). by rewrite decide_True.
  - assert (a ≠ c) as Ha. { intros ->. apply E, prefix_cons, prefix_nil. }
    simpl. rewrite IH. destruct (find_str [c] s) as [p|]; simpl.
    + destruct (fields c (drop (p + 1) s)) as [l rest]. by rewrite decide_False.
    + by rewrite decide_False.
Qed.

(** What [split] should return for a one-character separator. *)
Definition split_spec (c : ascii) (trim_spaces preserve_empty : bool) (s : str) : list str :=
  let '(l, rest) := fields c s in
  let l := if trim_spaces then trim <$> l else l in
  let l := if preserve_empty then l else filter (.≠ []) l in
  l ++ (if bool_decide (rest = []) then [] else [rest]).

Lemma split_loop_char c t p fuel s results :
  length s < fuel →
  split_loop fuel [c] t p s results = Values (results ++ split_spec c t p s).
Proof.
  revert s results. induction fuel as [|fuel IH]; intros s results Hf; [lia|].
  simpl. unfold split_spec. rewrite fields_find.
  destruct (find_str [c] s) as [pos|] eqn:Hfind.
  - apply find_str_Some in Hfind as [Hpos _]. simpl in Hpos.
    unfold substr_from. rewrite (proj2 (Nat.leb_le (pos + 1) (length s))) by lia.
    rewrite IH by (rewrite length_drop; lia). unfold split_spec.
    destruct (fields c (drop (pos + 1) s)) as [l rest]. f_equal.
    set (v := if t then trim (take pos s) else take pos s).
    assert ((if t then trim <$> (take pos s :: l) else take pos s :: l) =
      v :: (if t then trim <$> l else l)) as -> by (unfold v; by destruct t).
    destruct p; [by rewrite orb_true_r, <- app_assoc|]. rewrite orb_false_r.
    case_bool_decide as Hv; simpl.
    + by rewrite Hv, filter_cons_False by tauto.
    + by rewrite filter_cons_True, <- app_assoc by done.
  - f_equal. replace (if t then trim <$> [] else []) with (@nil str) by (by destruct t).
    replace (if p then [] else filter (.≠ []) []) with (@nil str) by (by destruct p).
    simpl. case_bool_decide; [by rewrite app_nil_r | done].
Qed.

(** With a one-character separator [split] always returns, and returns the
    fields of the string: the text before each separator, trimmed and with empty
    values dropped if so requested; the text after the last separator follows as it is,
    unless it is empty. *)
Theorem split_by_char c t p s : split s [c] t p = Values (split_spec c t p s).
Proof. unfold split. by rewrite split_loop_char by lia. Qed.

Lemma split_loop_total sep t p fuel s results :
  sep ≠ [] → length s < fuel → ∃ l, split_loop fuel sep t p s results = Values l.
Proof.
  intros Hsep. revert s results. induction fuel as [|fuel IH]; intros s results Hf; [lia|].
  simpl. destruct (find_str sep s) as [pos|] eqn:Hfind; [|by eexists].
  apply find_str_Some in Hfind as [Hpos _].
  assert (0 < length sep) by (destruct sep; simpl; [done | lia]).
  unfold substr_from. rewrite (proj2 (Nat.leb_le (pos + 1) (length s))) by lia.
  apply IH. rewrite length_drop. lia.
Qed.

Lemma split_loop_empty_sep t p fuel s results :
  S (length s) < fuel → split_loop fuel [] t p s results = OutOfRange.
Proof.
  revert s results. induction fuel as [|fuel IH]; intros s results Hf; [lia|].
  destruct s as [|a s]; [done|]. simpl in *.
  rewrite drop_0. apply IH. lia.
Qed.

(** [split] returns for every separator but the empty one, for which it
    throws [std::out_of_range] whatever the string. *)
Theorem split_total values sep t p :
  if bool_decide (sep = []) then split values sep t p = OutOfRange
  else ∃ l, split values sep t p = Values l.
Proof.
  unfold split. case_bool_decide as E.
  - subst. apply split_loop_empty_sep. lia.
  - apply split_loop_total; [done | lia].
Qed.

(** Separators longer than a character are only skipped by one character. *)
Example split_long_separator :
  split (chars "one, two, three") (chars ", ") true true =
  Values (chars <$> ["one"; "two"; " three"]).
Proof. reflexivity. Qed.

(** ** [Vec2Str] *)

Lemma Vec2Str_loop_out {T} (show : T → str) sep first vec out :
  Vec2Str_loop show sep first vec out = out ++ Vec2Str_loop show sep first vec [].
Proof.
  revert first out. induction vec as [|t vec IH]; intros first out; simpl.
  { by rewrite app_nil_r. }
  rewrite IH. symmetry. rewrite IH. destruct first; simpl; by rewrite <- ?app_assoc.
Qed.

Lemma Vec2Str_cons {T} (show : T → str) sep t t' vec :
  Vec2Str show sep (t :: t' :: vec) = show t ++ sep ++ Vec2Str show sep (t' :: vec).
Proof.
  unfold Vec2Str. simpl. rewrite Vec2Str_loop_out. symmetry. rewrite Vec2Str_loop_out.
  by rewrite <- !app_assoc.
Qed.

Lemma fields_none c v : c ∉ v → fields c v = ([], v).
Proof.
  induction v as [|a v IH]; intros Hc; [done|]. apply not_elem_of_cons in Hc as [Ha Hc].
  simpl. rewrite IH by done. by rewrite decide_False by congruence.
Qed.

Lemma fields_app c v s :
  c ∉ v → fields c (v ++ c :: s) = let '(l, rest) := fields c s in (v :: l, rest).
Proof.
  induction v as [|a v IH]; intros Hc; simpl.
  { destruct (fields c s). by rewrite decide_True. }
  apply not_elem_of_cons in Hc as [Ha Hc]. rewrite IH by done.
  destruct (fields c s) as [l rest]. by rewrite decide_False by congruence.
Qed.

Lemma fields_Vec2Str c v vec :
  Forall (λ v, c ∉ v) (v :: vec) →
  ∃ l rest, fields c (Vec2Str id [c] (v :: vec)) = (l, rest) ∧ v :: vec = l ++ [rest].
Proof.
  revert v. induction vec as [|v' vec IH]; intros v Hf; inversion Hf as [|? ? Hv Hf']; subst.
  - exists [], v. split; [|done]. by apply fields_none.
  - destruct (IH v' Hf') as (l & rest & Hl & Heq). exists (v :: l), rest.
    rewrite Vec2Str_cons. simpl. rewrite fields_app, Hl, Heq by done. done.
Qed.

(** C23 Joining then splitting gives the values back: for values that do not contain
    the separator and whose last one is not empty, [split] undoes [Vec2Str] (when it
    trims, for values without spaces around them). *)
Theorem split_Vec2Str c t vec :
  Forall (λ v, c ∉ v) vec → last vec ≠ Some [] → (t = true → Forall (λ v, trim v = v) vec) →
  split (Vec2Str id [c] vec) [c] t true = Values vec.
Proof.
  intros Hc Hlast Ht. unfold split. rewrite split_loop_char by lia. f_equal. simpl.
  destruct vec as [|v vec]; [by destruct t|].
  destruct (fields_Vec2Str c v vec Hc) as (l & rest & Hl & Heq).
  unfold split_spec. rewrite Hl. rewrite Heq in Hlast, Ht |- *.
  rewrite last_snoc in Hlast. rewrite bool_decide_false by congruence. f_equal.
  destruct t; [|done]. specialize (Ht eq_refl). apply Forall_app in Ht as [Ht _].
  rewrite <- (list_fmap_id l) at 2. apply list_fmap_ext. intros i x Hi.
  by apply (Forall_lookup_1 _ _ _ _ Ht Hi).
Qed.

Lemma split_Vec2Str_witness :
  split (Vec2Str id [comma] (chars <$> ["host1:1234"; ""; "host2:9876"])) [comma] true true =
  Values (chars <$> ["host1:1234"; ""; "host2:9876"]).
Proof.
  apply (split_Vec2Str comma true).
  - apply (bool_decide_unpack _). vm_compute. exact I.
  - discriminate.
  - intros _. repeat constructor.
Defined.

(** ** Command-line lists and version strings *)

Section Options.
(** [boost::tokenizer] with [char_separator(" ")], as documented: a text without
    the separator is a single token. *)
Context (tokenizer : str → list str).

(** [validate]: [t.find(",")] is used as a condition, which is false only for a
    position of 0. *)
Definition validate (values tokens : list str) : list str :=
  fold_left (λ values t,
    if bool_decide (find_str [comma] t = Some 0) then values ++ [t]
    else values ++ tokenizer t) tokens values.

(** A list option is not split at its commas: arguments without spaces are
    stored whole, whatever commas they contain. *)
Theorem validate_keeps_commas values tokens :
  (∀ t, space ∉ t → t ≠ [] → tokenizer t = [t]) →
  Forall (λ t, (space ∉ t) ∧ t ≠ []) tokens → validate values tokens = values ++ tokens.
Proof.
  intros Htok Hf. unfold validate. revert values.
  induction Hf as [|t tokens [Hs Hne] _ IH]; intros values; simpl; [by rewrite app_nil_r|].
  assert ((if bool_decide (find_str [comma] t = Some 0) then values ++ [t]
           else values ++ tokenizer t) = values ++ [t]) as ->.
  { rewrite Htok by done. by case_if. }
  by rewrite IH, <- app_assoc.
Qed.
End Options.

(** The tokens of a text between spaces. *)
Definition space_tokens (t : str) : list str :=
  let '(l, rest) := fields space t in filter (.≠ []) (l ++ [rest]).

Lemma validate_keeps_commas_witness :
  validate space_tokens [] [chars "host1:80,host2:80"] = [chars "host1:80,host2:80"].
Proof.
  apply (validate_keeps_commas space_tokens []).
  - intros t Hs Hne. unfold space_tokens. rewrite fields_none by done. simpl.
    by rewrite filter_cons_True by done.
  - repeat constructor; [|discriminate]. apply (bool_decide_unpack _). vm_compute. exact I.
Defined.

(** [PrintVersion]; the release string is generated by the build. *)
Definition PrintVersion (RELEASE_STR server_name version out : str) : str :=
  out ++ server_name ++ chars " Ver. " ++ version ++ chars " (libdist ver. " ++ RELEASE_STR
    ++ chars ")" ++ [Ascii.ascii_of_nat 10].
