(* ===== verification/UtilsRegex.v ===== *)
(** * Parsing addresses ([ParseIpPort], [ParseHostPort], [ParseIp])

    The patterns of [utils.cpp] are values of a small type of regular expressions with
    its language semantics; [regex_match] is a derivative-based matcher, proved to
    decide the language.  The parsers return the groups for the host and the port. *)

From Stdlib Require Import ZArith Lia String Ascii.
From stdpp Require Import base list strings pretty.
From S2P Require Import Prelude UtilsParse.

(** ** Regular expressions *)

Inductive regex :=
  | Void
  | Eps
  | Class_ (p : ascii → bool)
  | Cat (r1 r2 : regex)
  | Alt (r1 r2 : regex)
  | Star (r : regex).

(** The strings a pattern matches as a whole. *)
Inductive in_re : regex → str → Prop :=
  | in_Eps : in_re Eps []
  | in_Class p a : p a = true → in_re (Class_ p) [a]
  | in_Cat r1 r2 s1 s2 : in_re r1 s1 → in_re r2 s2 → in_re (Cat r1 r2) (s1 ++ s2)
  | in_Alt_l r1 r2 s : in_re r1 s → in_re (Alt r1 r2) s
  | in_Alt_r r1 r2 s : in_re r2 s → in_re (Alt r1 r2) s
  | in_Star_nil r : in_re (Star r) []
  | in_Star_app r s1 s2 : in_re r s1 → in_re (Star r) s2 → in_re (Star r) (s1 ++ s2).

Fixpoint nullable (r : regex) : bool :=
  match r with
  | Void | Class_ _ => false
  | Eps | Star _ => true
  | Cat r1 r2 => nullable r1 && nullable r2
  | Alt r1 r2 => nullable r1 || nullable r2
  end.

Fixpoint deriv (a : ascii) (r : regex) : regex :=
  match r with
  | Void | Eps => Void
  | Class_ p => if p a then Eps else Void
  | Cat r1 r2 =>
      if nullable r1 then Alt (Cat (deriv a r1) r2) (deriv a r2) else Cat (deriv a r1) r2
  | Alt r1 r2 => Alt (deriv a r1) (deriv a r2)
  | Star r => Cat (deriv a r) (Star r)
  end.

(** [std::regex_match(s, r)] *)
Fixpoint regex_match (s : str) (r : regex) : bool :=
  match s with
  | [] => nullable r
  | a :: s => regex_match s (deriv a r)
  end.

Definition plus (r : regex) : regex := Cat r (Star r).
Fixpoint times (n : nat) (r : regex) : regex :=
  match n with O => Eps | S n => Cat r (times n r) end.
(** [{1,3}] *)
Definition one_to_three (r : regex) : regex := Cat r (Alt Eps (Cat r (Alt Eps r))).

(** ** The patterns *)

Definition is_digit (a : ascii) : bool :=
  let n := Ascii.nat_of_ascii a in (48 <=? n) && (n <=? 57).
Definition is_space (a : ascii) : bool :=
  let n := Ascii.nat_of_ascii a in (n =? 32) || ((9 <=? n) && (n <=? 13)).
Definition not_space (a : ascii) : bool := negb (is_space a).
Definition colon : ascii := Ascii.ascii_of_nat 58.
Definition dot : ascii := Ascii.ascii_of_nat 46.
Definition lit (c : ascii) : regex := Class_ (λ a, bool_decide (a = c)).

Definition digit : regex := Class_ is_digit.
Definition nonspace : regex := Class_ not_space.

Definition kIpPattern : regex :=
  Cat (one_to_three digit) (times 3 (Cat (lit dot) (one_to_three digit))).
(** The first group of the host pattern. *)
Definition host_group : regex := Cat (plus nonspace) (Star (Cat (lit dot) (plus nonspace))).

Definition kIpPortPattern : regex := Cat kIpPattern (Cat (lit colon) (plus digit)).
Definition kHostPortPattern : regex := Cat host_group (Cat (lit colon) (plus digit)).

(** ** The parsers *)

Definition digit_value (a : ascii) : Z := Z.of_nat (Ascii.nat_of_ascii a) - 48.
Definition decimal (s : str) : Z := fold_left (λ n a, (n * 10 + digit_value a)%Z) s 0%Z.

Definition INT_MAX : Z := 2147483647.

Inductive parse_result :=
  | Parsed (host : str) (port : Z)
  | parse_error (what : str)
  | atoi_undefined.  (** the number is not an [int]: [atoi] is undefined *)

(** The groups of a match of [(group):(\d+)]: the first group takes as much as it can,
    so the last possible colon is tried first. *)
Fixpoint groups_at (n : nat) (group : regex) (s : str) : option (str * str) :=
  let here := drop n s in
  match here with
  | c :: port =>
      if bool_decide (c = colon) && regex_match (take n s) group && regex_match port (plus digit)
      then Some (take n s, port)
      else match n with O => None | S n => groups_at n group s end
  | [] => match n with O => None | S n => groups_at n group s end
  end.

Definition regex_groups (s : str) (group : regex) : option (str * str) :=
  groups_at (length s) group s.

Definition parse_with (group : regex) (complaint : str) (s : str) : parse_result :=
  match regex_groups s group with
  | Some (host, port) =>
      if (decimal port <=? INT_MAX)%Z then Parsed host (decimal port) else atoi_undefined
  | None => parse_error (complaint ++ s)
  end.

Definition ParseIpPort (ipPort : str) : parse_result :=
  parse_with kIpPattern (chars "Not a valid IP:port string: ") ipPort.

Definition ParseHostPort (hostPort : str) : parse_result :=
  parse_with host_group (chars "Not a valid host:port string: ") hostPort.

Definition ParseIp (ip : str) : bool := regex_match ip kIpPattern.

Example parse_examples :
  ParseIpPort (chars "192.168.51.123:8084") = Parsed (chars "192.168.51.123") 8084 ∧
  ParseHostPort (chars "host.example.com:80") = Parsed (chars "host.example.com") 80 ∧
  ParseHostPort (chars "::1:80") = Parsed (chars "::1") 80 ∧
  ParseHostPort (chars "localhost") =
    parse_error (chars "Not a valid host:port string: localhost") ∧
  ParseIp (chars "999.0.0.1") = true ∧ ParseIp (chars "10.0.0") = false.
Proof. vm_compute. repeat split. Qed.

(** ** The matcher decides the language *)

Lemma nullable_spec r : nullable r = true ↔ in_re r [].
Proof.
  split.
  - induction r as [| |p|r1 IH1 r2 IH2|r1 IH1 r2 IH2|r IH]; simpl; intros Hn; try done.
    + constructor.
    + apply andb_prop in Hn as [? ?]. apply (in_Cat _ _ [] []); auto.
    + apply orb_prop in Hn as [?|?]; [apply in_Alt_l | apply in_Alt_r]; auto.
    + constructor.
  - intros H. remember [] as s eqn:E. induction H; simpl; try done.
    + apply app_eq_nil in E as [-> ->]. by rewrite IHin_re1, IHin_re2.
    + by rewrite IHin_re.
    + rewrite IHin_re by done. apply orb_true_r.
Qed.

Lemma star_cons r a s :
  in_re (Star r) (a :: s) → ∃ s1 s2, s = s1 ++ s2 ∧ in_re r (a :: s1) ∧ in_re (Star r) s2.
Proof.
  intros H. remember (Star r) as R eqn:ER. remember (a :: s) as t eqn:Et.
  revert Et. induction H as [| | | | | |r' s1 s2 H1 _ H2 IH2]; intros Et; simplify_eq.
  destruct s1 as [|b s1]; simplify_eq/=; [by apply IH2 | by exists s1, s2].
Qed.

Lemma deriv_spec a r s : in_re (deriv a r) s ↔ in_re r (a :: s).
Proof.
  revert s. induction r as [| |p|r1 IH1 r2 IH2|r1 IH1 r2 IH2|r IH]; intros s; simpl.
  - split; inversion 1.
  - split; inversion 1.
  - destruct (p a) eqn:E; split; inversion 1; subst; try congruence; by constructor.
  - assert (∀ r, in_re (Cat (deriv a r1) r) s ↔
      ∃ s1 s2, s = s1 ++ s2 ∧ in_re r1 (a :: s1) ∧ in_re r s2) as Hcat.
    { intros r. split.
      - inversion 1; subst. eexists _, _. split; [done|]. by rewrite <- IH1.
      - intros (s1 & s2 & -> & H1 & H2). constructor; [by apply IH1 | done]. }
    destruct (nullable r1) eqn:En.
    + split.
      * inversion 1 as [| | |? ? ? Hin|? ? ? Hin| |]; subst.
        -- apply Hcat in Hin as (s1 & s2 & -> & H1 & H2). by apply (in_Cat _ _ (a :: s1)).
        -- apply IH2 in Hin. apply (in_Cat _ _ []); [by apply nullable_spec | done].
      * inversion 1 as [| |? ? s1 s2 H1 H2 E| | | |]; subst.
        destruct s1 as [|b s1]; simplify_eq/=.
        -- apply in_Alt_r. by apply IH2.
        -- apply in_Alt_l, Hcat. eauto.
    + rewrite Hcat. split.
      * intros (s1 & s2 & -> & H1 & H2). by apply (in_Cat _ _ (a :: s1)).
      * inversion 1 as [| |? ? s1 s2 H1 H2 E| | | |]; subst.
        destruct s1 as [|b s1]; simplify_eq/=; [|eauto].
        apply nullable_spec in H1. congruence.
  - split; inversion 1; subst;
      first [by apply in_Alt_l, IH1 | by apply in_Alt_r, IH2].
  - split.
    + inversion 1; subst. apply (in_Star_app _ (a :: s1)); [by apply IH | done].
    + intros (s1 & s2 & -> & H1 & H2)%star_cons. constructor; [by apply IH | done].
Qed.

(** The matcher is exact: [regex_match] accepts a string if and only if the
    pattern matches the whole of it. *)
Lemma regex_match_spec r s : regex_match s r = true ↔ in_re r s.
Proof.
  revert r. induction s as [|a s IH]; intros r; simpl; [apply nullable_spec|].
  rewrite IH. apply deriv_spec.
Qed.

(** ** What the patterns match *)

Lemma in_Cat_inv r1 r2 s :
  in_re (Cat r1 r2) s ↔ ∃ s1 s2, s = s1 ++ s2 ∧ in_re r1 s1 ∧ in_re r2 s2.
Proof.
  split; [inversion 1; eauto|]. intros (s1 & s2 & -> & ? & ?). by constructor.
Qed.

Lemma in_lit_inv c s : in_re (lit c) s ↔ s = [c].
Proof.
  split.
  - inversion 1 as [|? ? Hp| | | | |]; subst. by apply bool_decide_eq_true in Hp as ->.
  - intros ->. constructor. by apply bool_decide_eq_true.
Qed.

Lemma in_star_class p s : in_re (Star (Class_ p)) s ↔ Forall (λ a, p a = true) s.
Proof.
  split.
  - remember (Star (Class_ p)) as R eqn:ER.
    induction 1 as [| | | | | |r s1 s2 H1 _ _ IH]; simplify_eq; [constructor|].
    inversion H1; subst. constructor; auto.
  - induction 1 as [|a s Ha _ IH]; [constructor|].
    apply (in_Star_app _ [a]); [by constructor | done].
Qed.

Lemma in_plus_class p s :
  in_re (plus (Class_ p)) s ↔ s ≠ [] ∧ Forall (λ a, p a = true) s.
Proof.
  unfold plus. rewrite in_Cat_inv. setoid_rewrite in_star_class. split.
  - intros (s1 & s2 & -> & H1 & H2). inversion H1; subst. split; [done|]. by constructor.
  - intros [Hne Hf]. destruct Hf as [|a s Ha Hf]; [done|].
    exists [a], s. split; [done|]. split; [by constructor | done].
Qed.

(** Every character a pattern can match satisfies [P]. *)
Fixpoint over (P : ascii → Prop) (r : regex) : Prop :=
  match r with
  | Void | Eps => True
  | Class_ p => ∀ a, p a = true → P a
  | Cat r1 r2 | Alt r1 r2 => over P r1 ∧ over P r2
  | Star r => over P r
  end.

Lemma over_Forall P r s : over P r → in_re r s → Forall P s.
Proof.
  intros Ho H. revert Ho. induction H; simpl; intros; try destruct Ho; try constructor;
    rewrite ?Forall_app; naive_solver.
Qed.

Lemma in_host_group h : in_re host_group h ↔ h ≠ [] ∧ Forall (λ a, not_space a = true) h.
Proof.
  split.
  - intros H. split.
    + intros ->. apply in_Cat_inv in H as (s1 & s2 & E & H1 & _).
      symmetry in E. apply app_eq_nil in E as [-> _].
      by apply in_plus_class in H1 as [? _].
    + eapply over_Forall; [|exact H]. simpl. split_and!; try done.
      intros a ->%bool_decide_eq_true. done.
  - intros H%in_plus_class. apply in_Cat_inv. exists h, [].
    rewrite app_nil_r. split; [done|]. split; [done | constructor].
Qed.

Lemma digit_not_space a : is_digit a = true → not_space a = true.
Proof.
  unfold is_digit, not_space, is_space. intros [H1 H2]%andb_prop.
  apply Nat.leb_le in H1, H2.
  rewrite (proj2 (Nat.eqb_neq _ _)), (proj2 (Nat.leb_gt _ 13)) by lia.
  by rewrite andb_false_r.
Qed.

Lemma in_kIpPattern_host h : in_re kIpPattern h → in_re host_group h.
Proof.
  intros H. apply in_host_group. split.
  - intros ->. apply nullable_spec in H. done.
  - eapply over_Forall; [|exact H]. simpl. pose proof digit_not_space.
    split_and!; try done; by intros a ->%bool_decide_eq_true.
Qed.

(** ** The groups *)

Lemma colon_digits p : Forall (λ a, is_digit a = true) p → colon ∉ p.
Proof. intros Hf Hin. rewrite list.Forall_forall in Hf. by apply Hf in Hin. Qed.

Lemma last_colon_unique (h h' p p' : str) :
  colon ∉ p → colon ∉ p' → h ++ colon :: p = h' ++ colon :: p' → h = h' ∧ p = p'.
Proof.
  intros Hp Hp'. revert h'. induction h as [|a h IH]; intros [|b h']; simpl; intros E.
  - by simplify_eq.
  - simplify_eq. exfalso. apply Hp, elem_of_app. right. left.
  - simplify_eq. exfalso. apply Hp', elem_of_app. right. left.
  - simplify_eq. destruct (IH h' ltac:(done)) as [-> ->]. done.
Qed.

Lemma groups_at_Some n group s h p :
  groups_at n group s = Some (h, p) →
  s = h ++ colon :: p ∧ in_re group h ∧ in_re (plus digit) p.
Proof.
  induction n as [|n IH]; cbn [groups_at]; destruct (drop _ s) as [|c port] eqn:E; try done;
    (destruct (_ && _) eqn:Hb; [|auto]); intros [= <- <-];
    apply andb_prop in Hb as [[->%bool_decide_eq_true ?]%andb_prop ?];
    (split; [by rewrite <- E, take_drop|]); by rewrite <- !regex_match_spec.
Qed.

Lemma groups_at_None n group h p s :
  s = h ++ colon :: p → in_re group h → in_re (plus digit) p → length h ≤ n →
  is_Some (groups_at n group s).
Proof.
  intros -> Hh%regex_match_spec Hp%regex_match_spec. induction n as [|n IH]; intros Hn.
  - destruct h; [|simpl in *; lia]. cbn [groups_at drop take app].
    rewrite Hh, Hp, bool_decide_true by done. by eexists.
  - destruct (decide (length h = S n)) as [E|E].
    + cbn [groups_at]. rewrite <- E, drop_app_length, take_app_length.
      rewrite Hh, Hp, bool_decide_true by done. by eexists.
    + cbn [groups_at]. destruct (drop (S n) _); [apply IH; lia|].
      case_if; [by eexists | apply IH; lia].
Qed.

Lemma regex_groups_spec group s h p :
  regex_groups s group = Some (h, p) ↔
  s = h ++ colon :: p ∧ in_re group h ∧ in_re (plus digit) p.
Proof.
  unfold regex_groups. split; [apply groups_at_Some|]. intros (E & Hh & Hp).
  destruct (groups_at_None (length s) group h p s E Hh Hp) as [[h' p'] Hg].
  { rewrite E, length_app. lia. }
  rewrite Hg. apply groups_at_Some in Hg as (E' & _ & Hp').
  apply in_plus_class in Hp as [_ ?%colon_digits], Hp' as [_ ?%colon_digits].
  rewrite E in E'. by apply last_colon_unique in E' as [-> ->].
Qed.

(** The groups exist exactly when the whole pattern matches. *)
Lemma regex_groups_None group s :
  regex_groups s group = None ↔ ¬ in_re (Cat group (Cat (lit colon) (plus digit))) s.
Proof.
  split.
  - intros Hn Hin. apply in_Cat_inv in Hin as (h & s' & -> & Hh & Hs).
    apply in_Cat_inv in Hs as (c & p & -> & ->%in_lit_inv & Hp).
    rewrite (proj2 (regex_groups_spec group _ h p)) in Hn; done.
  - intros Hn. destruct (regex_groups s group) as [[h p]|] eqn:E; [|done]. exfalso. apply Hn.
    apply regex_groups_spec in E as (-> & ? & ?). constructor; [done|].
    apply (in_Cat _ _ [colon]); [by apply in_lit_inv | done].
Qed.

(** ** The parsers *)

(** C38 [ParseHostPort] is exact: it returns a host and a port if and only if the
    string is a non-empty text without white space, a colon and digits whose value is
    an [int]; the host is the text before the last colon and the port is that value.
    It throws, with the string in the message, if and only if the string does not have that
    form whatever the value of the digits.  In the remaining case, digits whose value is
    beyond [int], it does neither: the result of [atoi] is undefined. *)
Theorem ParseHostPort_spec s :
  (∀ h n, ParseHostPort s = Parsed h n ↔
     ∃ p, s = h ++ colon :: p ∧ h ≠ [] ∧ Forall (λ a, not_space a = true) h ∧
       p ≠ [] ∧ Forall (λ a, is_digit a = true) p ∧ n = decimal p ∧ (n <= INT_MAX)%Z) ∧
  (∀ what, ParseHostPort s = parse_error what ↔
     ¬ in_re kHostPortPattern s ∧ what = chars "Not a valid host:port string: " ++ s) ∧
  (ParseHostPort s = atoi_undefined ↔
     ∃ h p, s = h ++ colon :: p ∧ h ≠ [] ∧ Forall (λ a, not_space a = true) h ∧
       p ≠ [] ∧ Forall (λ a, is_digit a = true) p ∧ (INT_MAX < decimal p)%Z).
Proof.
  unfold ParseHostPort, parse_with. split_and!.
  - intros h n. split.
    + destruct (regex_groups s host_group) as [[h' p]|] eqn:E; [|done]. case_if; [|done].
      intros [= <- <-]. zbool. apply regex_groups_spec in E as (-> & Hh & Hp).
      apply in_host_group in Hh as [? ?]. apply in_plus_class in Hp as [? ?]. by exists p.
    + intros (p & E & Hh & Hfh & Hp & Hfp & -> & Hn).
      rewrite (proj2 (regex_groups_spec host_group s h p)).
      { by rewrite (proj2 (Z.leb_le _ _)) by lia. }
      split; [done|]. split; [by apply in_host_group | by apply in_plus_class].
  - intros what. unfold kHostPortPattern. rewrite <- regex_groups_None.
    destruct (regex_groups s host_group) as [[h p]|].
    + split; [by case_if | by intros [? _]].
    + split; [by intros [= <-] | by intros [_ ->]].
  - split.
    + destruct (regex_groups s host_group) as [[h p]|] eqn:E; [|done]. case_if; [done|].
      intros _. zbool. apply regex_groups_spec in E as (-> & Hh & Hp).
      apply in_host_group in Hh as [? ?]. apply in_plus_class in Hp as [? ?]. by exists h, p.
    + intros (h & p & E & Hh & Hfh & Hp & Hfp & Hn).
      rewrite (proj2 (regex_groups_spec host_group s h p)).
      { by rewrite (proj2 (Z.leb_gt _ _)) by lia. }
      split; [done|]. split; [by apply in_host_group | by apply in_plus_class].
Qed.

(** The two parsers agree: whatever [ParseIpPort] accepts, [ParseHostPort]
    accepts with the same result, and the host passes [ParseIp]. *)
Theorem ParseIpPort_agrees s h n :
  ParseIpPort s = Parsed h n → ParseHostPort s = Parsed h n ∧ ParseIp h = true.
Proof.
  unfold ParseIpPort, ParseHostPort, parse_with, ParseIp.
  destruct (regex_groups s kIpPattern) as [[h' p]|] eqn:E; [|done]. intros Hr.
  apply regex_groups_spec in E as (E & Hh & Hp).
  rewrite (proj2 (regex_groups_spec host_group s h' p)) by auto using in_kIpPattern_host.
  split; [done|]. apply regex_match_spec. revert Hr. case_if; [|done]. by intros [= <- _].
Qed.

Lemma ParseIpPort_agrees_witness :
  ParseHostPort (chars "10.0.0.7:5000") = Parsed (chars "10.0.0.7") 5000.
Proof. apply ParseIpPort_agrees. vm_compute. reflexivity. Defined.

(** ** Printing and parsing a port *)

Lemma decimal_go p n : fold_left (λ n a, (n * 10 + digit_value a)%Z) p n =
  (n * 10 ^ Z.of_nat (length p) + decimal p)%Z.
Proof.
  unfold decimal. revert n. induction p as [|a p IH]; intros n; cbn [fold_left length].
  - rewrite Z.mul_1_r. lia.
  - rewrite IH, (IH (0 * 10 + digit_value a)%Z). rewrite Nat2Z.inj_succ, Z.pow_succ_r by lia. lia.
Qed.

Lemma decimal_cons a p :
  decimal (a :: p) = (digit_value a * 10 ^ Z.of_nat (length p) + decimal p)%Z.
Proof. unfold decimal at 1. cbn [fold_left]. by rewrite decimal_go. Qed.

Lemma pretty_char_digit x :
  (x < 10)%N → is_digit (pretty_N_char x) = true ∧ digit_value (pretty_N_char x) = Z.of_N x.
Proof.
  intros Hx.
  assert (x = 0 ∨ x = 1 ∨ x = 2 ∨ x = 3 ∨ x = 4 ∨ x = 5 ∨ x = 6 ∨ x = 7 ∨ x = 8 ∨ x = 9)%N
    by lia.
  destruct_or!; subst; done.
Qed.

(** The digits [pretty] writes in front of [s]. *)
Lemma pretty_go_digits x s :
  Forall (λ a, is_digit a = true) (chars s) →
  Forall (λ a, is_digit a = true) (chars (pretty_N_go x s)) ∧
  decimal (chars (pretty_N_go x s)) =
    (Z.of_N x * 10 ^ Z.of_nat (length (chars s)) + decimal (chars s))%Z ∧
  length (chars s) ≤ length (chars (pretty_N_go x s)).
Proof.
  revert s. induction (N.lt_wf_0 x) as [x _ IH]; intros s Hs.
  destruct (decide (x = 0)%N) as [->|Hx]; [by rewrite pretty_N_go_0|].
  rewrite pretty_N_go_step by lia.
  assert (x `mod` 10 < 10)%N as [Hd Hv]%pretty_char_digit by (apply N.mod_lt; lia).
  destruct (IH (x `div` 10)%N) with (s := String (pretty_N_char (x `mod` 10)) s)
    as (Hf & Hdec & Hlen).
  { apply N.div_lt; lia. }
  { by constructor. }
  split; [done|]. change (chars (String _ s)) with (pretty_N_char (x `mod` 10) :: chars s) in *.
  split; [|simpl in Hlen; lia].
  rewrite Hdec, decimal_cons, Hv. cbn [length]. rewrite Nat2Z.inj_succ, Z.pow_succ_r by lia.
  rewrite N2Z.inj_div, N2Z.inj_mod. pose proof (Z.div_mod (Z.of_N x) (Z.of_N 10)) as Hdm.
  set (q := (Z.of_N x `div` Z.of_N 10)%Z) in *. set (r := (Z.of_N x `mod` Z.of_N 10)%Z) in *.
  clearbody q r. rewrite Hdm by done. simpl Z.of_N. ring.
Qed.

Lemma pretty_port n :
  (0 <= n)%Z →
  Forall (λ a, is_digit a = true) (chars (pretty n)) ∧ decimal (chars (pretty n)) = n ∧
  chars (pretty n) ≠ [].
Proof.
  intros Hn. destruct n as [|q|q]; [by repeat constructor| |lia].
  change (pretty (Z.pos q)) with (pretty (N.pos q)). unfold pretty, pretty_N.
  rewrite decide_False by done.
  destruct (pretty_go_digits (N.pos q) "") as (Hf & Hd & _); [constructor|].
  split; [done|]. split.
  - rewrite Hd. change (decimal (chars "")) with 0%Z. simpl. lia.
  - intros E. rewrite E in Hd. change (0 = Z.pos q * 1 + 0)%Z in Hd. lia.
Qed.

(** Parsing undoes printing: a host name without white space and a port in
    [int]'s range, written as [host:port] the way a server and its destination URI are,
    parse back to themselves. *)
Theorem ParseHostPort_print h n :
  h ≠ [] → Forall (λ a, not_space a = true) h → (0 <= n <= INT_MAX)%Z →
  ParseHostPort (h ++ colon :: chars (pretty n)) = Parsed h n.
Proof.
  intros Hh Hf Hn. destruct (pretty_port n) as (Hd & Hv & Hne); [lia|].
  unfold ParseHostPort, parse_with.
  rewrite (proj2 (regex_groups_spec host_group _ h (chars (pretty n)))).
  { by rewrite Hv, (proj2 (Z.leb_le _ _)) by lia. }
  split; [done|]. split; [by apply in_host_group | by apply in_plus_class].
Qed.

Lemma ParseHostPort_print_witness :
  ParseHostPort (chars "node0" ++ colon :: chars (pretty 9200%Z)) = Parsed (chars "node0") 9200.
Proof.
  apply ParseHostPort_print; [discriminate | repeat constructor | unfold INT_MAX; lia].
Defined.
