(* ===== verification/Printing.v ===== *)
(** * Printing records, sets of records and reports ([SwimCommon.hpp], [operator<<])

    The formatted time ([put_time] of [gmtime]) is a parameter.  The operator for sets
    erases the separator after the last record by moving the cursor back; [screen] is what
    a terminal shows of a text, and the theorem says it is the records between commas. *)

From Stdlib Require Import ZArith Lia String Ascii.
From stdpp Require Import base list strings gmap pretty.
From S2P Require Import Prelude StdSet SwimCommon UtilsParse.

Definition newline : string := String (Ascii.ascii_of_nat 10) "".
Definition BS : ascii := Ascii.ascii_of_nat 8.

Section Printing.
Context (put_time : Z → string).  (** [put_time(gmtime(&ts), "%c %Z")] *)

(** A null pointer is dereferenced. *)
Definition show_Server_ptr (ps : option Server) : option string := show_Server <$> ps.

(** The time stamp is converted to [long]. *)
Definition show_ServerRecord (record : ServerRecord) : string :=
  let ts := s64 (timestamp record) in
  "[" +:+ show_Server (server record) +:+ " at: " +:+ put_time ts +:+
  (match forwarder record with
   | Some f => "; forwarded by: " +:+ show_Server f
   | None => ""
   end) +:+ "]".

Fixpoint show_each (recordsSet : list ServerRecord) (out : string) : string :=
  match recordsSet with
  | [] => out
  | record :: recordsSet => show_each recordsSet (out +:+ show_ServerRecord record +:+ ", ")
  end.

Definition show_ServerRecordsSet (recordsSet : list ServerRecord) : string :=
  let out := show_each recordsSet "{ " in
  let out := match recordsSet with
             | [] => out
             | _ => out +:+ String BS (String BS "")
             end in
  out +:+ " }".

Definition show_SwimReport (report : SwimReport) : string :=
  let lines := foldr (λ r out, show_ServerRecord r +:+ newline +:+ out) "" in
  "Report from: " +:+ show_Server (report_sender report) +:+
  newline +:+ "=================================" +:+ newline +:+ "Healthy " +:+
  "servers" +:+ newline +:+ "--------------------------" +:+ newline +:+
  lines (alive report) +:+
  newline +:+ "Unresponsive servers" +:+ newline +:+ "--------------------------" +:+ newline +:+
  lines (suspected report) +:+
  newline +:+ "=================================" +:+ newline.

(** ** What a terminal shows *)

(** The line left of the cursor (reversed) and under and right of it. *)
Fixpoint screen (before after s : str) : str :=
  match s with
  | [] => reverse before ++ after
  | a :: s =>
      if bool_decide (a = BS) then
        match before with
        | b :: before => screen before (b :: after) s
        | [] => screen [] after s
        end
      else screen (a :: before) (tail after) s
  end.

Lemma screen_printable before s t :
  BS ∉ s → screen before [] (s ++ t) = screen (reverse s ++ before) [] t.
Proof.
  revert before. induction s as [|a s IH]; intros before Hs; [done|].
  apply not_elem_of_cons in Hs as [Ha Hs]. cbn [screen app]. rewrite bool_decide_false by done.
  cbn [tail]. rewrite IH by done. by rewrite reverse_cons, <- app_assoc.
Qed.

Lemma chars_app a b : chars (a +:+ b) = chars a ++ chars b.
Proof.
  induction a as [|x a IH]; [done|].
  change (x :: chars (a +:+ b) = x :: (chars a ++ chars b)). by rewrite IH.
Qed.

(** The records with a comma after each. *)
Lemma chars_show_each l out :
  chars (show_each l out) =
    chars out ++ concat ((λ r, chars (show_ServerRecord r) ++ chars ", ") <$> l).
Proof.
  revert out. induction l as [|r l IH]; intros out; cbn [show_each].
  - cbn. by rewrite app_nil_r.
  - rewrite IH, fmap_cons. cbn [concat]. by rewrite !chars_app, <- !app_assoc.
Qed.

Lemma commas_last l r :
  concat ((λ r, chars (show_ServerRecord r) ++ chars ", ") <$> (l ++ [r])) =
    Vec2Str (λ r, chars (show_ServerRecord r)) (chars ", ") (l ++ [r]) ++ chars ", ".
Proof.
  induction l as [|q l IH].
  - cbn. by rewrite !app_nil_r.
  - destruct l as [|q' l]; cbn [app] in *; rewrite fmap_cons; cbn [concat];
      rewrite IH, Vec2Str_cons; by rewrite <- !app_assoc.
Qed.

(** On a terminal a set of records shows as its records separated by commas,
    between braces, without the separator after the last one. *)
Theorem records_shown recordsSet :
  Forall (λ r, BS ∉ chars (show_ServerRecord r)) recordsSet →
  screen [] [] (chars (show_ServerRecordsSet recordsSet)) =
    chars "{ " ++ Vec2Str (λ r, chars (show_ServerRecord r)) (chars ", ") recordsSet ++ chars " }".
Proof.
  intros Hp. unfold show_ServerRecordsSet. destruct recordsSet as [|r l] using rev_ind; [done|].
  destruct (l ++ [r]) as [|q k] eqn:E; [by destruct l|]. rewrite <- E in *. clear E q k.
  rewrite !chars_app, chars_show_each, commas_last.
  set (v := Vec2Str _ _ _).
  assert (BS ∉ v) as Hv.
  { intros Hv. assert (BS ∈ concat ((λ r, chars (show_ServerRecord r) ++ chars ", ") <$> l ++ [r])) as Hc.
    { rewrite commas_last. apply elem_of_app. by left. }
    apply list_elem_of_In, in_concat in Hc as (x & Hx & Hin).
    apply list_elem_of_In, list_elem_of_fmap in Hx as (q & -> & Hq).
    apply list_elem_of_In, elem_of_app in Hin as [Hin|Hin].
    - rewrite list.Forall_forall in Hp. by apply (Hp q).
    - by apply (bool_decide_unpack (BS ∉ chars ", ")) in Hin. }
  replace (((chars "{ " ++ v ++ chars ", ") ++ chars (String BS (String BS ""))) ++ chars " }")
    with ((chars "{ " ++ v) ++ chars ", " ++ BS :: BS :: chars " }") by (by rewrite <- !app_assoc).
  rewrite screen_printable.
  2:{ rewrite elem_of_app. intros [H|H]; [by apply (bool_decide_unpack (BS ∉ chars "{ ")) in H | done]. }
  rewrite app_nil_r. set (u := chars "{ " ++ v).
  transitivity (reverse (reverse u) ++ chars " }"); [|by rewrite reverse_involutive].
  generalize (reverse u). intros k.
  change (screen (Ascii.ascii_of_nat 125 :: space :: k) [] [] = reverse k ++ chars " }").
  cbn [screen]. by rewrite app_nil_r, !reverse_cons, <- app_assoc.
Qed.
End Printing.
