(* ===== verification/ApiServer.v ===== *)
(** * The REST server ([ApiServer.hpp], [ApiServer.cpp])

    Requests are routed by method and target to registered functions.  The HTTP
    library (parsing, [prepare_payload], the sockets) is a parameter; a request that
    was read, or the error of reading it, comes in and the response goes out.  An
    exception of [substr] leaves the connection without a response and ends the
    server's thread: [None].  The registered functions act on the state of the program
    that registers them. *)

From Stdlib Require Import ZArith Lia String Ascii.
From stdpp Require Import base list strings gmap.
From S2P Require Import Prelude UtilsParse.

Inductive verb := verb_post | verb_get | verb_other.
Inductive status :=
  | status_ok
  | status_created
  | status_not_found
  | status_bad_request
  | status_other (code : Z).

Record request := mkRequest {
  target : str;
  method : verb;
  version : Z;
  request_body : str
}.

(** [fields]: the HTTP fields by their names. *)
Record response := mkResponse {
  res_version : Z;
  result : status;
  body : str;
  fields_ : gmap str str
}.

(** [rest::response response], default-constructed: HTTP/1.1, 200. *)
Definition response_default : response := mkResponse 11 status_ok [] ∅.

Definition set_version (v : Z) (r : response) : response :=
  mkResponse v (result r) (body r) (fields_ r).
Definition set_result (s : status) (r : response) : response :=
  mkResponse (res_version r) s (body r) (fields_ r).
Definition set_body (b : str) (r : response) : response :=
  mkResponse (res_version r) (result r) b (fields_ r).
Definition set_field (k v : str) (r : response) : response :=
  mkResponse (res_version r) (result r) (body r) (<[k := v]> (fields_ r)).

(** A registered function answers a request and may change the state [S] of the
    program around the server. *)
Abbreviation ApiFunctionType S := (request → S → response * S).

Record ApiServer (S : Type) := mkApiServer {
  api_port : Z;
  posts : gmap str (ApiFunctionType S);
  gets : gmap str (ApiFunctionType S);
  work_joinable : bool  (** the thread [work] was started *)
}.
Arguments mkApiServer {S} _ _ _ _.
Arguments api_port {S} _.
Arguments posts {S} _.
Arguments gets {S} _.
Arguments work_joinable {S} _.

(** The constructor binds the acceptor to the port, which throws if it cannot ([None]). *)
Definition newApiServer {S} (bind_ok : bool) (port : Z) : option (ApiServer S) :=
  if bind_ok then Some (mkApiServer port ∅ ∅ false) else None.
Definition addGet {S} (t : str) (func : ApiFunctionType S) (s : ApiServer S) : ApiServer S :=
  mkApiServer (api_port s) (posts s) (<[t := func]> (gets s)) (work_joinable s).
Definition addPost {S} (t : str) (func : ApiFunctionType S) (s : ApiServer S) : ApiServer S :=
  mkApiServer (api_port s) (<[t := func]> (posts s)) (gets s) (work_joinable s).

(** [start()], and the destructor: joining a thread that was never started throws
    inside it, which ends the process ([None]). *)
Definition startApi {S} (s : ApiServer S) : ApiServer S :=
  mkApiServer (api_port s) (posts s) (gets s) true.
Definition destroyApi {S} (s : ApiServer S) : option unit :=
  if work_joinable s then Some tt else None.

(** [s.rfind(sub)]: the last occurrence. *)
Fixpoint rfind (sub s : str) : option nat :=
  match s with
  | [] => if bool_decide (sub `prefix_of` []) then Some 0 else None
  | a :: s' =>
      match rfind sub s' with
      | Some i => Some (S i)
      | None => if bool_decide (sub `prefix_of` s) then Some 0 else None
      end
  end.

Definition api_v1 : str := chars "/api/v1".
Definition api_v1_slash : str := chars "/api/v1/".
Definition slash : ascii := Ascii.ascii_of_nat 47.

(** The name of the endpoint in a request's target. *)
Definition endpoint (t : str) : option str :=
  let prefix := bool_decide (rfind api_v1 t = Some 0) in
  if prefix then substr_from (length api_v1_slash) t else substr_from 1 t.

(** What became of an accepted connection: the request and the error [async_read]
    gives, and the errors of [async_write] and of [shutdown] (their messages). *)
Record connection := mkConnection {
  read_error : option str;
  conn_request : request;
  write_error : option str;
  shutdown_error : option str
}.

(** [if (ec) fail(ec, what)]: the line printed to [stderr], if any. *)
Definition fail (ec : option str) (what : str) : list str :=
  match ec with
  | Some message => [what ++ chars ": " ++ message]
  | None => []
  end.

Section Connection.
Context {S : Type} (prepare_payload : response → response).

Definition server_field : str := chars "Server".

(** [handleRequest(ec)]; [ec] is the message of a read error.  The response and the
    state after the function; [None] is the exception of [substr]. *)
Definition handleRequest (ec : option str) (server : ApiServer S) (req : request) (s : S)
    : option (response * S) :=
  match endpoint (target req) with
  | None => None
  | Some t =>
      let res := set_version (version req) response_default in
      let res := set_result status_not_found res in
      let res := set_body (chars "Unknown API endpoint") res in
      let res := match ec with
                 | Some what => set_body what (set_result status_bad_request res)
                 | None => res
                 end in
      let '(res, s) := match ec with
                       | Some _ => (res, s)
                       | None =>
                           match method req with
                           | verb_post => match posts server !! t with
                                          | Some value => value req s | None => (res, s) end
                           | verb_get => match gets server !! t with
                                         | Some value => value req s | None => (res, s) end
                           | verb_other => (res, s)
                           end
                       end in
      let res := set_field server_field (chars "apierver") res in
      Some (prepare_payload res, s)
  end.

(** [respond()]: an error of the write is only printed, and the socket is shut down
    all the same. *)
Definition respond (c : connection) : list str :=
  fail (write_error c) (chars "write") ++ fail (shutdown_error c) (chars "shutdown").

(** [doRequest()]: an error of the read is only printed before the request is
    handled.  The response, what was printed, and the state. *)
Definition doRequest (server : ApiServer S) (c : connection) (s : S)
    : option (response * list str * S) :=
  let printed := fail (read_error c) (chars "read") in
  '(res, s) ← handleRequest (read_error c) server (conn_request c) s;
  Some (res, printed ++ respond c, s).

(** [accept()]: the connections in the order in which their requests are read
    ([None]: the accept itself failed); the server's thread handles them one at a time.
    The responses, what was printed, and the state.  [None]: an exception ended the
    thread, and the process with it. *)
Fixpoint accept (server : ApiServer S) (connections : list (option connection)) (s : S)
    : option (list response * list str * S) :=
  match connections with
  | [] => Some ([], [], s)
  | None :: connections => accept server connections s
  | Some c :: connections =>
      '(res, printed, s) ← doRequest server c s;
      '(responses, printed', s) ← accept server connections s;
      Some (res :: responses, printed ++ printed', s)
  end.
End Connection.

(** ** Routing *)

Lemma rfind_None sub s : rfind sub s = None ↔ find_str sub s = None.
Proof.
  induction s as [|a s IH]; cbn [rfind find_str]; [by repeat case_bool_decide|].
  case_bool_decide.
  - split; [|done]. by destruct (rfind sub s).
  - rewrite fmap_None, <- IH. by destruct (rfind sub s).
Qed.

Lemma rfind_0_prefix sub s : rfind sub s = Some 0 → sub `prefix_of` s.
Proof.
  destruct s as [|a s]; cbn [rfind].
  - by case_bool_decide.
  - destruct (rfind sub s); [done|]. by case_bool_decide.
Qed.

(** The name of the endpoint cannot be extracted exactly from the empty target and
    from the bare version prefix (without a final slash). *)
Lemma endpoint_None t : endpoint t = None ↔ t = [] ∨ t = api_v1.
Proof.
  unfold endpoint, substr_from.
  transitivity ((if bool_decide (rfind api_v1 t = Some 0) then (length api_v1_slash <=? length t)
                 else 1 <=? length t) = false).
  { case_bool_decide; by destruct (_ <=? _). }
  case_bool_decide as E.
  - apply rfind_0_prefix in E as [k Hk]. rewrite Hk, Nat.leb_gt. simpl. split.
    + intros Hl. right. destruct k; [done | simpl in Hl; lia].
    + intros [?|Hq]; [done|]. destruct k; [simpl; lia|]. by apply (f_equal length) in Hq.
  - rewrite Nat.leb_gt. split.
    + intros Hl. left. destruct t; [done | simpl in Hl; lia].
    + intros [Ht|Ht]; rewrite Ht in *; [simpl; lia | done].
Qed.

Lemma handleRequest_None {S} pp ec (server : ApiServer S) req s :
  handleRequest pp ec server req s = None ↔ endpoint (target req) = None.
Proof. unfold handleRequest. destruct (endpoint (target req)); [|done]. by repeat case_match. Qed.

(** A connection that ends the server: its target is empty or the bare prefix. *)
Definition fatal (c : option connection) : Prop :=
  match c with
  | Some c => target (conn_request c) = [] ∨ target (conn_request c) = api_v1
  | None => False
  end.

(** The lines that a connection's errors print. *)
Definition error_lines (c : connection) : list str :=
  fail (read_error c) (chars "read") ++ fail (write_error c) (chars "write") ++
  fail (shutdown_error c) (chars "shutdown").

Lemma doRequest_None {S} pp (server : ApiServer S) c s :
  doRequest pp server c s = None ↔ fatal (Some c).
Proof.
  unfold doRequest. cbn [fatal]. rewrite <- endpoint_None, <- (handleRequest_None pp (read_error c) server _ s).
  by destruct (handleRequest _ _ _ _ _) as [[r s1]|].
Qed.

(** C39 The server's thread dies of an exception exactly when some connection has an
    empty target, which is what a failed read leaves, or the bare version prefix.
    Otherwise, whatever errors the reads, the writes and the shutdowns have, every
    request that was read is answered, in order, and each error prints one line. *)
Theorem one_bad_target_stops_the_server {S} pp (server : ApiServer S) connections s :
  (accept pp server connections s = None ↔ Exists fatal connections) ∧
  (∀ responses printed s', accept pp server connections s = Some (responses, printed, s') →
     length responses = length (omap id connections) ∧
     printed = concat (error_lines <$> omap id connections)).
Proof.
  revert s. induction connections as [|[c|] cs IH]; intros s; cbn [accept omap list_omap id].
  - rewrite Exists_nil. split; [done|]. by intros ? ? ? [= <- <- <-].
  - rewrite Exists_cons, <- (doRequest_None pp server c s).
    destruct (doRequest pp server c s) as [[[res printed] s1]|] eqn:E; cbn [mbind option_bind].
    2:{ split; [|done]. split; [by left | done]. }
    assert (printed = error_lines c) as ->.
    { unfold doRequest in E. destruct (handleRequest _ _ _ _ _) as [[r s2]|]; [|done].
      by simplify_eq/=. }
    destruct (IH s1) as [IH1 IH2]. destruct (accept pp server cs s1) as [[[rs ps] s2]|].
    + split; [|intros ? ? ? [= <- <- <-]; destruct (IH2 _ _ _ eq_refl) as [Hl ->]; simpl; auto].
      split; [done|]. by intros [?|?%IH1].
    + split; [|done]. split; [|done]. intros _. right. by apply IH1.
  - rewrite Exists_cons. cbn [fatal]. destruct (IH s) as [IH1 IH2]. split; [|exact IH2].
    rewrite IH1. split; [by right | by intros [?|?]].
Qed.

(** Both forms of a target name the same endpoint. *)
Lemma endpoint_forms n :
  find_str api_v1 (slash :: n) = None →
  endpoint (slash :: n) = Some n ∧ endpoint (api_v1_slash ++ n) = Some n.
Proof.
  intros Hn%rfind_None. split.
  - unfold endpoint. rewrite bool_decide_false by congruence. done.
  - assert (rfind api_v1 (api_v1_slash ++ n) = Some 0) as Hr.
    { change (api_v1_slash ++ n) with (chars "/api/v1" ++ slash :: n).
      revert Hn. generalize (slash :: n). intros tail Hn.
      cbn [chars String.list_ascii_of_string app rfind]. by rewrite Hn. }
    unfold endpoint. rewrite bool_decide_true by done. done.
Qed.

Lemma endpoint_name n req :
  find_str api_v1 (slash :: n) = None →
  target req = slash :: n ∨ target req = api_v1_slash ++ n → endpoint (target req) = Some n.
Proof. intros Hn Ht. destruct (endpoint_forms n Hn). by destruct Ht as [->| ->]. Qed.

(** What a registered function answers is completed and sent. *)
Definition finish (pp : response → response) (r : response) : response :=
  pp (set_field server_field (chars "apierver") r).

Lemma handle_get {S} pp n func (server : ApiServer S) req s :
  endpoint (target req) = Some n → method req = verb_get → gets server !! n = Some func →
  handleRequest pp None server req s = Some (finish pp (func req s).1, (func req s).2).
Proof.
  intros He Hm Hg. unfold handleRequest. rewrite He, Hm, Hg. by destruct (func req s).
Qed.

Lemma handle_post {S} pp n func (server : ApiServer S) req s :
  endpoint (target req) = Some n → method req = verb_post → posts server !! n = Some func →
  handleRequest pp None server req s = Some (finish pp (func req s).1, (func req s).2).
Proof.
  intros He Hm Hg. unfold handleRequest. rewrite He, Hm, Hg. by destruct (func req s).
Qed.

(** A function registered for GET under a name (that does not contain the
    version prefix) answers the GET requests for that name, with or without the version
    prefix, with the server field set; it replaces the one registered before, and no
    POST request is affected. *)
Theorem registered_function_answers {S} pp n func (server : ApiServer S) req s :
  find_str api_v1 (slash :: n) = None →
  target req = slash :: n ∨ target req = api_v1_slash ++ n →
  handleRequest pp None (addGet n func server) req s =
    match method req with
    | verb_get => Some (finish pp (func req s).1, (func req s).2)
    | _ => handleRequest pp None server req s
    end.
Proof.
  intros Hn Ht. destruct (method req) eqn:Em.
  - unfold handleRequest. by rewrite (endpoint_name n req Hn Ht), Em.
  - apply (handle_get pp n); [by apply endpoint_name | done | apply lookup_insert_eq].
  - unfold handleRequest. by rewrite (endpoint_name n req Hn Ht), Em.
Qed.

(** A request nobody registered for is answered with [not_found] and the
    request's protocol version; a target that was read with an error is answered with
    [bad_request] and never reaches a function; the state is unchanged. *)
Lemma unrouted_request_answers {S} pp ec (server : ApiServer S) req s t :
  endpoint (target req) = Some t →
  (ec = None →
   match method req with
   | verb_get => gets server !! t = None
   | verb_post => posts server !! t = None
   | verb_other => True
   end) →
  handleRequest pp ec server req s =
    Some (finish pp (mkResponse (version req)
      (match ec with Some _ => status_bad_request | None => status_not_found end)
      (default (chars "Unknown API endpoint") ec) ∅), s).
Proof.
  intros Ht Hn. unfold handleRequest, finish. rewrite Ht. destruct ec as [what|]; [done|].
  specialize (Hn eq_refl). destruct (method req); [by rewrite Hn.. | done].
Qed.

Definition report_request : request := mkRequest (chars "/api/v1/report") verb_get 11 [].
Definition report_function : ApiFunctionType unit :=
  λ req s, (set_body (chars "{}") (set_version (version req) response_default), s).

Lemma registered_function_answers_witness :
  handleRequest id None (addGet (chars "report") report_function (mkApiServer 30396 ∅ ∅ false))
    report_request tt =
  Some (mkResponse 11 status_ok (chars "{}") {[server_field := chars "apierver"]}, tt).
Proof.
  rewrite (registered_function_answers id (chars "report") report_function
    (mkApiServer 30396 ∅ ∅ false)
    report_request).
  - reflexivity.
  - reflexivity.
  - right. reflexivity.
Defined.

(** A name that contains the version prefix again is not routed by its prefix. *)
Example repeated_prefix : endpoint (chars "/api/v1/x/api/v1") = Some (chars "api/v1/x/api/v1").
Proof. reflexivity. Qed.
