(* ===== verification/GossipExample.v ===== *)
(** * The gossip server ([gossip_example.cpp])

    The program puts the pieces together: it starts a detector, adds the seeds, starts
    the background threads and serves the REST API.  The command line comes in as
    [Options]; conversion to and from JSON is the class [Json].  The state of the program,
    on which the API's functions act, is the [World] of the detector and whether the process
    has been ended by a failure of one of the detector's methods. *)

From Stdlib Require Import ZArith Lia String Ascii.
From stdpp Require Import base list strings gmap.
From S2P Require Import Prelude StdSet SwimCommon UtilsHost UtilsParse UtilsRegex SwimClient SwimServer Membership Refinement Report Fixtures Codec Neighbors Detector DetectorProps ApiServer.

(** [MessageToJsonString] and [JsonStringToMessage]. *)
Class Json := {
  ReportToJsonString : SwimReport → str;
  ServerToJsonString : Server → str;
  JsonStringToServer : str → option Server
}.

(** What the documentation of protocol buffers promises of them, for a message whose fields
    hold values of their types. *)
Class JsonLaws (json : Json) :=
  parse_json s :
    encodable_server s = true → JsonStringToServer (ServerToJsonString s) = Some s.

Definition kDefaultHttpPort : Z := 30396.

(** The values of the command line. *)
Record Options := mkOptions {
  help : bool;
  version_ : bool;
  opt_port : Z;
  http_port : Z;
  ping_timeout_msec : Z;
  grace_period_msec : Z;
  ping_interval_msec : Z;
  seeds : option (list str);
  cors : option str;
  no_http : bool;
  opt_host_name : string
}.

Inductive exit_code := EXIT_SUCCESS | EXIT_FAILURE.

(** The state of the program: [Value tt] while it runs. *)
Abbreviation Program := (completion unit * World)%type.

(** What ends the process: a failure of the detector; the acceptor of the API server cannot
    be bound; the thread of the API server is joined without having been started. *)
Inductive death :=
  | died_of (c : completion unit)
  | died_binding
  | died_joining.

(** The program exits, dies, or runs with its detector and, perhaps, its API server. *)
Inductive main_result :=
  | Exits (code : exit_code)
  | Dies (why : death)
  | Runs (w : World) (api : option (ApiServer Program)).

Section Example.
Context {os : OS} {pb : Protobuf} {env : Environment} {ss : StdSort} {json : Json}.
Implicit Types w : World.

(** ** The API *)

Definition content_type : str := chars "Content-Type".
Definition access_control_allow_origin : str := chars "Access-Control-Allow-Origin".
Definition location : str := chars "Location".
Definition application_json : str := chars "application/json".

(** A word in double quotes. *)
Definition quoted (s : string) : str :=
  Ascii.ascii_of_nat 34 :: chars s ++ [Ascii.ascii_of_nat 34].

(** GET report *)
Definition get_report (cors : option str) : ApiFunctionType Program := λ req '(ended, w),
  let response := set_version (version req) response_default in
  let response := set_result status_ok response in
  let report := PrepareReport (clock_at (asked w)) (clock_at (S (asked w)))
                  (gossip_server_ (detector w)) in
  let w := mkWorld (detector w) (requests w) (S (S (asked w))) in
  let response := set_body (ReportToJsonString report) response in
  let response := match cors with
                  | Some cors => set_field access_control_allow_origin cors response
                  | None => response
                  end in
  (set_field content_type application_json response, (ended, w)).

(** POST server; when [AddNeighbor] ends the process, the response is never sent. *)
Definition post_server : ApiFunctionType Program := λ req '(ended, w),
  match JsonStringToServer (request_body req) with
  | Some neighbor =>
      let '(ended, w) := AddNeighbor neighbor w in
      let response := set_field content_type application_json response_default in
      let response := set_result status_created response in
      let response := set_field location
                        (chars "/server/" ++ chars (hostname neighbor)) response in
      let body := chars "{ " ++ quoted "result" ++ chars ": " ++ quoted "added" ++ chars ", " ++
                  quoted "server" ++ chars ": " in
      let response := set_body (body ++ ServerToJsonString neighbor ++ chars "}") response in
      (response, (ended, w))
  | None =>
      let response := set_result status_bad_request response_default in
      let response := set_field content_type (chars "text/plain") response in
      (set_body (chars "Not a valid JSON representation of a server:" ++ request_body req) response,
       (ended, w))
  end.

Definition rest_api (bind_ok : bool) (o : Options) : option (ApiServer Program) :=
  apiServer ← newApiServer bind_ok (http_port o);
  Some (startApi (addPost (chars "server") post_server
    (addGet (chars "report") (get_report (cors o)) apiServer))).

(** ** Starting *)

(** The server of a seed. *)
Definition seed_of (host : str) (port : Z) : Server :=
  let host_ := String.string_of_list_ascii host in
  let ip := if ParseIp host then host_ else InetAddress host_ in
  set_ip_addr ip (set_port port (set_hostname host_ Server_default)).

(** One turn of the loop over the seeds; what does not parse is logged. *)
Definition add_seed (name : str) : M unit :=
  match ParseHostPort name with
  | Parsed host port => AddNeighbor (seed_of host port)
  | parse_error _ => mret tt
  | atoi_undefined => λ w, (Failed undefined_behaviour, w)
  end.






(** [shutdown(signum)]: the API server is destroyed, the background threads are
    stopped, and the program exits. *)
Definition shutdown (restarted : bool) (w : World) (api : option (ApiServer Program))
    : main_result :=
  match (match api with Some api => destroyApi api | None => Some tt end) with
  | None => Dies died_joining
  | Some _ =>
      match StopAllBackgroundThreads restarted w with
      | (Value _, _) => Exits EXIT_SUCCESS
      | (failed, _) => Dies (died_of failed)
      end
  end.
End Example.

Section Theorems.
Context {os : OS} {pb : Protobuf} {env : Environment} {ss : StdSort} {json : Json}.
Implicit Types w : World.

(** Where the requests so far went. *)
Definition destinations w : list string := (λ q, q.1.1) <$> requests w.

(** A refused address ends [AddNeighbor] before anything changes. *)
Lemma AddNeighbor_ends x w :
  (∃ w', AddNeighbor x w = (Value tt, w') ∧ zmq_connect (uri_of x) = true ∧
     destinations w' = destinations w ++ [uri_of x] ∧
     threads_ (detector w') = threads_ (detector w)) ∨
  zmq_connect (uri_of x) = false ∧ AddNeighbor x w = (Failed (connect_refused (uri_of x)), w).
Proof.
  unfold AddNeighbor. erewrite bind_step by done. fold (server_of w).
  change (newSwimClient _ _ _ _ _) with (detector_client x w). unfold mbind, M_bind.
  destruct (post_cases Ping_envelope (detector_client x w) w) as [(ok & _ & Hz & ->)|(_ & Hz & ->)];
    [left | right; by split].
  destruct ok; eexists; (split; [reflexivity|]); (split; [done|]); (split; [|done]);
    unfold destinations; cbn; by rewrite fmap_app.
Qed.

(** ** The API *)

(** GET report answers with the JSON of the current report, as JSON and with the
    CORS header exactly when the option was given; the detector is not changed and nothing
    is sent. *)
Theorem get_report_answers pp o bind_ok api req w :
  rest_api bind_ok o = Some api → method req = verb_get →
  target req = chars "/report" ∨ target req = chars "/api/v1/report" →
  ∃ res w',
    handleRequest pp None api req (Value tt, w) = Some (finish pp res, (Value tt, w')) ∧
    detector w' = detector w ∧ requests w' = requests w ∧
    result res = status_ok ∧ res_version res = version req ∧
    body res = ReportToJsonString (PrepareReport (clock_at (asked w)) (clock_at (S (asked w)))
                 (gossip_server_ (detector w))) ∧
    fields_ res !! content_type = Some application_json ∧
    fields_ res !! access_control_allow_origin = cors o.
Proof.
  intros Hapi Hm Ht. destruct bind_ok; [|done]. injection Hapi as <-.
  assert (endpoint (target req) = Some (chars "report")) as He
    by (apply endpoint_name; [reflexivity | exact Ht]).
  set (api := startApi _).
  pose proof (handle_get pp (chars "report") (get_report (cors o)) api req (Value tt, w) He Hm
    eq_refl) as Hh.
  eexists _, _. split; [exact Hh|]. clear Hh.
  unfold get_report. destruct (cors o); repeat split; try done; cbn [fst fields_ set_field];
    by rewrite ?lookup_insert_eq, ?lookup_insert_ne, ?lookup_insert_eq by done.
Qed.

(** POST server with the JSON of a server pings that server once and makes it
    alive if it answers and suspected otherwise, and answers 201 with its location; if
    [connect] refuses its address the process ends; a body that is not the JSON of a server is
    answered 400 and changes nothing. *)
Theorem post_server_adds_neighbor {jl : JsonLaws json} pp o bind_ok api req w x :
  rest_api bind_ok o = Some api →
  server_inv (server_of w) → port x ≠ 0%Z → key x ≠ key (self (server_of w)) →
  method req = verb_post → target req = chars "/api/v1/server" →
  (request_body req = ServerToJsonString x → encodable_server x = true →
   zmq_connect (uri_of x) = true →
   let c := detector_client x w in
   ∃ ok res w',
     (postMessage (exchange_at (asked w)) Ping_envelope c).1 = Some ok ∧
     handleRequest pp None api req (Value tt, w) = Some (finish pp res, (Value tt, w')) ∧
     result res = status_created ∧
     fields_ res !! location = Some (chars "/server/" ++ chars (hostname x)) ∧
     requests w' = requests w ++ [(destinationUri c, (stamp c Ping_envelope).2, ok)] ∧
     (if ok then is_Some (seek x (alive_ (server_of w'))) ∧
        seek x (suspected_ (server_of w')) = None
      else is_Some (seek x (suspected_ (server_of w'))) ∧
        seek x (alive_ (server_of w')) = None)) ∧
  (request_body req = ServerToJsonString x → encodable_server x = true →
   zmq_connect (uri_of x) = false →
   ∃ res, handleRequest pp None api req (Value tt, w) =
     Some (res, (Failed (connect_refused (uri_of x)), w))) ∧
  (JsonStringToServer (request_body req) = None →
   ∃ res, handleRequest pp None api req (Value tt, w) = Some (finish pp res, (Value tt, w)) ∧
     result res = status_bad_request).
Proof.
  intros Hapi Hi Hp Hs Hm Ht. destruct bind_ok; [|done]. injection Hapi as <-.
  assert (endpoint (target req) = Some (chars "server")) as He by (by rewrite Ht).
  set (api := startApi _).
  pose proof (handle_post pp (chars "server") post_server api req (Value tt, w) He Hm eq_refl) as Hh.
  unfold post_server in Hh. split_and!.
  - intros Hb Hx Hz c. rewrite Hh, Hb, parse_json by done. clear Hh.
    destruct (post_cases Ping_envelope c w) as [(ok & Hok & _)|(_ & Hno & _)].
    2: { change (destinationUri c) with (uri_of x) in Hno. congruence. }
    destruct (AddNeighbor_classifies x w ok Hi Hp Hs Hok) as (w' & E & Hr & Hc). rewrite E.
    eexists ok, _, w'. split; [done|]. split; [reflexivity|].
    split; [done|]. split; [done|]. split; [done|].
    destruct ok; destruct Hc as [? H]; (split; [|done]); [|done].
    destruct H as (r & -> & _). by eexists.
  - intros Hb Hx Hz. rewrite Hh, Hb, parse_json by done.
    destruct (AddNeighbor_ends x w) as [(w' & _ & Hno & _)|[_ E]]; [congruence|].
    rewrite E. by eexists.
  - intros Hj. rewrite Hh, Hj. eexists. split; reflexivity.
Qed.

(** ** Seeds *)

(** The server a seed names, when it parses. *)
Definition seed_server (name : str) : option Server :=
  match ParseHostPort name with
  | Parsed host port => Some (seed_of host port)
  | _ => None
  end.

(** How the loop over the seeds ends: the addresses of the seeds that parse are pinged in
    their order, up to the first that is refused. *)
Lemma seeds_loop names w :
  Forall (λ name, ParseHostPort name ≠ atoi_undefined) names →
  let xs := omap seed_server names in
  (Forall (λ x, zmq_connect (uri_of x) = true) xs →
   ∃ w', for_each names add_seed w = (Value tt, w') ∧
     destinations w' = destinations w ++ (uri_of <$> xs) ∧
     threads_ (detector w') = threads_ (detector w)) ∧
  (∀ pre x post, xs = pre ++ x :: post →
   Forall (λ y, zmq_connect (uri_of y) = true) pre → zmq_connect (uri_of x) = false →
   ∃ w', for_each names add_seed w = (Failed (connect_refused (uri_of x)), w') ∧
     destinations w' = destinations w ++ (uri_of <$> pre)).
Proof.
  intros Hn. revert w. induction Hn as [|name names Hn _ IH]; intros w xs.
  { split; [|by intros [] ? ? [=]]. intros _. exists w. split; [done|]. cbn. by rewrite app_nil_r. }
  assert (xs = match seed_server name with
    Some x => x :: omap seed_server names | None => omap seed_server names end) as Exs.
  { unfold xs. cbn. by destruct (seed_server name). }
  clearbody xs. unfold seed_server in Exs. cbn [for_each]. unfold mbind at 1 2, M_bind at 1 2.
  assert (add_seed name w = match ParseHostPort name with
    | Parsed host port => AddNeighbor (seed_of host port) | parse_error _ => mret tt
    | atoi_undefined => λ w, (Failed undefined_behaviour, w) end w) as -> by done.
  destruct (ParseHostPort name) as [host port|what|]; [| |done].
  2: { subst xs. exact (IH w). }
  subst xs. set (y := seed_of host port).
  destruct (AddNeighbor_ends y w) as [(w1 & E & Hz & Hd & Ht)|[Hz E]]; rewrite E.
  - destruct (IH w1) as [IH1 IH2]. split.
    + intros Hall. apply Forall_cons in Hall as [_ Hall].
      destruct (IH1 Hall) as (w' & E' & Hd' & Ht'). exists w'. split; [done|].
      by rewrite Hd', Hd, fmap_cons, <- app_assoc, Ht'.
    + intros [|z pre] x post; [intros [= <- <-] _ Hx; congruence|].
      intros [= <- Epre] Hpre Hx. apply Forall_cons in Hpre as [_ Hpre].
      destruct (IH2 pre x post Epre Hpre Hx) as (w' & E' & Hd'). exists w'. split; [done|].
      by rewrite Hd', Hd, fmap_cons, <- app_assoc.
  - split.
    + intros Hall. apply Forall_cons in Hall as [Hy _]. congruence.
    + intros [|z pre] x post; [intros [= <- <-] _ Hx; exists w; split; [done|]; cbn; by rewrite app_nil_r|].
      intros [= <- Epre] Hpre Hx. apply Forall_cons in Hpre as [Hy _]. congruence.
Qed.

(** Unless a port is out of [int]'s range or an address is refused, the loop over the seeds
    completes: it pings exactly the seeds that parse, each once and in their order; one that
    does not parse is skipped. *)
Theorem seeds_are_pinged names w :
  Forall (λ name, ParseHostPort name ≠ atoi_undefined) names →
  Forall (λ x, zmq_connect (uri_of x) = true) (omap seed_server names) →
  ∃ w', for_each names add_seed w = (Value tt, w') ∧
    destinations w' = destinations w ++ (uri_of <$> omap seed_server names).
Proof.
  intros Hn Hz. destruct (seeds_loop names w Hn) as [H _]. destruct (H Hz) as (w' & E & Hd & _). eauto.
Qed.

(** ** Running *)


End Theorems.

(** ** Evaluated on the fixtures *)

Definition bit_json : Json := {|
  ReportToJsonString := λ r, chars (to_bits (encode r));
  ServerToJsonString := λ s, chars (to_bits (encode s));
  JsonStringToServer := λ s, of_bits (String.string_of_list_ascii s) ≫= decode
|}.

#[export] Instance bit_json_laws : JsonLaws bit_json.
Proof.
  intros s _. simpl. unfold chars. rewrite String.string_of_list_ascii_of_string, of_to_bits.
  apply decode_encode.
Qed.

Definition demo_options : Options :=
  mkOptions false false 30395 kDefaultHttpPort 25 35000 5000
    (Some [chars "10.0.0.7:9200"; chars "no port"; chars "host2:9876"]) (Some (chars "*")) false
    "node0".

Section Witnesses.
#[local] Existing Instance bit_codec.
#[local] Existing Instance bit_json.
#[local] Existing Instance merge_StdSort.

Definition demo_env : Environment := env_at 1 (Received "OK").
#[local] Existing Instance demo_env.

Lemma get_report_answers_witness :
  ∃ api res w',
    rest_api true demo_options = Some api ∧
    handleRequest id None api report_request (Value tt, world_of node_as) =
      Some (finish id res, (Value tt, w')) ∧
    fields_ res !! access_control_allow_origin = Some (chars "*").
Proof.
  destruct (get_report_answers id demo_options true _ report_request (world_of node_as) eq_refl)
    as (res & w' & E & _ & _ & _ & _ & _ & _ & Hc); [reflexivity | right; reflexivity |].
  eexists _, res, w'. split; [reflexivity|]. split; [exact E | exact Hc].
Defined.

Definition post_host3 : request :=
  mkRequest (chars "/api/v1/server") verb_post 11 (ServerToJsonString host3).

Lemma post_server_adds_neighbor_witness :
  ∃ api res w',
    rest_api true demo_options = Some api ∧
    handleRequest id None api post_host3 (Value tt, world_of node_as) =
      Some (finish id res, (Value tt, w')) ∧
    result res = status_created ∧ is_Some (seek host3 (alive_ (server_of w'))).
Proof.
  destruct (post_server_adds_neighbor id demo_options true _ post_host3 (world_of node_as) host3 eq_refl)
    as [H _]; [exact (inv_stopped _ _ node_as_inv) | discriminate | discriminate | reflexivity.. |].
  destruct (H eq_refl) as (ok & res & w' & Hok & E & Hr & _ & _ & Ha); [reflexivity | reflexivity |].
  vm_compute in Hok. injection Hok as <-.
  eexists _, res, w'. split; [reflexivity|]. split; [exact E|]. split; [exact Hr | exact (proj1 Ha)].
Defined.

Lemma demo_seeds_ok :
  Forall (λ name, ParseHostPort name ≠ atoi_undefined) (default [] (seeds demo_options)).
Proof. repeat constructor; vm_compute; discriminate. Qed.

Lemma seeds_are_pinged_witness :
  ∃ w', for_each (default [] (seeds demo_options)) add_seed (world_of node) = (Value tt, w') ∧
    destinations w' = ["tcp://10.0.0.7:9200"; "tcp://host2:9876"].
Proof.
  apply (seeds_are_pinged (default [] (seeds demo_options)) (world_of node) demo_seeds_ok).
  repeat constructor.
Defined.

End Witnesses.
