(* ===== verification/ServerDemo.v ===== *)
(** * The demo client and server ([server_demo.cpp])

    [runClient] pings a server every second and a half until the timer thread sets
    [stopped].  What [stopped.load()] answers and what the network answers at each turn
    are arguments; the number of turns is the fuel, and [demo_client] shows that one more
    than the turn at which the timer strikes is enough. *)

From Stdlib Require Import ZArith Lia String.
From stdpp Require Import base list strings.
From S2P Require Import Prelude StdSet SwimCommon UtilsHost SwimClient SwimServer Fixtures Codec GossipExample.

Section Demo.
Context {os : OS} {pb : Protobuf}.

(** The client of [runClient], with the name of the command line. *)
Definition demo_client0 (host_name host : string) (port : Z) (name : string) (timeout : Z)
    : SwimClient :=
  let server := MakeServer host port "" in
  let client := newSwimClient host_name 0 server 0 timeout in
  let client_svr := MakeServer name (SwimCommon.port (self_ client)) "" in
  setSelf client_svr client.

(** The client returns, or the exception of [connect] ends the process. *)
Inductive client_end :=
  | Returns (code : exit_code)
  | Throws.

(** [while (!stopped.load())]; turn [i] asks [stopped i] and [exchange i]. *)
Fixpoint ping_loop (fuel : nat) (stopped : nat → bool) (exchange : nat → Exchange) (i : nat)
    (client : SwimClient) : option (client_end * SwimClient) :=
  match fuel with
  | O => None
  | S fuel =>
      if stopped i then Some (Returns EXIT_SUCCESS, client)
      else
        let '(sent, client) := Ping (exchange i) client in
        match sent with
        | None => Some (Throws, client)
        | Some ok =>
            if negb ok then Some (Returns EXIT_FAILURE, client)
            else ping_loop fuel stopped exchange (S i) client
        end
  end.

Definition runClient (fuel : nat) (stopped : nat → bool) (exchange : nat → Exchange)
    (host_name host : string) (port : Z) (name : string) (timeout : Z)
    : option (client_end * SwimClient) :=
  ping_loop fuel stopped exchange 0 (demo_client0 host_name host port name timeout).

(** ** [main] *)

Record DemoOptions := mkDemoOptions {
  demo_help : bool;
  demo_version : bool;
  demo_port : Z;
  demo_timeout : Z;
  action : option string;
  demo_host : option string;
  demo_name : string;
  demo_host_name : string
}.

Inductive demo_result :=
  | DemoExits (code : exit_code)
  | DemoDies
  | DemoServes (s : SwimServer)  (** in [server.start()] *)
  | DemoOutOfFuel.

Definition demo_main (fuel : nat) (stopped : nat → bool) (exchange : nat → Exchange)
    (o : DemoOptions) : demo_result :=
  if demo_help o then DemoExits EXIT_SUCCESS
  else if demo_version o then DemoExits EXIT_SUCCESS
  else if (demo_port o <? 0)%Z || (65535 <? demo_port o)%Z then DemoExits EXIT_FAILURE
  else match action o with
  | None => DemoExits EXIT_FAILURE
  | Some action =>
      if String.eqb action "send" then
        match demo_host o with
        | None => DemoExits EXIT_FAILURE
        | Some host =>
            if (String.length host =? 0)%nat then DemoExits EXIT_FAILURE
            else match runClient fuel stopped exchange (demo_host_name o) host (demo_port o)
                         (demo_name o) (demo_timeout o) with
                 | Some (Returns _, _) => DemoExits EXIT_SUCCESS
                 | Some (Throws, _) => DemoDies
                 | None => DemoOutOfFuel
                 end
        end
      else if String.eqb action "receive" then
        DemoServes (newSwimServer (demo_host_name o) (demo_port o) false kNumThreads
          kDefaultPollingIntervalMsec)
      else DemoExits EXIT_FAILURE
  end.

(** The command line, and [main] from it on: the final [FLAGS_v] and the result. *)
Inductive demo_command_line :=
  | DemoBadCommandLine (what : string)
  | DemoCommandLine (debug : bool) (o : DemoOptions).

Definition demo_command_main (fuel : nat) (stopped : nat → bool) (exchange : nat → Exchange)
    (FLAGS_v : Z) (args : demo_command_line) : Z * demo_result :=
  match args with
  | DemoBadCommandLine _ => (FLAGS_v, DemoExits EXIT_FAILURE)
  | DemoCommandLine debug o =>
      let FLAGS_v := if debug then 2%Z else FLAGS_v in
      (FLAGS_v, demo_main fuel stopped exchange o)
  end.
End Demo.

Section DemoTheorems.
Context {os : OS} {pb : Protobuf}.

(** The client at turn [i] of the loop. *)
Definition client_at (c : SwimClient) (i : nat) : SwimClient :=
  set_client_lamport_time (Z.of_nat i) c.

Definition answered_at (exchange : nat → Exchange) (c : SwimClient) (i : nat) : bool :=
  bool_decide ((Ping (exchange i) (client_at c i)).1 = Some true).

Lemma Ping_at exchange c i :
  (Z.of_nat (S i) < two64)%Z →
  Ping exchange (client_at c i) = ((Ping exchange (client_at c i)).1, client_at c (S i)).
Proof.
  intros Hi. unfold Ping, postMessage, stamp.
  set (e := exchange _ _ _). set (z := zmq_connect _). cbn [client_lamport_time_ client_at set_client_lamport_time].
  rewrite u64_small by (unfold is_u64; lia).
  replace (Z.of_nat i + 1)%Z with (Z.of_nat (S i)) by lia.
  destruct z; [|done]. destruct e; try done. by destruct (String.eqb _ _).
Qed.

(** A ping throws exactly when the address is refused. *)
Lemma Ping_refused exchange c i :
  (Ping exchange (client_at c i)).1 = None ↔ zmq_connect (destinationUri c) = false.
Proof.
  unfold Ping, postMessage, stamp. change (destinationUri (set_client_lamport_time _ _)) with (destinationUri c).
  destruct (zmq_connect (destinationUri c)); cbn [negb]; [|done].
  destruct (exchange _ _ _); try done. by destruct (String.eqb _ _).
Qed.

(** The turns from [i] on, when the timer strikes at turn [n]. *)
Lemma ping_loop_run stopped exchange c n k i :
  zmq_connect (destinationUri c) = true →
  (∀ j, j < n → stopped j = false) → stopped n = true → (Z.of_nat n < two64)%Z →
  i + k = n →
  ∃ code m,
    ping_loop (S k) stopped exchange i (client_at c i) = Some (Returns code, client_at c m) ∧
    i ≤ m ≤ n ∧
    match code with
    | EXIT_SUCCESS => m = n ∧ ∀ j, i ≤ j < n → answered_at exchange c j = true
    | EXIT_FAILURE => ∃ j, i ≤ j < n ∧ answered_at exchange c j = false ∧ m = S j ∧
        ∀ l, i ≤ l < j → answered_at exchange c l = true
    end.
Proof.
  intros Hz Hrun Hstop Hn. revert i. induction k as [|k IH]; intros i Hi.
  { exists EXIT_SUCCESS, i. cbn [ping_loop]. replace i with n by lia. rewrite Hstop.
    split; [done|]. split; [lia|]. split; [done|]. intros; lia. }
  remember (S k) as k' eqn:Hk'. cbn [ping_loop]. rewrite (Hrun i) by lia.
  rewrite Ping_at by lia. pose proof (Ping_refused (exchange i) c i) as Hr.
  assert (answered_at exchange c i = bool_decide ((Ping (exchange i) (client_at c i)).1 = Some true))
    as E by done.
  destruct (Ping (exchange i) (client_at c i)).1 as [[]|];
    [| |by rewrite (proj1 Hr eq_refl) in Hz]; cbn [negb]; cbn in E.
  - subst k'. destruct (IH (S i)) as (code & m & El & Hm & Hc); [lia|].
    exists code, m. split; [done|]. split; [lia|]. destruct code.
    + destruct Hc as [-> Hall]. split; [done|]. intros j Hj.
      destruct (decide (j = i)) as [->|]; [done|]. apply Hall. lia.
    + destruct Hc as (j & Hj & Hf & -> & Hall). exists j. split; [lia|]. do 2 (split; [done|]).
      intros l Hl. destruct (decide (l = i)) as [->|]; [done|]. apply Hall. lia.
  - exists EXIT_FAILURE, (S i). split; [done|]. split; [lia|]. exists i. split; [lia|].
    do 2 (split; [done|]). intros; lia.
Qed.

(** When the timer strikes before turn [n], the client stops after at most [n]
    pings, each sent under the given name with the number of the ping as its Lamport time;
    it succeeds exactly when all of them are answered, and otherwise stops at the first that
    is not.  If [connect] refuses the address, the first ping throws. *)
Theorem demo_client stopped exchange host_name host port name timeout n :
  (∀ j, j < n → stopped j = false) → stopped n = true → (Z.of_nat n < two64)%Z →
  let c := demo_client0 host_name host port name timeout in
  (zmq_connect (destinationUri c) = true → ∃ code m,
    runClient (S n) stopped exchange host_name host port name timeout =
      Some (Returns code, client_at c m) ∧
    m ≤ n ∧ hostname (self_ c) = name ∧
    (code = EXIT_SUCCESS ↔ ∀ j, j < n → answered_at exchange c j = true) ∧
    (code = EXIT_FAILURE → ∃ j, m = S j ∧ answered_at exchange c j = false ∧
       ∀ i, i < j → answered_at exchange c i = true)) ∧
  (zmq_connect (destinationUri c) = false → 0 < n →
    runClient (S n) stopped exchange host_name host port name timeout =
      Some (Throws, client_at c 1)).
Proof.
  intros Hrun Hstop Hn c. split.
  2:{ intros Hz Hpos. unfold runClient. cbn [ping_loop]. rewrite Hrun by done.
      change (demo_client0 _ _ _ _ _) with (client_at c 0). rewrite Ping_at by done.
      by rewrite (proj2 (Ping_refused (exchange 0) c 0) Hz). }
  intros Hz. destruct (ping_loop_run stopped exchange c n n 0) as (code & m & E & Hm & Hc); [done..|].
  exists code, m. split; [exact E|]. split; [lia|]. split; [done|]. destruct code.
  - destruct Hc as [-> Hall]. split; [|done]. split; [|done]. intros _ j Hj. apply Hall. lia.
  - destruct Hc as (j & Hj & Hf & -> & Hall). split.
    + split; [done|]. intros H. rewrite H in Hf by lia. done.
    + intros _. exists j. split; [done|]. split; [done|]. intros l Hl. apply Hall. lia.
Qed.

(** The program exits with success after an unanswered ping: the result of the
    client is not used. *)
Theorem demo_main_hides_failure fuel stopped exchange v debug o host c :
  demo_help o = false → demo_version o = false → (0 <= demo_port o <= 65535)%Z →
  action o = Some "send" → demo_host o = Some host → host ≠ "" →
  runClient fuel stopped exchange (demo_host_name o) host (demo_port o) (demo_name o)
    (demo_timeout o) = Some (Returns EXIT_FAILURE, c) →
  (demo_command_main fuel stopped exchange v (DemoCommandLine debug o)).2 =
    DemoExits EXIT_SUCCESS.
Proof.
  intros Hh Hv Hp Ha Ho Hne Hr. cbn [demo_command_main snd]. unfold demo_main. rewrite Hh, Hv, Ha, Ho.
  rewrite (proj2 (Z.ltb_ge _ _)), (proj2 (Z.ltb_ge _ _)) by lia. cbn [orb String.eqb].
  destruct host as [|a host]; [done|]. by rewrite Hr.
Qed.
End DemoTheorems.

(** ** Evaluated *)

Section DemoWitnesses.
#[local] Existing Instance bit_codec.

(** The third ping is not answered; the timer would strike after the fourth. *)
Definition third_lost : nat → Exchange :=
  λ i _ _ _, if (i =? 2)%nat then PollTimedOut else Received "OK".
Definition strikes_at (n : nat) : nat → bool := λ i, (n <=? i)%nat.

Lemma demo_client_witness :
  let c := demo_client0 "node0" "host1" 6060 "client" 200 in
  ∃ code m, runClient 5 (strikes_at 4) third_lost "node0" "host1" 6060 "client" 200 =
      Some (Returns code, client_at c m) ∧ m ≤ 4.
Proof.
  destruct (demo_client (strikes_at 4) third_lost "node0" "host1" 6060 "client" 200 4)
    as [H _].
  - intros j Hj. apply Nat.leb_gt. exact Hj.
  - reflexivity.
  - unfold two64. lia.
  - destruct (H eq_refl) as (code & m & E & Hm & _). exists code, m. split; [exact E | exact Hm].
Defined.

Example third_ping_fails :
  fst <$> runClient 5 (strikes_at 4) third_lost "node0" "host1" 6060 "client" 200 =
    Some (Returns EXIT_FAILURE).
Proof. vm_compute. reflexivity. Qed.

Lemma demo_main_hides_failure_witness :
  (demo_command_main 5 (strikes_at 4) third_lost 0 (DemoCommandLine false
    (mkDemoOptions false false 6060 200 (Some "send") (Some "host1") "client" "node0"))).2 =
  DemoExits EXIT_SUCCESS.
Proof.
  eapply (demo_main_hides_failure _ _ _ _ _ _ "host1"); try reflexivity; [cbn; lia | discriminate].
Defined.
End DemoWitnesses.
