(* ===== verification/HttpRequest.v ===== *)
(** * The HTTP client ([SimpleHttpRequest.hpp]): state and operations

    A client keeps the options and headers of a request, the response being read, the
    user's callbacks and two libuv handles, a timer and a TCP stream.  [libuv] and the
    HTTP parser are not part of the repository: they are the classes [UV] and
    [HttpParser].  The parser reads a piece of input by calling the client back; its
    run is a tree of calls, each continuing with the value the call returned.  The
    methods run in a state monad whose outcomes include an exception that escapes, a
    failed assertion and undefined behaviour (a read through a dangling pointer, a
    handle that was never initialised, a length of -1).  [HttpText], [HttpResponse] and
    [HttpLoop] hold the theorems, [HttpSsl] what [ENABLE_SSL] adds. *)

From Stdlib Require Import ZArith Lia String Ascii.
From stdpp Require Import base list strings gmap pretty.
From S2P Require Import Prelude StdSet UtilsParse UtilsRegex.

(** ** What the source uses of the Standard Library of C++ *)

(** [std::map<string, string>], where its order of iteration matters: a set of
    pairs ordered by the first component. *)
Definition header_less (p q : str * str) : bool :=
  string_less (String.string_of_list_ascii p.1) (String.string_of_list_ascii q.1).
#[export] Instance header_Less : Less (str * str) := header_less.

(** [m[k] = v] *)
Definition map_assign (k v : str) (m : list (str * str)) : list (str * str) :=
  modify (λ _, (k, v)) (k, v) (insert (k, v) m).1.
Definition map_find (k : str) (m : list (str * str)) : option str := snd <$> find (k, []) m.

(** [std::stringstream], written at its end and read from its beginning. *)
Record stringstream := mkStringstream {
  written : str;
  taken : nat;      (** characters already read *)
  failbit : bool
}.
Definition empty_stream : stringstream := mkStringstream [] 0 false.

(** [s << data]; [s.rdbuf()->sputn(data, n)], which ignores the state of [s]. *)
Definition put (data : str) (s : stringstream) : stringstream :=
  if failbit s then s else mkStringstream (written s ++ data) (taken s) (failbit s).
Definition sputn (data : str) (s : stringstream) : stringstream :=
  mkStringstream (written s ++ data) (taken s) (failbit s).

(** [s << src.rdbuf()]: what is left in [src] moves to [s]; [s] fails when that is
    nothing. *)
Definition put_rdbuf (src s : stringstream) : stringstream * stringstream :=
  if failbit s then (src, s)
  else match drop (taken src) (written src) with
       | [] => (src, mkStringstream (written s) (taken s) true)
       | data => (mkStringstream (written src) (length (written src)) (failbit src), put data s)
       end.

(** [s.tellp()] *)
Definition tellp (s : stringstream) : Z := if failbit s then -1 else Z.of_nat (length (written s)).

(** [::tolower], in the C locale. *)
Definition tolower (a : ascii) : ascii :=
  let n := Ascii.nat_of_ascii a in
  if (65 <=? n) && (n <=? 90) then Ascii.ascii_of_nat (n + 32) else a.

(** [std::isspace] in the C locale, and [std::stoi]. *)
Definition isspace (a : ascii) : bool :=
  let n := Ascii.nat_of_ascii a in (n =? 32) || ((9 <=? n) && (n <=? 13)).
Fixpoint skip_while (f : ascii → bool) (s : str) : str :=
  match s with
  | a :: s' => if f a then skip_while f s' else s
  | [] => []
  end.
Fixpoint take_while (f : ascii → bool) (s : str) : str :=
  match s with
  | a :: s' => if f a then a :: take_while f s' else []
  | [] => []
  end.

Inductive exception := invalid_argument | out_of_range.

Definition stoi (s : str) : Z + exception :=
  let s := skip_while isspace s in
  let '(sign, s) :=
    match s with
    | a :: s' =>
        if bool_decide (a = Ascii.ascii_of_nat 45) then ((-1)%Z, s')
        else if bool_decide (a = Ascii.ascii_of_nat 43) then (1%Z, s') else (1%Z, s)
    | [] => (1%Z, s)
    end in
  match take_while is_digit s with
  | [] => inr invalid_argument
  | digits =>
      let n := (sign * decimal digits)%Z in
      if (- INT_MAX - 1 <=? n)%Z && (n <=? INT_MAX)%Z then inl n else inr out_of_range
  end.

(** [url.substr(off, len)] *)
Definition substr (off len : nat) (s : str) : option str := take len <$> substr_from off s.

(** ** libuv *)

Inductive handle := h_tcp | h_timer.

(** The callbacks of the client the loop makes. *)
Inductive uv_event :=
  | ev_timer
  | ev_connect (status : Z)
  | ev_read (nread : Z) (data : str)
  | ev_write (status : Z).

(** [Loop] is what the loop holds of the client's two handles; [due e l] is the
    loop's state as it makes the call [e], when it may make it. *)
Class UV := {
  Loop : Type;
  sockaddr : Type;
  uv_err_name : Z → str;
  uv_strerror : Z → str;
  uv_ip4_addr : str → Z → Z * sockaddr;
  uv_getaddrinfo : str → str → Z * sockaddr;
  uv_ip4_name : sockaddr → str;
  uv_timer_init : Loop → Z * Loop;
  uv_timer_start : Z → Loop → Z * Loop;
  uv_tcp_init : Loop → Z * Loop;
  uv_tcp_connect : sockaddr → Loop → Z * Loop;
  uv_read_start : Loop → Z * Loop;
  uv_write : str → Loop → Z * Loop;
  uv_is_active : handle → Loop → bool;
  uv_is_closing : handle → Loop → bool;
  uv_close : handle → Loop → Loop;
  due : uv_event → Loop → option Loop
}.

Definition UV_EOF : Z := -4095.
Definition ECANCELED : Z := 125.
Definition ETIMEDOUT : Z := 110.

(** What the documentation of libuv says of closing: a handle being closed stays so
    until it is initialised again, is not called back but for a request that was
    pending, and leaves the other handle alone. *)
Class UVLaws {uv : UV} := {
  close_closing h l : uv_is_closing h (uv_close h l) = true;
  close_keeps h h' l : uv_is_closing h l = true → uv_is_closing h (uv_close h' l) = true;
  close_active h h' l : h ≠ h' → uv_is_active h (uv_close h' l) = uv_is_active h l;
  read_start_keeps h l : uv_is_closing h (uv_read_start l).2 = uv_is_closing h l;
  write_keeps h data l : uv_is_closing h (uv_write data l).2 = uv_is_closing h l;
  due_keeps e h l l' : due e l = Some l' → uv_is_closing h l' = uv_is_closing h l;
  due_timer l l' : due ev_timer l = Some l' → uv_is_closing h_timer l = false;
  due_read n d l l' : due (ev_read n d) l = Some l' → uv_is_closing h_tcp l = false;
  due_connect s l l' :
    due (ev_connect s) l = Some l' → uv_is_closing h_tcp l = true → s = (- ECANCELED)%Z
}.

(** ** The HTTP parser *)

(** A call of the parser, with the part of the input or the fields of the parser
    that the callback uses. *)
Inductive parser_call :=
  | on_message_begin
  | on_url (off len : nat)
  | on_header_field (off len : nat)
  | on_header_value (off len : nat)
  | on_headers_complete (status_code : Z) (chunked : bool) (content_length : Z)
  | on_body (at_ : option (nat * nat))
  | on_message_complete (should_keep_alive : bool).

(** A run of [http_parser_execute]: the number of characters parsed, [upgrade] and
    the parser's state in the end. *)
Inductive parser_run (P : Type) :=
  | Finished (parsed : Z) (upgrade : bool) (p : P)
  | Calling (cb : parser_call) (k : Z → parser_run P).
Arguments Finished {P} _ _ _.
Arguments Calling {P} _ _.

(** [field_data] of [http_parser_url]: offset and length. *)
Record url_fields := mkUrlFields {
  UF_SCHEMA : nat * nat;
  UF_HOST : nat * nat;
  UF_PORT : nat * nat;
  UF_PATH : nat * nat;
  UF_QUERY : nat * nat
}.

Class HttpParser := {
  parser : Type;
  http_parser_init : parser;
  http_parser_execute : parser → str → parser_run parser;
  http_parser_parse_url : str → option url_fields
}.

Definition ULLONG_MAX : Z := two64 - 1.

(** ** The client *)

Record Error := mkError {
  name : str;
  message : str
}.

Record Response := mkResponse {
  statusCode : Z;
  headers : gmap str str;
  response_body : str
}.

(** Names of the user's functions. *)
Abbreviation callback := nat.

(** [lastHeaderFieldBuf]; the constructor does not initialise it. *)
Inductive pointer :=
  | Indeterminate
  | Null
  | At (buf off : nat).

(** The calls the client makes: of the user's functions, of [uv_run], of OpenSSL. *)
Inductive call :=
  | CallResponse (f : callback) (r : Response)
  | CallError (f : callback) (e : Error)
  | CallListener (f : callback)
  | CallRun
  | CallBIO_puts (text : str)
  | CallBIO_free_all.

(** The outcome of a method. *)
Inductive outcome (A : Type) :=
  | Ok (a : A)
  | Throws (e : exception)  (** an exception that escapes *)
  | Aborts                  (** a failed [ASSERT] *)
  | Undefined.              (** undefined behaviour *)
Arguments Ok {A} _.
Arguments Throws {A} _.
Arguments Aborts {A}.
Arguments Undefined {A}.

Section Client.
Context {uv : UV} {hp : HttpParser}.

Record SimpleHttpRequest := mkSimpleHttpRequest {
  options : gmap str str;
  requestHeaders : list (str * str);
  requestBody : stringstream;
  response : Response;
  timeout : Z;
  defaultLoopAbsented : bool;
  eventListeners : gmap str callback;
  responseCallback : option callback;
  errorCallback : option callback;
  lastHeaderFieldBuf : pointer;
  lastHeaderFieldLenth : Z;
  parser_ : parser;
  tcp_initialised : bool;  (** whether the handle [tcp] was initialised *)
  timer_initialised : bool;  (** and [timer] *)
  uv_loop : Loop;  (** what the loop holds of the two handles *)
  heap : gmap nat str;  (** the buffers allocated for reads and not freed *)
  buffers : nat;  (** how many were allocated *)
  calls : list call  (** the calls the client made, oldest first *)
}.

Definition set_options (v : gmap str str) (c : SimpleHttpRequest) : SimpleHttpRequest :=
  mkSimpleHttpRequest v (requestHeaders c) (requestBody c) (response c) (timeout c)
    (defaultLoopAbsented c) (eventListeners c) (responseCallback c) (errorCallback c)
    (lastHeaderFieldBuf c) (lastHeaderFieldLenth c) (parser_ c) (tcp_initialised c)
    (timer_initialised c) (uv_loop c) (heap c) (buffers c) (calls c).
Definition set_requestHeaders (v : list (str * str)) (c : SimpleHttpRequest) : SimpleHttpRequest :=
  mkSimpleHttpRequest (options c) v (requestBody c) (response c) (timeout c)
    (defaultLoopAbsented c) (eventListeners c) (responseCallback c) (errorCallback c)
    (lastHeaderFieldBuf c) (lastHeaderFieldLenth c) (parser_ c) (tcp_initialised c)
    (timer_initialised c) (uv_loop c) (heap c) (buffers c) (calls c).
Definition set_requestBody (v : stringstream) (c : SimpleHttpRequest) : SimpleHttpRequest :=
  mkSimpleHttpRequest (options c) (requestHeaders c) v (response c) (timeout c)
    (defaultLoopAbsented c) (eventListeners c) (responseCallback c) (errorCallback c)
    (lastHeaderFieldBuf c) (lastHeaderFieldLenth c) (parser_ c) (tcp_initialised c)
    (timer_initialised c) (uv_loop c) (heap c) (buffers c) (calls c).
Definition set_response (v : Response) (c : SimpleHttpRequest) : SimpleHttpRequest :=
  mkSimpleHttpRequest (options c) (requestHeaders c) (requestBody c) v (timeout c)
    (defaultLoopAbsented c) (eventListeners c) (responseCallback c) (errorCallback c)
    (lastHeaderFieldBuf c) (lastHeaderFieldLenth c) (parser_ c) (tcp_initialised c)
    (timer_initialised c) (uv_loop c) (heap c) (buffers c) (calls c).
Definition set_timeout (v : Z) (c : SimpleHttpRequest) : SimpleHttpRequest :=
  mkSimpleHttpRequest (options c) (requestHeaders c) (requestBody c) (response c) v
    (defaultLoopAbsented c) (eventListeners c) (responseCallback c) (errorCallback c)
    (lastHeaderFieldBuf c) (lastHeaderFieldLenth c) (parser_ c) (tcp_initialised c)
    (timer_initialised c) (uv_loop c) (heap c) (buffers c) (calls c).
Definition set_defaultLoopAbsented (v : bool) (c : SimpleHttpRequest) : SimpleHttpRequest :=
  mkSimpleHttpRequest (options c) (requestHeaders c) (requestBody c) (response c) (timeout c) v
    (eventListeners c) (responseCallback c) (errorCallback c) (lastHeaderFieldBuf c)
    (lastHeaderFieldLenth c) (parser_ c) (tcp_initialised c) (timer_initialised c) (uv_loop c)
    (heap c) (buffers c) (calls c).
Definition set_eventListeners (v : gmap str callback) (c : SimpleHttpRequest) : SimpleHttpRequest :=
  mkSimpleHttpRequest (options c) (requestHeaders c) (requestBody c) (response c) (timeout c)
    (defaultLoopAbsented c) v (responseCallback c) (errorCallback c) (lastHeaderFieldBuf c)
    (lastHeaderFieldLenth c) (parser_ c) (tcp_initialised c) (timer_initialised c) (uv_loop c)
    (heap c) (buffers c) (calls c).
Definition set_responseCallback (v : option callback) (c : SimpleHttpRequest) : SimpleHttpRequest :=
  mkSimpleHttpRequest (options c) (requestHeaders c) (requestBody c) (response c) (timeout c)
    (defaultLoopAbsented c) (eventListeners c) v (errorCallback c) (lastHeaderFieldBuf c)
    (lastHeaderFieldLenth c) (parser_ c) (tcp_initialised c) (timer_initialised c) (uv_loop c)
    (heap c) (buffers c) (calls c).
Definition set_errorCallback (v : option callback) (c : SimpleHttpRequest) : SimpleHttpRequest :=
  mkSimpleHttpRequest (options c) (requestHeaders c) (requestBody c) (response c) (timeout c)
    (defaultLoopAbsented c) (eventListeners c) (responseCallback c) v (lastHeaderFieldBuf c)
    (lastHeaderFieldLenth c) (parser_ c) (tcp_initialised c) (timer_initialised c) (uv_loop c)
    (heap c) (buffers c) (calls c).
Definition set_lastHeaderFieldBuf (v : pointer) (c : SimpleHttpRequest) : SimpleHttpRequest :=
  mkSimpleHttpRequest (options c) (requestHeaders c) (requestBody c) (response c) (timeout c)
    (defaultLoopAbsented c) (eventListeners c) (responseCallback c) (errorCallback c) v
    (lastHeaderFieldLenth c) (parser_ c) (tcp_initialised c) (timer_initialised c) (uv_loop c)
    (heap c) (buffers c) (calls c).
Definition set_lastHeaderFieldLenth (v : Z) (c : SimpleHttpRequest) : SimpleHttpRequest :=
  mkSimpleHttpRequest (options c) (requestHeaders c) (requestBody c) (response c) (timeout c)
    (defaultLoopAbsented c) (eventListeners c) (responseCallback c) (errorCallback c)
    (lastHeaderFieldBuf c) v (parser_ c) (tcp_initialised c) (timer_initialised c) (uv_loop c)
    (heap c) (buffers c) (calls c).
Definition set_parser_ (v : parser) (c : SimpleHttpRequest) : SimpleHttpRequest :=
  mkSimpleHttpRequest (options c) (requestHeaders c) (requestBody c) (response c) (timeout c)
    (defaultLoopAbsented c) (eventListeners c) (responseCallback c) (errorCallback c)
    (lastHeaderFieldBuf c) (lastHeaderFieldLenth c) v (tcp_initialised c) (timer_initialised c)
    (uv_loop c) (heap c) (buffers c) (calls c).
Definition set_tcp_initialised (v : bool) (c : SimpleHttpRequest) : SimpleHttpRequest :=
  mkSimpleHttpRequest (options c) (requestHeaders c) (requestBody c) (response c) (timeout c)
    (defaultLoopAbsented c) (eventListeners c) (responseCallback c) (errorCallback c)
    (lastHeaderFieldBuf c) (lastHeaderFieldLenth c) (parser_ c) v (timer_initialised c) (uv_loop
    c) (heap c) (buffers c) (calls c).
Definition set_timer_initialised (v : bool) (c : SimpleHttpRequest) : SimpleHttpRequest :=
  mkSimpleHttpRequest (options c) (requestHeaders c) (requestBody c) (response c) (timeout c)
    (defaultLoopAbsented c) (eventListeners c) (responseCallback c) (errorCallback c)
    (lastHeaderFieldBuf c) (lastHeaderFieldLenth c) (parser_ c) (tcp_initialised c) v (uv_loop
    c) (heap c) (buffers c) (calls c).
Definition set_uv_loop (v : Loop) (c : SimpleHttpRequest) : SimpleHttpRequest :=
  mkSimpleHttpRequest (options c) (requestHeaders c) (requestBody c) (response c) (timeout c)
    (defaultLoopAbsented c) (eventListeners c) (responseCallback c) (errorCallback c)
    (lastHeaderFieldBuf c) (lastHeaderFieldLenth c) (parser_ c) (tcp_initialised c)
    (timer_initialised c) v (heap c) (buffers c) (calls c).
Definition set_heap (v : gmap nat str) (c : SimpleHttpRequest) : SimpleHttpRequest :=
  mkSimpleHttpRequest (options c) (requestHeaders c) (requestBody c) (response c) (timeout c)
    (defaultLoopAbsented c) (eventListeners c) (responseCallback c) (errorCallback c)
    (lastHeaderFieldBuf c) (lastHeaderFieldLenth c) (parser_ c) (tcp_initialised c)
    (timer_initialised c) (uv_loop c) v (buffers c) (calls c).
Definition set_buffers (v : nat) (c : SimpleHttpRequest) : SimpleHttpRequest :=
  mkSimpleHttpRequest (options c) (requestHeaders c) (requestBody c) (response c) (timeout c)
    (defaultLoopAbsented c) (eventListeners c) (responseCallback c) (errorCallback c)
    (lastHeaderFieldBuf c) (lastHeaderFieldLenth c) (parser_ c) (tcp_initialised c)
    (timer_initialised c) (uv_loop c) (heap c) v (calls c).
Definition set_calls (v : list call) (c : SimpleHttpRequest) : SimpleHttpRequest :=
  mkSimpleHttpRequest (options c) (requestHeaders c) (requestBody c) (response c) (timeout c)
    (defaultLoopAbsented c) (eventListeners c) (responseCallback c) (errorCallback c)
    (lastHeaderFieldBuf c) (lastHeaderFieldLenth c) (parser_ c) (tcp_initialised c)
    (timer_initialised c) (uv_loop c) (heap c) (buffers c) v.

(** *** The monad *)

Definition M (A : Type) : Type := SimpleHttpRequest → outcome (A * SimpleHttpRequest).
#[export] Instance M_ret : MRet M := λ A a c, Ok (a, c).
#[export] Instance M_bind : MBind M := λ A B f m c,
  match m c with
  | Ok (a, c) => f a c
  | Throws e => Throws e
  | Aborts => Aborts
  | Undefined => Undefined
  end.

Definition self : M SimpleHttpRequest := λ c, Ok (c, c).
Definition update (f : SimpleHttpRequest → SimpleHttpRequest) : M unit := λ c, Ok (tt, f c).
Definition undefined {A} : M A := λ _, Undefined.
Definition ASSERT (b : bool) : M unit := λ c, if b then Ok (tt, c) else Aborts.
Definition log (x : call) : M unit := update (λ c, set_calls (calls c ++ [x]) c).

(** A call of libuv with a status. *)
Definition uv_call (f : Loop → Z * Loop) : M Z := λ c,
  let r := f (uv_loop c) in Ok (r.1, set_uv_loop r.2 c).

(** [options[k]], read; that the entry is created when there is none cannot be
    observed. *)
Definition option_ (k : str) (c : SimpleHttpRequest) : str := default [] (options c !! k).
Definition set_option (k v : str) (c : SimpleHttpRequest) : SimpleHttpRequest :=
  set_options (<[k := v]> (options c)) c.
Definition setHeader (field value : str) (c : SimpleHttpRequest) : SimpleHttpRequest :=
  set_requestHeaders (map_assign field value (requestHeaders c)) c.

(** *** Construction *)

(** [SimpleHttpRequest(loop)]; the handles and [lastHeaderFieldBuf] are not
    initialised. *)
Definition with_loop (loop : Loop) : SimpleHttpRequest :=
  mkSimpleHttpRequest ∅ (map_assign (chars "Connection") (chars "close") []) empty_stream
    (mkResponse 0 ∅ []) (60 * 2 * 1000) false ∅ None None Indeterminate 0 http_parser_init
    false false loop ∅ 0 [].
Definition with_default_loop (default_loop : Loop) : SimpleHttpRequest :=
  set_defaultLoopAbsented true (with_loop default_loop).
Definition with_options (opts : gmap str str) (loop : Loop) : SimpleHttpRequest :=
  set_options opts (with_loop loop).
Definition with_headers (opts : gmap str str) (hs : list (str * str)) (loop : Loop)
    : SimpleHttpRequest :=
  set_requestHeaders hs (set_options opts (with_loop loop)).

(** *** Callbacks of the user *)

Definition emit (n : str) (e : Error) : M unit :=
  c ← self;
  match bool_decide (n = chars "response"), responseCallback c,
        bool_decide (n = chars "error"), errorCallback c with
  | true, Some f, _, _ => log (CallResponse f (response c))
  | _, _, true, Some f => log (CallError f e)
  | _, _, _, _ =>
      match eventListeners c !! n with
      | Some f => log (CallListener f)
      | None => mret tt
      end
  end.
Definition no_error : Error := mkError [] [].
Definition uv_error (r : Z) : Error := mkError (uv_err_name r) (uv_strerror r).

(** The overloads of [on]. *)
Definition on_response (n : str) (func : callback) (c : SimpleHttpRequest) :=
  if bool_decide (n = chars "response") then set_responseCallback (Some func) c else c.
Definition on_error (n : str) (func : callback) (c : SimpleHttpRequest) :=
  if bool_decide (n = chars "error") then set_errorCallback (Some func) c else c.
Definition on_event (n : str) (func : callback) (c : SimpleHttpRequest) :=
  set_eventListeners (<[n := func]> (eventListeners c)) c.

(** *** Writing the request *)

Definition write_stream (stream : stringstream) (c : SimpleHttpRequest) : SimpleHttpRequest :=
  let c := setHeader (chars "content-type") (chars "application/octet-stream") c in
  set_requestBody (put_rdbuf stream (requestBody c)).2 c.
Definition write_n (s : str) (n : nat) (c : SimpleHttpRequest) : SimpleHttpRequest :=
  set_requestBody (sputn (take n s) (requestBody c)) c.
Definition write (data : str) (c : SimpleHttpRequest) : SimpleHttpRequest :=
  set_requestBody (put data (requestBody c)) c.

(** [options[k] = url.substr(off, len)] *)
Definition assign_field (k : str) (f : nat * nat) (url : str) : M unit :=
  match substr f.1 f.2 url with
  | Some v => update (set_option k v)
  | None => λ _, Throws out_of_range
  end.

Definition _parseUrl (url : str) : M bool :=
  match http_parser_parse_url url with
  | None => mret false
  | Some u =>
      assign_field (chars "protocol") (UF_SCHEMA u) url;;
      update (λ c, set_option (chars "protocol") (option_ (chars "protocol") c ++ chars ":") c);;
      assign_field (chars "hostname") (UF_HOST u) url;;
      assign_field (chars "port") (UF_PORT u) url;;
      assign_field (chars "path") (UF_PATH u) url;;
      assign_field (chars "query") (UF_QUERY u) url;;
      c ← self;
      (if bool_decide (option_ (chars "port") c = []) then
         let protocol := option_ (chars "protocol") c in
         if bool_decide (protocol = chars "http") || bool_decide (protocol = chars "http:")
         then update (set_option (chars "port") (chars "80"))
         else if bool_decide (protocol = chars "https") || bool_decide (protocol = chars "https:")
         then update (set_option (chars "port") (chars "443"))
         else update (set_option (chars "port") (chars "0"))
       else mret tt);;
      c ← self;
      (if bool_decide (option_ (chars "path") c = [])
       then update (set_option (chars "path") (chars "/")) else mret tt);;
      mret true
  end.

Definition _get (url method : str) : M unit :=
  update (set_option (chars "method") method);;
  ok ← _parseUrl url;
  if negb ok then emit (chars "error") (mkError (chars "parseUrl") (chars "parseUrl"))
  else mret tt.
Definition _post (url method body : str) : M unit :=
  update (set_option (chars "method") method);;
  ok ← _parseUrl url;
  (if negb ok then emit (chars "error") (mkError (chars "parseUrl") (chars "parseUrl"))
   else mret tt);;
  update (write body).

Definition get (url : str) : M unit := _get url (chars "GET").
Definition head (url : str) : M unit := _get url (chars "HEAD").
Definition post (url body : str) : M unit := _post url (chars "POST") body.
Definition put_ (url body : str) : M unit := _post url (chars "PUT") body.
Definition del (url body : str) : M unit := _post url (chars "DELETE") body.

(** *** Handles *)

Definition _clearConnection : M unit :=
  c ← self;
  if negb (tcp_initialised c) then undefined
  else if uv_is_active h_tcp (uv_loop c) && negb (uv_is_closing h_tcp (uv_loop c))
  then update (set_uv_loop (uv_close h_tcp (uv_loop c))) else mret tt.
Definition _clearTimer : M unit :=
  c ← self;
  if negb (timer_initialised c) then undefined
  else if negb (uv_is_closing h_timer (uv_loop c))
  then update (set_uv_loop (uv_close h_timer (uv_loop c))) else mret tt.

(** *** Callbacks of the parser *)

(** [string(p, len)] for a pointer into a buffer. *)
Definition string_at (p : pointer) (len : Z) : M str := λ c,
  match p with
  | At b off =>
      match heap c !! b with
      | Some data =>
          if (Z.of_nat off + u64 len <=? Z.of_nat (length data))%Z
          then Ok (take (Z.to_nat (u64 len)) (drop off data), c) else Undefined
      | None => Undefined
      end
  | _ => Undefined
  end.

(** [buf] is the buffer that is being parsed. *)
Definition header_field (buf off len : nat) : M Z :=
  update (set_lastHeaderFieldBuf (At buf off));;
  update (set_lastHeaderFieldLenth (s32 (Z.of_nat len)));;
  mret 0%Z.

Definition header_value (buf off len : nat) : M Z :=
  c ← self;
  match lastHeaderFieldBuf c with
  | Indeterminate => undefined
  | Null => mret 0%Z
  | p =>
      field ← string_at p (lastHeaderFieldLenth c);
      value ← string_at (At buf off) (Z.of_nat len);
      update (λ c, set_response (mkResponse (statusCode (response c))
        (<[tolower <$> field := value]> (headers (response c)))
        (response_body (response c))) c);;
      update (set_lastHeaderFieldBuf Null);;
      mret 0%Z
  end.

Definition headers_complete (status_code : Z) (chunked : bool) (content_length : Z) : M Z :=
  update (λ c, set_response (mkResponse status_code (headers (response c))
    (response_body (response c))) c);;
  let hasBody := chunked || (0 <? content_length)%Z && negb (content_length =? ULLONG_MAX)%Z in
  if negb hasBody then mret 1%Z else mret 0%Z.

Definition body_data (buf : nat) (at_ : option (nat * nat)) : M Z :=
  match at_ with
  | Some (off, len) =>
      data ← string_at (At buf off) (Z.of_nat len);
      update (λ c, set_response (mkResponse (statusCode (response c)) (headers (response c))
        (response_body (response c) ++ data)) c);;
      mret 0%Z
  | None => mret 0%Z
  end.

Definition message_complete (should_keep_alive : bool) : M Z :=
  _clearTimer;;
  (if should_keep_alive then _clearConnection else mret tt);;
  emit (chars "response") no_error;;
  mret 0%Z.

Definition parser_callback (buf : nat) (cb : parser_call) : M Z :=
  match cb with
  | on_message_begin | on_url _ _ => mret 0%Z
  | on_header_field off len => header_field buf off len
  | on_header_value off len => header_value buf off len
  | on_headers_complete status_code chunked content_length =>
      headers_complete status_code chunked content_length
  | on_body at_ => body_data buf at_
  | on_message_complete should_keep_alive => message_complete should_keep_alive
  end.

(** A run of the parser on the buffer [buf]. *)
Fixpoint execute (buf : nat) (r : parser_run parser) : M (Z * bool) :=
  match r with
  | Finished parsed upgrade p => update (set_parser_ p);; mret (parsed, upgrade)
  | Calling cb k => v ← parser_callback buf cb; execute buf (k v)
  end.

(** *** Callbacks of the loop *)

Definition timer_cb : M unit :=
  _clearTimer;;
  _clearConnection;;
  emit (chars "error") (uv_error (- ETIMEDOUT)).

(** [uvAllocCb]: a new buffer, here with what is then read into it. *)
Definition uvAllocCb (data : str) : M nat :=
  c ← self;
  update (set_heap (<[buffers c := data]> (heap c)));;
  update (set_buffers (S (buffers c)));;
  mret (buffers c).

Definition read_cb (nread : Z) (buf : nat) (data : str) : M unit :=
  let release := update (λ c, set_heap (delete buf (heap c)) c) in
  if (0 <? nread)%Z then
    c ← self;
    r ← execute buf (http_parser_execute (parser_ c) (take (Z.to_nat nread) data));
    if r.2 : bool then
      emit (chars "error") (mkError (chars "upgrade") (chars "upgrade is not supported"))
    else if negb (r.1 =? nread)%Z then
      emit (chars "error") (mkError (chars "httpparse") (chars "http parser error"))
    else release
  else if negb (nread =? UV_EOF)%Z then emit (chars "error") (uv_error nread)
  else release.

Definition CRLF : str := [Ascii.ascii_of_nat 13; Ascii.ascii_of_nat 10].

(** The text of the request, and the stream of the body after it was read. *)
Definition request_stream (c : SimpleHttpRequest) : stringstream * stringstream :=
  let res := put (option_ (chars "method") c) empty_stream in
  let res := put (chars " ") res in
  let res := put (option_ (chars "path") c) res in
  let query := option_ (chars "query") c in
  let res := put (if length query =? 0 then [] else chars "?" ++ query) res in
  let res := put (chars " ") res in
  let res := put (chars "HTTP/1.1" ++ CRLF) res in
  let res := fold_left (λ res kv, put CRLF (put kv.2 (put (chars ":") (put kv.1 res))))
               (requestHeaders c) res in
  let body := requestBody c in
  let '(body, res) :=
    if (0 <? tellp body)%Z then
      let res := put CRLF (put (chars (pretty (tellp body))) (put (chars "Content-Length: ") res)) in
      let res := put CRLF res in
      let '(body, res) := put_rdbuf body res in
      (body, put CRLF res)
    else (body, res) in
  (body, put CRLF res).

Definition write_cb (status : Z) : M unit :=
  if negb (status =? 0)%Z then emit (chars "error") (uv_error status) else mret tt.

Definition connect_cb (status : Z) : M unit :=
  if negb (status =? 0)%Z then
    if (status =? - ECANCELED)%Z then mret tt
    else
      _clearTimer;;
      _clearConnection;;
      emit (chars "error") (uv_error status)
  else
    r ← uv_call uv_read_start;
    if negb (r =? 0)%Z then emit (chars "error") (uv_error r)
    else
      c ← self;
      let '(body, res) := request_stream c in
      update (set_requestBody body);;
      if (tellp res =? -1)%Z then undefined (* [resbuf.len] is the greatest [size_t] *)
      else
        r ← uv_call (uv_write (written res));
        if negb (r =? 0)%Z then emit (chars "error") (uv_error r) else mret tt.

(** *** [end()] *)

Definition stoi_port : M Z := λ c,
  match stoi (option_ (chars "port") c) with
  | inl n => Ok (n, c)
  | inr e => Throws e
  end.

(** From [uv_tcp_init] on. *)
Definition connect_to (dest : sockaddr) : M unit :=
  r ← uv_call uv_tcp_init;
  if negb (r =? 0)%Z then emit (chars "error") (uv_error r)
  else
    update (set_tcp_initialised true);;
    r ← uv_call (uv_tcp_connect dest);
    if negb (r =? 0)%Z then emit (chars "error") (uv_error r)
    else
      c ← self;
      if defaultLoopAbsented c then log CallRun else mret tt.

(** The destination: the host's address, or what its name resolves to. *)
Definition resolve : M (option sockaddr) :=
  c ← self;
  let hostname := option_ (chars "hostname") c in
  port ← stoi_port;
  let '(r, dest) := uv_ip4_addr hostname port in
  if negb (r =? 0)%Z then
    let '(r, addr) := uv_getaddrinfo hostname (option_ (chars "port") c) in
    if negb (r =? 0)%Z then emit (chars "error") (uv_error r);; mret None
    else
      let ip := uv_ip4_name addr in
      port ← stoi_port;
      let '(r, dest) := uv_ip4_addr ip port in
      if negb (r =? 0)%Z then emit (chars "error") (uv_error r);; mret None
      else
        update (setHeader (chars "host") hostname);;
        mret (Some dest)
  else mret (Some dest).

(** [end()] up to the destination; [connect] is the rest. *)
Definition end_with (connect : sockaddr → M unit) : M unit :=
  r ← uv_call uv_timer_init;
  ASSERT (r =? 0)%Z;;
  update (set_timer_initialised true);;
  c ← self;
  r ← uv_call (uv_timer_start (timeout c));
  ASSERT (r =? 0)%Z;;
  dest ← resolve;
  match dest with
  | Some dest => connect dest
  | None => mret tt
  end.

(** Compiled without [ENABLE_SSL]; [HttpSsl] has the other version. *)
Definition end_ : M unit := end_with connect_to.

(** *** [uv_run] *)

Definition dispatch (e : uv_event) : M unit :=
  match e with
  | ev_timer => timer_cb
  | ev_connect status => connect_cb status
  | ev_read nread data => buf ← uvAllocCb data; read_cb nread buf data
  | ev_write status => write_cb status
  end.

(** The loop makes a call that is due. *)
Inductive step (c : SimpleHttpRequest) : SimpleHttpRequest → Prop :=
  | step_event e l c' :
      due e (uv_loop c) = Some l → dispatch e (set_uv_loop l c) = Ok (tt, c') → step c c'.

(** *** Running the monad *)

Lemma bind_Ok {A B} (f : A → M B) (m : M A) c a c' :
  m c = Ok (a, c') → (m ≫= f) c = f a c'.
Proof. intros E. unfold mbind, M_bind. by rewrite E. Qed.

Lemma bind_Undefined {A B} (f : A → M B) (m : M A) c :
  m c = Undefined → (m ≫= f) c = Undefined.
Proof. intros E. unfold mbind, M_bind. by rewrite E. Qed.

Lemma bind_Ok_inv {A B} (f : A → M B) (m : M A) c b c' :
  (m ≫= f) c = Ok (b, c') → ∃ a c1, m c = Ok (a, c1) ∧ f a c1 = Ok (b, c').
Proof. unfold mbind, M_bind. destruct (m c) as [[a c1]| | |]; naive_solver. Qed.
End Client.
