(* ===== verification/HttpFixtures.v ===== *)
(** * A loop and a parser to run the HTTP client on

    A loop that keeps the state of the two handles, and a parser that plays a script,
    one list of calls per read.  They satisfy what the documentation says of libuv and
    of the parser, and let the theorems be evaluated on concrete exchanges. *)

From Stdlib Require Import ZArith Lia String Ascii.
From stdpp Require Import base list strings gmap.
From S2P Require Import Prelude StdSet UtilsParse UtilsRegex HttpRequest.

Record toy_loop := mkToyLoop {
  timer_running : bool;
  timer_closing : bool;
  connecting : bool;
  reading : bool;
  tcp_closing : bool
}.

Definition loopback : str := chars "127.0.0.1".

(** Connections to the loopback address; the name [localhost] resolves to it. *)
Definition toy_uv : UV := {|
  Loop := toy_loop;
  sockaddr := str;
  uv_err_name r := chars "E" ++ chars (pretty.pretty r);
  uv_strerror r := chars "error " ++ chars (pretty.pretty r);
  uv_ip4_addr host port := if bool_decide (host = loopback) then (0%Z, host) else ((-22)%Z, []);
  uv_getaddrinfo host port :=
    if bool_decide (host = chars "localhost") then (0%Z, loopback) else ((-3008)%Z, []);
  uv_ip4_name := id;
  uv_timer_init l := (0%Z, mkToyLoop false false (connecting l) (reading l) (tcp_closing l));
  uv_timer_start _ l := (0%Z, mkToyLoop true false (connecting l) (reading l) (tcp_closing l));
  uv_tcp_init l := (0%Z, mkToyLoop (timer_running l) (timer_closing l) false false false);
  uv_tcp_connect _ l :=
    (0%Z, mkToyLoop (timer_running l) (timer_closing l) true (reading l) (tcp_closing l));
  uv_read_start l :=
    (0%Z, mkToyLoop (timer_running l) (timer_closing l) (connecting l) true (tcp_closing l));
  uv_write _ l := (0%Z, l);
  uv_is_active h l :=
    match h with h_tcp => connecting l || reading l | h_timer => timer_running l end;
  uv_is_closing h l := match h with h_tcp => tcp_closing l | h_timer => timer_closing l end;
  uv_close h l :=
    match h with
    | h_tcp => mkToyLoop (timer_running l) (timer_closing l) (connecting l) false true
    | h_timer => mkToyLoop false true (connecting l) (reading l) (tcp_closing l)
    end;
  due e l :=
    match e with
    | ev_timer =>
        if timer_running l && negb (timer_closing l)
        then Some (mkToyLoop false false (connecting l) (reading l) (tcp_closing l)) else None
    | ev_connect status =>
        if connecting l && implb (tcp_closing l) (status =? - ECANCELED)%Z
        then Some (mkToyLoop (timer_running l) (timer_closing l) false (reading l) (tcp_closing l))
        else None
    | ev_read _ _ => if reading l && negb (tcp_closing l) then Some l else None
    | ev_write _ => if reading l then Some l else None
    end
|}.

Lemma toy_uv_laws : @UVLaws toy_uv.
Proof.
  split.
  - by intros [] [].
  - by intros [] [] [].
  - by intros [] [] [].
  - by intros [] [].
  - by intros [] ? [].
  - intros e h l l'. destruct e; simpl; case_if; intros [= <-]; destruct h; simpl; try done.
    apply andb_true_iff in E as [_ E]. by destruct (timer_closing l).
  - intros l l'. simpl. case_if; [|done]. intros _. apply andb_true_iff in E as [_ E].
    by destruct (timer_closing l).
  - intros n d l l'. simpl. case_if; [|done]. intros _. apply andb_true_iff in E as [_ E].
    by destruct (tcp_closing l).
  - intros s l l'. simpl. case_if; [|done]. intros _ Hc. rewrite Hc in E.
    apply andb_true_iff in E as [_ E]. by apply Z.eqb_eq in E.
Qed.

Definition toy_loop0 : toy_loop := mkToyLoop false false false false false.

(** Plays calls; after [on_headers_complete] was answered with 1 the message has no
    body. *)
Fixpoint play {P} (n : Z) (rest : P) (skip_body : bool) (cs : list parser_call) : parser_run P :=
  match cs with
  | [] => Finished n false rest
  | on_body at_ :: cs =>
      if skip_body then play n rest skip_body cs
      else Calling (on_body at_) (λ _, play n rest skip_body cs)
  | cb :: cs => Calling cb (λ v, play n rest (skip_body || (v =? 1)%Z) cs)
  end.

(** A parser with a script, and the answer for URLs. *)
Definition scripted (script : list (list parser_call)) (url : str → option url_fields)
    : HttpParser := {|
  parser := list (list parser_call);
  http_parser_init := script;
  http_parser_execute p data :=
    match p with
    | cs :: p => play (Z.of_nat (length data)) p false cs
    | [] => Finished (Z.of_nat (length data)) false []
    end;
  http_parser_parse_url := url
|}.

(** ** An exchange *)

(** A response in two pieces, and the calls of the parser for them. *)
Definition read1 : str :=
  chars "HTTP/1.1 200 OK" ++ CRLF ++ chars "Content-Type: text" ++ CRLF ++
  chars "Content-Length: 5" ++ CRLF ++ CRLF ++ chars "he".
Definition read2 : str := chars "llo".
Definition calls1 : list parser_call :=
  [on_message_begin; on_header_field 17 12; on_header_value 31 4; on_header_field 37 14;
   on_header_value 53 1; on_headers_complete 200 false 5; on_body (Some (58, 2))].
Definition calls2 : list parser_call := [on_body (Some (0, 3)); on_message_complete false].

Definition ok_parser : HttpParser := scripted [calls1; calls2] (λ _, None).

(** The same response, cut between the name and the value of a header. *)
Definition cut_parser : HttpParser :=
  scripted [[on_message_begin; on_header_field 17 12];
            on_header_value 0 4 :: drop 3 calls1 ++ calls2] (λ _, None).

Definition request_options (host : str) : gmap str str :=
  <[chars "method" := chars "GET"]> (<[chars "hostname" := host]>
  (<[chars "port" := chars "7999"]> (<[chars "path" := chars "/"]> ∅))).

Section Exchange.
Context (hp : HttpParser).
#[local] Existing Instance toy_uv.

(** A call of the loop that is due. *)
Definition deliver (e : uv_event) : M unit :=
  c ← self;
  match due e (uv_loop c) with
  | Some l => update (set_uv_loop l);; dispatch e
  | None => undefined
  end.

Lemma deliver_step e c c' : deliver e c = Ok (tt, c') → step c c'.
Proof.
  unfold deliver. erewrite bind_Ok by reflexivity. destruct (due e (uv_loop c)) as [l|] eqn:E; [|done].
  erewrite bind_Ok by reflexivity. by apply (step_event c e l).
Qed.

Definition new_request (host : str) : SimpleHttpRequest :=
  on_error (chars "error") 2 (on_response (chars "response") 1
    (with_options (request_options host) toy_loop0)).

Definition state_of {A} (m : M A) (c : SimpleHttpRequest) : SimpleHttpRequest :=
  match m c with Ok (_, c') => c' | _ => c end.

(** Connected, the request sent. *)
Definition waiting : SimpleHttpRequest :=
  state_of (end_;; deliver (ev_connect 0)) (new_request loopback).
End Exchange.
