(* ===== verification/HttpText.v ===== *)
(** * The HTTP client: URLs and the text of a request

    A reference reader of HTTP/1.1 requests recovers the method, the target, the
    headers and the body from the text the client sends, and shows what it sends
    beyond them.  The options a URL yields are its parts, with the defaults. *)

From Stdlib Require Import ZArith Lia String Ascii.
From stdpp Require Import base list strings gmap pretty.
From S2P Require Import Prelude StdSet UtilsParse UtilsRegex HttpRequest HttpFixtures.

(** ** The reference reader *)

Definition CR : ascii := Ascii.ascii_of_nat 13.
Definition LF : ascii := Ascii.ascii_of_nat 10.

(** A line, up to its CR LF, and what follows. *)
Fixpoint read_line (s : str) : option (str * str) :=
  match s with
  | [] => None
  | a :: s' =>
      match s' with
      | b :: rest =>
          if bool_decide (a = CR ∧ b = LF) then Some ([], rest)
          else prod_map (cons a) id <$> read_line s'
      | [] => None
      end
  end.

(** What is before and after the first [x]. *)
Fixpoint cut (x : ascii) (s : str) : option (str * str) :=
  match s with
  | [] => None
  | a :: s' => if bool_decide (a = x) then Some ([], s') else prod_map (cons a) id <$> cut x s'
  end.

(** Header lines, up to an empty one; the length of the text bounds their number. *)
Fixpoint read_headers (fuel : nat) (s : str) : option (list (str * str) * str) :=
  match fuel with
  | O => None
  | S fuel =>
      match read_line s with
      | None => None
      | Some ([], rest) => Some ([], rest)
      | Some (line, rest) =>
          h ← cut colon line;
          r ← read_headers fuel rest;
          Some (h :: r.1, r.2)
      end
  end.

(** The length announced by the headers. *)
Fixpoint content_length (hs : list (str * str)) : nat :=
  match hs with
  | [] => 0
  | (k, v) :: hs =>
      if bool_decide (k = chars "Content-Length")
      then Z.to_nat (decimal (skip_while (λ a, bool_decide (a = space)) v))
      else content_length hs
  end.

Record http_message := mkMessage {
  m_method : str;
  m_target : str;
  m_headers : list (str * str);
  m_body : str
}.

(** A request, and what is left after it. *)
Definition read_request (s : str) : option (http_message * str) :=
  r ← read_line s;
  m ← cut space r.1;
  t ← cut space m.2;
  if bool_decide (t.2 = chars "HTTP/1.1") then
    hs ← read_headers (length s) r.2;
    let n := content_length hs.1 in
    if n <=? length hs.2 then Some (mkMessage m.1 t.1 hs.1 (take n hs.2), drop n hs.2) else None
  else None.

Lemma read_line_cons a b s :
  read_line (a :: b :: s) =
    if bool_decide (a = CR ∧ b = LF) then Some ([], s)
    else prod_map (cons a) id <$> read_line (b :: s).
Proof. reflexivity. Qed.

Lemma read_line_app l s : CR ∉ l → read_line (l ++ CRLF ++ s) = Some (l, s).
Proof.
  induction l as [|a l IH]; intros Hl; [done|].
  apply not_elem_of_cons in Hl as [Ha Hl]. specialize (IH Hl).
  change ((a :: l) ++ CRLF ++ s) with (a :: (l ++ CRLF ++ s)).
  destruct (l ++ CRLF ++ s) as [|b rest] eqn:E; [by destruct l|].
  rewrite read_line_cons, bool_decide_false, IH by (by intros [-> _]). done.
Qed.

Lemma cut_app x l s : x ∉ l → cut x (l ++ x :: s) = Some (l, s).
Proof.
  induction l as [|a l IH]; intros Hl; cbn [app cut].
  - by rewrite bool_decide_true.
  - apply not_elem_of_cons in Hl as [Ha Hl]. rewrite bool_decide_false by done. by rewrite IH.
Qed.

(** ** The text *)

(** Header lines as the client writes them. *)
Definition headers_text (hs : list (str * str)) : str :=
  concat ((λ kv, kv.1 ++ chars ":" ++ kv.2 ++ CRLF) <$> hs).

(** A header line that can be read back. *)
Definition header_ok (kv : str * str) : Prop :=
  (CR ∉ kv.1) ∧ (colon ∉ kv.1) ∧ (CR ∉ kv.2).

Lemma read_headers_app hs s fuel :
  Forall header_ok hs → (length hs < fuel)%nat →
  read_headers fuel (headers_text hs ++ CRLF ++ s) = Some (hs, s).
Proof.
  intros Hhs. revert fuel. induction Hhs as [|[k v] hs (Hk & Hc & Hv) _ IH]; intros [|fuel] Hl;
    try (simpl in Hl; lia); [done|].
  unfold headers_text in *. rewrite fmap_cons. cbn [concat fst snd].
  replace (_ ++ _) with ((k ++ colon :: v) ++ CRLF ++
    (concat ((λ kv, kv.1 ++ chars ":" ++ kv.2 ++ CRLF) <$> hs) ++ CRLF ++ s))
    by (by rewrite <- !app_assoc).
  cbn [read_headers]. rewrite read_line_app.
  2:{ rewrite elem_of_app, elem_of_cons. by intros [?|[?|?]]. }
  destruct (k ++ colon :: v) as [|a line] eqn:E; [by destruct k|].
  rewrite <- E, cut_app by done. cbn [mbind option_bind]. by rewrite IH by (simpl in Hl; lia).
Qed.

Lemma content_length_app hs v :
  Forall (λ kv, kv.1 ≠ chars "Content-Length") hs →
  content_length (hs ++ [(chars "Content-Length", v)]) =
    Z.to_nat (decimal (skip_while (λ a, bool_decide (a = space)) v)).
Proof.
  induction 1 as [|[k w] hs Hk _ IH]; cbn [app content_length]; [done|].
  by rewrite bool_decide_false.
Qed.

Lemma content_length_none hs :
  Forall (λ kv, kv.1 ≠ chars "Content-Length") hs → content_length hs = 0.
Proof.
  induction 1 as [|[k w] hs Hk _ IH]; cbn [content_length]; [done|]. by rewrite bool_decide_false.
Qed.

Lemma decimal_length n :
  decimal (skip_while (λ a, bool_decide (a = space)) (space :: chars (pretty (Z.of_nat n)))) =
    Z.of_nat n.
Proof.
  destruct (pretty_port (Z.of_nat n)) as (Hd & Hv & Hne); [lia|]. cbn [skip_while].
  rewrite bool_decide_true by done.
  destruct (chars (pretty (Z.of_nat n))) as [|a l]; [done|]. cbn [skip_while].
  rewrite bool_decide_false; [done|]. intros ->. by apply Forall_cons in Hd as [? _].
Qed.

Section Text.
Context {uv : UV} {hp : HttpParser}.
Implicit Types c : SimpleHttpRequest.

(** [path?query] *)
Definition target_text c : str :=
  option_ (chars "path") c ++
  (if length (option_ (chars "query") c) =? 0 then [] else chars "?" ++ option_ (chars "query") c).

(** A stream that was written and not read. *)
Definition unread (s : stringstream) : Prop := taken s = 0 ∧ failbit s = false.

(** The headers as sent. *)
Definition sent_headers c : list (str * str) :=
  let body := written (requestBody c) in
  requestHeaders c ++
  match body with
  | [] => []
  | _ => [(chars "Content-Length", space :: chars (pretty (Z.of_nat (length body))))]
  end.

(** The blank lines the client sends after a body. *)
Definition surplus (body : str) : str :=
  match body with [] => [] | _ => CRLF ++ CRLF end.

Lemma put_ok d w n : put d (mkStringstream w n false) = mkStringstream (w ++ d) n false.
Proof. reflexivity. Qed.

Lemma put_headers hs w n :
  fold_left (λ res kv, put CRLF (put kv.2 (put (chars ":") (put kv.1 res)))) hs
    (mkStringstream w n false) = mkStringstream (w ++ headers_text hs) n false.
Proof.
  revert w. induction hs as [|[k v] hs IH]; intros w; cbn [fold_left].
  - unfold headers_text. simpl. by rewrite app_nil_r.
  - rewrite !put_ok, IH. unfold headers_text.
    rewrite fmap_cons. cbn [concat fst snd]. by rewrite <- !app_assoc.
Qed.

(** The text of a request whose body was not sent before. *)
Lemma request_stream_text c :
  unread (requestBody c) →
  request_stream c =
    (mkStringstream (written (requestBody c)) (length (written (requestBody c))) false,
     mkStringstream
       (option_ (chars "method") c ++ chars " " ++ target_text c ++ chars " " ++
        chars "HTTP/1.1" ++ CRLF ++ headers_text (sent_headers c) ++ CRLF ++
        written (requestBody c) ++ surplus (written (requestBody c))) 0 false).
Proof.
  intros [Ht Hf]. unfold request_stream, target_text, sent_headers, tellp, empty_stream.
  rewrite !put_ok, put_headers, Hf. destruct (requestBody c) as [w n f]. cbn [written taken failbit] in *.
  subst n f. destruct w as [|a w].
  - rewrite (proj2 (Z.ltb_ge _ _)) by (simpl; lia). rewrite !put_ok. cbn [surplus].
    rewrite !app_nil_r, <- !app_assoc. done.
  - rewrite (proj2 (Z.ltb_lt _ _)) by (simpl; lia).
    rewrite !put_ok. unfold put_rdbuf. cbn [failbit taken written drop].
    rewrite !put_ok. f_equal. f_equal.
    unfold headers_text. rewrite fmap_app, concat_app. cbn [surplus].
    rewrite <- !app_assoc. simpl. rewrite !app_nil_r. by rewrite <- !app_assoc.
Qed.

(** Conditions under which the text can be read back. *)
Record request_ok c : Prop := {
  body_unread : unread (requestBody c);
  method_ok : (space ∉ option_ (chars "method") c) ∧ (CR ∉ option_ (chars "method") c);
  target_ok : (space ∉ target_text c) ∧ (CR ∉ target_text c);
  headers_ok : Forall header_ok (requestHeaders c);
  length_not_set : Forall (λ kv, kv.1 ≠ chars "Content-Length") (requestHeaders c)
}.

Lemma headers_text_length hs : length hs ≤ length (headers_text hs).
Proof.
  unfold headers_text. induction hs; [done|]. rewrite fmap_cons. cbn [concat length].
  rewrite !length_app. change (length (chars ":")) with 1. lia.
Qed.

Lemma sent_headers_ok c : Forall header_ok (requestHeaders c) → Forall header_ok (sent_headers c).
Proof.
  intros Hh. apply Forall_app. split; [done|]. destruct (written (requestBody c)) as [|a b]; [done|].
  constructor; [|done]. split; [|split]; cbn [fst snd]; [by apply (bool_decide_unpack _)..|].
  apply not_elem_of_cons. split; [done|]. intros HCR.
  destruct (pretty_port (Z.of_nat (length (a :: b)))) as (Hd & _ & _); [lia|].
  rewrite list.Forall_forall in Hd. by specialize (Hd _ HCR).
Qed.

Lemma content_length_sent c :
  Forall (λ kv, kv.1 ≠ chars "Content-Length") (requestHeaders c) →
  content_length (sent_headers c) = length (written (requestBody c)).
Proof.
  intros Hl. unfold sent_headers. destruct (written (requestBody c)).
  - rewrite app_nil_r. by apply content_length_none.
  - by rewrite content_length_app, decimal_length, Nat2Z.id by done.
Qed.

(** The reader on a text made of a request line, headers and a body. *)
Lemma read_request_text m t hs b rest :
  (space ∉ m) ∧ (CR ∉ m) → (space ∉ t) ∧ (CR ∉ t) → Forall header_ok hs →
  content_length hs = length b →
  read_request (m ++ chars " " ++ t ++ chars " " ++ chars "HTTP/1.1" ++ CRLF ++
    headers_text hs ++ CRLF ++ b ++ rest) = Some (mkMessage m t hs b, rest).
Proof.
  intros [Hm Hm'] [Ht Ht'] Hhs Hlen. unfold read_request.
  replace (m ++ _) with ((m ++ chars " " ++ t ++ chars " " ++ chars "HTTP/1.1") ++ CRLF ++
    (headers_text hs ++ CRLF ++ b ++ rest)) by (by rewrite <- !app_assoc).
  rewrite read_line_app.
  2:{ assert (CR ∉ chars " ") by (by apply (bool_decide_unpack _)).
      assert (CR ∉ chars "HTTP/1.1") by (by apply (bool_decide_unpack _)).
      rewrite !elem_of_app. by intros [?|[?|[?|[?|?]]]]. }
  cbn [mbind option_bind fst snd].
  change (m ++ chars " " ++ t ++ chars " " ++ chars "HTTP/1.1") with
    (m ++ space :: (t ++ space :: chars "HTTP/1.1")).
  rewrite cut_app by done. cbn [mbind option_bind fst snd].
  rewrite cut_app by done. cbn [mbind option_bind fst snd]. rewrite bool_decide_true by done.
  rewrite read_headers_app.
  - cbn [mbind option_bind fst snd]. rewrite Hlen, (proj2 (Nat.leb_le _ _)).
    + by rewrite take_app_length, drop_app_length.
    + rewrite length_app. lia.
  - done.
  - pose proof (headers_text_length hs). rewrite !length_app.
    change (length CRLF) with 2. lia.
Qed.

(** C26 The text the client sends is an HTTP/1.1 request: reading it yields the
    method, the path with its query, the headers in their order (with the length of the
    body when there is one) and the body; two blank lines that belong to no request
    follow a body. *)
Theorem request_read_back c :
  request_ok c →
  read_request (written (request_stream c).2) =
    Some (mkMessage (option_ (chars "method") c) (target_text c) (sent_headers c)
            (written (requestBody c)),
          surplus (written (requestBody c))).
Proof.
  intros [Hb Hm Ht Hh Hl]. rewrite request_stream_text by done. cbn [snd written].
  apply read_request_text; [done | done | by apply sent_headers_ok | by apply content_length_sent].
Qed.
End Text.

(** ** Sending a body twice *)

Section Resend.
Context {uv : UV} {hp : HttpParser}.

Lemma put_failed d s : failbit s = true → put d s = s.
Proof. intros E. unfold put. by rewrite E. Qed.

(** A body that was read is not there a second time, and the stream of the request
    fails on it. *)
Lemma request_stream_consumed c :
  written (requestBody c) ≠ [] → taken (requestBody c) = length (written (requestBody c)) →
  failbit (requestBody c) = false →
  tellp (request_stream c).2 = (-1)%Z.
Proof.
  intros Hw Ht Hf. unfold request_stream, empty_stream. rewrite !put_ok, put_headers.
  rewrite (proj2 (Z.ltb_lt 0 (tellp (requestBody c)))).
  - rewrite !put_ok. unfold put_rdbuf. cbn [failbit]. rewrite Ht, drop_all.
    rewrite !put_failed by (by rewrite ?put_failed). reflexivity.
  - unfold tellp. rewrite Hf. destruct (written (requestBody c)); [done | simpl; lia].
Qed.

(** The body of a request can be sent once: after the text of a request with
    a body was written, connecting again with the same body has undefined behaviour (the
    stream of the text fails, and its position -1 is taken as the length to write). *)
Theorem resend_undefined c c1 c2 :
  unread (requestBody c) → written (requestBody c) ≠ [] →
  (uv_read_start (uv_loop c)).1 = 0%Z → connect_cb 0 c = Ok (tt, c1) →
  requestBody c2 = requestBody c1 → (uv_read_start (uv_loop c2)).1 = 0%Z →
  connect_cb 0 c2 = Undefined.
Proof.
  intros Hu Hw Hr Hc Hb Hr2.
  assert (requestBody c1 = mkStringstream (written (requestBody c))
    (length (written (requestBody c))) false) as Hb1.
  { revert Hc. unfold connect_cb. cbn [negb Z.eqb].
    erewrite bind_Ok by reflexivity. rewrite Hr. cbn [negb Z.eqb]. erewrite bind_Ok by reflexivity.
    rewrite request_stream_text by done. cbn [requestBody set_uv_loop].
    erewrite bind_Ok by reflexivity. unfold tellp. cbn [failbit].
    rewrite (proj2 (Z.eqb_neq _ _)) by lia. erewrite bind_Ok by reflexivity.
    case_if; [|by intros [= <-]]. unfold emit. erewrite bind_Ok by reflexivity.
    repeat case_match; intros [= <-]; done. }
  unfold connect_cb. cbn [negb Z.eqb]. erewrite bind_Ok by reflexivity. rewrite Hr2. cbn [negb Z.eqb].
  erewrite bind_Ok by reflexivity. set (c3 := set_uv_loop _ _).
  pose proof (request_stream_consumed c3) as Ht.
  destruct (request_stream c3) as [body res]. cbn [snd] in Ht.
  erewrite bind_Ok by reflexivity. rewrite Ht; [done|..];
    change (requestBody c3) with (requestBody c2); rewrite Hb, Hb1; done.
Qed.
End Resend.

(** ** URLs *)

Record url_parts := mkUrlParts {
  u_schema : str;
  u_host : str;
  u_port : str;
  u_path : str;
  u_query : str
}.

(** An optional part with the mark before it. *)
Definition marked (mark part : str) : str := if bool_decide (part = []) then [] else mark ++ part.

Definition url_text (p : url_parts) : str :=
  u_schema p ++ chars "://" ++ u_host p ++ marked (chars ":") (u_port p) ++ u_path p ++
  marked (chars "?") (u_query p).

(** Where the parts of [url_text p] are; a part that is absent has offset and
    length zero. *)
Definition located (before part : str) : nat * nat :=
  if bool_decide (part = []) then (0, 0) else (length before, length part).
Definition locate (p : url_parts) : url_fields :=
  let before_host := u_schema p ++ chars "://" in
  let before_path := before_host ++ u_host p ++ marked (chars ":") (u_port p) in
  mkUrlFields (located [] (u_schema p)) (located before_host (u_host p))
    (located (before_host ++ u_host p ++ chars ":") (u_port p)) (located before_path (u_path p))
    (located (before_path ++ u_path p ++ chars "?") (u_query p)).

Definition default_port (schema : str) : str :=
  if bool_decide (schema = chars "http") then chars "80"
  else if bool_decide (schema = chars "https") then chars "443" else chars "0".

Lemma substr_located before part after :
  substr (located before part).1 (located before part).2 (before ++ part ++ after) = Some part.
Proof.
  unfold located, substr, substr_from. case_bool_decide as E; cbn [fst snd].
  - subst part. by rewrite (proj2 (Nat.leb_le 0 _)) by lia.
  - rewrite (proj2 (Nat.leb_le _ _)) by (rewrite !length_app; lia).
    cbn [fmap option_fmap option_map]. by rewrite drop_app_length, take_app_length.
Qed.

(** An optional part after its mark is found where its mark ends. *)
Lemma substr_marked before mark part after :
  substr (located (before ++ mark) part).1 (located (before ++ mark) part).2
    (before ++ marked mark part ++ after) = Some part.
Proof.
  unfold marked. case_bool_decide as E.
  - subst part. unfold located. rewrite bool_decide_true by done. unfold substr, substr_from.
    cbn [fst snd]. by rewrite (proj2 (Nat.leb_le 0 _)) by lia.
  - rewrite <- (app_assoc mark), (app_assoc before). apply substr_located.
Qed.

(** Looks a literal key up in a chain of updates. *)
Ltac options_lookup :=
  repeat first [rewrite lookup_insert_eq | rewrite lookup_insert_ne by done].

Section Urls.
Context {uv : UV} {hp : HttpParser}.
Implicit Types c : SimpleHttpRequest.

(** The parts of a URL are assigned one after the other. *)
Lemma assign_field_ok k f url v c :
  substr f.1 f.2 url = Some v → assign_field k f url c = Ok (tt, set_option k v c).
Proof. intros E. unfold assign_field. by rewrite E. Qed.

Lemma locate_parts p :
  let url := url_text p in
  let f := locate p in
  substr (UF_SCHEMA f).1 (UF_SCHEMA f).2 url = Some (u_schema p) ∧
  substr (UF_HOST f).1 (UF_HOST f).2 url = Some (u_host p) ∧
  substr (UF_PORT f).1 (UF_PORT f).2 url = Some (u_port p) ∧
  substr (UF_PATH f).1 (UF_PATH f).2 url = Some (u_path p) ∧
  substr (UF_QUERY f).1 (UF_QUERY f).2 url = Some (u_query p).
Proof.
  cbv zeta. unfold url_text, locate. cbn [UF_SCHEMA UF_HOST UF_PORT UF_PATH UF_QUERY].
  set (q := marked (chars "?") (u_query p)). repeat split.
  - apply (substr_located []).
  - rewrite app_assoc. apply substr_located.
  - rewrite !app_assoc, <- (app_assoc _ (u_path p) q). rewrite <- (app_assoc _ (marked _ _)).
    apply substr_marked.
  - rewrite !app_assoc, <- (app_assoc _ (u_path p) q). apply substr_located.
  - rewrite <- (app_nil_r q), !app_assoc, <- (app_assoc _ q). apply substr_marked.
Qed.

Lemma protocol_not_bare (s t : str) : colon ∉ t → s ++ chars ":" ≠ t.
Proof. intros Ht <-. apply Ht, elem_of_app. right. left. Qed.

Lemma colon_inj (s t : str) : s ++ chars ":" = t ++ chars ":" ↔ s = t.
Proof. split; [apply app_inj_tail_iff | by intros ->]. Qed.

(** The options after the parts of a URL were assigned. *)
Definition url_options (p : url_parts) (o : gmap str str) : gmap str str :=
  <[chars "path" := if bool_decide (u_path p = []) then chars "/" else u_path p]>
  (<[chars "port" := if bool_decide (u_port p = []) then default_port (u_schema p) else u_port p]>
  (<[chars "query" := u_query p]> (<[chars "hostname" := u_host p]>
  (<[chars "protocol" := u_schema p ++ chars ":"]> o)))).

Definition assigned_options (p : url_parts) (o : gmap str str) : gmap str str :=
  <[chars "query" := u_query p]> (<[chars "path" := u_path p]> (<[chars "port" := u_port p]>
  (<[chars "hostname" := u_host p]> (<[chars "protocol" := u_schema p ++ chars ":"]>
  (<[chars "protocol" := u_schema p]> o))))).

Lemma default_port_protocol schema :
  (let protocol := schema ++ chars ":" in
   if bool_decide (protocol = chars "http") || bool_decide (protocol = chars "http:")
   then chars "80"
   else if bool_decide (protocol = chars "https") || bool_decide (protocol = chars "https:")
   then chars "443" else chars "0") = default_port schema.
Proof.
  cbv zeta. rewrite (bool_decide_false (_ = chars "http")), (bool_decide_false (_ = chars "https"))
    by (apply protocol_not_bare; by apply (bool_decide_unpack _)). cbn [orb].
  change (chars "http:") with (chars "http" ++ chars ":").
  change (chars "https:") with (chars "https" ++ chars ":").
  unfold default_port. by rewrite !(bool_decide_ext _ _ (colon_inj schema _)).
Qed.

(** Parsing a URL sets the options of the request to the parts of the URL, with
    the port of the protocol when the URL has none (80 for http, 443 for https, 0 for
    another) and the path [/] when it has none; nothing else of the client changes. *)
Theorem parseUrl_parts p c :
  http_parser_parse_url (url_text p) = Some (locate p) →
  _parseUrl (url_text p) c = Ok (true, set_options (url_options p (options c)) c).
Proof.
  intros Hu. destruct (locate_parts p) as (H1 & H2 & H3 & H4 & H5). unfold _parseUrl. rewrite Hu.
  erewrite bind_Ok by (by apply assign_field_ok). erewrite bind_Ok by done.
  do 4 (erewrite bind_Ok by (by apply assign_field_ok)). erewrite bind_Ok by done.
  set (c1 := set_option (chars "query") _ _).
  assert (c1 = set_options (assigned_options p (options c)) c) as ->.
  { unfold c1, set_option, option_. cbn [options set_options]. by rewrite lookup_insert_eq. }
  set (o := assigned_options p (options c)).
  assert (option_ (chars "port") (set_options o c) = u_port p ∧
    option_ (chars "protocol") (set_options o c) = u_schema p ++ chars ":" ∧
    o !! chars "path" = Some (u_path p)) as (-> & -> & Hpath).
  { unfold option_, o, assigned_options. cbn [options set_options]. by options_lookup. }
  set (o' := if bool_decide (u_port p = [])
             then <[chars "port" := default_port (u_schema p)]> o else o).
  assert (option_ (chars "path") (set_options o' c) = u_path p) as Hpath'.
  { unfold option_. cbn [options set_options]. unfold o'.
    case_bool_decide; [rewrite lookup_insert_ne by done|]; by rewrite Hpath. }
  rewrite (bind_Ok _ _ _ tt (set_options o' c)).
  2:{ unfold o'. rewrite <- default_port_protocol. cbv zeta. by repeat case_match. }
  erewrite bind_Ok by done. rewrite Hpath'.
  rewrite (bind_Ok _ _ _ tt (set_options (url_options p (options c)) c)); [done|].
  transitivity (Ok (tt, set_options (if bool_decide (u_path p = []) then <[chars "path" := chars "/"]> o'
    else o') c)); [by case_bool_decide|]. do 3 f_equal.
  apply map_eq. intros k. unfold url_options, o', o, assigned_options.
  repeat case_bool_decide; rewrite !lookup_insert; repeat case_decide; subst;
    first [done | congruence].
Qed.
End Urls.

(** ** An example: the POST request of the integration test *)

Definition server_url : url_parts :=
  mkUrlParts (chars "http") (chars "localhost") (chars "7999") (chars "/api/v1/server") [].
Definition url_of (p : url_parts) (url : str) : option url_fields :=
  if bool_decide (url = url_text p) then Some (locate p) else None.
Definition url_parser : HttpParser := scripted [] (url_of server_url).

(** A client that was told to post [{}]. *)
Definition posting : @SimpleHttpRequest toy_uv url_parser :=
  match post (uv := toy_uv) (hp := url_parser) (url_text server_url) (chars "{}")
          (with_default_loop (uv := toy_uv) toy_loop0) with
  | Ok (_, c) => c
  | _ => with_default_loop (uv := toy_uv) toy_loop0
  end.

Example posting_text :
  written (request_stream posting).2 =
    chars "POST /api/v1/server HTTP/1.1" ++ CRLF ++ chars "Connection:close" ++ CRLF ++
    chars "Content-Length: 2" ++ CRLF ++ CRLF ++ chars "{}" ++ CRLF ++ CRLF.
Proof. vm_compute. reflexivity. Qed.

Lemma parseUrl_parts_witness :
  _parseUrl (uv := toy_uv) (hp := url_parser) (url_text server_url) posting =
    Ok (true, set_options (url_options server_url (options posting)) posting).
Proof. apply (parseUrl_parts (hp := url_parser) server_url). reflexivity. Defined.

Lemma request_read_back_witness :
  read_request (written (request_stream posting).2) =
    Some (mkMessage (chars "POST") (chars "/api/v1/server")
            [(chars "Connection", chars "close"); (chars "Content-Length", chars " 2")]
            (chars "{}"), CRLF ++ CRLF).
Proof.
  apply (request_read_back posting). constructor.
  - split; reflexivity.
  - split; apply (bool_decide_unpack _); vm_compute; exact I.
  - split; apply (bool_decide_unpack _); vm_compute; exact I.
  - constructor; [|constructor]. repeat split; apply (bool_decide_unpack _); vm_compute; exact I.
  - constructor; [|constructor]. apply (bool_decide_unpack _). vm_compute. exact I.
Defined.

Lemma resend_undefined_witness :
  ∃ c1, connect_cb 0 posting = Ok (tt, c1) ∧ connect_cb 0 c1 = Undefined.
Proof.
  eexists. split; [reflexivity|].
  eapply (resend_undefined posting); try reflexivity; [split; reflexivity | vm_compute; discriminate].
Defined.
