(* ===== verification/HttpResponse.v ===== *)
(** * The HTTP client: reading a response

    What a response amounts to is specified on the calls of the parser alone
    ([assemble]).  The client's callbacks implement it for a response that arrives in
    any number of reads, provided no header is split between two of them; a header that
    is split is read through a pointer into a buffer that was freed. *)

From Stdlib Require Import ZArith Lia String Ascii.
From stdpp Require Import base list strings gmap.
From S2P Require Import Prelude StdSet UtilsParse UtilsRegex HttpRequest HttpFixtures.

(** ** The specification *)

(** The part of a read a call refers to. *)
Definition slice (off len : nat) (d : str) : option str :=
  if off + len <=? length d then Some (take len (drop off d)) else None.

Definition add_header (field value : str) (r : Response) : Response :=
  mkResponse (statusCode r) (<[tolower <$> field := value]> (headers r)) (response_body r).
Definition set_status (status_code : Z) (r : Response) : Response :=
  mkResponse status_code (headers r) (response_body r).
Definition add_body (data : str) (r : Response) : Response :=
  mkResponse (statusCode r) (headers r) (response_body r ++ data).

(** What the calls for a read add to a response; [None] when a header is split or
    the message ends. *)
Fixpoint assemble (d : str) (cs : list parser_call) (r : Response) : option Response :=
  match cs with
  | [] => Some r
  | on_message_begin :: cs | on_url _ _ :: cs | on_body None :: cs => assemble d cs r
  | on_header_field o l :: on_header_value o' l' :: cs =>
      field ← slice o l d;
      value ← slice o' l' d;
      assemble d cs (add_header field value r)
  | on_headers_complete status_code _ _ :: cs => assemble d cs (set_status status_code r)
  | on_body (Some (o, l)) :: cs =>
      data ← slice o l d;
      assemble d cs (add_body data r)
  | _ => None
  end.

(** The value a callback returns. *)
Definition has_body (chunked : bool) (content_length : Z) : bool :=
  chunked || (0 <? content_length)%Z && negb (content_length =? ULLONG_MAX)%Z.
Definition reply (cb : parser_call) : Z :=
  match cb with
  | on_headers_complete _ chunked content_length =>
      if has_body chunked content_length then 0 else 1
  | _ => 0
  end.

(** The calls a run makes when it is answered so, and how it ends. *)
Fixpoint trace {P} (r : parser_run P) : list parser_call * (Z * bool * P) :=
  match r with
  | Finished parsed upgrade p => ([], (parsed, upgrade, p))
  | Calling cb k => let t := trace (k (reply cb)) in (cb :: t.1, t.2)
  end.

Section Reading.
Context {uv : UV} {hp : HttpParser}.
Implicit Types c : SimpleHttpRequest.

(** The callbacks for a list of calls. *)
Fixpoint run_calls (buf : nat) (cs : list parser_call) : M unit :=
  match cs with
  | [] => mret tt
  | cb :: cs => parser_callback buf cb;; run_calls buf cs
  end.

Lemma run_calls_app buf cs1 cs2 c c' :
  run_calls buf cs1 c = Ok (tt, c') → run_calls buf (cs1 ++ cs2) c = run_calls buf cs2 c'.
Proof.
  revert c. induction cs1 as [|cb cs1 IH]; intros c; [by intros [= <-]|].
  cbn [run_calls app]. unfold mbind, M_bind.
  destruct (parser_callback buf cb c) as [[v c1]| | |]; try done. apply IH.
Qed.

Lemma emit_Ok n e c : ∃ c', emit n e c = Ok (tt, c').
Proof. unfold emit. erewrite bind_Ok by reflexivity. repeat case_match; by eexists. Qed.

Lemma parser_callback_reply buf cb c v c' : parser_callback buf cb c = Ok (v, c') → v = reply cb.
Proof.
  destruct cb as [|? ?|? ?|o l|s ch n|[[o l]|]|ka]; cbn [parser_callback reply]; intros E;
    try (by injection E).
  - unfold header_value in E. apply bind_Ok_inv in E as (c0 & ? & [= <- <-] & E).
    destruct (lastHeaderFieldBuf c) as [| |b o']; [done | by injection E|].
    do 2 (apply bind_Ok_inv in E as (? & ? & _ & E)). by injection E.
  - unfold headers_complete in E. apply bind_Ok_inv in E as (? & ? & _ & E). cbv zeta in E.
    unfold has_body. destruct (ch || _); by injection E.
  - apply bind_Ok_inv in E as (? & ? & _ & E). by injection E.
  - do 3 (apply bind_Ok_inv in E as (? & ? & _ & E)). by injection E.
Qed.

(** The parser runs the callbacks of its trace. *)
Lemma execute_trace buf r c c' :
  run_calls buf (trace r).1 c = Ok (tt, c') →
  execute buf r c = Ok ((trace r).2.1, set_parser_ (trace r).2.2 c').
Proof.
  revert c. induction r as [n up p|cb k IH]; intros c; cbn [trace execute fst snd].
  - intros [= <-]. by erewrite bind_Ok by reflexivity.
  - cbn [run_calls]. unfold mbind, M_bind.
    destruct (parser_callback buf cb c) as [[v c1]| | |] eqn:E; try done.
    apply parser_callback_reply in E as ->. apply IH.
Qed.

(** ** Reads *)

(** A read that fits a buffer: its length is an [int]. *)
Definition fits (d : str) : Prop := (Z.of_nat (length d) <= INT_MAX)%Z.

Lemma string_at_slice b o l d v c :
  heap c !! b = Some d → fits d → slice o l d = Some v →
  string_at (At b o) (Z.of_nat l) c = Ok (v, c) ∧ s32 (Z.of_nat l) = Z.of_nat l.
Proof.
  unfold fits, INT_MAX, slice. intros Hb Hf Hs. case_if; [|done]. injection Hs as <-.
  apply Nat.leb_le in E. split.
  - unfold string_at. rewrite Hb, u64_small by (unfold is_u64, two64; lia).
    rewrite (proj2 (Z.leb_le _ _)) by lia. by rewrite Nat2Z.id.
  - unfold s32. rewrite Z.mod_small by lia. by rewrite (proj2 (Z.ltb_lt _ _)) by lia.
Qed.

(** The client after calls that were assembled: the response and the last header
    field are changed. *)
Definition after_calls (p : pointer) (n : Z) (r : Response) c : SimpleHttpRequest :=
  set_lastHeaderFieldLenth n (set_lastHeaderFieldBuf p (set_response r c)).

Lemma after_calls_self c :
  c = after_calls (lastHeaderFieldBuf c) (lastHeaderFieldLenth c) (response c) c.
Proof. by destruct c. Qed.

(** One header. *)
Lemma run_header b o l o' l' d field value cs c :
  heap c !! b = Some d → fits d → slice o l d = Some field → slice o' l' d = Some value →
  run_calls b (on_header_field o l :: on_header_value o' l' :: cs) c =
    run_calls b cs (after_calls Null (Z.of_nat l) (add_header field value (response c)) c).
Proof.
  intros Hb Hd Hf Hv. cbn [run_calls parser_callback]. unfold header_field.
  destruct (string_at_slice b o l d field c) as [_ Hn]; [done..|].
  erewrite bind_Ok by reflexivity. rewrite Hn. unfold header_value.
  set (c1 := set_lastHeaderFieldLenth _ _).
  assert (string_at (At b o) (Z.of_nat l) c1 = Ok (field, c1)) as E1
    by (by apply (string_at_slice b o l d)).
  assert (string_at (At b o') (Z.of_nat l') c1 = Ok (value, c1)) as E2
    by (by apply (string_at_slice b o' l' d)).
  erewrite bind_Ok; [reflexivity|]. erewrite bind_Ok by reflexivity.
  change (lastHeaderFieldBuf c1) with (At b o). cbv iota.
  change (lastHeaderFieldLenth c1) with (Z.of_nat l).
  rewrite (bind_Ok _ _ _ _ _ E1), (bind_Ok _ _ _ _ _ E2). reflexivity.
Qed.

(** One piece of the body. *)
Lemma run_body b o l d data cs c :
  heap c !! b = Some d → fits d → slice o l d = Some data →
  run_calls b (on_body (Some (o, l)) :: cs) c =
    run_calls b cs (set_response (add_body data (response c)) c).
Proof.
  intros Hb Hd Hs. destruct (string_at_slice b o l d data c) as [E _]; [done..|].
  cbn [run_calls parser_callback]. unfold body_data. erewrite bind_Ok; [reflexivity|].
  by rewrite (bind_Ok _ _ _ _ _ E).
Qed.

Lemma run_headers_complete b s ch n cs c :
  run_calls b (on_headers_complete s ch n :: cs) c =
    run_calls b cs (set_response (set_status s (response c)) c).
Proof.
  cbn [run_calls parser_callback]. unfold headers_complete. cbv zeta. unfold mbind, M_bind, update.
  destruct (ch || _); reflexivity.
Qed.

(** The callbacks implement the specification. *)
Lemma run_assembled b d cs r c :
  heap c !! b = Some d → fits d → assemble d cs (response c) = Some r →
  ∃ p n, run_calls b cs c = Ok (tt, after_calls p n r c).
Proof.
  intros Hb Hd. revert c Hb. induction cs as [cs IH] using (induction_ltof1 _ length).
  unfold ltof in IH. intros c Hb Ha.
  assert (∀ cs' c', length cs' < length cs → heap c' = heap c →
    assemble d cs' (response c') = Some r →
    ∃ p n, run_calls b cs' c' = Ok (tt, after_calls p n r c')) as IH'
    by (intros; apply IH; congruence || done).
  destruct cs as [|[|o l|o l|o l|s ch n|[[o l]|]|ka] cs]; cbn [assemble] in Ha; try done.
  - injection Ha as <-. do 2 eexists. cbn [run_calls]. unfold mret, M_ret. do 2 f_equal.
    apply after_calls_self.
  - apply (IH' cs c); simpl; [lia | done..].
  - apply (IH' cs c); simpl; [lia | done..].
  - destruct cs as [|[| | |o' l'| | |] cs]; try done.
    destruct (slice o l d) as [field|] eqn:Ef; [|done].
    destruct (slice o' l' d) as [value|] eqn:Ev; [|done]. cbn [mbind option_bind] in Ha.
    rewrite (run_header b o l o' l' d field value) by done.
    destruct (IH' cs (after_calls Null (Z.of_nat l) (add_header field value (response c)) c))
      as (p & n & E); [simpl; lia | done | done |]. rewrite E. by do 2 eexists.
  - rewrite run_headers_complete.
    destruct (IH' cs (set_response (set_status s (response c)) c)) as (p & n' & E);
      [simpl; lia | done | done |]. rewrite E. by do 2 eexists.
  - destruct (slice o l d) as [data|] eqn:Es; [|done]. cbn [mbind option_bind] in Ha.
    rewrite (run_body b o l d data) by done.
    destruct (IH' cs (set_response (add_body data (response c)) c)) as (p & n' & E);
      [simpl; lia | done | done |]. rewrite E. by do 2 eexists.
  - apply (IH' cs c); simpl; [lia | done..].
Qed.

(** ** A whole response *)

(** The calls of a read that ends the message. *)
Definition ends (cs : list parser_call) : option (list parser_call * bool) :=
  match reverse cs with
  | on_message_complete ka :: cs => Some (reverse cs, ka)
  | _ => None
  end.

(** What the parser makes of the reads [ds]: the response, and whether the connection
    is kept alive. *)
Fixpoint received (p : parser) (ds : list str) (r : Response) : option (Response * bool) :=
  match ds with
  | [] => None
  | d :: ds =>
      let t := trace (http_parser_execute p d) in
      if (t.2.1.1 =? Z.of_nat (length d))%Z && negb t.2.1.2 then
        match ds with
        | [] =>
            e ← ends t.1;
            r ← assemble d e.1 r;
            Some (r, e.2)
        | _ =>
            r ← assemble d t.1 r;
            received t.2.2 ds r
        end
      else None
  end.

(** The reads, with the state of the loop at each of them. *)
Fixpoint receive (reads : list (Loop * str)) : M unit :=
  match reads with
  | [] => mret tt
  | (l, d) :: reads =>
      update (set_uv_loop l);;
      dispatch (ev_read (Z.of_nat (length d)) d);;
      receive reads
  end.

(** Buffers are numbered as they are allocated. *)
Definition heap_ok c : Prop := ∀ b, is_Some (heap c !! b) → b < buffers c.

Lemma heap_ok_fresh c : heap_ok c → heap c !! buffers c = None.
Proof. intros H. apply eq_None_not_Some. intros Hb%H. lia. Qed.

Lemma ends_app cs cs' ka : ends cs = Some (cs', ka) → cs = cs' ++ [on_message_complete ka].
Proof.
  unfold ends. destruct (reverse cs) as [|[] l] eqn:E; try done. intros [= <- <-].
  by rewrite <- (reverse_involutive cs), E, reverse_cons.
Qed.

(** The client in the callback of a read, its buffer allocated. *)
Definition with_buffer (d : str) c : SimpleHttpRequest :=
  set_buffers (S (buffers c)) (set_heap (<[buffers c := d]> (heap c)) c).

Lemma read_cb_calls d cs p c c' :
  d ≠ [] → trace (http_parser_execute (parser_ c) d) = (cs, (Z.of_nat (length d), false, p)) →
  run_calls (buffers c) cs (with_buffer d c) = Ok (tt, c') →
  dispatch (ev_read (Z.of_nat (length d)) d) c =
    Ok (tt, set_heap (delete (buffers c) (heap c')) (set_parser_ p c')).
Proof.
  intros Hd Ht Hr. cbn [dispatch]. erewrite bind_Ok by reflexivity. unfold read_cb. cbv zeta.
  rewrite (proj2 (Z.ltb_lt _ _)) by (destruct d; [done | simpl; lia]).
  erewrite bind_Ok by reflexivity. rewrite Nat2Z.id, firstn_all. fold (with_buffer d c).
  change (parser_ _) with (parser_ c). pose proof (execute_trace (buffers c)
    (http_parser_execute (parser_ c) d) (with_buffer d c) c') as E. rewrite Ht in E.
  erewrite bind_Ok by (by apply E). cbn [fst snd]. by rewrite Z.eqb_refl.
Qed.

(** A read inside a message. *)
Lemma read_inside d cs p r c :
  heap_ok c → d ≠ [] → fits d →
  trace (http_parser_execute (parser_ c) d) = (cs, (Z.of_nat (length d), false, p)) →
  assemble d cs (response c) = Some r →
  ∃ q n, dispatch (ev_read (Z.of_nat (length d)) d) c =
    Ok (tt, set_buffers (S (buffers c)) (set_parser_ p (after_calls q n r c))).
Proof.
  intros Hh Hd Hf Ht Ha. destruct (run_assembled (buffers c) d cs r (with_buffer d c)) as (q & n & E).
  - cbn [with_buffer heap set_buffers set_heap]. apply lookup_insert_eq.
  - done.
  - done.
  - exists q, n. rewrite (read_cb_calls d cs p c _ Hd Ht E). do 2 f_equal.
    unfold after_calls, with_buffer. cbn -[delete insert lookup].
    rewrite delete_insert_id by (by apply heap_ok_fresh). by destruct c.
Qed.

(** The end of a message: the timer is closed, then the response is handed over. *)
Lemma run_message_complete {laws : UVLaws} b ka f c :
  responseCallback c = Some f → timer_initialised c = true →
  (ka = true → tcp_initialised c = true) →
  ∃ l, uv_is_closing h_timer l = true ∧
    run_calls b [on_message_complete ka] c =
      Ok (tt, set_calls (calls c ++ [CallResponse f (response c)]) (set_uv_loop l c)).
Proof.
  intros Hf Ht Hk. cbn [run_calls parser_callback]. unfold message_complete.
  set (l1 := if negb (uv_is_closing h_timer (uv_loop c)) then uv_close h_timer (uv_loop c)
             else uv_loop c).
  assert (_clearTimer c = Ok (tt, set_uv_loop l1 c)) as E1.
  { unfold _clearTimer. erewrite bind_Ok by reflexivity. rewrite Ht. cbn [negb]. unfold l1.
    case_if; [done|]. by destruct c. }
  assert (uv_is_closing h_timer l1 = true) as Hl1.
  { unfold l1. destruct (uv_is_closing _ _) eqn:E; [done|]. apply close_closing. }
  assert (∃ l2, uv_is_closing h_timer l2 = true ∧
    (if ka then _clearConnection else mret ()) (set_uv_loop l1 c) = Ok (tt, set_uv_loop l2 c))
    as (l2 & Hl2 & E2).
  { destruct ka; [|by exists l1]. unfold _clearConnection. erewrite bind_Ok by reflexivity.
    change (tcp_initialised _) with (tcp_initialised c). rewrite Hk by done. cbn [negb].
    case_if; eexists; (split; [|reflexivity]); [|done]. by apply close_keeps. }
  exists l2. split; [done|]. erewrite bind_Ok; [reflexivity|].
  rewrite (bind_Ok _ _ _ _ _ E1), (bind_Ok _ _ _ _ _ E2).
  erewrite bind_Ok; [reflexivity|]. unfold emit. erewrite bind_Ok by reflexivity.
  change (responseCallback _) with (responseCallback c). by rewrite Hf.
Qed.

(** What the user and the loop see of a client that has handed its response over. *)
Definition delivered (f : callback) (r : Response) c c' : Prop :=
  calls c' = calls c ++ [CallResponse f r] ∧ uv_is_closing h_timer (uv_loop c') = true ∧
  heap c' = heap c.

(** The read that ends a message. *)
Lemma read_last {laws : UVLaws} d cs ka p r f c :
  heap_ok c → d ≠ [] → fits d →
  trace (http_parser_execute (parser_ c) d) =
    (cs ++ [on_message_complete ka], (Z.of_nat (length d), false, p)) →
  assemble d cs (response c) = Some r → responseCallback c = Some f →
  timer_initialised c = true → (ka = true → tcp_initialised c = true) →
  ∃ c', dispatch (ev_read (Z.of_nat (length d)) d) c = Ok (tt, c') ∧ delivered f r c c'.
Proof.
  intros Hh Hd Hf Ht Ha Hc Hti Htc.
  destruct (run_assembled (buffers c) d cs r (with_buffer d c)) as (q & n & E);
    [apply lookup_insert_eq | done | done |].
  destruct (run_message_complete (buffers c) ka f (after_calls q n r (with_buffer d c)))
    as (l & Hl & E'); [done..|].
  eexists. split.
  - eapply (read_cb_calls d _ p); [done | exact Ht|]. by rewrite (run_calls_app _ _ _ _ _ E).
  - split; [done|]. split; [done|]. cbn -[delete insert lookup].
    apply delete_insert_id. by apply heap_ok_fresh.
Qed.

(** C19 A response that the parser reads from any number of pieces, none of which
    splits a header, is handed to the user's function exactly once, when it is complete:
    the status, the headers under their lower-case names (the last of a repeated one) and
    the body put together; by then the timer is closed and every buffer is freed. *)
Theorem response_delivered {laws : UVLaws} reads r ka f c :
  heap_ok c → Forall (λ ld, ld.2 ≠ [] ∧ fits ld.2) reads →
  responseCallback c = Some f → timer_initialised c = true → tcp_initialised c = true →
  received (parser_ c) (snd <$> reads) (response c) = Some (r, ka) →
  ∃ c', receive reads c = Ok (tt, c') ∧ delivered f r c c'.
Proof.
  intros Hh Hr Hf Hti Htc. revert c Hh Hf Hti Htc.
  induction Hr as [|[l d] reads [Hd Hfit] _ IH]; intros c Hh Hf Hti Htc; [done|].
  rewrite fmap_cons. cbn [received receive snd] in *. intros Hrec.
  destruct (trace (http_parser_execute (parser_ c) d)) as [cs [[n up] p]] eqn:Ht.
  cbn [fst snd] in Hrec. case_if; [|done]. zbool. subst up n.
  set (c1 := set_uv_loop l c). erewrite bind_Ok by reflexivity.
  destruct reads as [|ld reads].
  - destruct (ends cs) as [[cs' ka']|] eqn:Ee; [|done]. apply ends_app in Ee as ->.
    cbn [mbind option_bind fst snd] in Hrec.
    destruct (assemble d cs' (response c)) as [r'|] eqn:Ea; [|done]. injection Hrec as -> ->.
    destruct (read_last d cs' ka p r f c1) as (c' & E & Hdel); [done..|].
    exists c'. fold c1. by rewrite (bind_Ok _ _ _ _ _ E).
  - rewrite fmap_cons in Hrec. cbv iota in Hrec.
    destruct (assemble d cs (response c)) as [r'|] eqn:Ea; [|done].
    cbn [mbind option_bind] in Hrec.
    destruct (read_inside d cs p r' c1) as (q & m & E); [done..|].
    fold c1. rewrite (bind_Ok _ _ _ _ _ E). rewrite <- fmap_cons in Hrec.
    apply (IH (set_buffers (S (buffers c1)) (set_parser_ p (after_calls q m r' c1)))); try done.
    intros b Hb%Hh. cbn. lia.
Qed.

Lemma header_value_dangling b o b' o' n' c :
  lastHeaderFieldBuf c = At b o → heap c !! b = None → header_value b' o' n' c = Undefined.
Proof.
  intros Hp Hb. unfold header_value. erewrite bind_Ok by reflexivity. rewrite Hp.
  apply bind_Undefined. unfold string_at. by rewrite Hb.
Qed.

(** C40 A header whose name ends a read and whose value begins the next one is read
    through a pointer into the buffer of the first, which was freed. *)
Theorem split_header_undefined d cs o n p r d' o' n' k l c :
  heap_ok c → d ≠ [] → fits d → d' ≠ [] →
  trace (http_parser_execute (parser_ c) d) =
    (cs ++ [on_header_field o n], (Z.of_nat (length d), false, p)) →
  assemble d cs (response c) = Some r →
  http_parser_execute p d' = Calling (on_header_value o' n') k →
  ∃ c', dispatch (ev_read (Z.of_nat (length d)) d) c = Ok (tt, c') ∧
    dispatch (ev_read (Z.of_nat (length d')) d') (set_uv_loop l c') = Undefined.
Proof.
  intros Hh Hd Hf Hd' Ht Ha Hk.
  destruct (run_assembled (buffers c) d cs r (with_buffer d c)) as (q & m & E);
    [apply lookup_insert_eq | done | done |].
  eexists. split.
  { eapply (read_cb_calls d _ p); [done | exact Ht|]. rewrite (run_calls_app _ _ _ _ _ E). reflexivity. }
  cbn [dispatch]. erewrite bind_Ok by reflexivity. unfold read_cb. cbv zeta.
  rewrite (proj2 (Z.ltb_lt _ _)) by (destruct d'; [done | simpl; lia]).
  erewrite bind_Ok by reflexivity. rewrite Nat2Z.id, firstn_all.
  change (parser_ _) with p. rewrite Hk. apply bind_Undefined, bind_Undefined.
  apply (header_value_dangling (buffers c) o); [done|]. cbn -[delete insert lookup].
  rewrite lookup_insert_ne by lia. apply lookup_delete_eq.
Qed.
End Reading.

(** ** Examples *)

Section Examples.
#[local] Existing Instance toy_uv.
#[local] Existing Instance toy_uv_laws.

Definition hello : Response :=
  mkResponse 200 (<[chars "content-length" := chars "5"]>
    (<[chars "content-type" := chars "text"]> ∅)) (chars "hello").

Lemma response_delivered_witness :
  ∃ c', receive [(uv_loop (waiting ok_parser), read1); (uv_loop (waiting ok_parser), read2)]
          (waiting ok_parser) = Ok (tt, c') ∧
    delivered 1 hello (waiting ok_parser) c'.
Proof.
  apply (response_delivered _ hello false 1).
  - intros b [d Hd]. vm_compute in Hd. discriminate.
  - repeat constructor; vm_compute; discriminate.
  - reflexivity.
  - reflexivity.
  - reflexivity.
  - vm_compute. reflexivity.
Defined.

Lemma split_header_undefined_witness :
  ∃ c', dispatch (ev_read 29 (take 29 read1)) (waiting cut_parser) = Ok (tt, c') ∧
    dispatch (ev_read 31 (drop 31 read1 ++ chars "ok"))
      (set_uv_loop (uv_loop (waiting cut_parser)) c') = Undefined.
Proof.
  eapply (split_header_undefined (take 29 read1) [on_message_begin] 17 12 _ _
    (drop 31 read1 ++ chars "ok")).
  - intros b [d Hd]. vm_compute in Hd. discriminate.
  - discriminate.
  - vm_compute. discriminate.
  - discriminate.
  - reflexivity.
  - reflexivity.
  - reflexivity.
Defined.
End Examples.
