(* ===== verification/HttpLoop.v ===== *)
(** * The HTTP client in its event loop: outcomes, errors and the timer

    Invariants of the steps of the loop, by induction on them: a response and a
    timeout exclude each other.  The error paths of [end()] and of the reads, and what
    they leave behind. *)

From Stdlib Require Import ZArith Lia String Ascii.
From stdpp Require Import base list strings gmap relations.
From S2P Require Import Prelude StdSet UtilsParse UtilsRegex HttpRequest HttpFixtures.

Create HintDb http.

Section Outcomes.
Context {uv : UV} {hp : HttpParser} {laws : UVLaws}.
Implicit Types c : SimpleHttpRequest.

(** ** Triples *)

Definition triple {A} (P : SimpleHttpRequest → Prop) (m : M A) (Q : SimpleHttpRequest → Prop) :=
  ∀ c a c', P c → m c = Ok (a, c') → Q c'.

Lemma triple_bind {A B} P Q R (m : M A) (f : A → M B) :
  triple P m Q → (∀ a, triple Q (f a) R) → triple P (m ≫= f) R.
Proof. intros Hm Hf c b c' HP (a & c1 & E1 & E2)%bind_Ok_inv. eapply Hf, E2. by eapply Hm. Qed.

Lemma triple_ret {A} (a : A) P : triple P (mret a) P.
Proof. by intros c a' c' HP [= _ <-]. Qed.

Lemma triple_self P : triple P self P.
Proof. by intros c a c' HP [= _ <-]. Qed.

Lemma triple_update (P Q : SimpleHttpRequest → Prop) f :
  (∀ c, P c → Q (f c)) → triple P (update f) Q.
Proof. intros H c a c' HP [= _ <-]. auto. Qed.

Lemma triple_undefined {A} P Q : triple (A := A) P undefined Q.
Proof. by intros c a c' _. Qed.

Lemma triple_if {A} (b : bool) P Q (m1 m2 : M A) :
  (b = true → triple P m1 Q) → (b = false → triple P m2 Q) → triple P (if b then m1 else m2) Q.
Proof. destruct b; auto. Qed.

(** ** Properties that only a response or the opening of a handle can break *)

Definition is_response (x : call) : bool := match x with CallResponse _ _ => true | _ => false end.

(** Handles that are closing stay so. *)
Definition closing_kept c c' : Prop :=
  ∀ h, uv_is_closing h (uv_loop c) = true → uv_is_closing h (uv_loop c') = true.

Record framed (P : SimpleHttpRequest → Prop) : Prop := {
  frame_state c c' : calls c' = calls c → closing_kept c c' → P c → P c';
  frame_call c x : is_response x = false → P c → P (set_calls (calls c ++ [x]) c)
}.

Section Framed.
Context (P : SimpleHttpRequest → Prop) (HP : framed P).

Lemma framed_update f :
  (∀ c, calls (f c) = calls c) → (∀ c, closing_kept c (f c)) → triple P (update f) P.
Proof. intros H1 H2. apply triple_update. intros c. by apply (frame_state P HP c). Qed.

(** Updates of what neither the user nor the loop sees. *)
Lemma framed_local f :
  (∀ c, calls (f c) = calls c) → (∀ c, uv_loop (f c) = uv_loop c) → triple P (update f) P.
Proof. intros H1 H2. apply framed_update; [done|]. intros c h. by rewrite H2. Qed.

Lemma framed_uv_call f :
  (∀ h l, uv_is_closing h (f l).2 = uv_is_closing h l) → triple P (uv_call f) P.
Proof.
  intros Hf c a c' Hc [= _ <-]. eapply (frame_state P HP c); [reflexivity | | done].
  intros h Hh. cbn. by rewrite Hf.
Qed.

Lemma framed_emit_error e : triple P (emit (chars "error") e) P.
Proof.
  unfold emit. eapply triple_bind; [apply triple_self|]. intros c.
  rewrite (bool_decide_false (chars "error" = chars "response")) by done.
  repeat case_match; try apply triple_ret; apply triple_update; intros; by apply (frame_call P HP).
Qed.

Lemma framed_close h : triple P (c ← self; update (set_uv_loop (uv_close h (uv_loop c)))) P.
Proof.
  intros c a c' Hc [= _ <-]. eapply (frame_state P HP c); [reflexivity | | done].
  intros h' Hh. by apply close_keeps.
Qed.

Lemma framed_clearTimer : triple P _clearTimer P.
Proof.
  intros c a c' Hc. unfold _clearTimer. erewrite bind_Ok by reflexivity.
  case_if; [done|]. case_if; intros [= _ <-]; [|done].
  eapply (framed_close h_timer c); [done | reflexivity].
Qed.

Lemma framed_clearConnection : triple P _clearConnection P.
Proof.
  intros c a c' Hc. unfold _clearConnection. erewrite bind_Ok by reflexivity.
  case_if; [done|]. case_if; intros [= _ <-]; [|done].
  eapply (framed_close h_tcp c); [done | reflexivity].
Qed.

Lemma framed_string_at p n : triple P (string_at p n) P.
Proof. intros c a c' Hc. unfold string_at. repeat case_match; intros E; simplify_eq; done. Qed.
End Framed.

#[local] Hint Resolve framed_emit_error framed_clearTimer framed_clearConnection
  framed_string_at framed_uv_call triple_ret triple_self triple_undefined : http.
#[local] Hint Resolve read_start_keeps write_keeps : http.

(** Goes through a method that keeps [P] in every part. *)
Ltac walk :=
  repeat (intros; cbv zeta; lazymatch goal with
  | |- triple ?P (mbind _ _) ?P => apply (triple_bind P P)
  | |- triple _ (if _ then _ else _) _ => apply triple_if
  | |- triple _ (update _) _ => apply framed_local; [assumption | done..]
  | |- triple _ (match ?x with _ => _ end) _ => destruct x
  | _ => solve [eauto with http]
  end).

Lemma framed_timer_cb P : framed P → triple P timer_cb P.
Proof. unfold timer_cb. walk. Qed.

Lemma framed_connect_cb P s : framed P → triple P (connect_cb s) P.
Proof. unfold connect_cb. walk. Qed.

Lemma framed_write_cb P s : framed P → triple P (write_cb s) P.
Proof. unfold write_cb. walk. Qed.

Lemma framed_alloc P d : framed P → triple P (uvAllocCb d) P.
Proof. unfold uvAllocCb. walk. Qed.

(** Every callback of the parser but the last. *)
Lemma framed_parser_callback P b cb :
  framed P → (∀ ka, triple P (message_complete ka) P) → triple P (parser_callback b cb) P.
Proof.
  intros HP Hm. destruct cb; cbn [parser_callback]; [walk..| | |apply Hm].
  - unfold header_field. walk.
  - unfold header_value. walk.
  - unfold headers_complete. walk.
  - unfold body_data. walk.
Qed.

Lemma framed_read P n b d :
  framed P → (∀ ka, triple P (message_complete ka) P) → triple P (read_cb n b d) P.
Proof.
  intros HP Hm. assert (∀ r, triple P (execute b r) P) as Hx.
  { induction r as [|cb k IH]; cbn [execute]; [walk|]. apply (triple_bind P P); [|done].
    by apply framed_parser_callback. }
  unfold read_cb. walk; try apply Hx.
Qed.

(** ** A response is not followed by a timeout *)

Definition responses c : list call := List.filter is_response (calls c).
Definition timer_closed c : Prop := uv_is_closing h_timer (uv_loop c) = true.
Definition settled c : Prop := responses c ≠ [] → timer_closed c.

Lemma responses_call c x :
  is_response x = false → responses (set_calls (calls c ++ [x]) c) = responses c.
Proof.
  intros E. unfold responses. cbn [calls set_calls]. rewrite List.filter_app. simpl. rewrite E.
  apply app_nil_r.
Qed.

Lemma settled_framed : framed settled.
Proof.
  split.
  - intros c c' Hcs Hk Hs Hr. apply Hk, Hs. unfold responses in *. congruence.
  - intros c x Hx Hs Hr. rewrite responses_call in Hr by done. by apply Hs.
Qed.

Lemma timer_closed_framed : framed timer_closed.
Proof. split; [intros c c' _ Hk Hs; by apply Hk | done]. Qed.

Lemma message_complete_closes P ka : triple P (message_complete ka) timer_closed.
Proof.
  apply (triple_bind _ timer_closed).
  { intros c a c' _. unfold _clearTimer. erewrite bind_Ok by reflexivity. case_if; [done|].
    case_if; intros [= _ <-]; unfold timer_closed; [apply close_closing | by zbool]. }
  intros _. apply (triple_bind _ timer_closed).
  { pose proof timer_closed_framed. walk. }
  intros _. apply (triple_bind _ timer_closed); [|intros; apply triple_ret].
  unfold emit. apply (triple_bind _ timer_closed); [apply triple_self|].
  intros c. repeat case_match; try apply triple_ret; by apply triple_update.
Qed.

Lemma settled_message_complete ka : triple settled (message_complete ka) settled.
Proof. intros c a c' Hs E _. by eapply message_complete_closes. Qed.

Lemma settled_step c c' : step c c' → settled c → settled c'.
Proof.
  intros [e l c1 Hd E] Hs. pose proof settled_framed as HF.
  assert (settled (set_uv_loop l c)) as Hs1.
  { intros Hr. unfold timer_closed. cbn. rewrite (due_keeps _ _ _ _ Hd). by apply Hs. }
  revert E. destruct e; cbn [dispatch]; intros E; revert Hs1 E.
  - by apply framed_timer_cb.
  - by apply framed_connect_cb.
  - apply (triple_bind settled settled); [by apply framed_alloc|]. intros b.
    apply framed_read; [done | apply settled_message_complete].
  - by apply framed_write_cb.
Qed.

(** C24 Once a response was handed to the user, the timeout never fires, whatever
    the loop does next. *)
Theorem no_timeout_after_response c c' :
  settled c → rtc step c c' → responses c' ≠ [] → due ev_timer (uv_loop c') = None.
Proof.
  intros Hs Hsteps Hr.
  assert (settled c') as Hc by (induction Hsteps; eauto using settled_step).
  destruct (due ev_timer (uv_loop c')) eqn:E; [|done].
  apply due_timer in E. by rewrite (Hc Hr) in E.
Qed.

(** ** A timeout is not followed by a response *)

(** The connection is being closed, and the responses are [rs]. *)
Definition cut_off (rs : list call) c : Prop :=
  responses c = rs ∧ uv_is_closing h_tcp (uv_loop c) = true.

Lemma cut_off_framed rs : framed (cut_off rs).
Proof.
  split.
  - intros c c' Hcs Hk [Hr Hh]. split; [by unfold responses in *; rewrite Hcs | by apply Hk].
  - intros c x Hx [Hr Hh]. split; [by rewrite responses_call | done].
Qed.

Lemma cut_off_step rs c c' : step c c' → cut_off rs c → cut_off rs c'.
Proof.
  intros [e l c1 Hd E] [Hr Hh]. pose proof (cut_off_framed rs) as HF.
  assert (cut_off rs (set_uv_loop l c)) as Hs1.
  { split; [done|]. cbn. by rewrite (due_keeps _ _ _ _ Hd). }
  revert E. destruct e; cbn [dispatch]; intros E; revert Hs1 E.
  - by apply framed_timer_cb.
  - by apply framed_connect_cb.
  - apply due_read in Hd. congruence.
  - by apply framed_write_cb.
Qed.

(** The callback of the timer on an active connection. *)
Lemma timer_cb_effect c c1 f :
  uv_is_active h_tcp (uv_loop c) = true → errorCallback c = Some f → timer_cb c = Ok (tt, c1) →
  calls c1 = calls c ++ [CallError f (uv_error (- ETIMEDOUT))] ∧ cut_off (responses c) c1.
Proof.
  intros Ha1 Hf (? & c3 & E3 & (? & c4 & E4 & E)%bind_Ok_inv)%bind_Ok_inv.
  assert (calls c3 = calls c ∧ errorCallback c3 = Some f ∧ uv_is_active h_tcp (uv_loop c3) = true)
    as (H1 & H2 & H3).
  { revert E3. unfold _clearTimer. erewrite bind_Ok by reflexivity. case_if; [done|].
    case_if; intros [= _ <-]; cbn [uv_loop set_uv_loop]; by rewrite ?close_active. }
  assert (calls c4 = calls c ∧ errorCallback c4 = Some f ∧ uv_is_closing h_tcp (uv_loop c4) = true)
    as (H4 & H5 & H6).
  { revert E4. unfold _clearConnection. erewrite bind_Ok by reflexivity. case_if; [done|].
    rewrite H3. cbn [andb]. case_if; intros [= _ <-]; (split; [done|]); (split; [done|]);
      [apply close_closing | by zbool]. }
  revert E. unfold emit. erewrite bind_Ok by reflexivity.
  rewrite (bool_decide_false (_ = chars "response")), (bool_decide_true (_ = chars "error")), H5
    by done.
  intros [= <-]. rewrite H4. split; [done|]. split; [|done].
  rewrite <- H4, responses_call by done. unfold responses. by rewrite H4.
Qed.

(** C25 When the timeout fires on an active connection, the user is told of it and no
    response is handed over afterwards, whatever the loop does next. *)
Theorem no_response_after_timeout c c1 c2 f :
  uv_is_active h_tcp (uv_loop c) = true → errorCallback c = Some f →
  timer_cb c = Ok (tt, c1) → rtc step c1 c2 →
  calls c1 = calls c ++ [CallError f (uv_error (- ETIMEDOUT))] ∧ responses c2 = responses c.
Proof.
  intros Ha Hf E Hsteps. destruct (timer_cb_effect c c1 f Ha Hf E) as [Hc Hcut].
  split; [done|]. cut (cut_off (responses c) c2); [by intros []|].
  clear E Hc. induction Hsteps; eauto using cut_off_step.
Qed.
End Outcomes.

(** ** Errors *)

Section Errors.
Context {uv : UV} {hp : HttpParser}.
Implicit Types c : SimpleHttpRequest.

Lemma emit_error_Ok f e c :
  errorCallback c = Some f →
  emit (chars "error") e c = Ok (tt, set_calls (calls c ++ [CallError f e]) c).
Proof.
  intros Hf. unfold emit. erewrite bind_Ok by reflexivity.
  by rewrite (bool_decide_false (_ = chars "response")), (bool_decide_true (_ = chars "error")), Hf.
Qed.

Lemma clearTimer_Ok c :
  timer_initialised c = true → ∃ l, _clearTimer c = Ok (tt, set_uv_loop l c).
Proof.
  intros Hti. unfold _clearTimer. erewrite bind_Ok by reflexivity. rewrite Hti. cbn [negb].
  case_if; [by eexists|]. exists (uv_loop c). by destruct c.
Qed.

Lemma timer_cb_Ok f c :
  errorCallback c = Some f → timer_initialised c = true → tcp_initialised c = true →
  ∃ l, timer_cb c =
    Ok (tt, set_calls (calls c ++ [CallError f (uv_error (- ETIMEDOUT))]) (set_uv_loop l c)).
Proof.
  intros Hf Hti Htc. destruct (clearTimer_Ok c Hti) as [l E].
  assert (∃ l', _clearConnection (set_uv_loop l c) = Ok (tt, set_uv_loop l' c)) as [l' E'].
  { unfold _clearConnection. erewrite bind_Ok by reflexivity.
    change (tcp_initialised _) with (tcp_initialised c). rewrite Htc. cbn [negb].
    case_if; by eexists. }
  exists l'. unfold timer_cb. rewrite (bind_Ok _ _ _ _ _ E), (bind_Ok _ _ _ _ _ E').
  by apply (emit_error_Ok f _ (set_uv_loop l' c)).
Qed.

(** A failed read is reported, but neither the timer nor the connection is
    closed and the buffer is not freed: when the timer is still running its timeout is
    reported as well, as a second error of the same request. *)
Theorem read_error_then_timeout nread d c f l :
  (nread <= 0)%Z → nread ≠ UV_EOF → errorCallback c = Some f →
  timer_initialised c = true → tcp_initialised c = true →
  ∃ c1 c2, dispatch (ev_read nread d) c = Ok (tt, c1) ∧ uv_loop c1 = uv_loop c ∧
    heap c1 = <[buffers c := d]> (heap c) ∧
    timer_cb (set_uv_loop l c1) = Ok (tt, c2) ∧
    calls c2 = calls c ++ [CallError f (uv_error nread); CallError f (uv_error (- ETIMEDOUT))].
Proof.
  intros Hn Heof Hf Hti Htc.
  set (c1 := set_calls (calls c ++ [CallError f (uv_error nread)])
    (set_buffers (S (buffers c)) (set_heap (<[buffers c := d]> (heap c)) c))).
  destruct (timer_cb_Ok f (set_uv_loop l c1)) as [l' E]; [done..|].
  exists c1. eexists. split; [|split; [done | split; [done | split; [exact E|]]]].
  - cbn [dispatch]. erewrite bind_Ok by reflexivity. unfold read_cb. cbv zeta.
    rewrite (proj2 (Z.ltb_ge _ _)), (proj2 (Z.eqb_neq _ _)) by done. cbn [negb].
    apply (emit_error_Ok f _ (set_buffers _ (set_heap _ c))). done.
  - cbn. by rewrite <- app_assoc.
Qed.

(** *** Starting a request *)

Definition timer_starts c : Prop :=
  (uv_timer_init (uv_loop c)).1 = 0%Z ∧
  (uv_timer_start (timeout c) (uv_timer_init (uv_loop c)).2).1 = 0%Z.

(** The client once its timer runs. *)
Definition with_timer c : SimpleHttpRequest :=
  set_uv_loop (uv_timer_start (timeout c) (uv_timer_init (uv_loop c)).2).2
    (set_timer_initialised true (set_uv_loop (uv_timer_init (uv_loop c)).2 c)).

Lemma end_timer connect c :
  timer_starts c →
  end_with connect c =
    (dest ← resolve; match dest with Some dest => connect dest | None => mret tt end)
      (with_timer c).
Proof.
  intros [H1 H2]. unfold end_with. erewrite bind_Ok by reflexivity. rewrite H1.
  erewrite bind_Ok by reflexivity. erewrite bind_Ok by reflexivity. erewrite bind_Ok by reflexivity.
  erewrite bind_Ok by reflexivity. cbn [timeout set_timer_initialised set_uv_loop uv_loop].
  rewrite H2. by erewrite bind_Ok by reflexivity.
Qed.

(** What the user saw of an attempt to connect: the error [r], or none. *)
Definition failed (f : callback) (r : Z) c c' : Prop :=
  r ≠ 0%Z ∧ calls c' = calls c ++ [CallError f (uv_error r)].
Definition started c c' : Prop :=
  tcp_initialised c' = true ∧
  calls c' = calls c ++ (if defaultLoopAbsented c then [CallRun] else []).

Lemma resolve_Ok f n c :
  errorCallback c = Some f → stoi (option_ (chars "port") c) = inl n →
  ∃ d c', resolve c = Ok (d, c') ∧ errorCallback c' = Some f ∧
    defaultLoopAbsented c' = defaultLoopAbsented c ∧
    (calls c' = calls c ∧ is_Some d ∨ d = None ∧ ∃ r, failed f r c c').
Proof.
  intros Hf Hn. unfold resolve. erewrite bind_Ok by reflexivity.
  assert (stoi_port c = Ok (n, c)) as En by (unfold stoi_port; by rewrite Hn).
  rewrite (bind_Ok _ _ _ _ _ En). destruct (uv_ip4_addr _ _) as [r dest].
  destruct (Z.eqb_spec r 0); cbn [negb].
  { eexists _, _. split; [reflexivity|]. split; [done|]. split; [done|]. left. by eauto. }
  destruct (uv_getaddrinfo _ _) as [r1 addr]. destruct (Z.eqb_spec r1 0); cbn [negb].
  - rewrite (bind_Ok _ _ _ _ _ En). destruct (uv_ip4_addr _ _) as [r2 dest2].
    destruct (Z.eqb_spec r2 0); cbn [negb].
    + eexists _, _. erewrite bind_Ok by reflexivity. split; [reflexivity|]. split; [done|].
      split; [done|]. left. by eauto.
    + eexists _, _. rewrite (bind_Ok _ _ _ _ _ (emit_error_Ok f (uv_error r2) c Hf)).
      split; [reflexivity|]. split; [done|]. split; [done|]. right. split; [done|]. by exists r2.
  - eexists _, _. rewrite (bind_Ok _ _ _ _ _ (emit_error_Ok f (uv_error r1) c Hf)).
    split; [reflexivity|]. split; [done|]. split; [done|]. right. split; [done|]. by exists r1.
Qed.

Lemma connect_to_Ok f dest c :
  errorCallback c = Some f →
  ∃ c', connect_to dest c = Ok (tt, c') ∧ (started c c' ∨ ∃ r, failed f r c c').
Proof.
  intros Hf. unfold connect_to. erewrite bind_Ok by reflexivity.
  set (c1 := set_uv_loop (uv_tcp_init (uv_loop c)).2 c).
  destruct (Z.eqb_spec (uv_tcp_init (uv_loop c)).1 0); cbn [negb].
  2:{ rewrite (emit_error_Ok f _ c1) by done. eexists. split; [done|]. right. eexists. by split. }
  erewrite bind_Ok by reflexivity. erewrite bind_Ok by reflexivity.
  set (r := uv_tcp_connect dest _). set (c2 := set_uv_loop r.2 _).
  destruct (Z.eqb_spec r.1 0); cbn [negb].
  2:{ rewrite (emit_error_Ok f _ c2) by done. eexists. split; [done|]. right. eexists. by split. }
  erewrite bind_Ok by reflexivity. change (defaultLoopAbsented c2) with (defaultLoopAbsented c).
  unfold started. destruct (defaultLoopAbsented c); eexists; (split; [reflexivity|]); left;
    (split; [done|]); [done | by rewrite app_nil_r].
Qed.

(** Starting a request whose port is a number either starts the connection (and
    runs the default loop when the client uses it) or reports exactly one error to the
    user; it neither fails silently nor throws. *)
Theorem end_reports_failures f n c :
  errorCallback c = Some f → timer_starts c → stoi (option_ (chars "port") c) = inl n →
  ∃ c', end_ c = Ok (tt, c') ∧ (started c c' ∨ ∃ r, failed f r c c').
Proof.
  intros Hf Ht Hn. unfold end_; rewrite end_timer by done.
  destruct (resolve_Ok f n (with_timer c)) as (d & c1 & E & Hf1 & Hd & Hc); [done..|].
  rewrite (bind_Ok _ _ _ _ _ E). destruct Hc as [[Hc [dest ->]]|[-> [r Hr]]].
  - destruct (connect_to_Ok f dest c1 Hf1) as (c' & E' & Hc'). exists c'. split; [done|].
    unfold started, failed in *. rewrite Hc, Hd in Hc'. exact Hc'.
  - exists c1. split; [done|]. right. by exists r.
Qed.

(** When the name of the host cannot be resolved the error is reported and the
    request is over, but its timer runs on, and when it fires it looks at a connection
    that was never initialised. *)
Theorem unresolved_host_timeout f n c l :
  errorCallback c = Some f → timer_starts c → tcp_initialised c = false →
  stoi (option_ (chars "port") c) = inl n →
  (uv_ip4_addr (option_ (chars "hostname") c) n).1 ≠ 0%Z →
  (uv_getaddrinfo (option_ (chars "hostname") c) (option_ (chars "port") c)).1 ≠ 0%Z →
  ∃ c' r, end_ c = Ok (tt, c') ∧ calls c' = calls c ++ [CallError f (uv_error r)] ∧
    uv_loop c' = uv_loop (with_timer c) ∧ timer_cb (set_uv_loop l c') = Undefined.
Proof.
  intros Hf Ht Htc Hn Hi Hg. unfold end_; rewrite end_timer by done.
  assert (stoi_port (with_timer c) = Ok (n, with_timer c)) as En.
  { unfold stoi_port. change (option_ _ (with_timer c)) with (option_ (chars "port") c). by rewrite Hn. }
  set (r := (uv_getaddrinfo (option_ (chars "hostname") c) (option_ (chars "port") c)).1) in *.
  set (c' := set_calls (calls c ++ [CallError f (uv_error r)]) (with_timer c)).
  assert (resolve (with_timer c) = Ok (None, c')) as E.
  { unfold resolve. erewrite bind_Ok by reflexivity. rewrite (bind_Ok _ _ _ _ _ En).
    change (option_ ?k (with_timer c)) with (option_ k c).
    destruct (uv_ip4_addr _ _) as [r1 dest]. rewrite (proj2 (Z.eqb_neq _ _)) by done. cbn [negb].
    unfold r in *. destruct (uv_getaddrinfo _ _) as [r2 addr].
    rewrite (proj2 (Z.eqb_neq _ _)) by done. cbn [negb fst] in *.
    by rewrite (bind_Ok _ _ _ _ _ (emit_error_Ok f (uv_error r2) (with_timer c) Hf)). }
  exists c', r. rewrite (bind_Ok _ _ _ _ _ E). split; [done|]. split; [done|]. split; [done|].
  unfold timer_cb. set (c1 := set_uv_loop l c').
  destruct (clearTimer_Ok c1 eq_refl) as [l' E'].
  rewrite (bind_Ok _ _ _ _ _ E'). apply bind_Undefined. unfold _clearConnection.
  erewrite bind_Ok by reflexivity. change (tcp_initialised _) with (tcp_initialised c).
  by rewrite Htc.
Qed.

(** A request for a URL that does not parse, made the way the examples make it
    (the error callback is registered after [get]), calls nobody: [end()] then throws
    [std::invalid_argument], as there is no port to convert. *)
Theorem bad_url_throws url method l :
  http_parser_parse_url url = None → timer_starts (with_loop l) →
  ∃ c, _get url method (with_loop l) = Ok (tt, c) ∧ calls c = [] ∧
    ∀ f g, end_ (on_response (chars "response") g (on_error (chars "error") f c)) =
      Throws invalid_argument.
Proof.
  intros Hu Ht. unfold _get. exists (set_option (chars "method") method (with_loop l)).
  split.
  { erewrite bind_Ok by reflexivity. unfold _parseUrl. rewrite Hu.
    by erewrite bind_Ok by reflexivity. }
  split; [done|]. intros f g. unfold end_; rewrite end_timer by done. unfold resolve.
  set (c := with_timer _).
  assert (stoi_port c = Throws invalid_argument) as E.
  { unfold stoi_port, option_. change (options c) with (<[chars "method" := method]> (∅ : gmap str str)).
    by rewrite lookup_insert_ne. }
  unfold mbind, M_bind, self. by rewrite E.
Qed.
End Errors.

(** ** Examples *)

Section Examples.
#[local] Existing Instance toy_uv.
#[local] Existing Instance toy_uv_laws.
#[local] Existing Instance ok_parser.

(** After the first read, and after the response. *)
Definition half_read : SimpleHttpRequest :=
  state_of ok_parser (deliver ok_parser (ev_read 60 read1)) (waiting ok_parser).
Definition answered : SimpleHttpRequest :=
  state_of ok_parser (deliver ok_parser (ev_read 3 read2)) half_read.

Lemma no_timeout_after_response_witness :
  responses answered ≠ [] ∧ due ev_timer (uv_loop answered) = None.
Proof.
  split; [vm_compute; discriminate|].
  apply (no_timeout_after_response (waiting ok_parser)).
  - intros H. exfalso. apply H. vm_compute. reflexivity.
  - apply (rtc_l _ _ half_read);
      [apply (deliver_step ok_parser (ev_read 60 read1)); vm_compute; reflexivity|].
    apply rtc_once, (deliver_step ok_parser (ev_read 3 read2)). vm_compute. reflexivity.
  - vm_compute. discriminate.
Defined.

Definition timed_out : SimpleHttpRequest := state_of ok_parser timer_cb (waiting ok_parser).

Lemma no_response_after_timeout_witness :
  calls timed_out = [CallError 2 (uv_error (-110))] ∧ responses timed_out = [].
Proof.
  apply (no_response_after_timeout (waiting ok_parser) _ _ 2);
    [vm_compute; reflexivity.. | apply rtc_refl].
Defined.

Lemma read_error_then_timeout_witness :
  ∃ c1 c2, dispatch (ev_read (-104) []) (waiting ok_parser) = Ok (tt, c1) ∧
    timer_cb c1 = Ok (tt, c2) ∧
    calls c2 = [CallError 2 (uv_error (-104)); CallError 2 (uv_error (-110))].
Proof.
  destruct (read_error_then_timeout (-104) [] (waiting ok_parser) 2 (uv_loop (waiting ok_parser)))
    as (c1 & c2 & E1 & E2 & E3 & E4 & E5); [lia | discriminate | reflexivity..|].
  exists c1, c2. split; [exact E1|]. split; [|exact E5]. rewrite <- E4, <- E2. by destruct c1.
Defined.

Lemma end_reports_failures_witness :
  ∃ c', end_ (new_request ok_parser (chars "nowhere")) = Ok (tt, c') ∧
    (started (new_request ok_parser (chars "nowhere")) c' ∨
     ∃ r, failed 2 r (new_request ok_parser (chars "nowhere")) c').
Proof. apply (end_reports_failures 2 7999); [reflexivity | split; reflexivity | reflexivity]. Defined.

Lemma unresolved_host_timeout_witness :
  ∃ c' r, end_ (new_request ok_parser (chars "nowhere")) = Ok (tt, c') ∧
    calls c' = [CallError 2 (uv_error r)] ∧
    uv_loop c' = uv_loop (with_timer (new_request ok_parser (chars "nowhere"))) ∧
    timer_cb (set_uv_loop (uv_loop c') c') = Undefined.
Proof.
  edestruct (unresolved_host_timeout 2 7999 (new_request ok_parser (chars "nowhere"))
    (uv_loop (with_timer (new_request ok_parser (chars "nowhere"))))) as (c' & r & E1 & E2 & E3 & E4);
    [reflexivity | split; reflexivity | reflexivity | reflexivity | vm_compute; discriminate.. |].
  exists c', r. split; [exact E1|]. split; [exact E2|]. split; [exact E3|]. rewrite E3. exact E4.
Defined.

Lemma bad_url_throws_witness :
  ∃ c, get (chars "no url") (with_loop (uv := toy_uv) toy_loop0) = Ok (tt, c) ∧
    end_ (on_response (chars "response") 1 (on_error (chars "error") 2 c)) =
      Throws invalid_argument.
Proof.
  destruct (bad_url_throws (uv := toy_uv) (chars "no url") (chars "GET") toy_loop0)
    as (c & E & _ & H); [reflexivity | split; reflexivity|].
  exists c. split; [exact E | apply H].
Defined.
End Examples.
