(* ===== verification/HttpSsl.v ===== *)
(** * The HTTP client over TLS ([SimpleHttpRequest.hpp] with [ENABLE_SSL])

    For an [https] URL [end()] starts a second timer, [sslTimer], whose callback does
    the whole exchange with blocking calls of OpenSSL: connecting, the handshake,
    writing the request and reading the response, in pieces, into one buffer on the
    stack.  The TCP handle of the other branch is never initialised.  OpenSSL and the
    second timer are parameters. *)

From Stdlib Require Import ZArith Lia String Ascii.
From stdpp Require Import base list strings gmap.
From S2P Require Import Prelude StdSet UtilsParse UtilsRegex HttpRequest HttpFixtures HttpResponse HttpLoop.

(** ** OpenSSL *)

(** What the peer at an address ([hostname:port]) answers: whether the BIO has an SSL
    object, the results of connecting and of the handshake, and, given the request, the
    data of the reads up to the one that returns 0 or less. *)
Class OpenSSL := {
  BIO_get_ssl : bool;
  BIO_do_connect : str → Z;
  BIO_do_handshake : str → Z;
  BIO_read : str → str → list str
}.

(** The operations of libuv on [sslTimer], and the loop's state as it calls that
    timer, when it may; they leave the other two handles alone. *)
Class SslTimer (uv : UV) := {
  sslTimer_init : Loop → Z * Loop;
  sslTimer_start : Loop → Z * Loop;
  sslTimer_close : Loop → Loop;
  sslTimer_due : Loop → option Loop
}.

Class SslTimerLaws {uv : UV} (st : SslTimer uv) := {
  sslTimer_init_closing h l : uv_is_closing h (sslTimer_init l).2 = uv_is_closing h l;
  sslTimer_start_closing h l : uv_is_closing h (sslTimer_start l).2 = uv_is_closing h l;
  sslTimer_close_closing h l : uv_is_closing h (sslTimer_close l) = uv_is_closing h l
}.

(** [c_str()] as a C function sees it: up to the first NUL. *)
Definition c_string (s : str) : str := take_while (λ a, negb (Ascii.eqb a zero)) s.

Section Ssl.
Context {uv : UV} {hp : HttpParser} {ssl : OpenSSL} {st : SslTimer uv}.
Implicit Types c : SimpleHttpRequest.

(** ** The callback of [sslTimer] *)

(** [nread] bytes are read to the front of [tmpbuf]; what was behind them stays. *)
Definition fill (buf : nat) (d : str) c : SimpleHttpRequest :=
  set_heap (alter (λ old, d ++ drop (length d) old) buf (heap c)) c.

(** The [for (;;)] loop: whether it ended by [break]. *)
Fixpoint ssl_loop (tmpbuf : nat) (ds : list str) : M bool :=
  match ds with
  | [] => mret true
  | d :: ds =>
      update (fill tmpbuf d);;
      c ← self;
      r ← execute tmpbuf (http_parser_execute (parser_ c) d);
      if r.2 : bool then
        emit (chars "error") (mkError (chars "upgrade") (chars "upgrade is not supported"));;
        mret false
      else if negb (r.1 =? Z.of_nat (length d))%Z then
        emit (chars "error") (mkError (chars "httpparse") (chars "http parser error"));;
        mret false
      else ssl_loop tmpbuf ds
  end.

Definition ssl_error (message : str) : M unit :=
  emit (chars "error") (mkError (chars "SSL") message).

Definition ssl_address c : str :=
  c_string (option_ (chars "hostname") c ++ chars ":" ++ option_ (chars "port") c).

(** From the request on. *)
Definition ssl_exchange : M unit :=
  c ← self;
  let '(body, res) := request_stream c in
  let text := c_string (written res) in
  update (set_requestBody body);;
  log (CallBIO_puts text);;
  tmpbuf ← uvAllocCb [];
  ok ← ssl_loop tmpbuf (BIO_read (ssl_address c) text);
  (if ok : bool then log CallBIO_free_all else mret tt);;
  update (λ c, set_heap (delete tmpbuf (heap c)) c).

Definition ssl_cb : M unit :=
  update (λ c, set_uv_loop (sslTimer_close (uv_loop c)) c);;
  if negb BIO_get_ssl then ssl_error (chars "Can't locate SSL pointer")
  else
    c ← self;
    if (BIO_do_connect (ssl_address c) <=? 0)%Z
    then ssl_error (chars "Error connecting to server")
    else if (BIO_do_handshake (ssl_address c) <=? 0)%Z
    then ssl_error (chars "Error establishing SSL connection")
    else ssl_exchange.

(** ** [end()] *)

Definition is_https c : bool :=
  match options c !! chars "protocol" with
  | Some protocol =>
      bool_decide (protocol = chars "https") || bool_decide (protocol = chars "https:")
  | None => false
  end.

Definition start_ssl : M unit :=
  r ← uv_call sslTimer_init;
  ASSERT (r =? 0)%Z;;
  r ← uv_call sslTimer_start;
  ASSERT (r =? 0)%Z;;
  c ← self;
  if defaultLoopAbsented c then log CallRun else mret tt.

Definition end_ssl : M unit :=
  end_with (λ dest, c ← self; if is_https c then start_ssl else connect_to dest).

(** ** Reads into one buffer *)

(** The size of [tmpbuf]. *)
Definition tmpbuf_size : Z := 65536.

Lemma slice_app o l d rest v : slice o l d = Some v → slice o l (d ++ rest) = Some v.
Proof.
  unfold slice. case_if; [|done]. apply Nat.leb_le in E. intros [= <-].
  rewrite (proj2 (Nat.leb_le _ _)) by (rewrite length_app; lia).
  rewrite drop_app_le by lia. rewrite take_app_le by (rewrite length_drop; lia). done.
Qed.

(** What is assembled from the data just read does not depend on what is behind it. *)
Lemma assemble_app d rest cs r r' :
  assemble d cs r = Some r' → assemble (d ++ rest) cs r = Some r'.
Proof.
  revert r. induction cs as [cs IH] using (induction_ltof1 _ length). unfold ltof in IH. intros r.
  destruct cs as [|[|o l|o l|o l|s ch n|[[o l]|]|ka] cs]; cbn [assemble]; try done.
  - apply IH. simpl. lia.
  - apply IH. simpl. lia.
  - destruct cs as [|[| | |o' l'| | |] cs]; try done.
    destruct (slice o l d) as [field|] eqn:Ef; [|done].
    destruct (slice o' l' d) as [value|] eqn:Ev; [|done].
    rewrite (slice_app _ _ _ _ _ Ef), (slice_app _ _ _ _ _ Ev). apply IH. simpl. lia.
  - apply IH. simpl. lia.
  - destruct (slice o l d) as [data|] eqn:Es; [|done].
    rewrite (slice_app _ _ _ _ _ Es). apply IH. simpl. lia.
  - apply IH. simpl. lia.
Qed.

Definition fits_tmpbuf (d : str) : Prop := (Z.of_nat (length d) <= tmpbuf_size)%Z.

Lemma fits_tmpbuf_fits d : fits_tmpbuf d → fits d.
Proof. unfold fits_tmpbuf, fits, tmpbuf_size, INT_MAX. lia. Qed.

Lemma fits_fill d old :
  fits_tmpbuf d → fits_tmpbuf old → fits_tmpbuf (d ++ drop (length d) old).
Proof. unfold fits_tmpbuf. rewrite length_app, length_drop. lia. Qed.

Lemma heap_fill b d old c :
  heap c !! b = Some old → heap (fill b d c) !! b = Some (d ++ drop (length d) old).
Proof. intros Hb. unfold fill. cbn [heap set_heap]. by rewrite lookup_alter_eq, Hb. Qed.

(** One turn of the loop, given what the callbacks do. *)
Lemma ssl_turn b d ds cs p c c' :
  trace (http_parser_execute (parser_ c) d) = (cs, (Z.of_nat (length d), false, p)) →
  run_calls b cs (fill b d c) = Ok (tt, c') →
  ssl_loop b (d :: ds) c = ssl_loop b ds (set_parser_ p c').
Proof.
  intros Ht Hr. cbn [ssl_loop]. do 2 (erewrite bind_Ok by reflexivity).
  change (parser_ (fill b d c)) with (parser_ c).
  pose proof (execute_trace b (http_parser_execute (parser_ c) d) (fill b d c) c') as E.
  rewrite Ht in E. erewrite bind_Ok by (by apply E). cbn [fst snd]. by rewrite Z.eqb_refl.
Qed.

Lemma ssl_assembled b d old cs r c :
  heap c !! b = Some old → fits_tmpbuf old → fits_tmpbuf d →
  assemble d cs (response c) = Some r →
  ∃ q n, run_calls b cs (fill b d c) = Ok (tt, after_calls q n r (fill b d c)).
Proof.
  intros Hb Ho Hd Ha. apply (run_assembled b (d ++ drop (length d) old)).
  - by apply heap_fill.
  - by apply fits_tmpbuf_fits, fits_fill.
  - by apply assemble_app.
Qed.

(** A complete response is handed over once. *)
Lemma ssl_loop_delivers {laws : UVLaws} b ds r f c old :
  heap c !! b = Some old → fits_tmpbuf old → Forall fits_tmpbuf ds →
  responseCallback c = Some f → timer_initialised c = true →
  received (parser_ c) ds (response c) = Some (r, false) →
  ∃ c', ssl_loop b ds c = Ok (true, c') ∧
    calls c' = calls c ++ [CallResponse f r] ∧ uv_is_closing h_timer (uv_loop c') = true ∧
    delete b (heap c') = delete b (heap c).
Proof.
  intros Hb Ho Hds. revert c old Hb Ho.
  induction Hds as [|d ds Hd _ IH]; intros c old Hb Ho Hf Hti Hrec; [done|].
  cbn [received] in Hrec.
  destruct (trace (http_parser_execute (parser_ c) d)) as [cs [[n up] p]] eqn:Ht.
  cbn [fst snd] in Hrec. case_if; [|done]. zbool. subst up n. destruct ds as [|d' ds].
  - destruct (ends cs) as [[cs' ka]|] eqn:Ee; [|done]. apply ends_app in Ee as ->.
    cbn [mbind option_bind fst snd] in Hrec.
    destruct (assemble d cs' (response c)) as [r'|] eqn:Ea; [|done]. injection Hrec as -> ->.
    destruct (ssl_assembled b d old cs' r c) as (q & n & E); [done..|].
    destruct (run_message_complete b false f (after_calls q n r (fill b d c)))
      as (l & Hl & E'); [done..|].
    eexists. split.
    { erewrite ssl_turn; [reflexivity | exact Ht |]. rewrite (run_calls_app _ _ _ _ _ E). exact E'. }
    split; [done|]. split; [done|]. apply delete_alter_eq.
  - destruct (assemble d cs (response c)) as [r'|] eqn:Ea; [|done].
    cbn [mbind option_bind] in Hrec.
    destruct (ssl_assembled b d old cs r' c) as (q & n & E); [done..|].
    rewrite (ssl_turn b d _ cs p c _ Ht E).
    destruct (IH (set_parser_ p (after_calls q n r' (fill b d c))) (d ++ drop (length d) old))
      as (c' & E' & Hc & Hl & Hh); [by apply heap_fill | by apply fits_fill | done.. |].
    exists c'. split; [done|]. split; [done|]. split; [done|]. rewrite Hh. apply delete_alter_eq.
Qed.

(** ** A whole exchange *)

Definition ssl_established c : Prop :=
  BIO_get_ssl = true ∧ (0 < BIO_do_connect (ssl_address c))%Z ∧
  (0 < BIO_do_handshake (ssl_address c))%Z.

(** The request as it is written to the peer. *)
Definition ssl_text c : str := c_string (written (request_stream c).2).

Lemma ssl_cb_established c :
  ssl_established c → ssl_cb c = ssl_exchange (set_uv_loop (sslTimer_close (uv_loop c)) c).
Proof.
  intros (Hg & Hc & Hh). unfold ssl_cb. erewrite bind_Ok by reflexivity. rewrite Hg. cbn [negb].
  erewrite bind_Ok by reflexivity. change (ssl_address (set_uv_loop _ c)) with (ssl_address c).
  by rewrite !(proj2 (Z.leb_gt _ _)).
Qed.

(** The client when the reading begins. *)
Definition ssl_reading c : SimpleHttpRequest :=
  with_buffer [] (set_calls (calls c ++ [CallBIO_puts (ssl_text c)])
    (set_requestBody (request_stream c).1 c)).

Lemma ssl_exchange_reads c :
  ssl_exchange c =
    (ok ← ssl_loop (buffers c) (BIO_read (ssl_address c) (ssl_text c));
     (if ok : bool then log CallBIO_free_all else mret tt);;
     update (λ c', set_heap (delete (buffers c) (heap c')) c')) (ssl_reading c).
Proof.
  unfold ssl_exchange. erewrite bind_Ok by reflexivity. unfold ssl_reading, ssl_text.
  destruct (request_stream c) as [body res]. cbv zeta iota beta. cbn [fst snd].
  erewrite bind_Ok by reflexivity. erewrite bind_Ok by reflexivity. erewrite bind_Ok by reflexivity.
  done.
Qed.

(** C20 Over TLS too, a response the parser reads from any number of pieces, none of which
    splits a header, and that does not ask to keep the connection alive, is handed to the
    user's function exactly once: the request is written (up to its first NUL), the response
    is handed over and then the connection is freed; the timer is closed and no buffer is
    left.  (A response that is to be kept alive makes the client read the TCP handle, which
    this branch never initialises: it is not covered.) *)
Theorem https_response_delivered {laws : UVLaws} r f c :
  heap_ok c → ssl_established c →
  let reads := BIO_read (ssl_address c) (ssl_text c) in
  Forall fits_tmpbuf reads → responseCallback c = Some f → timer_initialised c = true →
  received (parser_ c) reads (response c) = Some (r, false) →
  ∃ c', ssl_cb c = Ok (tt, c') ∧
    calls c' = calls c ++ [CallBIO_puts (ssl_text c); CallResponse f r; CallBIO_free_all] ∧
    uv_is_closing h_timer (uv_loop c') = true ∧ heap c' = heap c.
Proof.
  intros Hh He reads Hr Hf Hti Hrec. rewrite ssl_cb_established by done.
  set (c0 := set_uv_loop _ c). rewrite ssl_exchange_reads.
  change (BIO_read (ssl_address c0) (ssl_text c0)) with reads. change (buffers c0) with (buffers c).
  destruct (ssl_loop_delivers (buffers c) reads r f (ssl_reading c0) [])
    as (c' & E & Hc & Hl & Hd); [apply lookup_insert_eq | done.. |].
  rewrite (bind_Ok _ _ _ _ _ E). erewrite bind_Ok by reflexivity.
  eexists. split; [reflexivity|]. cbn [calls set_calls set_heap uv_loop heap].
  split; [rewrite Hc; cbn; by rewrite <- !app_assoc|]. split; [done|].
  rewrite Hd. cbn -[delete insert lookup]. apply delete_insert_id. by apply heap_ok_fresh.
Qed.

(** ** Failures *)

Definition ssl_failed c : Prop :=
  BIO_get_ssl = false ∨ (BIO_do_connect (ssl_address c) <= 0)%Z ∨
  (BIO_do_handshake (ssl_address c) <= 0)%Z.

Lemma ssl_failure {stl : SslTimerLaws st} f c :
  ssl_failed c → errorCallback c = Some f →
  ∃ msg c', ssl_cb c = Ok (tt, c') ∧
    calls c' = calls c ++ [CallError f (mkError (chars "SSL") msg)] ∧
    uv_is_closing h_timer (uv_loop c') = uv_is_closing h_timer (uv_loop c) ∧
    tcp_initialised c' = tcp_initialised c.
Proof.
  intros Hfail Hf. unfold ssl_cb. erewrite bind_Ok by reflexivity. set (c1 := set_uv_loop _ c).
  assert (∀ msg, ∃ c', ssl_error msg c1 = Ok (tt, c') ∧
    calls c' = calls c ++ [CallError f (mkError (chars "SSL") msg)] ∧
    uv_is_closing h_timer (uv_loop c') = uv_is_closing h_timer (uv_loop c) ∧
    tcp_initialised c' = tcp_initialised c) as Herr.
  { intros msg. eexists. split; [by apply (emit_error_Ok f)|]. split; [done|]. split; [|done].
    apply sslTimer_close_closing. }
  destruct (negb BIO_get_ssl) eqn:Hg; [eexists; apply Herr|]. erewrite bind_Ok by reflexivity.
  change (ssl_address c1) with (ssl_address c).
  destruct (Z.leb_spec (BIO_do_connect (ssl_address c)) 0); [eexists; apply Herr|].
  destruct (Z.leb_spec (BIO_do_handshake (ssl_address c)) 0); [eexists; apply Herr|].
  destruct Hfail as [Hx|[?|?]]; [by rewrite Hx in Hg | lia | lia].
Qed.

(** *** The TCP handle is never initialised *)

(** The loop makes a call that is due, of [sslTimer] or of another handle. *)
Inductive ssl_step c : SimpleHttpRequest → Prop :=
  | ssl_step_other c' : step c c' → ssl_step c c'
  | ssl_step_timer l c' :
      sslTimer_due (uv_loop c) = Some l → ssl_cb (set_uv_loop l c) = Ok (tt, c') → ssl_step c c'.

Definition no_tcp c : Prop := tcp_initialised c = false.

(** Goes through a method that does not initialise the handle. *)
Ltac no_tcp_walk :=
  repeat (intros; cbv zeta; lazymatch goal with
  | |- triple ?P (mbind _ _) ?P => apply (triple_bind P P)
  | |- triple _ (mret _) _ => apply triple_ret
  | |- triple _ self _ => apply triple_self
  | |- triple _ undefined _ => apply triple_undefined
  | |- triple _ (update _) _ => apply triple_update; done
  | |- triple _ (log _) _ => apply triple_update; done
  | |- triple _ (uv_call _) _ => by intros ? ? ? ? [= _ <-]
  | |- triple _ (ASSERT ?b) _ => destruct b; [by intros ? ? ? ? [= _ <-] | by intros ? ? ? ? [=]]
  | |- triple _ (if _ then _ else _) _ => apply triple_if
  | |- triple _ (match ?x with _ => _ end) _ => destruct x
  | _ => solve [eauto with http]
  end).

Lemma no_tcp_emit n e : triple no_tcp (emit n e) no_tcp.
Proof. unfold emit. no_tcp_walk. Qed.
#[local] Hint Resolve no_tcp_emit : http.

Lemma no_tcp_clear : triple no_tcp _clearTimer no_tcp ∧ triple no_tcp _clearConnection no_tcp.
Proof. unfold _clearTimer, _clearConnection. split; no_tcp_walk. Qed.

Lemma no_tcp_string_at p n : triple no_tcp (string_at p n) no_tcp.
Proof. intros c a c' Hc. unfold string_at. repeat case_match; intros E; simplify_eq; done. Qed.
#[local] Hint Resolve no_tcp_string_at : http.

Lemma no_tcp_execute b r : triple no_tcp (execute b r) no_tcp.
Proof.
  pose proof no_tcp_clear as [H1 H2].
  induction r as [|cb k IH]; cbn [execute]; [no_tcp_walk|].
  apply (triple_bind _ no_tcp); [|done]. destruct cb; cbn [parser_callback];
    unfold header_field, header_value, headers_complete, body_data, message_complete; no_tcp_walk.
Qed.
#[local] Hint Resolve no_tcp_execute : http.

Lemma no_tcp_dispatch e : triple no_tcp (dispatch e) no_tcp.
Proof.
  pose proof no_tcp_clear as [H1 H2]. destruct e; cbn [dispatch];
    unfold timer_cb, connect_cb, uvAllocCb, read_cb, write_cb; no_tcp_walk.
Qed.

Lemma no_tcp_ssl_loop b ds : triple no_tcp (ssl_loop b ds) no_tcp.
Proof. induction ds as [|d ds IH]; cbn [ssl_loop]; no_tcp_walk. Qed.
#[local] Hint Resolve no_tcp_ssl_loop : http.

Lemma no_tcp_ssl_cb : triple no_tcp ssl_cb no_tcp.
Proof. unfold ssl_cb, ssl_error, ssl_exchange, uvAllocCb. no_tcp_walk. Qed.

Lemma no_tcp_step c c' : ssl_step c c' → no_tcp c → no_tcp c'.
Proof.
  intros [c1 [e l c2 _ E]|l c1 _ E] Hc; [eapply no_tcp_dispatch | eapply no_tcp_ssl_cb];
    [..|exact E| |exact E]; done.
Qed.

(** With no connection the timeout reads an uninitialised handle. *)
Lemma timer_cb_no_tcp c : no_tcp c → timer_cb c = Undefined.
Proof.
  intros Hc. unfold timer_cb. destruct (timer_initialised c) eqn:Ht.
  - destruct (clearTimer_Ok c Ht) as [l E]. rewrite (bind_Ok _ _ _ _ _ E).
    apply bind_Undefined. unfold _clearConnection. erewrite bind_Ok by reflexivity.
    change (tcp_initialised _) with (tcp_initialised c). by rewrite Hc.
  - apply bind_Undefined. unfold _clearTimer. erewrite bind_Ok by reflexivity. by rewrite Ht.
Qed.

Lemma no_tcp_resolve : triple (λ c, no_tcp c ∧ is_https c = true) resolve
  (λ c, no_tcp c ∧ is_https c = true).
Proof.
  assert (∀ e, triple (λ c, no_tcp c ∧ is_https c = true) (emit (chars "error") e)
    (λ c, no_tcp c ∧ is_https c = true)) as Hemit.
  { unfold emit. no_tcp_walk. }
  assert (triple (λ c, no_tcp c ∧ is_https c = true) stoi_port
    (λ c, no_tcp c ∧ is_https c = true)) as Hport.
  { intros c a c' Hc. unfold stoi_port. destruct (stoi _); [by intros [= _ <-] | done]. }
  unfold resolve. no_tcp_walk; apply Hport || apply Hemit.
Qed.

Lemma end_ssl_no_tcp c c1 :
  is_https c = true → no_tcp c → end_ssl c = Ok (tt, c1) → no_tcp c1.
Proof.
  intros Hs Hc E. set (P := λ c, no_tcp c ∧ is_https c = true).
  cut (triple P end_ssl no_tcp); [intros H; by eapply H|]. clear.
  assert (∀ m : M unit, triple P m P → triple P m no_tcp) as Hweak.
  { intros m Hm c a c' Hc E. by destruct (Hm c a c' Hc E). }
  unfold end_ssl, end_with.
  do 6 (eapply triple_bind; [instantiate (1 := P); unfold P; no_tcp_walk | intros ?]).
  eapply triple_bind; [apply no_tcp_resolve|]. intros [dest|]; [|apply Hweak, triple_ret].
  intros c u c' [Hc Hs]. erewrite bind_Ok by reflexivity. rewrite Hs. revert Hc.
  cut (triple no_tcp start_ssl no_tcp); [eauto|]. unfold start_ssl. no_tcp_walk.
Qed.

(** When the TLS connection cannot be set up the user is told once, but the
    request's timer runs on; and the timeout of an https request is never reported:
    whenever it fires, in whatever state the loop has brought the client to, the client
    looks at a TCP handle that was never initialised. *)
Theorem https_failure_then_undefined {stl : SslTimerLaws st} f c c1 c2 :
  is_https c = true → tcp_initialised c = false → end_ssl c = Ok (tt, c1) →
  rtc ssl_step c1 c2 → errorCallback c2 = Some f → ssl_failed c2 →
  (∃ msg c3, ssl_cb c2 = Ok (tt, c3) ∧
     calls c3 = calls c2 ++ [CallError f (mkError (chars "SSL") msg)] ∧
     uv_is_closing h_timer (uv_loop c3) = uv_is_closing h_timer (uv_loop c2) ∧
     ∀ l, timer_cb (set_uv_loop l c3) = Undefined) ∧
  ∀ l, timer_cb (set_uv_loop l c2) = Undefined.
Proof.
  intros Hs Hc E Hsteps Hf Hfail.
  assert (no_tcp c2) as H2.
  { pose proof (end_ssl_no_tcp c c1 Hs Hc E) as H1. clear - Hsteps H1.
    induction Hsteps; eauto using no_tcp_step. }
  split; [|intros l; by apply timer_cb_no_tcp].
  destruct (ssl_failure f c2 Hfail Hf) as (msg & c3 & E3 & Hc3 & Ht3 & Htcp).
  exists msg, c3. split_and!; try done. intros l. apply timer_cb_no_tcp.
  unfold no_tcp. cbn. congruence.
Qed.

(** ** A header split between two reads *)

(** A header whose name ends a read and whose value begins the next one is stored
    under the wrong name: the characters that the second read has put where the name
    was, in the one buffer. *)
Theorem https_split_header_renamed b d old cs o n p r d' o' n' value cs' p' r' c :
  heap c !! b = Some old → fits_tmpbuf old → fits_tmpbuf d → fits_tmpbuf d' →
  trace (http_parser_execute (parser_ c) d) =
    (cs ++ [on_header_field o n], (Z.of_nat (length d), false, p)) →
  assemble d cs (response c) = Some r → o + n ≤ length d →
  trace (http_parser_execute p d') =
    (on_header_value o' n' :: cs', (Z.of_nat (length d'), false, p')) →
  slice o' n' d' = Some value →
  let wrong := take n (drop o (d' ++ drop (length d') (d ++ drop (length d) old))) in
  assemble d' cs' (add_header wrong value r) = Some r' →
  ∃ c', ssl_loop b [d; d'] c = Ok (true, c') ∧ response c' = r'.
Proof.
  intros Hb Ho Hd Hd' Ht Ha Hon Ht' Hv wrong Ha'.
  set (d1 := d ++ drop (length d) old) in *. set (d2 := d' ++ drop (length d') d1) in *.
  assert (fits_tmpbuf d1) as Hf1 by by apply fits_fill.
  assert (fits_tmpbuf d2) as Hf2 by by apply fits_fill.
  destruct (ssl_assembled b d old cs r c) as (q & m & E); [done..|].
  set (c1 := after_calls q m r (fill b d c)) in *.
  set (c2 := set_parser_ p (set_lastHeaderFieldLenth (s32 (Z.of_nat n))
    (set_lastHeaderFieldBuf (At b o) c1))).
  erewrite ssl_turn; [|exact Ht | rewrite (run_calls_app _ _ _ _ _ E); reflexivity]. fold c2.
  assert (heap (fill b d' c2) !! b = Some d2) as Hb2.
  { apply heap_fill. apply (heap_fill b d old c Hb). }
  assert (slice o n d2 = Some wrong) as Hw.
  { unfold slice. rewrite (proj2 (Nat.leb_le _ _)); [done|].
    unfold d2, d1. rewrite !length_app, !length_drop, length_app, length_drop. lia. }
  destruct (run_assembled b d2 cs' r' (set_lastHeaderFieldBuf Null
    (set_response (add_header wrong value r) (fill b d' c2)))) as (q' & m' & E');
    [done | by apply fits_tmpbuf_fits | by apply assemble_app |].
  set (c3 := after_calls q' m' r' _) in E'.
  exists (set_parser_ p' c3). split; [|done].
  etrans; [apply (ssl_turn b d' [] _ p' c2 c3 Ht') | done].
  cbn [run_calls parser_callback]. unfold header_value.
  destruct (string_at_slice b o n d2 wrong (fill b d' c2)) as [E1 Hn];
    [done | by apply fits_tmpbuf_fits | done |].
  destruct (string_at_slice b o' n' d2 value (fill b d' c2)) as [E2 _];
    [done | by apply fits_tmpbuf_fits | by apply slice_app |].
  erewrite bind_Ok; [exact E'|]. erewrite bind_Ok by reflexivity.
  change (lastHeaderFieldBuf (fill b d' c2)) with (At b o). cbv iota.
  change (lastHeaderFieldLenth (fill b d' c2)) with (s32 (Z.of_nat n)). rewrite Hn.
  rewrite (bind_Ok _ _ _ _ _ E1), (bind_Ok _ _ _ _ _ E2). reflexivity.
Qed.
End Ssl.

(** ** Examples *)

Section Examples.
#[local] Existing Instance toy_uv.
#[local] Existing Instance toy_uv_laws.

(** A second timer that is always due. *)
Definition toy_sslTimer : SslTimer toy_uv := {|
  sslTimer_init := λ l : @Loop toy_uv, (0%Z, l);
  sslTimer_start := λ l : @Loop toy_uv, (0%Z, l);
  sslTimer_close := λ l : @Loop toy_uv, l;
  sslTimer_due := λ l : @Loop toy_uv, Some l
|}.
#[local] Existing Instance toy_sslTimer.

#[local] Instance toy_sslTimer_laws : SslTimerLaws toy_sslTimer.
Proof. by split. Qed.

(** A peer that sends [ds], and one that does not listen. *)
Definition sending (ds : list str) : OpenSSL := {|
  BIO_get_ssl := true;
  BIO_do_connect := λ _, 1%Z;
  BIO_do_handshake := λ _, 1%Z;
  BIO_read := λ _ _, ds
|}.
Definition refusing : OpenSSL := {|
  BIO_get_ssl := true;
  BIO_do_connect := λ _, (-1)%Z;
  BIO_do_handshake := λ _, (-1)%Z;
  BIO_read := λ _ _, []
|}.

Definition new_https (hp : HttpParser) : SimpleHttpRequest :=
  set_option (chars "protocol") (chars "https:") (new_request hp loopback).

(** After [end()]. *)
Definition https_waiting (hp : HttpParser) : SimpleHttpRequest :=
  state_of hp end_ssl (new_https hp).

Lemma https_response_delivered_witness :
  ∃ c', ssl_cb (hp := ok_parser) (ssl := sending [read1; read2]) (https_waiting ok_parser) =
      Ok (tt, c') ∧
    calls c' = [CallBIO_puts (chars "GET / HTTP/1.1" ++ CRLF ++ chars "Connection:close" ++
                  CRLF ++ CRLF); CallResponse 1 hello; CallBIO_free_all].
Proof.
  destruct (https_response_delivered (hp := ok_parser) (ssl := sending [read1; read2]) hello 1
    (https_waiting ok_parser)) as (c' & E & Hc & _).
  - intros b [d Hd]. vm_compute in Hd. discriminate.
  - vm_compute. done.
  - repeat constructor; vm_compute; discriminate.
  - reflexivity.
  - reflexivity.
  - vm_compute. reflexivity.
  - exists c'. split; [exact E|]. rewrite Hc. vm_compute. reflexivity.
Defined.

Lemma https_failure_then_undefined_witness :
  ∃ msg c3,
    ssl_cb (hp := ok_parser) (ssl := refusing) (https_waiting ok_parser) = Ok (tt, c3) ∧
    calls c3 = [CallError 2 (mkError (chars "SSL") msg)] ∧
    ∀ l, timer_cb (set_uv_loop l c3) = Undefined.
Proof.
  destruct (https_failure_then_undefined (hp := ok_parser) (ssl := refusing) 2
    (new_https ok_parser) (https_waiting ok_parser) (https_waiting ok_parser))
    as ((msg & c3 & E & Hc & _ & Hu) & _).
  - reflexivity.
  - reflexivity.
  - vm_compute. reflexivity.
  - apply rtc_refl.
  - reflexivity.
  - right. left. vm_compute. discriminate.
  - exists msg, c3. split; [exact E|]. split; [rewrite Hc; vm_compute; reflexivity | exact Hu].
Defined.

(** The name [Content-Type] of the response is overwritten by the second read. *)
Definition renaming_parser : HttpParser :=
  scripted [[on_message_begin; on_header_field 17 12]; [on_header_value 0 4]] (λ _, None).

Lemma https_split_header_renamed_witness :
  ∃ c', ssl_loop (hp := renaming_parser) 0 [take 29 read1; drop 31 read1]
      (with_buffer [] (https_waiting renaming_parser)) = Ok (true, c') ∧
    headers (response c') =
      {[ tolower <$> chars "gth: 5" ++ CRLF ++ CRLF ++ chars "he" := chars "text" ]}.
Proof.
  destruct (https_split_header_renamed (hp := renaming_parser) 0 (take 29 read1) []
    [on_message_begin] 17 12 [[on_header_value 0 4]] (mkResponse 0 ∅ []) (drop 31 read1) 0 4
    (chars "text") [] []
    (add_header (chars "gth: 5" ++ CRLF ++ CRLF ++ chars "he") (chars "text") (mkResponse 0 ∅ []))
    (with_buffer [] (https_waiting renaming_parser))) as (c' & E & Hr).
  all: try (vm_compute; reflexivity || discriminate).
  exists c'. split; [exact E|]. rewrite Hr. reflexivity.
Defined.
End Examples.
