(* ===== verification/HttpLog.v ===== *)
(** * The log of the HTTP client ([LOGI], [_LOGI] of [SimpleHttpRequest.hpp])

    The client logs when [DEBUG] is set in its environment, to the file [DEBUG_LOG]
    names or to the standard output, one piece of a message at a time.  Pieces come as
    the text [operator<<] gives them. *)

From Stdlib Require Import ZArith String Ascii.
From stdpp Require Import base list strings gmap pretty.
From S2P Require Import Prelude UtilsParse UtilsRegex.

(** [getenv], [getpid()] and whether a file can be opened for appending. *)
Record LogEnv := mkLogEnv {
  DEBUG : bool;
  DEBUG_LOG : option str;
  pid : Z;
  can_open : str → bool
}.

Record LogState := mkLogState {
  cout : str;
  files : gmap str str
}.

Section Logging.
Context (env : LogEnv).

(** One piece: the file is opened, appended to and closed for it; writing to a
    stream whose [open] failed does nothing and does not throw. *)
Definition log_piece (t : str) (st : LogState) : LogState :=
  match DEBUG_LOG env with
  | Some f =>
      if can_open env f
      then mkLogState (cout st) (<[f := default [] (files st !! f) ++ t]> (files st))
      else st
  | None => mkLogState (cout st ++ t) (files st)
  end.

Fixpoint _LOGI (args : list str) (st : LogState) : LogState :=
  match args with
  | [] => st
  | t :: args => _LOGI args (log_piece t st)
  end.

Definition LOGI (t : str) (args : list str) (st : LogState) : LogState :=
  if negb (DEBUG env) then st
  else
    let st := _LOGI [chars "[" ++ chars (pretty (pid env)) ++ chars "] "] st in
    let st := _LOGI [t] st in
    let st := _LOGI args st in
    _LOGI [[Ascii.ascii_of_nat 10]] st.

Lemma log_pieces args st :
  args ≠ [] →
  _LOGI args st =
    match DEBUG_LOG env with
    | Some f =>
        if can_open env f
        then mkLogState (cout st) (<[f := default [] (files st !! f) ++ concat args]> (files st))
        else st
    | None => mkLogState (cout st ++ concat args) (files st)
    end.
Proof.
  revert st. induction args as [|t args IH]; intros st Hne; [done|]. cbn [_LOGI concat].
  unfold log_piece. destruct args as [|t' args].
  - cbn [_LOGI concat]. rewrite app_nil_r. done.
  - rewrite IH by done. destruct (DEBUG_LOG env) as [f|].
    + destruct (can_open env f); [|done]. cbn [cout files].
      rewrite lookup_insert_eq, insert_insert_eq. cbn [default from_option id]. by rewrite <- app_assoc.
    + cbn [cout files]. by rewrite <- app_assoc.
Qed.

(** A message is one line, with the process in front: it goes in one place, the file
    when one is named (and nowhere when that cannot be opened), the standard output
    otherwise; without [DEBUG] nothing is written. *)
Theorem message_logged t args st :
  let line := chars "[" ++ chars (pretty (pid env)) ++ chars "] " ++ t ++ concat args ++
                [Ascii.ascii_of_nat 10] in
  LOGI t args st =
    if DEBUG env then
      match DEBUG_LOG env with
      | Some f =>
          if can_open env f
          then mkLogState (cout st) (<[f := default [] (files st !! f) ++ line]> (files st))
          else st
      | None => mkLogState (cout st ++ line) (files st)
      end
    else st.
Proof.
  intros line. unfold LOGI. destruct (DEBUG env); [cbn [negb]|done].
  assert (∀ l1 l2 s, _LOGI l2 (_LOGI l1 s) = _LOGI (l1 ++ l2) s) as Happ.
  { intros l1 l2. induction l1 as [|x l1 IH]; intros s; [done | apply IH]. }
  rewrite !Happ, log_pieces by done.
  match goal with |- context [concat ?l] => assert (concat l = line) as -> end; [|done].
  rewrite !concat_app. cbn [concat]. rewrite !app_nil_r. unfold line. by rewrite <- !app_assoc.
Qed.
End Logging.
