(* ===== verification/Integration.v ===== *)
(** * A client of the REST API and the gossip server together

    The integration test's exchange: the HTTP client posts the JSON of a server to the
    API of the gossip server, which pings that server and classifies it.  The HTTP
    reader of the API server is boost.beast's: a parameter that reads the requests of the
    grammar of RFC 7230 with a plain framing of the body; the client's request is shown to be
    one of them. *)

From Stdlib Require Import ZArith Lia String Ascii.
From stdpp Require Import base list strings gmap pretty.
From S2P Require Import HttpRequest HttpFixtures HttpText.
From S2P Require Import Prelude StdSet SwimCommon UtilsHost UtilsParse UtilsRegex SwimClient SwimServer Membership Refinement Report Fixtures Codec Neighbors Detector DetectorProps ApiServer GossipExample.

(** ** The reader of the API server *)

Definition verb_of (method : str) : verb :=
  if bool_decide (method = chars "POST") then verb_post
  else if bool_decide (method = chars "GET") then verb_get
  else verb_other.

Definition code (a : ascii) : nat := Ascii.nat_of_ascii a.

(** The characters of RFC 7230: of a token, of a target, and of the value of a field. *)
Definition tchar (a : ascii) : bool :=
  let n := code a in
  (48 <=? n) && (n <=? 57) || (65 <=? n) && (n <=? 90) || (97 <=? n) && (n <=? 122) ||
  bool_decide (n ∈ [33; 35; 36; 37; 38; 39; 42; 43; 45; 46; 94; 95; 96; 124; 126]).
Definition visible (a : ascii) : bool := (33 <=? code a) && (code a <=? 126).
Definition field_char (a : ascii) : bool :=
  visible a || (128 <=? code a) || bool_decide (code a ∈ [32; 9]).

Definition token (s : str) : bool := bool_decide (s ≠ []) && forallb tchar s.

(** A field: its name is a token; the fields that would change the connection or the framing
    of the body are [Connection] with one token, and [Content-Length]. *)
Definition field_ok (kv : str * str) : bool :=
  let name := tolower <$> kv.1 in
  token kv.1 && forallb field_char kv.2 &&
  bool_decide (name ∉ [chars "transfer-encoding"; chars "upgrade"; chars "proxy-connection"]) &&
  (bool_decide (name ≠ chars "connection") || token kv.2).

(** The field of the length. *)
Definition is_length (kv : str * str) : Prop := tolower <$> kv.1 = chars "content-length".
#[export] Instance is_length_dec kv : Decision (is_length kv) := decide (_ = _).

(** The body is empty, or one field says its length in digits. *)
Definition framed (hs : list (str * str)) (b : str) : bool :=
  match filter is_length hs with
  | [] => bool_decide (b = [])
  | [(k, v)] =>
      let digits := skip_while (λ a, bool_decide (a = space)) v in
      bool_decide (k = chars "Content-Length") && bool_decide (digits ≠ []) &&
      forallb is_digit digits && (decimal digits =? Z.of_nat (length b))%Z
  | _ => false
  end.

(** A request up to its body. *)
Definition request_head (m t : str) (hs : list (str * str)) : str :=
  m ++ chars " " ++ t ++ chars " " ++ chars "HTTP/1.1" ++ CRLF ++ headers_text hs ++ CRLF.

(** A request of the grammar of RFC 7230 within the reader's limits, 8 KB for the head and
    1 MB for the body. *)
Definition well_formed (m t : str) (hs : list (str * str)) (b : str) : bool :=
  token m && bool_decide (t ≠ []) && forallb visible t && forallb field_ok hs && framed hs b &&
  (Z.of_nat (length (request_head m t hs)) <=? 8192)%Z &&
  (Z.of_nat (length b) <=? 1048576)%Z.

(** [http::async_read] on what arrives at a connection. *)
Class Beast := { beast_read : str → option ApiServer.request }.

(** It reads one well-formed HTTP/1.1 request; what follows is left in the buffer. *)
Class BeastLaws (beast : Beast) :=
  beast_reads m t hs b rest :
    well_formed m t hs b = true →
    beast_read (request_head m t hs ++ b ++ rest) = Some (mkRequest t (verb_of m) 11 b).

(** ** The client's request *)

Section Client.
Context {uv : UV} {hp : HttpParser}.

(** The client once it was told to post [body] to the URL. *)
Definition posted (p : url_parts) (body : str) (l : Loop) : SimpleHttpRequest :=
  write body (set_options (url_options p {[chars "method" := chars "POST"]}) (with_loop l)).

Lemma post_url p body l :
  http_parser_parse_url (url_text p) = Some (locate p) →
  HttpRequest.post (url_text p) body (with_loop l) = Ok (tt, posted p body l).
Proof.
  intros Hu. unfold HttpRequest.post, _post. erewrite bind_Ok by reflexivity.
  erewrite bind_Ok by (by apply parseUrl_parts). cbn [negb]. erewrite bind_Ok by reflexivity. done.
Qed.

Lemma posted_options p body l :
  u_path p ≠ [] → u_query p = [] →
  option_ (chars "method") (posted p body l) = chars "POST" ∧
  target_text (posted p body l) = u_path p.
Proof.
  intros Hp Hq. unfold target_text, option_.
  change (options (posted p body l)) with
    (url_options p ({[chars "method" := chars "POST"]} : gmap str str)).
  unfold url_options. rewrite !lookup_insert_ne, lookup_singleton_eq by done. split; [done|].
  rewrite !lookup_insert. repeat case_decide; try done. cbn [default].
  rewrite Hq. cbn [length Nat.eqb]. rewrite app_nil_r. by rewrite bool_decide_false.
Qed.

(** The clients that may be sending: [end()] adds the host's name when it had to be
    resolved. *)
Definition may_send (p : url_parts) (body : str) (l : Loop) (c : SimpleHttpRequest) : Prop :=
  c = posted p body l ∨ c = setHeader (chars "host") (u_host p) (posted p body l).

Lemma may_send_headers p body l c :
  may_send p body l c →
  options c = options (posted p body l) ∧ requestBody c = requestBody (posted p body l) ∧
  (requestHeaders c = [(chars "Connection", chars "close")] ∨
   requestHeaders c = [(chars "Connection", chars "close"); (chars "host", u_host p)]).
Proof. intros [-> | ->]; [by split_and!; [..|left] | by split_and!; [..|right]]. Qed.

Lemma visible_field s : forallb visible s = true → forallb field_char s = true.
Proof.
  rewrite !forallb_forall. intros H a Ha. unfold field_char. by rewrite (H a Ha).
Qed.

Lemma digits_field s : Forall (λ a, is_digit a = true) s → forallb field_char s = true.
Proof.
  intros H. apply visible_field, forallb_forall. intros a Ha%list_elem_of_In.
  rewrite list.Forall_forall in H. specialize (H a Ha). apply andb_prop in H as [H1 H2].
  apply Nat.leb_le in H1, H2. apply andb_true_intro. unfold code. split; apply Nat.leb_le; lia.
Qed.

(** A number below [10 ^ k] has at most [k] digits. *)
Lemma pretty_go_length k x s :
  (x < 10 ^ N.of_nat k)%N → length (chars (pretty_N_go x s)) ≤ k + length (chars s).
Proof.
  revert x s. induction k as [|k IH]; intros x s Hx.
  { replace x with 0%N by (simpl in Hx; lia). by rewrite pretty_N_go_0. }
  destruct (decide (x = 0)%N) as [->|Hx0]; [rewrite pretty_N_go_0; lia|].
  rewrite pretty_N_go_step by lia. etransitivity; [apply IH|simpl; lia].
  rewrite Nat2N.inj_succ, N.pow_succ_r' in Hx. apply N.Div0.div_lt_upper_bound. lia.
Qed.

Lemma pretty_length (n k : nat) :
  (0 < k)%nat → (Z.of_nat n < 10 ^ Z.of_nat k)%Z → length (chars (pretty (Z.of_nat n))) ≤ k.
Proof.
  intros Hk Hn. destruct n as [|n]; [simpl; lia|].
  change (Z.of_nat (S n)) with (Z.pos (Pos.of_succ_nat n)) in *.
  change (pretty (Z.pos ?q)) with (pretty (N.pos q)). unfold pretty, pretty_N.
  rewrite decide_False by done.
  pose proof (pretty_go_length k (N.pos (Pos.of_succ_nat n)) "") as H. simpl in H.
  rewrite Nat.add_0_r in H. apply H. apply N2Z.inj_lt. rewrite N2Z.inj_pow, nat_N_Z. exact Hn.
Qed.

(** The length the client announces. *)
Lemma length_field_ok body :
  let v := space :: chars (pretty (Z.of_nat (length body))) in
  field_ok (chars "Content-Length", v) = true ∧
  (∀ hs, filter is_length hs = [] → framed (hs ++ [(chars "Content-Length", v)]) body = true).
Proof.
  intros v. pose proof (decimal_length (length body)) as Hv. fold v in Hv.
  destruct (pretty_port (Z.of_nat (length body))) as (Hd & _ & Hne); [lia|].
  assert (skip_while (λ a, bool_decide (a = space)) v = chars (pretty (Z.of_nat (length body)))) as E.
  { unfold v. cbn [skip_while]. rewrite bool_decide_true by done.
    destruct (chars (pretty _)) as [|a s]; [done|]. cbn [skip_while].
    rewrite bool_decide_false; [done|]. intros ->. by apply Forall_cons in Hd as [? _]. }
  split.
  - unfold field_ok. cbn [fst snd]. unfold v. cbn [forallb].
    by rewrite digits_field by done.
  - intros hs Hhs. unfold framed. rewrite filter_app, Hhs. cbn [app].
    rewrite filter_cons_True by done. cbn [filter list_filter].
    rewrite Hv, E, Z.eqb_refl, !bool_decide_true by done. cbn [andb]. rewrite andb_true_r.
    apply forallb_forall. intros a Ha%list_elem_of_In. rewrite list.Forall_forall in Hd. by apply Hd.
Qed.

Lemma headers_text_app hs hs' : headers_text (hs ++ hs') = headers_text hs ++ headers_text hs'.
Proof. unfold headers_text. by rewrite fmap_app, concat_app. Qed.

(** The text it sends is a well-formed POST request for the path of the URL, with the body. *)
Lemma posted_text p body l c :
  may_send p body l c → u_path p = chars "/api/v1/server" → u_query p = [] →
  forallb visible (u_host p) = true → length (u_host p) ≤ 255 →
  (Z.of_nat (length body) <= 1048576)%Z →
  written (request_stream c).2 =
    request_head (chars "POST") (u_path p) (sent_headers c) ++ body ++ surplus body ∧
  well_formed (chars "POST") (u_path p) (sent_headers c) body = true.
Proof.
  intros Hc Hp Hq Hh Hl Hb.
  destruct (posted_options p body l) as [Hm Ht]; [by rewrite Hp | done |].
  destruct (may_send_headers p body l c Hc) as (Ho & Hbody & Hhs).
  assert (written (requestBody c) = body) as Ewr by (by rewrite Hbody).
  split.
  { rewrite request_stream_text by (by rewrite Hbody).
    unfold target_text, option_ in *. rewrite Ho, Hm, Ht, Ewr. cbn [snd written].
    unfold request_head. by rewrite <- !app_assoc. }
  unfold sent_headers. rewrite Ewr. destruct (length_field_ok body) as [Hf Hfr].
  pose proof (pretty_length (length body) 7 ltac:(lia) ltac:(simpl; lia)) as Hlen.
  assert (forallb field_ok (requestHeaders c) = true ∧ filter is_length (requestHeaders c) = [] ∧
    length (headers_text (requestHeaders c)) ≤ 280) as (Hok & Hno & Hsize).
  { destruct Hhs as [-> | ->]; [by split_and!; [..|simpl; lia]|]. split_and!; [|done|].
    - cbn [forallb]. unfold field_ok at 2. cbn [fst snd]. by rewrite visible_field by done.
    - unfold headers_text. cbn. rewrite !length_app. simpl. lia. }
  unfold well_formed, request_head. rewrite Hp, !andb_true_iff. split_and!; try done; try lia.
  - rewrite forallb_app, Hok. destruct body; [done|]. cbn [forallb andb]. by rewrite Hf.
  - destruct body as [|a body]; [|by apply Hfr]. unfold framed. by rewrite app_nil_r, Hno.
  - apply Z.leb_le. rewrite headers_text_app, !length_app.
    assert (length (headers_text match body with [] => []
      | _ :: _ => [(chars "Content-Length", space :: chars (pretty (Z.of_nat (length body))))] end) ≤ 30).
    { destruct body; [simpl; lia|]. set (d := chars (pretty _)) in *. unfold headers_text. cbn [fmap list_fmap concat fst snd].
      rewrite app_nil_r, !length_app. cbn [length]. change (length (chars "Content-Length")) with 14.
      change (length (chars ":")) with 1. change (length CRLF) with 2. lia. }
    change (length (chars "POST")) with 4. change (length (chars " ")) with 1.
    change (length (chars "/api/v1/server")) with 14. change (length (chars "HTTP/1.1")) with 8.
    change (length CRLF) with 2. lia.
Qed.
End Client.

(** ** The exchange *)

Section Exchange.
Context {uv : UV} {hp : HttpParser} {beast : Beast} {bl : BeastLaws beast}.
Context {os : OS} {pb : Protobuf} {env : Environment} {ss : StdSort}.
Context {json : Json} {jl : JsonLaws json}.

(** C21 Posting the JSON of a server to the API adds that server.  The client accepts the
    URL; the text it sends, whether or not the host's name had to be resolved, is a
    well-formed HTTP/1.1 request, which the API server reads as a POST of that JSON; and the
    gossip server then pings the server exactly once, answers 201, and holds it as alive if
    it answered and as suspected otherwise.  It is assumed that the URL's host has visible
    characters and at most 255 of them, that the JSON has at most 1 MB, that the fields of the
    server hold values of their types and that its address is accepted. *)
Theorem client_adds_neighbor pp o bind_ok api p x w l :
  rest_api bind_ok o = Some api →
  http_parser_parse_url (url_text p) = Some (locate p) →
  u_path p = chars "/api/v1/server" → u_query p = [] →
  forallb visible (u_host p) = true → length (u_host p) ≤ 255 →
  encodable_server x = true → zmq_connect (uri_of x) = true →
  (Z.of_nat (length (ServerToJsonString x)) <= 1048576)%Z →
  server_inv (server_of w) → port x ≠ 0%Z → key x ≠ key (SwimServer.self (server_of w)) →
  let json_text := ServerToJsonString x in
  let client := detector_client x w in
  ∃ ok c req res w',
    (postMessage (exchange_at (asked w)) Ping_envelope client).1 = Some ok ∧
    HttpRequest.post (url_text p) json_text (with_loop l) = Ok (tt, c) ∧
    (∀ c', may_send p json_text l c' → beast_read (written (request_stream c').2) = Some req) ∧
    may_send p json_text l c ∧
    handleRequest pp None api req (Value tt, w) = Some (finish pp res, (Value tt, w')) ∧
    result res = status_created ∧
    requests w' = requests w ++ [(destinationUri client, (stamp client Ping_envelope).2, ok)] ∧
    (if ok then is_Some (seek x (alive_ (server_of w'))) ∧
       seek x (suspected_ (server_of w')) = None
     else is_Some (seek x (suspected_ (server_of w'))) ∧
       seek x (alive_ (server_of w')) = None).
Proof.
  intros Hapi Hu Hp Hq Hh Hl Hx Hz Hb Hi Hport Hself json_text client.
  set (req := mkRequest (u_path p) verb_post 11 json_text).
  destruct (post_server_adds_neighbor pp o bind_ok api req w x Hapi Hi Hport Hself eq_refl Hp)
    as [Hpost _].
  destruct (Hpost eq_refl Hx Hz) as (ok & res & w' & Hok & Hres & Hcode & _ & Hreq & Hcls).
  exists ok, (posted p json_text l), req, res, w'. split; [done|].
  split; [by apply post_url|]. split; [|split; [by left | done]].
  intros c' Hc'. destruct (posted_text p json_text l c' Hc') as [-> Hwf]; [done..|].
  by rewrite (beast_reads _ _ _ _ _ Hwf).
Qed.
End Exchange.

(** ** Evaluated *)

Section Witness.
#[local] Existing Instance toy_uv.
#[local] Existing Instance url_parser.
#[local] Existing Instance bit_codec.
#[local] Existing Instance bit_json.
#[local] Existing Instance merge_StdSort.
#[local] Existing Instance demo_env.

(** The reference reader of [HttpText] reads well-formed requests. *)
Definition reference_beast : Beast := {|
  beast_read s :=
    r ← read_request s;
    Some (mkRequest (m_target r.1) (verb_of (m_method r.1)) 11 (m_body r.1))
|}.
#[local] Existing Instance reference_beast.

Lemma forallb_absent (f : ascii → bool) s a : forallb f s = true → f a = false → a ∉ s.
Proof. rewrite forallb_forall. intros H Ha Hs%list_elem_of_In. rewrite (H a Hs) in Ha. done. Qed.

Lemma framed_length hs b : framed hs b = true → content_length hs = length b.
Proof.
  assert (content_length hs = content_length (filter is_length hs)) as ->.
  { induction hs as [|[k v] hs IH]; [done|]. cbn [content_length].
    destruct (decide (is_length (k, v))) as [H|H].
    - rewrite filter_cons_True by done. cbn [content_length]. by rewrite IH.
    - rewrite filter_cons_False by done. rewrite bool_decide_false; [done|]. by intros ->. }
  unfold framed. destruct (filter is_length hs) as [|[k v] [|]]; [|..|done].
  - intros ->%bool_decide_eq_true. done.
  - rewrite !andb_true_iff, bool_decide_eq_true. intros [[[-> _] _] E%Z.eqb_eq].
    cbn [content_length]. rewrite bool_decide_true by done. rewrite E. apply Nat2Z.id.
Qed.

#[local] Instance reference_beast_laws : BeastLaws reference_beast.
Proof.
  intros m t hs b rest. unfold well_formed, token. rewrite !andb_true_iff.
  intros [[[[[[[_ Hm] _] Ht] Hhs] Hf] _] _]. cbn [beast_read reference_beast].
  unfold request_head. rewrite <- !app_assoc, read_request_text; [done|..].
  - split; by apply (forallb_absent tchar).
  - split; by apply (forallb_absent visible).
  - apply list.Forall_forall. intros kv Hkv. rewrite forallb_forall in Hhs.
    specialize (Hhs kv (proj1 (list_elem_of_In _ _) Hkv)). unfold field_ok, token in Hhs.
    rewrite !andb_true_iff in Hhs. destruct Hhs as [[[[_ Hk] Hv] _] _].
    split_and!; [by apply (forallb_absent tchar).. | by apply (forallb_absent field_char)].
  - by apply framed_length.
Qed.

Lemma client_adds_neighbor_witness :
  ∃ api req res w',
    rest_api true demo_options = Some api ∧
    beast_read (written (request_stream
      (posted (uv := toy_uv) server_url (ServerToJsonString host3) toy_loop0)).2) = Some req ∧
    handleRequest id None api req (Value tt, world_of node_as) =
      Some (finish id res, (Value tt, w')) ∧
    result res = status_created ∧ is_Some (seek host3 (alive_ (server_of w'))).
Proof.
  destruct (client_adds_neighbor (uv := toy_uv) id demo_options true _ server_url host3
    (world_of node_as) toy_loop0 eq_refl)
    as (ok & c & req & res & w' & Hok & _ & Hread & _ & Hres & Hcode & _ & Ha).
  - reflexivity.
  - reflexivity.
  - reflexivity.
  - reflexivity.
  - vm_compute. lia.
  - reflexivity.
  - reflexivity.
  - vm_compute. discriminate.
  - exact (inv_stopped _ _ node_as_inv).
  - discriminate.
  - discriminate.
  - vm_compute in Hok. injection Hok as <-.
    eexists _, req, res, w'. split; [reflexivity|]. split; [apply Hread; left; reflexivity|].
    split; [exact Hres|]. split; [exact Hcode | exact (proj1 Ha)].
Defined.
End Witness.
